(* ===== verification/_CoqProject ===== *)
-Q . S2P
Prelude.v
Frame.v
Tensor.v
TensorMessage.v
TensorRegistry.v
Sha256.v
Integrity.v
Replay.v
Transport.v
Shm.v
ShmPair.v
Time.v
Float64.v
Utf8.v
Json.v
Indent.v
JsonValid.v
Message.v
Codec.v
FloatText.v
Endpoint.v
Heap.v
Router.v
Flags.v
Fmt.v
Capability.v
Auth.v
Keyring.v
AuditLog.v
Policy.v
Broker.v
ServiceRegistry.v
Events.v
CMem.v
CSha256.v
CFrame.v
CTransport.v
CJson.v
EventMaps.v
CFloat.v
CIntent.v
CSocket.v
CEndpoint.v
CEasy.v
Server.v
Client.v
Lifecycle.v
Config.v
Net.v
Encryption.v
Cli.v
