(* ===== verification/Prelude.v ===== *)
(** * eIPC: a verification development

    eIPC is a message-passing system for services on one device: a wire
    protocol of signed frames, transports that carry them, endpoints that sign,
    verify and number messages, security services (authentication,
    capabilities, keys, replay protection, encryption), services built on them
    (policy, broker, registry, health, audit), the programs that use all this,
    and a C SDK that speaks the same protocol.  This library models them
    as executable functions and proves what makes them correct.

    ** Conventions

    A Go integer is a [Z] with its wrap-around written out ([u8] ... [u64],
    [i64]); a byte is [Init.Byte.byte]; a string is [String.string], one
    character per byte; a map is a [gmap].  An operation that changes state or
    fails is of type [M S A], from a state to a result and a state; an error is
    a value of [error] that keeps what [errors.New], [fmt.Errorf] and
    [%w] keep.  Clock readings, random bytes, environment variables and files
    are inputs.  A method that holds a mutex from its first access to its
    return is one step.  Goroutines that share state are steps of an
    interleaving: the theorems quantify over all sequences of them.  What the
    source uses of Go's standard library is modelled: io readers and writers
    ([Prelude]), [Time], [Utf8], [Json] with what its reader gives
    ([JsonValid]), [json.Indent] ([Indent]), package flag ([Flags]), [Fmt],
    [Heap], [Float64], [strconv.ParseFloat] and the shortest decimals of floats
    ([FloatText]), SHA-256 and HMAC ([Sha256]), AES-GCM ([Encryption]),
    [strconv.Atoi], [time.ParseDuration] and [filepath.Clean] ([Config]).
    Operating-system sockets, X.509 and the Unicode table of printable
    characters are type classes with concrete instances in the witnesses.

    ** The parts and their files

    Protocol (src/protocol):
    - [Frame]: frame.go.  [Encode], [Decode], [SignableBytes] over any [Writer]
      and [StreamReader].  Round trip, canonicity, truncation, bounds, and that
      the signed bytes determine the frame.
    - [Tensor], [TensorMessage], [TensorRegistry]: tensor.go, tensor_message.go,
      tensor_registry.go.  Validation against its documentation, with the
      condition under which int64 arithmetic wraps and the limit of 2^62 bytes
      that the documentation does not mention; the codec; the fail-closed
      binding to capabilities; exclusive spans after any session.
    - [Message], [Codec]: header.go, codec.go, and src/core/message.go, types.go,
      errors.go, tensor_message.go.  The codec interface with its law, proved for the JSON
      codec on headers.

    Transports (src/transport):
    - [Transport]: transport.go.  [Channel] and [FrameQueue] are the interface
      the endpoints use; the stream connection implements it.
    - [Shm], [ShmPair]: shm/shm.go.  The ring buffer of bytes refines a bounded
      queue of frames without their MACs, and making it panics only beyond 2^48
      bytes; connections that share two rings refine one queue per direction.
    - [Net]: tcp/tcp.go, tcp/tls_config.go, unix/unix.go, windows/pipe.go; the
      opening of the audit file; the start of the three programs.  When a server
      ends up behind TLS, and one contract for the three transports.

    Core (src/core):
    - [Endpoint]: endpoint.go.  Delivery, authenticity and replay over any
      [FrameQueue] and any lawful [Codec].
    - [Router], [Heap]: router.go with container/heap.
    - [Events], [EventMaps]: events.go and the handshake structs of the
      programs, each an instance of the codec interface with its law; numbers
      are float64 values; what is read can be written and is read back the same; the tool requests of the
      C SDK are read as the requests they are.
    - [Lifecycle]: lifecycle.go.  Back-off in float64, the heartbeat goroutine as
      a step relation, shutdown.

    Security (src/security): [Integrity] (integrity/hmac.go), [Replay]
    (replay/tracker.go, refined to the set of accepted numbers), [Auth]
    (auth/identity.go, with the provenance of every session), [Capability]
    (capability/checker.go), [Keyring] (keyring/keyring.go, with entries shared
    by address), [Encryption] (encryption/aes.go).

    Services (src/services): [AuditLog] (audit; one line per entry even when
    writes fail), [Policy] (policy), [Broker]
    (broker), [ServiceRegistry] (registry, health).  [Config] is src/config.

    Programs:
    - [Server]: cmd/eipc-server/main.go.  [World] is what the handlers share,
      [Conn] a connection with the place its handler is at, [serverStep] one
      event of the server: an accept, a delivery by the network, a
      handler's run from one [Receive] to the next, the handshake's time limit, a
      clean-up.  The theorems hold for every list of events: who is
      served has answered, on this connection, the nonce of a request with its
      HMAC under the key; every action in the audit trail follows the handshake
      of a service with a capability for it, for an intent the permission
      ui.cursor.move whatever its name; connections are bounded, handlers end.
    - [Client]: cmd/eipc-client/main.go, and its whole session with the server.
    - [Cli]: cmd/eipc-cli/main.go and the two programs of examples/hello-eipc.
      [cliMain] is the process from its command line to its output and exit; a
      peer gets the message that the flags describe, in any spelling, and what
      is printed of a JSON payload is the indented layout of its value.

    C SDK (src/sdk/c): [CMem] is memory with bounds, where an access outside an
    array is [None].
    - [CSha256] (eipc_sha256.c, eipc_hmac.c), [CFrame] (eipc_frame.c) and
      [CTransport] (the frames of eipc_transport.c) are memory-safe and agree
      with the Go side.
    - [CJson] (eipc_json.c) agrees on plain headers, and has the cases where it
      does not or goes out of bounds; [CFloat] has the C floats of [CIntent],
      the intents of the same file.
    - [CSocket] is the rest of eipc_transport.c over the socket interface.
    - [CEndpoint]: eipc_client.c and eipc_server.c.  Messages of a session reach
      a Go endpoint and the other way round.
    - [CEasy]: eipc_easy.c against an interface of handles, with its counters
      from the connect or listen on.

    ** Fuel

    Recursion that is not structural takes fuel, and a lemma says that what it is
    given is enough: [readLoop] gets one unit per byte wanted, since a
    [StreamReader] makes progress; [parseValue] two per byte and two more
    ([parseJSON_fuel]); [Heap.down] the length of the heap; [dispatchLoop] the
    number of messages; [sendLoop] and [recvLoop] the number of bytes;
    [durationLoop] the length of the text ([durationLoop_fuel]); [handleConnection]
    and [listenLoop] one per byte in flight and one more
    ([handler_terminates], [listenLoop_ends]), for every larger amount the
    result is the same; [cmdListen] without enough is [Waiting].  [numDigits] has 20, enough for 64 bits; [powLoop] has
    64, one per bit of its exponent; [trimTens] and [numDigits] on the exact
    decimal of a float have [maxDigits], 800, more than the digits it can have,
    and [shortestFrom] one per digit ([float_roundtrip]); [gfMul] has 8, one per bit of its factor.
    [default_backoff] is stated for attempts below 1024, which covers the policy's 10 retries.

    ** Not modelled

    - The lines that the servers and eipc-client log, and the usage texts that
      package flag prints: they do not feed back into the programs.
    - What closing a [net.Conn] does, an argument of the definitions that
      forward to it; the server's model has the effect of closing.
    - The interrupt signal of the server, and a time limit that fires while a
      handler runs between two receives.
    - The inside of crypto/tls, crypto/x509 and of the sockets.
    - src/promo and the tests. *)

From stdpp Require Export base list list_numbers gmap strings numbers option sorting.
From Stdlib Require Export ZArith Lia.
From Stdlib Require Strings.Ascii Strings.String Strings.Byte.

#[global] Set Default Goal Selector "!".

Declare Scope go_scope.
Delimit Scope go_scope with go.

(** ** Bytes, strings and fixed-width integers *)

Abbreviation byte := Init.Byte.byte.

(** The value of a byte, and Go's conversion [byte(z)], which keeps the low
    eight bits. *)
Definition b2z (b : byte) : Z := Z.of_N (Byte.to_N b).

Definition z2b (z : Z) : byte :=
  match Byte.of_N (Z.to_N (z mod 256)) with
  | Some b => b
  | None => Init.Byte.x00
  end.

#[global] Instance byte_eq_dec : EqDecision byte := Byte.byte_eq_dec.

(** A Go string is an immutable byte sequence: [String.string] with one
    [ascii] per byte.  [[]byte(s)] and [string(b)] are the two conversions. *)
Abbreviation bytes_of_string := String.list_byte_of_string.
Abbreviation string_of_bytes := String.string_of_list_byte.

(** [len] of a slice and of a string, as Go's [int]. *)
Definition zlen {A} (l : list A) : Z := Z.of_nat (length l).
Definition slen (s : string) : Z := Z.of_nat (String.length s).

(** Range predicates of the machine types. *)
Definition in_u8 (z : Z) : Prop := (0 <= z < 2 ^ 8)%Z.
Definition in_u16 (z : Z) : Prop := (0 <= z < 2 ^ 16)%Z.
Definition in_u32 (z : Z) : Prop := (0 <= z < 2 ^ 32)%Z.
Definition in_u64 (z : Z) : Prop := (0 <= z < 2 ^ 64)%Z.
Definition in_i64 (z : Z) : Prop := (- 2 ^ 63 <= z < 2 ^ 63)%Z.

(** Conversions that wrap around: [uint16(z)], [uint32(z)], [uint64(z)],
    [int64(z)]. *)
Definition u16 (z : Z) : Z := (z mod 2 ^ 16)%Z.
Definition u32 (z : Z) : Z := (z mod 2 ^ 32)%Z.
Definition u64 (z : Z) : Z := (z mod 2 ^ 64)%Z.
Definition i64 (z : Z) : Z := ((z + 2 ^ 63) mod 2 ^ 64 - 2 ^ 63)%Z.

(** [binary.BigEndian.PutUintN] and [UintN], for [n] bytes. *)
Fixpoint be_put (n : nat) (z : Z) : list byte :=
  match n with
  | O => []
  | S m => z2b (Z.shiftr z (8 * Z.of_nat m)) :: be_put m z
  end.

Fixpoint be_get (bs : list byte) : Z :=
  match bs with
  | [] => 0
  | b :: bs' => b2z b * 2 ^ (8 * zlen bs') + be_get bs'
  end%Z.

(** ** Errors and results *)

(** Operands of a formatting verb. *)
Inductive arg :=
  | ArgStr (s : string)
  | ArgInt (z : Z)
  | ArgStrs (l : list string).

(** An error value: [errors.New msg], [fmt.Errorf format args] without a [%w]
    verb, or [fmt.Errorf] with one: [Wrapf format wrapped args], where [args]
    are the operands of the other verbs. *)
Inductive error :=
  | ErrorNew (msg : string)
  | Errorf (format : string) (args : list arg)
  | Wrapf (format : string) (wrapped : error) (args : list arg).

#[global] Instance arg_eq_dec : EqDecision arg.
Proof. solve_decision. Defined.

#[global] Instance error_eq_dec : EqDecision error.
Proof. solve_decision. Defined.

(** [errors.Is]: the error itself or one it wraps.  The sentinels of the
    source have pairwise distinct texts, so that comparing texts is comparing
    identities. *)
Fixpoint errors_Is (e target : error) : bool :=
  bool_decide (e = target) ||
  match e with
  | Wrapf _ w _ => errors_Is w target
  | _ => false
  end.

Inductive result (A : Type) :=
  | Ok (a : A)
  | Err (e : error).
Arguments Ok {A} a.
Arguments Err {A} e.

Definition is_ok {A} (r : result A) : bool :=
  match r with Ok _ => true | Err _ => false end.

#[global] Instance result_ret : MRet result := fun A a => Ok a.
#[global] Instance result_bind : MBind result :=
  fun A B f r => match r with Ok a => f a | Err e => Err e end.

(** Code that threads a state [S] and may fail; the state survives an error,
    as a partly consumed reader does in the source. *)
Definition M (S A : Type) : Type := S -> result A * S.

#[global] Instance M_ret {S} : MRet (M S) := fun A a s => (Ok a, s).
#[global] Instance M_bind {S} : MBind (M S) :=
  fun A B f m s =>
    match m s with
    | (Ok a, s') => f a s'
    | (Err e, s') => (Err e, s')
    end.

Definition lift {S A} (r : result A) : M S A := fun s => (r, s).

Definition fail {S A} (e : error) : M S A := fun s => (Err e, s).

(** [if err != nil { return fmt.Errorf(format, ..., err) }] *)
Definition wrapfa {S A} (format : string) (args : list arg) (m : M S A) : M S A :=
  fun s =>
    match m s with
    | (Err e, s') => (Err (Wrapf format e args), s')
    | r => r
    end.

Abbreviation wrapf format := (wrapfa format []).

(** [b[i:j]] and [b[i]], within range. *)
Definition slice (i j : nat) (b : list byte) : list byte := take (j - i) (drop i b).

Definition byteAt (i : nat) (b : list byte) : byte := nth i b Init.Byte.x00.

(** ** Readers and writers *)

Definition EOF : error := ErrorNew "EOF".
Definition ErrUnexpectedEOF : error := ErrorNew "unexpected EOF".
Definition ErrNoProgress : error := ErrorNew "multiple Read calls return no data or error".

(** [io.Reader]: [Read n r] is [r.Read(p)] with [len(p) = n]: the bytes it put
    into [p], its error and the reader afterwards. *)
Class Reader (R : Type) := Read : nat -> R -> (list byte * option error) * R.

(** [io.Writer]: [Write p w] is [w.Write(p)]. *)
Class Writer (W : Type) := Write : list byte -> W -> option error * W.

(** The loop of [io.ReadAtLeast(r, buf, len(buf))]. *)
Fixpoint readLoop {R} `{Reader R} (fuel want : nat) (acc : list byte) (r : R)
  : (list byte * option error) * R :=
  match want with
  | O => ((acc, None), r)
  | S _ =>
      match fuel with
      | O => ((acc, Some ErrNoProgress), r)
      | S fuel' =>
          let '((bs, err), r') := Read want r in
          match err with
          | Some e => ((acc ++ bs, Some e), r')
          | None => readLoop fuel' (want - length bs) (acc ++ bs) r'
          end
      end
  end.

(** [io.ReadFull]: all [n] bytes, or [EOF] when none came, or
    [ErrUnexpectedEOF] when the reader ended in between. *)
Definition ReadFull {R} `{Reader R} (n : nat) : M R (list byte) :=
  fun r =>
    let '((bs, err), r') := readLoop n n [] r in
    if (n <=? length bs)%nat then (Ok bs, r')
    else
      match err with
      | Some e =>
          if (1 <=? length bs)%nat && errors_Is e EOF
          then (Err ErrUnexpectedEOF, r') else (Err e, r')
      | None => (Err ErrNoProgress, r')
      end.

Definition WriteAll {W} `{Writer W} (p : list byte) : M W unit :=
  fun w =>
    match Write p w with
    | (None, w') => (Ok tt, w')
    | (Some e, w') => (Err e, w')
    end.

(** ** Tactics *)

(** Case analysis on the scrutinee of a [match] or [if] of the goal or of a
    hypothesis. *)
Ltac case_step :=
  match goal with
  | H : context [ match ?x with _ => _ end ] |- _ =>
      lazymatch x with context [ match _ with _ => _ end ] => fail | _ => idtac end;
      destruct x eqn:?; try discriminate H
  | |- context [ match ?x with _ => _ end ] =>
      lazymatch x with context [ match _ with _ => _ end ] => fail | _ => idtac end;
      destruct x eqn:?
  end.

(** Boolean comparisons of the code turned into propositions. *)
Ltac breflect :=
  repeat match goal with
  | H : (_ && _)%bool = true |- _ => apply andb_true_iff in H as [? ?]
  | H : (_ && _)%bool = false |- _ => apply andb_false_iff in H
  | H : (_ || _)%bool = false |- _ => apply orb_false_iff in H as [? ?]
  | H : (_ || _)%bool = true |- _ => apply orb_true_iff in H
  | H : negb _ = true |- _ => apply negb_true_iff in H
  | H : negb _ = false |- _ => apply negb_false_iff in H
  | H : (_ <? _)%Z = true |- _ => apply Z.ltb_lt in H
  | H : (_ <? _)%Z = false |- _ => apply Z.ltb_ge in H
  | H : (_ <=? _)%Z = true |- _ => apply Z.leb_le in H
  | H : (_ <=? _)%Z = false |- _ => apply Z.leb_gt in H
  | H : (_ =? _)%Z = true |- _ => apply Z.eqb_eq in H
  | H : (_ =? _)%Z = false |- _ => apply Z.eqb_neq in H
  | H : (_ <=? _)%nat = true |- _ => apply Nat.leb_le in H
  | H : (_ <=? _)%nat = false |- _ => apply Nat.leb_gt in H
  | H : String.eqb _ _ = true |- _ => apply String.eqb_eq in H
  | H : String.eqb _ _ = false |- _ => apply String.eqb_neq in H
  | H : bool_decide _ = true |- _ => apply bool_decide_eq_true in H
  | H : bool_decide _ = false |- _ => apply bool_decide_eq_false in H
  end.

(** Rewriting of comparisons whose truth [lia] decides. *)
Ltac zbool :=
  repeat match goal with
  | |- context [ (?a <? ?b)%Z ] =>
      first [ rewrite (proj2 (Z.ltb_lt a b)) by lia | rewrite (proj2 (Z.ltb_ge a b)) by lia ]
  | |- context [ (?a <=? ?b)%Z ] =>
      first [ rewrite (proj2 (Z.leb_le a b)) by lia | rewrite (proj2 (Z.leb_gt a b)) by lia ]
  | |- context [ (?a =? ?b)%Z ] =>
      first [ rewrite (proj2 (Z.eqb_eq a b)) by lia | rewrite (proj2 (Z.eqb_neq a b)) by lia ]
  | |- context [ (?a <=? ?b)%nat ] =>
      first [ rewrite (proj2 (Nat.leb_le a b)) by lia | rewrite (proj2 (Nat.leb_gt a b)) by lia ]
  | |- context [ (?a <? ?b)%nat ] =>
      first [ rewrite (proj2 (Nat.ltb_lt a b)) by lia | rewrite (proj2 (Nat.ltb_ge a b)) by lia ]
  end.

(** Membership of literals in the machine ranges. *)
Ltac solve_ranges :=
  repeat match goal with
  | |- Forall _ [] => constructor
  | |- Forall _ (_ :: _) => constructor
  | |- _ => unfold in_u8, in_u16, in_u32, in_u64, in_i64; simpl; lia
  end.

Create HintDb go.
Create HintDb tracks.

(** ** Bytes and integers *)

Lemma b2z_range b : (0 <= b2z b < 256)%Z.
Proof.
  unfold b2z. pose proof (Byte.to_N_bounded b). lia.
Qed.

Lemma b2z_z2b z : b2z (z2b z) = (z mod 256)%Z.
Proof.
  unfold b2z, z2b. pose proof (Z.mod_pos_bound z 256 ltac:(lia)).
  destruct (Byte.of_N _) as [b|] eqn:E.
  - apply Byte.to_of_N in E. rewrite E. lia.
  - apply Byte.of_N_None_iff in E. lia.
Qed.

Lemma z2b_b2z b : z2b (b2z b) = b.
Proof.
  unfold z2b, b2z. pose proof (Byte.to_N_bounded b).
  rewrite Z.mod_small by lia. by rewrite N2Z.id, Byte.of_to_N.
Qed.

#[global] Instance b2z_inj : Inj (=) (=) b2z.
Proof. intros a b E. by rewrite <-(z2b_b2z a), <-(z2b_b2z b), E. Qed.

Lemma b2z_z2b_small z : in_u8 z -> b2z (z2b z) = z.
Proof. intros [? ?]. rewrite b2z_z2b. apply Z.mod_small. lia. Qed.

Lemma length_be_put n z : length (be_put n z) = n.
Proof. induction n; simpl; congruence. Qed.

Lemma be_get_range bs : (0 <= be_get bs < 2 ^ (8 * zlen bs))%Z.
Proof.
  induction bs as [|b bs IH]; [done|]. cbn [be_get].
  pose proof (b2z_range b).
  replace (8 * zlen (b :: bs))%Z with (8 + 8 * zlen bs)%Z
    by (unfold zlen; simpl length; lia).
  rewrite Z.pow_add_r by (unfold zlen; lia). nia.
Qed.

Lemma be_get_put n z : be_get (be_put n z) = (z mod 2 ^ (8 * Z.of_nat n))%Z.
Proof.
  induction n as [|n IH]; [by rewrite Z.mod_1_r|].
  cbn [be_put be_get]. unfold zlen. rewrite IH, length_be_put, b2z_z2b.
  rewrite Z.shiftr_div_pow2 by lia.
  replace (8 * Z.of_nat (S n))%Z with (8 * Z.of_nat n + 8)%Z by lia.
  rewrite Z.pow_add_r by lia. change (2 ^ 8)%Z with 256%Z.
  rewrite Z.rem_mul_r by lia. lia.
Qed.

Lemma be_get_put_small n z :
  (0 <= z < 2 ^ (8 * Z.of_nat n))%Z -> be_get (be_put n z) = z.
Proof. intros. rewrite be_get_put. by apply Z.mod_small. Qed.

Lemma be_put_mod n z : be_put n (z mod 2 ^ (8 * Z.of_nat n)) = be_put n z.
Proof.
  assert (forall m k, (m <= k)%nat ->
    be_put m (z mod 2 ^ (8 * Z.of_nat k)) = be_put m z) as H; [|by apply H].
  induction m as [|m IH]; intros k Hk; [done|]. cbn [be_put].
  rewrite IH by lia. f_equal. apply (inj b2z). rewrite !b2z_z2b.
  rewrite !Z.shiftr_div_pow2 by lia. change 256%Z with (2 ^ 8)%Z.
  rewrite <-!Z.land_ones, <-!Z.shiftr_div_pow2 by lia.
  apply Z.bits_inj'. intros i Hi. rewrite !Z.land_spec, !Z.shiftr_spec, Z.land_spec by lia.
  rewrite !Z.testbit_ones_nonneg by lia.
  destruct (i <? 8)%Z eqn:E; breflect; [|by rewrite !andb_false_r].
  zbool. by rewrite !andb_true_r.
Qed.

Lemma be_put_get bs : be_put (length bs) (be_get bs) = bs.
Proof.
  induction bs as [|b bs IH]; [done|]. cbn [length be_put be_get].
  pose proof (be_get_range bs) as Hr. unfold zlen in *. f_equal.
  - rewrite Z.shiftr_div_pow2 by lia. rewrite Z.div_add_l by lia.
    rewrite Z.div_small by lia. by rewrite Z.add_0_r, z2b_b2z.
  - rewrite <-(be_put_mod (length bs)). rewrite Z.add_comm, Z_mod_plus_full.
    rewrite Z.mod_small by lia. done.
Qed.

Lemma lor_shiftl a b n : (0 <= n -> 0 <= b < 2 ^ n -> Z.lor (Z.shiftl a n) b = a * 2 ^ n + b)%Z.
Proof.
  intros Hn Hb. rewrite <-Z.add_lor_land, Z.shiftl_mul_pow2 by done.
  assert (Z.land (a * 2 ^ n) b = 0)%Z as ->; [|lia].
  apply Z.bits_inj'. intros k Hk. rewrite Z.land_spec, Z.bits_0.
  destruct (Z.ltb_spec k n).
  - by rewrite Z.mul_pow2_bits_low by lia.
  - rewrite <-(Z.mod_small b (2 ^ n)%Z) by done. by rewrite Z.mod_pow2_bits_high, andb_false_r by lia.
Qed.

Lemma i64_id z : in_i64 z -> i64 z = z.
Proof. unfold in_i64, i64. intros. rewrite Z.mod_small; lia. Qed.

Lemma i64_u64 z : in_i64 z -> i64 (u64 z) = z.
Proof.
  unfold in_i64, i64, u64. intros.
  rewrite Zplus_mod_idemp_l. rewrite Z.mod_small; lia.
Qed.

Lemma u64_id z : in_u64 z -> u64 z = z.
Proof. apply Z.mod_small. Qed.

Lemma u64_range z : in_u64 (u64 z).
Proof. apply Z.mod_pos_bound. lia. Qed.

(** ** Strings *)

Lemma length_bytes_of_string s : length (bytes_of_string s) = String.length s.
Proof.
  unfold bytes_of_string. rewrite length_map.
  induction s; simpl; congruence.
Qed.

Lemma zlen_bytes_of_string s : zlen (bytes_of_string s) = slen s.
Proof. unfold zlen, slen. by rewrite length_bytes_of_string. Qed.

Lemma slen_string_of_bytes bs : slen (string_of_bytes bs) = zlen bs.
Proof. by rewrite <-zlen_bytes_of_string, String.list_byte_of_string_of_list_byte. Qed.

Lemma zlen_nonneg {A} (l : list A) : (0 <= zlen l)%Z.
Proof. unfold zlen. lia. Qed.

Lemma zlen_app {A} (l k : list A) : zlen (l ++ k) = (zlen l + zlen k)%Z.
Proof. unfold zlen. rewrite length_app. lia. Qed.

Lemma zlen_cons {A} (x : A) l : zlen (x :: l) = (zlen l + 1)%Z.
Proof. unfold zlen. simpl. lia. Qed.

Lemma slen_nonneg s : (0 <= slen s)%Z.
Proof. unfold slen. lia. Qed.

#[export] Hint Resolve b2z_range zlen_nonneg slen_nonneg length_be_put : go.

Section Buffers.
Local Open Scope Z_scope.

(** ** Splices of a byte buffer *)

Definition splice (o : nat) (bs b : list byte) : list byte :=
  take o b ++ bs ++ drop (o + length bs) b.

Lemma length_splice o bs b :
  (o + length bs <= length b)%nat -> length (splice o bs b) = length b.
Proof. intros. unfold splice. rewrite !length_app, length_take, length_drop. lia. Qed.

Lemma lookup_splice_out o bs b k :
  (o + length bs <= length b)%nat -> (k < o \/ o + length bs <= k)%nat ->
  splice o bs b !! k = b !! k.
Proof.
  intros Hb [Hk|Hk]; unfold splice.
  - rewrite lookup_app_l by (rewrite length_take; lia). by rewrite lookup_take_lt.
  - rewrite lookup_app_r by (rewrite length_take; lia).
    rewrite lookup_app_r by (rewrite length_take; lia).
    rewrite length_take, lookup_drop. f_equal. lia.
Qed.

Lemma slice_splice_out o bs b i n :
  (o + length bs <= length b)%nat -> (i + n <= o \/ o + length bs <= i)%nat ->
  slice i (i + n) (splice o bs b) = slice i (i + n) b.
Proof.
  intros Hb Hi. unfold slice. apply list_eq. intros j.
  destruct (decide (j < n)%nat).
  - rewrite !lookup_take_lt, !lookup_drop by lia. apply lookup_splice_out; lia.
  - by rewrite !lookup_take_ge by lia.
Qed.

Lemma slice_splice_in o bs b :
  (o + length bs <= length b)%nat -> slice o (o + length bs) (splice o bs b) = bs.
Proof.
  intros. unfold slice, splice. rewrite drop_app_length' by (rewrite length_take; lia).
  by rewrite take_app_length' by lia.
Qed.

(** ** Big-endian words put together by shifts *)

Lemma shiftShort_be a b : Z.lor (Z.shiftl (b2z a) 8) (b2z b) = be_get [a; b].
Proof.
  pose proof (b2z_range b). rewrite lor_shiftl by lia. unfold be_get, zlen. simpl length. lia.
Qed.

Lemma shiftInt_be a b c d :
  Z.lor (Z.lor (Z.lor (Z.shiftl (b2z a) 24) (Z.shiftl (b2z b) 16)) (Z.shiftl (b2z c) 8)) (b2z d) =
  be_get [a; b; c; d].
Proof.
  pose proof (b2z_range b). pose proof (b2z_range c). pose proof (b2z_range d).
  rewrite <-!Z.lor_assoc. rewrite (lor_shiftl (b2z c)) by lia.
  rewrite (lor_shiftl (b2z b)) by lia. rewrite (lor_shiftl (b2z a)) by lia.
  unfold be_get, zlen. simpl length. lia.
Qed.

End Buffers.

(** ** The reader interface *)

(** What a byte stream promises its clients: the bytes still to come, and a
    [Read] that delivers a nonempty part of them or reports [EOF] at the end.
    Short reads are allowed, as for a network connection. *)
Class StreamReader (R : Type) `{Reader R} := {
  content : R -> list byte;
  read_end n r : content r = [] -> Read (S n) r = (([], Some EOF), r);
  read_some n r : content r <> [] ->
    exists bs r', Read (S n) r = ((bs, None), r') /\ content r = bs ++ content r' /\
      (1 <= length bs <= S n)%nat
}.

Section Readers.
Context {R : Type} `{StreamReader R}.

Lemma readLoop_content fuel : forall want acc (r : R),
  (want <= fuel)%nat ->
  exists r', readLoop fuel want acc r =
    ((acc ++ take want (content r),
      if decide (want <= length (content r)) then None else Some EOF), r') /\
    content r' = drop want (content r).
Proof.
  induction fuel as [|fuel IH]; intros want acc r Hf.
  - assert (want = 0%nat) as -> by lia. exists r. cbn [readLoop].
    by rewrite take_0, app_nil_r, decide_True by lia.
  - destruct want as [|want].
    { exists r. cbn [readLoop]. by rewrite take_0, app_nil_r, decide_True by lia. }
    cbn [readLoop]. destruct (decide (content r = [])) as [E|E].
    + rewrite read_end by done. exists r. rewrite E. simpl. done.
    + destruct (read_some want r E) as (bs & r1 & -> & Hc & Hl).
      destruct (IH (S want - length bs)%nat (acc ++ bs) r1) as (r' & -> & Hr'); [lia|].
      exists r'. rewrite Hc, Hr', take_app_ge, drop_app_ge by lia.
      split; [|done]. rewrite <-app_assoc. do 3 f_equal.
      rewrite length_app.
      destruct (decide _), (decide _); try done; lia.
Qed.

(** The outcome of [io.ReadFull] depends on the bytes of the stream alone,
    not on how [Read] cuts them. *)
Lemma ReadFull_ok n (r : R) :
  (n <= length (content r))%nat ->
  exists r', ReadFull n r = (Ok (take n (content r)), r') /\
    content r' = drop n (content r).
Proof.
  intros Hn. unfold ReadFull.
  destruct (readLoop_content n n [] r) as (r' & -> & Hr'); [lia|].
  exists r'. split; [|done]. simpl. rewrite length_take_le by lia. by zbool.
Qed.

Lemma ReadFull_short n (r : R) :
  (length (content r) < n)%nat ->
  exists r', ReadFull n r =
    (Err (if decide (content r = []) then EOF else ErrUnexpectedEOF), r') /\
    content r' = [].
Proof.
  intros Hn. unfold ReadFull.
  destruct (readLoop_content n n [] r) as (r' & -> & Hr'); [lia|].
  exists r'. rewrite Hr', drop_ge by lia. split; [|done].
  rewrite decide_False by lia. simpl app. rewrite take_ge by lia. zbool.
  destruct (content r); by simpl.
Qed.
End Readers.

(** [bytes.Reader], the reader of a byte slice: its state is the unread part. *)
#[global] Instance bytes_Reader : Reader (list byte) :=
  fun n r =>
    match r with
    | [] => (([], Some EOF), [])
    | _ => ((take n r, None), drop n r)
    end.

#[global] Program Instance bytes_StreamReader : StreamReader (list byte) :=
  {| content r := r |}.
Next Obligation. intros n r ->. done. Qed.
Next Obligation.
  intros n [|b r] ?; [done|]. eexists _, _. split; [done|].
  rewrite take_drop, length_take. simpl length. split; [done|lia].
Qed.

Lemma ReadFull_bytes_ok n (l k : list byte) :
  length l = n -> ReadFull n (l ++ k) = (Ok l, k).
Proof.
  intros <-. destruct (ReadFull_ok (length l) (l ++ k)) as (r & -> & Hr).
  - simpl. rewrite length_app. lia.
  - simpl in *. subst. by rewrite take_app_length, drop_app_length.
Qed.

Lemma ReadFull_bytes_short n (l : list byte) :
  (length l < n)%nat ->
  ReadFull n l = (Err (if decide (l = []) then EOF else ErrUnexpectedEOF), []).
Proof.
  intros Hl. destruct (ReadFull_short n l) as (r & -> & Hr); [done|]. by simpl in *; subst.
Qed.

Lemma ReadFull_bytes_inv n (l : list byte) bs k :
  ReadFull n l = (Ok bs, k) -> l = bs ++ k /\ length bs = n.
Proof.
  destruct (decide (n <= length l)%nat) as [Hl|Hl].
  - rewrite <-(take_drop n l) at 1. rewrite ReadFull_bytes_ok by (rewrite length_take; lia).
    intros [= <- <-]. rewrite take_drop, length_take. split; [done|lia].
  - rewrite ReadFull_bytes_short by lia. done.
Qed.

(** A parser over any stream follows the same parser over the stream's bytes:
    how the stream is cut into reads cannot change the outcome. *)
Definition tracks {R} `{StreamReader R} {A} (m : M R A) (p : M (list byte) A) : Prop :=
  forall r, exists r',
    m r = (fst (p (content r)), r') /\ content r' = snd (p (content r)).

Section Tracks.
Context {R : Type} `{StreamReader R}.

Lemma tracks_ret {A} (a : A) : tracks (R := R) (mret a) (mret a).
Proof. intros r. by exists r. Qed.

Lemma tracks_fail {A} e : tracks (R := R) (fail (A := A) e) (fail e).
Proof. intros r. by exists r. Qed.

Lemma tracks_lift {A} (x : result A) : tracks (R := R) (lift x) (lift x).
Proof. intros r. by exists r. Qed.

Lemma tracks_bind {A B} (m : M R A) p (f : A -> M R B) q :
  tracks m p -> (forall a, tracks (f a) (q a)) -> tracks (m ≫= f) (p ≫= q).
Proof.
  intros Hm Hf r. destruct (Hm r) as (r1 & E & Hr1).
  unfold mbind, M_bind. rewrite E. destruct (p (content r)) as [[a|e] l]; simpl in *.
  - destruct (Hf a r1) as (r2 & -> & Hr2). subst. eauto.
  - eauto.
Qed.

Lemma tracks_wrapf {A} s args (m : M R A) p :
  tracks m p -> tracks (wrapfa s args m) (wrapfa s args p).
Proof.
  intros Hm r. destruct (Hm r) as (r1 & E & Hr1).
  unfold wrapfa. rewrite E. destruct (p (content r)) as [[a|e] l]; simpl in *; eauto.
Qed.

Lemma tracks_ReadFull n : tracks (R := R) (ReadFull n) (ReadFull n).
Proof.
  intros r. destruct (decide (n <= length (content r))%nat) as [Hl|Hl].
  - destruct (ReadFull_ok n r) as (r' & -> & Hr'); [lia|]. exists r'.
    assert (ReadFull n (content r) = (Ok (take n (content r)), content r')) as ->; [|done].
    rewrite Hr'. rewrite <-(take_drop n (content r)) at 1.
    apply ReadFull_bytes_ok. rewrite length_take. lia.
  - destruct (ReadFull_short n r) as (r' & -> & Hr'); [lia|]. exists r'.
    by rewrite ReadFull_bytes_short by lia.
Qed.

Lemma tracks_if {A} (b : bool) (m1 m2 : M R A) p1 p2 :
  tracks m1 p1 -> tracks m2 p2 ->
  tracks (if b then m1 else m2) (if b then p1 else p2).
Proof. by destruct b. Qed.
End Tracks.

#[export] Hint Resolve tracks_ret tracks_fail tracks_lift tracks_bind tracks_wrapf
  tracks_ReadFull tracks_if : tracks.

(** A buffer in memory ([bytes.Buffer]) never fails and appends. *)
#[global] Instance bytes_Writer : Writer (list byte) := fun p w => (None, w ++ p).

(** ** Parsers over byte lists: consumption and failure *)

(** [m] takes at most [n] bytes off its input, whatever its outcome. *)
Definition consumes {A} (m : M (list byte) A) (n : Z) : Prop :=
  forall l, exists p, l = p ++ snd (m l) /\ (zlen p <= n)%Z.

(** The only errors of [m] are those of a stream that ended. *)
Definition is_eof (e : error) : bool := errors_Is e EOF || errors_Is e ErrUnexpectedEOF.

Definition eof_only {A} (m : M (list byte) A) : Prop :=
  forall l e k, m l = (Err e, k) -> is_eof e = true.

Section ByteParsers.
Context {A B : Type}.
Implicit Types m : M (list byte) A.

Lemma consumes_ret (a : A) n : (0 <= n)%Z -> consumes (mret a) n.
Proof. intros Hn l. by exists []. Qed.

Lemma consumes_fail e n : (0 <= n)%Z -> consumes (fail (A := A) e) n.
Proof. intros Hn l. by exists []. Qed.

Lemma consumes_wrapf s args m n : consumes m n -> consumes (wrapfa s args m) n.
Proof.
  intros Hm l. destruct (Hm l) as (p & Hl & Hp). exists p. split; [|done].
  rewrite Hl at 1. f_equal. unfold wrapfa. by destruct (m l) as [[]].
Qed.

Lemma consumes_bind m (f : A -> M (list byte) B) n1 n2 :
  (0 <= n2)%Z -> consumes m n1 -> (forall a, consumes (f a) n2) -> consumes (m ≫= f) (n1 + n2).
Proof.
  intros Hn Hm Hf l. destruct (Hm l) as (p & Hl & Hp).
  unfold mbind, M_bind. destruct (m l) as [[a|e] l']; cbn [snd] in *.
  - destruct (Hf a l') as (q & Hl' & Hq). exists (p ++ q). rewrite zlen_app. split; [|lia].
    by rewrite <-app_assoc, <-Hl'.
  - exists p. split; [done|lia].
Qed.

Lemma consumes_mono m n n' : consumes m n -> (n <= n')%Z -> consumes m n'.
Proof. intros Hm Hn l. destruct (Hm l) as (p & Hl & Hp). exists p. split; [done|lia]. Qed.

Lemma eof_only_ret (a : A) : eof_only (mret a).
Proof. intros l e k. done. Qed.

Lemma eof_only_wrapf s args m : eof_only m -> eof_only (wrapfa s args m).
Proof.
  intros Hm l e k. unfold wrapfa. destruct (m l) as [[a|e'] l'] eqn:E; [done|].
  intros [= <- <-]. apply Hm in E. done.
Qed.

Lemma eof_only_bind m (f : A -> M (list byte) B) :
  eof_only m -> (forall a, eof_only (f a)) -> eof_only (m ≫= f).
Proof.
  intros Hm Hf l e k. unfold mbind, M_bind.
  destruct (m l) as [[a|e'] l'] eqn:E; [apply Hf|]. intros [= <- <-]. by eapply Hm.
Qed.
End ByteParsers.

Lemma consumes_ReadFull n : consumes (ReadFull n) (Z.of_nat n).
Proof.
  intros l. destruct (decide (n <= length l)%nat) as [Hl|Hl].
  - exists (take n l). rewrite <-(take_drop n l) at 3.
    rewrite ReadFull_bytes_ok by (rewrite length_take; lia). cbn [snd].
    rewrite take_drop. unfold zlen. rewrite length_take. split; [done|lia].
  - exists l. rewrite ReadFull_bytes_short by lia. cbn [snd].
    rewrite app_nil_r. unfold zlen. split; [done|lia].
Qed.

Lemma eof_only_ReadFull n : eof_only (ReadFull n).
Proof.
  intros l e k. destruct (decide (n <= length l)%nat) as [Hl|Hl].
  - rewrite <-(take_drop n l). by rewrite ReadFull_bytes_ok by (rewrite length_take; lia).
  - rewrite ReadFull_bytes_short by lia. by destruct (decide _); intros [= <- <-].
Qed.

Create HintDb parsers.
#[export] Hint Resolve consumes_ReadFull consumes_wrapf eof_only_ret
  eof_only_wrapf eof_only_bind eof_only_ReadFull : parsers.
