(* ===== verification/Frame.v ===== *)
(** * The wire frame: src/protocol/frame.go

    [Frame] with its [Encode], [Decode] and [SignableBytes], over any writer
    and any stream reader, and the theorems on the wire format: the round trip,
    that the decoder accepts encodings only, that truncation is refused, and
    that the signed bytes determine the frame. *)

From S2P Require Import Prelude.
Local Open Scope Z_scope.

Definition MagicBytes : Z := 0x45495043.
Definition MaxFrameSize : Z := Z.shiftl 1 20.
Definition MACSize : nat := 32.
Definition ProtocolVersion : Z := 1.

Definition ErrBadMagic : error := ErrorNew "eipc: invalid magic bytes".
Definition ErrBadVersion : error := ErrorNew "eipc: unsupported protocol version".
Definition ErrFrameTooLarge : error := ErrorNew "eipc: frame exceeds maximum size".

Definition FlagHMAC : byte := z2b (Z.shiftl 1 0).
Definition FlagCompress : byte := z2b (Z.shiftl 1 1).
Definition FlagEncrypted : byte := z2b (Z.shiftl 1 2).

(** [Version] is a [uint16]; [MsgType] and [Flags] are [uint8]. *)
Record Frame := MkFrame {
  Version : Z;
  MsgType : byte;
  Flags : byte;
  Header : list byte;
  Payload : list byte;
  MAC : list byte
}.

Definition FrameFixedSize : nat := 4 + 2 + 1 + 1 + 4 + 4.

(** [flags & flag != 0] *)
Definition hasFlag (flags flag : byte) : bool := negb (Z.land (b2z flags) (b2z flag) =? 0).

(** The size guard shared by [Encode] and [SignableBytes]. *)
Definition tooLarge (f : Frame) : bool := MaxFrameSize <? zlen (Header f) + zlen (Payload f).

(** The 16 bytes both functions fill with [PutUint32], [PutUint16] and byte
    stores. *)
Definition preamble (f : Frame) : list byte :=
  be_put 4 MagicBytes ++ be_put 2 (Version f) ++ [MsgType f] ++ [Flags f] ++
  be_put 4 (u32 (zlen (Header f))) ++ be_put 4 (u32 (zlen (Payload f))).

Definition Encode {W} `{Writer W} (f : Frame) : M W unit :=
  if tooLarge f then fail ErrFrameTooLarge
  else
    _ ← wrapf "write preamble: %w" (WriteAll (preamble f));
    _ ← wrapf "write header: %w" (WriteAll (Header f));
    _ ← wrapf "write payload: %w" (WriteAll (Payload f));
    if hasFlag (Flags f) FlagHMAC && (length (MAC f) =? MACSize)%nat
    then wrapf "write mac: %w" (WriteAll (MAC f))
    else mret tt.

(** [if n > 0 { buf = make([]byte, n); io.ReadFull(r, buf) }] *)
Definition readPart {R} `{Reader R} (format : string) (n : Z) : M R (list byte) :=
  if 0 <? n then wrapf format (ReadFull (Z.to_nat n)) else mret [].

Definition Decode {R} `{Reader R} : M R Frame :=
  pre ← wrapf "read preamble: %w" (ReadFull FrameFixedSize);
  let magic := be_get (slice 0 4 pre) in
  if negb (magic =? MagicBytes) then fail ErrBadMagic
  else
    let version := be_get (slice 4 6 pre) in
    if negb (version =? ProtocolVersion) then fail ErrBadVersion
    else
      let flags := byteAt 7 pre in
      let headerLen := be_get (slice 8 12 pre) in
      let payloadLen := be_get (slice 12 16 pre) in
      if MaxFrameSize <? headerLen + payloadLen then fail ErrFrameTooLarge
      else
        header ← readPart "read header: %w" headerLen;
        payload ← readPart "read payload: %w" payloadLen;
        mac ← (if hasFlag flags FlagHMAC
               then wrapf "read mac: %w" (ReadFull MACSize) else mret []);
        mret (MkFrame version (byteAt 6 pre) flags header payload mac).

Definition SignableBytes (f : Frame) : list byte :=
  if tooLarge f then [] else preamble f ++ Header f ++ Payload f.

(** ** Specification *)

(** The frames the protocol exchanges: the current version, a body within the
    limit, and a MAC exactly when the flag announces one. *)
Definition wf_frame (f : Frame) : Prop :=
  Version f = ProtocolVersion /\ tooLarge f = false /\
  length (MAC f) = if hasFlag (Flags f) FlagHMAC then MACSize else 0%nat.

(** The wire format of the comment above [Frame]:
    [magic:4][version:2][msg_type:1][flags:1][header_len:4][payload_len:4]
    [header][payload][mac:32?] *)
Definition wire (f : Frame) : list byte :=
  preamble f ++ Header f ++ Payload f ++
  (if hasFlag (Flags f) FlagHMAC && (length (MAC f) =? MACSize)%nat then MAC f else []).

#[global] Instance wf_frame_dec f : Decision (wf_frame f).
Proof. unfold wf_frame. apply _. Defined.

Lemma length_preamble f : length (preamble f) = FrameFixedSize.
Proof. done. Qed.

Lemma not_tooLarge f :
  tooLarge f = false -> 0 <= zlen (Header f) < 2 ^ 32 /\ 0 <= zlen (Payload f) < 2 ^ 32 /\
    zlen (Header f) + zlen (Payload f) <= 2 ^ 20.
Proof.
  unfold tooLarge, MaxFrameSize. rewrite Z.shiftl_mul_pow2 by lia. intros. breflect.
  pose proof (zlen_nonneg (Header f)). pose proof (zlen_nonneg (Payload f)). lia.
Qed.

Lemma be_get_len {A} (l : list A) : 0 <= zlen l < 2 ^ 32 -> be_get (be_put 4 (u32 (zlen l))) = zlen l.
Proof. intros. unfold u32. rewrite Z.mod_small by done. by apply be_get_put_small. Qed.

Lemma Encode_buffer f (w : list byte) :
  tooLarge f = false -> Encode f w = (Ok tt, w ++ wire f).
Proof.
  intros Hs. unfold Encode, wire. rewrite Hs.
  unfold mbind, M_bind, wrapfa, WriteAll, Write, bytes_Writer.
  destruct (hasFlag _ _ && _); unfold mret, M_ret; by rewrite ?app_nil_r, <-!app_assoc.
Qed.

Lemma wire_wf f :
  wf_frame f -> wire f = preamble f ++ Header f ++ Payload f ++ MAC f.
Proof.
  intros (_ & _ & HM). unfold wire. destruct (hasFlag _ _) eqn:E.
  - by rewrite HM.
  - simpl. apply nil_length_inv in HM. by rewrite HM.
Qed.

Lemma Decode_tracks {R} `{StreamReader R} : tracks (R := R) Decode Decode.
Proof.
  unfold Decode, readPart. repeat (intros || apply tracks_bind || apply tracks_if
    || apply tracks_wrapf || apply tracks_fail || apply tracks_ret || apply tracks_ReadFull).
Qed.

(** *** Reading back what was written *)

Lemma readPart_ok s (l k : list byte) :
  readPart s (zlen l) (l ++ k) = (Ok l, k).
Proof.
  unfold readPart, zlen. destruct l as [|b l]; [done|].
  rewrite (proj2 (Z.ltb_lt _ _)) by (simpl; lia).
  unfold wrapfa. rewrite Nat2Z.id, ReadFull_bytes_ok; done.
Qed.

(** The body of the decoder once the preamble has been read. *)
Lemma Decode_preamble f (k : list byte) :
  Version f = ProtocolVersion -> tooLarge f = false ->
  Decode (preamble f ++ k) =
  (header ← readPart "read header: %w" (zlen (Header f));
   payload ← readPart "read payload: %w" (zlen (Payload f));
   mac ← (if hasFlag (Flags f) FlagHMAC
          then wrapf "read mac: %w" (ReadFull MACSize) else mret []);
   mret (MkFrame (Version f) (MsgType f) (Flags f) header payload mac) : M (list byte) Frame) k.
Proof.
  intros Hv Hs. pose proof (not_tooLarge f Hs) as (HH & HP & Hsum).
  unfold Decode at 1. unfold mbind at 1, M_bind at 1. unfold wrapfa at 1.
  rewrite ReadFull_bytes_ok by done.
  change (slice 0 4 (preamble f)) with (be_put 4 MagicBytes).
  change (slice 4 6 (preamble f)) with (be_put 2 (Version f)).
  change (slice 8 12 (preamble f)) with (be_put 4 (u32 (zlen (Header f)))).
  change (slice 12 16 (preamble f)) with (be_put 4 (u32 (zlen (Payload f)))).
  change (byteAt 6 (preamble f)) with (MsgType f).
  change (byteAt 7 (preamble f)) with (Flags f).
  rewrite !be_get_len by lia. rewrite Hv.
  change (be_get (be_put 4 MagicBytes)) with MagicBytes.
  change (be_get (be_put 2 ProtocolVersion)) with ProtocolVersion.
  rewrite !Z.eqb_refl. cbn [negb]. unfold tooLarge in Hs. by rewrite Hs.
Qed.

Lemma Decode_wire f (k : list byte) :
  wf_frame f -> Decode (wire f ++ k) = (Ok f, k).
Proof.
  intros Hf. pose proof Hf as (Hv & Hs & HM). rewrite wire_wf by done.
  rewrite <-!app_assoc, Decode_preamble by done. unfold mbind, M_bind.
  rewrite !readPart_ok. destruct (hasFlag _ _) eqn:E.
  - unfold wrapfa. rewrite ReadFull_bytes_ok by done. by destruct f.
  - apply nil_length_inv in HM. rewrite HM. destruct f; simpl in *. by subst.
Qed.

(** *** Every accepted byte string is an encoding *)

Lemma split_preamble (pre : list byte) :
  length pre = FrameFixedSize ->
  pre = slice 0 4 pre ++ slice 4 6 pre ++ [byteAt 6 pre] ++ [byteAt 7 pre] ++
        slice 8 12 pre ++ slice 12 16 pre.
Proof.
  intros Hl. do 16 (destruct pre as [|? pre]; [done|]). by destruct pre.
Qed.

Lemma readPart_inv s n (l bs k : list byte) :
  0 <= n -> readPart s n l = (Ok bs, k) -> l = bs ++ k /\ zlen bs = n.
Proof.
  unfold readPart. intros Hn. destruct (0 <? n) eqn:E; breflect.
  - unfold wrapfa. destruct (ReadFull _ l) as [[x|?] ?] eqn:E'; [|done].
    intros [= -> ->]. apply ReadFull_bytes_inv in E' as [-> Hl]. split; [done|].
    unfold zlen. lia.
  - intros [= <- <-]. split; [done|]. unfold zlen. simpl. lia.
Qed.

Lemma preamble_of_fields (pre : list byte) f :
  length pre = FrameFixedSize ->
  be_get (slice 0 4 pre) = MagicBytes -> be_get (slice 4 6 pre) = Version f ->
  byteAt 6 pre = MsgType f -> byteAt 7 pre = Flags f ->
  be_get (slice 8 12 pre) = zlen (Header f) -> be_get (slice 12 16 pre) = zlen (Payload f) ->
  preamble f = pre.
Proof.
  intros Hl H1 H2 H3 H4 H5 H6. rewrite (split_preamble pre Hl) at 1. unfold preamble.
  assert (forall i j n, (j - i = n)%nat -> (j <= 16)%nat -> (i <= j)%nat ->
    be_put n (be_get (slice i j pre)) = slice i j pre) as Hs.
  { intros i j n <- Hj Hi.
    replace (j - i)%nat with (length (slice i j pre)) at 1; [apply be_put_get|].
    unfold slice. rewrite length_take, length_drop, Hl. unfold FrameFixedSize. lia. }
  pose proof (be_get_range (slice 8 12 pre)) as R5.
  pose proof (be_get_range (slice 12 16 pre)) as R6.
  assert (forall i j, (j = i + 4)%nat -> (i <= 12)%nat -> zlen (slice i j pre) = 4) as Hz.
  { intros i j -> Hi. unfold zlen, slice. rewrite length_take, length_drop, Hl.
    unfold FrameFixedSize. lia. }
  rewrite Hz in R5, R6 by lia.
  unfold u32. rewrite <-H5, <-H6, !Z.mod_small by lia.
  by rewrite <-H1, <-H2, H3, H4, !Hs by lia.
Qed.

Lemma Decode_inv (l k : list byte) f :
  Decode l = (Ok f, k) -> wf_frame f /\ l = wire f ++ k.
Proof.
  unfold Decode, mbind, M_bind, fail. unfold wrapfa at 1.
  destruct (ReadFull FrameFixedSize l) as [[pre|?] l1] eqn:E1; [|done].
  apply ReadFull_bytes_inv in E1 as [-> Hpre].
  destruct (_ =? MagicBytes) eqn:E2; cbn [negb]; [|done].
  destruct (_ =? ProtocolVersion) eqn:E3; cbn [negb]; [|done].
  destruct (MaxFrameSize <? _) eqn:E4; [done|]. breflect.
  pose proof (be_get_range (slice 8 12 pre)) as R5.
  pose proof (be_get_range (slice 12 16 pre)) as R6.
  destruct (readPart _ _ l1) as [[h|?] l2] eqn:E5; [|done].
  apply readPart_inv in E5 as [-> Hh]; [|lia].
  destruct (readPart _ _ l2) as [[p|?] l3] eqn:E6; [|done].
  apply readPart_inv in E6 as [-> Hp]; [|lia].
  destruct (hasFlag _ _) eqn:E7; unfold wrapfa.
  - destruct (ReadFull MACSize l3) as [[m|?] l4] eqn:E8; [|done].
    apply ReadFull_bytes_inv in E8 as [-> Hm]. intros [= <- <-].
    assert (wf_frame (MkFrame (be_get (slice 4 6 pre)) (byteAt 6 pre) (byteAt 7 pre) h p m)) as Hwf.
    { split; [done|]. split; [|by simpl; rewrite E7]. unfold tooLarge. simpl. by zbool. }
    split; [done|]. rewrite wire_wf by done.
    rewrite (preamble_of_fields pre) by done. by rewrite <-!app_assoc.
  - intros [= <- <-].
    assert (wf_frame (MkFrame (be_get (slice 4 6 pre)) (byteAt 6 pre) (byteAt 7 pre) h p [])) as Hwf.
    { split; [done|]. split; [|by simpl; rewrite E7]. unfold tooLarge. simpl. by zbool. }
    split; [done|]. rewrite wire_wf by done.
    rewrite (preamble_of_fields pre) by done. cbn [Header Payload MAC]. by rewrite app_nil_r, <-!app_assoc.
Qed.

(** *** Truncation, bounds and injectivity *)

Lemma Decode_prefix f (p q : list byte) :
  wf_frame f -> wire f = p ++ q -> q <> [] -> exists e k, Decode p = (Err e, k).
Proof.
  intros Hf Hw Hq. destruct (Decode p) as [[g|e] k] eqn:E; [|eauto]. exfalso.
  apply Decode_inv in E as [Hg ->]. rewrite <-app_assoc in Hw.
  pose proof (Decode_wire f [] Hf) as Hd. rewrite app_nil_r, Hw, Decode_wire in Hd by done.
  simplify_eq. destruct k; destruct q; simpl in *; congruence.
Qed.

Lemma readPart_eof_only s n : eof_only (readPart s n).
Proof. unfold readPart. destruct (0 <? n); auto with parsers. Qed.

#[export] Hint Resolve readPart_eof_only : parsers.

Lemma Decode_prefix_eof f (p q : list byte) e k :
  wf_frame f -> wire f = p ++ q -> Decode p = (Err e, k) -> is_eof e = true.
Proof.
  intros Hf Hw. pose proof Hf as (Hv & Hs & _). rewrite wire_wf in Hw by done.
  destruct (decide (length p < FrameFixedSize)%nat) as [Hl|Hl].
  - unfold Decode, mbind, M_bind. unfold wrapfa at 1. rewrite ReadFull_bytes_short by done.
    by destruct (decide _); intros [= <- <-].
  - apply (f_equal (take FrameFixedSize)) in Hw.
    rewrite take_app_length' in Hw by done.
    rewrite take_app_le in Hw by lia. rewrite <-(take_drop FrameFixedSize p), <-Hw.
    rewrite Decode_preamble by done. apply eof_only_bind; [auto with parsers|].
    intros h. apply eof_only_bind; [auto with parsers|]. intros pl.
    apply eof_only_bind; [|auto with parsers]. destruct (hasFlag _ _); auto with parsers.
Qed.

Lemma readPart_consumes s n : 0 <= n -> consumes (readPart s n) n.
Proof.
  intros Hn. unfold readPart. destruct (0 <? n) eqn:E; breflect.
  - apply consumes_wrapf. pose proof (consumes_ReadFull (Z.to_nat n)) as H.
    by rewrite Z2Nat.id in H.
  - by apply consumes_ret.
Qed.

Lemma Decode_consumes : consumes Decode (16 + (MaxFrameSize + 32)).
Proof.
  assert (0 <= MaxFrameSize) by done.
  apply consumes_bind; [lia|apply consumes_wrapf, (consumes_ReadFull FrameFixedSize)|].
  intros pre. cbv zeta. case_match; [apply consumes_fail; lia|].
  case_match; [apply consumes_fail; lia|].
  destruct (MaxFrameSize <? _) eqn:E; [apply consumes_fail; lia|]. breflect.
  pose proof (be_get_range (slice 8 12 pre)). pose proof (be_get_range (slice 12 16 pre)).
  eapply consumes_mono.
  - apply consumes_bind; [shelve|apply readPart_consumes; lia|]. intros h.
    apply consumes_bind; [shelve|apply readPart_consumes; lia|]. intros p.
    apply (consumes_bind _ _ 32 0); [done| |intros; by apply consumes_ret].
    destruct (hasFlag _ _); [apply consumes_wrapf, (consumes_ReadFull MACSize)|by apply consumes_ret].
  - lia.
    Unshelve.
    + lia.
    + lia.
Qed.

Lemma SignableBytes_inj f g :
  in_u16 (Version f) -> in_u16 (Version g) -> tooLarge f = false ->
  SignableBytes f = SignableBytes g ->
  Version f = Version g /\ MsgType f = MsgType g /\ Flags f = Flags g /\
  Header f = Header g /\ Payload f = Payload g.
Proof.
  intros Vf Vg Hf. unfold SignableBytes. rewrite Hf.
  destruct (tooLarge g) eqn:Hg; [done|]. intros E.
  pose proof (not_tooLarge f Hf) as (HHf & HPf & _).
  pose proof (not_tooLarge g Hg) as (HHg & HPg & _).
  apply app_inj_1 in E as [Ep Eb]; [|done].
  apply app_inj_1 in Ep as [_ Ep]; [|done].
  apply app_inj_1 in Ep as [Ev Ep]; [|done].
  apply app_inj_1 in Ep as [[= Em] Ep]; [|done].
  apply app_inj_1 in Ep as [[= Ef] Ep]; [|done].
  apply (f_equal be_get) in Ev. rewrite !be_get_put_small in Ev by done.
  apply app_inj_1 in Ep as [EH EP]; [|done].
  apply (f_equal be_get) in EH, EP. rewrite !be_get_len in EH, EP by done.
  apply app_inj_1 in Eb as [-> ->]; [|unfold zlen in *; lia]. done.
Qed.

(** ** Properties *)

(** C5: A well-formed frame encodes without error, and decoding from any
    stream that starts with the encoding, however the stream is cut into
    reads, returns the frame and leaves exactly the bytes behind it. *)
Theorem decode_encode {R} `{StreamReader R} (f : Frame) (r : R) (rest : list byte) :
  wf_frame f -> content r = snd (Encode f []) ++ rest ->
  fst (Encode f ([] : list byte)) = Ok tt /\
  exists r', Decode r = (Ok f, r') /\ content r' = rest.
Proof.
  intros Hf Hr. pose proof Hf as (_ & Hs & _). rewrite Encode_buffer in * by done.
  split; [done|]. destruct (Decode_tracks r) as (r' & -> & Hr').
  rewrite Hr in *. cbn [snd app] in *. rewrite Decode_wire in * by done. eauto.
Qed.

Definition sampleFrame : Frame :=
  MkFrame 1 (z2b 105) FlagHMAC [z2b 1; z2b 2] [z2b 3] (replicate 32 (z2b 7)).

Lemma decode_encode_witness :
  wf_frame sampleFrame /\
  exists r' : list byte,
    Decode (snd (Encode sampleFrame []) ++ [z2b 9]) = (Ok sampleFrame, r') /\ content r' = [z2b 9].
Proof.
  assert (wf_frame sampleFrame) as Hf by (repeat split; vm_compute; reflexivity).
  split; [exact Hf|].
  exact (proj2 (decode_encode (R := list byte) sampleFrame
    (snd (Encode sampleFrame []) ++ [z2b 9]) [z2b 9] Hf eq_refl)).
Defined.

(** C8: The decoder accepts encodings only: whatever it accepts is a well-formed
    frame, and the bytes it took from the stream are exactly the frame's
    encoding, so that no two byte strings decode to the same frame. *)
Theorem decode_canonical {R} `{StreamReader R} (r r' : R) (f : Frame) :
  Decode r = (Ok f, r') ->
  wf_frame f /\ content r = snd (Encode f []) ++ content r'.
Proof.
  intros E. destruct (Decode_tracks r) as (r1 & E1 & Hr1). rewrite E in E1.
  destruct (Decode (content r)) as [x k] eqn:Ed. cbn [fst snd] in *. simplify_eq.
  apply Decode_inv in Ed as [Hf Hc]. split; [done|].
  rewrite Encode_buffer by apply Hf. done.
Qed.

Lemma decode_canonical_witness :
  exists f (k : list byte), Decode (snd (Encode sampleFrame []) ++ [z2b 9]) = (Ok f, k) /\
    snd (Encode sampleFrame []) ++ [z2b 9] = snd (Encode f []) ++ k.
Proof.
  assert (Decode (snd (Encode sampleFrame []) ++ [z2b 9]) = (Ok sampleFrame, [z2b 9])) as E
    by (vm_compute; reflexivity).
  exists sampleFrame, [z2b 9]. split; [exact E|].
  exact (proj2 (decode_canonical (R := list byte) _ _ _ E)).
Defined.

(** A stream that ends inside a frame is always reported as an end of
    stream: every proper prefix of a valid encoding is refused with an error
    that wraps [io.EOF] or [io.ErrUnexpectedEOF], never decoded as another
    frame and never blamed on the magic, the version or the size. *)
Theorem decode_truncated {R} `{StreamReader R} (f : Frame) (r : R) (missing : list byte) :
  wf_frame f -> missing <> [] -> content r ++ missing = snd (Encode f []) ->
  exists e r', Decode r = (Err e, r') /\ is_eof e = true.
Proof.
  intros Hf Hm Hr. rewrite Encode_buffer in Hr by apply Hf. cbn [snd app] in Hr.
  destruct (Decode_prefix f (content r) missing) as (e & k & E); [done|done|done|].
  destruct (Decode_tracks r) as (r' & -> & _). rewrite E. exists e, r'.
  split; [done|]. by eapply Decode_prefix_eof.
Qed.

Lemma decode_truncated_witness :
  exists e (k : list byte), Decode (take 20 (snd (Encode sampleFrame []))) = (Err e, k) /\ is_eof e = true.
Proof.
  apply (decode_truncated (R := list byte) sampleFrame _ (drop 20 (snd (Encode sampleFrame []))));
    [repeat split; vm_compute; reflexivity|vm_compute; discriminate|vm_compute; reflexivity].
Defined.

(** C9: Decoding is bounded: whatever the peer sends and whatever the outcome,
    one call takes at most the preamble, [MaxFrameSize] bytes of header and
    payload and the MAC off the stream; the lengths announced by a hostile
    preamble cannot make it read more. *)
Theorem decode_bounded {R} `{StreamReader R} (r : R) :
  exists p, content r = p ++ content (snd (Decode r)) /\ zlen p <= 16 + (MaxFrameSize + 32).
Proof.
  destruct (Decode_tracks r) as (r' & -> & Hr'). cbn [snd]. rewrite Hr'. apply Decode_consumes.
Qed.

(** C10: The bytes under the MAC determine the frame: two frames with the same
    signable bytes, the first within the size limit, agree in version, type,
    flags, header and payload, so that no byte can move between header and
    payload, and no flag can be cleared, without changing what is signed. *)
Theorem signable_injective (f g : Frame) :
  in_u16 (Version f) -> in_u16 (Version g) -> tooLarge f = false ->
  SignableBytes f = SignableBytes g ->
  Version f = Version g /\ MsgType f = MsgType g /\ Flags f = Flags g /\
  Header f = Header g /\ Payload f = Payload g.
Proof. apply SignableBytes_inj. Qed.

Lemma signable_injective_witness :
  SignableBytes sampleFrame = SignableBytes (MkFrame 1 (z2b 105) FlagHMAC [z2b 1; z2b 2] [z2b 3] []) /\
  Payload sampleFrame = [z2b 3].
Proof.
  split; [reflexivity|].
  apply (signable_injective sampleFrame (MkFrame 1 (z2b 105) FlagHMAC [z2b 1; z2b 2] [z2b 3] []));
    vm_compute; repeat split; discriminate || reflexivity.
Defined.

(** The encoder's failure cases: a frame over the limit is refused before
    anything is written, on any writer; and a frame that carries [FlagHMAC]
    but a MAC that is not 32 bytes long is written without any MAC, so that
    its own encoding alone does not decode. *)
Theorem encode_failures (f : Frame) :
  (forall W (HW : Writer W) (w : W),
    tooLarge f = true -> Encode f w = (Err ErrFrameTooLarge, w)) /\
  (Version f = ProtocolVersion -> tooLarge f = false ->
   hasFlag (Flags f) FlagHMAC = true -> length (MAC f) <> MACSize ->
   fst (Encode f ([] : list byte)) = Ok tt /\
   fst (Decode (snd (Encode f ([] : list byte)))) = Err (Wrapf "read mac: %w" EOF [])).
Proof.
  split.
  - intros W HW w Hs. unfold Encode. by rewrite Hs.
  - intros Hv Hs Hh HM. rewrite Encode_buffer by done. split; [done|].
    unfold wire. rewrite Hh, (proj2 (Nat.eqb_neq _ _)) by done. cbn [snd app andb].
    rewrite Decode_preamble by done. unfold mbind, M_bind.
    by rewrite !readPart_ok, Hh.
Qed.

Lemma encode_failures_witness :
  let f := MkFrame 1 (z2b 105) FlagHMAC [z2b 1] [] [] in
  fst (Decode (snd (Encode f ([] : list byte)))) = Err (Wrapf "read mac: %w" EOF []).
Proof.
  intros f. apply (encode_failures f); vm_compute; congruence || reflexivity.
Defined.
