(* ===== verification/Tensor.v ===== *)
(** * Tensor descriptors: src/protocol/tensor.go

    [TensorDescriptor] with [Validate], its binary codec and the digest checks.
    The theorems: the codec round trip and its converse, and what [Validate]
    guarantees about the memory a consumer will touch, including the exact
    condition under which its [int64] arithmetic wraps around. *)

From S2P Require Import Prelude.
Local Open Scope Z_scope.

Abbreviation TensorDtype := byte.

Definition TensorF32 : TensorDtype := z2b 0.
Definition TensorF16 : TensorDtype := z2b 1.
Definition TensorBF16 : TensorDtype := z2b 2.
Definition TensorINT8 : TensorDtype := z2b 3.
Definition TensorINT4 : TensorDtype := z2b 4.
Definition TensorQ4_0 : TensorDtype := z2b 5.
Definition TensorQ8_0 : TensorDtype := z2b 7.

Definition MaxTensorDims : Z := 8.
Definition MaxTensorShmNameLen : Z := 256.
Definition MaxTensorCaps : Z := 32.
Definition MaxTensorCapLen : Z := 128.
Definition MaxTensorDigestLen : Z := 128.

Definition dtypeBytes (t : TensorDtype) : Z :=
  if bool_decide (t = TensorF32) then 4
  else if bool_decide (t = TensorF16 \/ t = TensorBF16) then 2
  else if bool_decide (t = TensorINT8 \/ t = TensorINT4 \/ t = TensorQ4_0 \/ t = TensorQ8_0) then 1
  else 0.

(** [Shape] and [Strides] hold [int64]s, [Offset] and [Size] are [uint64]s. *)
Record TensorDescriptor := MkTensor {
  Dtype : TensorDtype;
  Shape : list Z;
  Strides : list Z;
  ShmName : string;
  Offset : Z;
  Size : Z;
  Capabilities : list string;
  ModelDigest : string
}.

#[global] Instance TensorDescriptor_eq_dec : EqDecision TensorDescriptor.
Proof. solve_decision. Defined.

Definition ErrTensorDtype := ErrorNew "eipc: unknown tensor dtype".
Definition ErrTensorDims := ErrorNew "eipc: invalid tensor dimensions".
Definition ErrTensorStrides := ErrorNew "eipc: strides inconsistent with shape/size".
Definition ErrTensorShmName := ErrorNew "eipc: shm segment name missing for nonzero tensor size".
Definition ErrTensorDigest := ErrorNew "eipc: model digest is not a valid sha256".
Definition ErrTensorCaps := ErrorNew "eipc: too many or oversized capability claims".
Definition ErrTensorTooLarge := ErrorNew "eipc: tensor descriptor exceeds decode bounds".
Definition ErrTensorAlign := ErrorNew "eipc: tensor offset not aligned to dtype".
Definition ErrTensorOverlap := ErrorNew "eipc: tensor span overlaps a registered span".

(** ** Validation *)

(** [for i, dim := range d.Shape { if dim <= 0 { return ... } }] *)
Fixpoint checkDims (i : Z) (shape : list Z) : option error :=
  match shape with
  | [] => None
  | dim :: shape' =>
      if dim <=? 0
      then Some (Wrapf "%w: shape[%d]=%d (zero or negative dim)" ErrTensorDims [ArgInt i; ArgInt dim])
      else checkDims (i + 1) shape'
  end.

(** The loop that accumulates [extent], with [int64] arithmetic. *)
Fixpoint extentLoop (elem i : Z) (shape strides : list Z) (extent : Z) : result Z :=
  match shape, strides with
  | d :: shape', s :: strides' =>
      if s <? 0
      then Err (Wrapf "%w: strides[%d]=%d (negative stride)" ErrTensorStrides [ArgInt i; ArgInt s])
      else if (0 <? i64 (d - 1)) && (Z.quot (Z.shiftl 1 62) (i64 (d - 1)) <? s)
      then Err (Wrapf "%w: strides[%d] overflows extent" ErrTensorStrides [ArgInt i])
      else
        let extent' := i64 (extent + i64 (i64 (d - 1) * s)) in
        if Z.quot (Z.shiftl 1 62) elem <? extent'
        then Err (Wrapf "%w: footprint overflows int64" ErrTensorStrides [])
        else extentLoop elem (i + 1) shape' strides' extent'
  | _, _ => Ok extent
  end.

Fixpoint checkCaps (i : Z) (caps : list string) : option error :=
  match caps with
  | [] => None
  | c :: caps' =>
      if String.eqb c "" || (MaxTensorCapLen <? slen c)
      then Some (Wrapf "%w: capability[%d]" ErrTensorCaps [ArgInt i])
      else checkCaps (i + 1) caps'
  end.

Definition isHexDigit (b : byte) : bool :=
  let c := b2z b in
  ((48 <=? c) && (c <=? 57)) || ((97 <=? c) && (c <=? 102)) || ((65 <=? c) && (c <=? 70)).

Definition isSHA256Hex (s : string) : bool :=
  if negb (slen s =? 64) then false else forallb isHexDigit (bytes_of_string s).

Definition isSHA256Prefixed (s : string) : bool :=
  let prefix := "sha256:"%string in
  (slen s =? slen prefix + 64) &&
  String.eqb (String.substring 0 7 s) prefix &&
  isSHA256Hex (String.substring 7 (String.length s - 7) s).

Definition Validate (d : TensorDescriptor) : option error :=
  if dtypeBytes (Dtype d) =? 0
  then Some (Wrapf "%w: %d" ErrTensorDtype [ArgInt (b2z (Dtype d))])
  else
  let ndim := zlen (Shape d) in
  if (ndim =? 0) || (MaxTensorDims <? ndim)
  then Some (Wrapf "%w: ndim=%d" ErrTensorDims [ArgInt ndim])
  else
  match checkDims 0 (Shape d) with
  | Some e => Some e
  | None =>
  if negb (zlen (Strides d) =? ndim)
  then Some (Wrapf "%w: %d strides for %d dims" ErrTensorStrides [ArgInt (zlen (Strides d)); ArgInt ndim])
  else
  let elem := dtypeBytes (Dtype d) in
  match extentLoop elem 0 (Shape d) (Strides d) 1 with
  | Err e => Some e
  | Ok extent =>
  let footprint := u64 (u64 extent * u64 elem) in
  if negb (Z.rem (Offset d) (u64 elem) =? 0)
  then Some (Wrapf "%w: offset %d for %d-byte dtype" ErrTensorAlign [ArgInt (Offset d); ArgInt elem])
  else if u64 (2 ^ 64 - 1 - Size d) <? Offset d
  then Some (Wrapf "%w: offset %d + size %d overflows uint64" ErrTensorStrides [ArgInt (Offset d); ArgInt (Size d)])
  else if Size d <? footprint
  then Some (Wrapf "%w: size %d < footprint %d" ErrTensorStrides [ArgInt (Size d); ArgInt footprint])
  else if (0 <? Size d) && String.eqb (ShmName d) ""
  then Some ErrTensorShmName
  else if MaxTensorShmNameLen <? slen (ShmName d)
  then Some (Wrapf "%w: %d bytes" ErrTensorShmName [ArgInt (slen (ShmName d))])
  else if MaxTensorCaps <? zlen (Capabilities d)
  then Some (Wrapf "%w: %d claims" ErrTensorCaps [ArgInt (zlen (Capabilities d))])
  else
  match checkCaps 0 (Capabilities d) with
  | Some e => Some e
  | None =>
  if negb (String.eqb (ModelDigest d) "") && negb (isSHA256Hex (ModelDigest d)) &&
     negb (isSHA256Prefixed (ModelDigest d))
  then Some ErrTensorDigest
  else None
  end end end.

(** ** The binary codec *)

Definition appendStringField (buf : list byte) (s : string) : list byte :=
  buf ++ be_put 2 (u16 (slen s)) ++ bytes_of_string s.

Definition appendInt64s (buf : list byte) (vs : list Z) : list byte :=
  fold_left (fun b v => b ++ be_put 8 (u64 v)) vs buf.

Definition Encode {W} `{Writer W} (d : TensorDescriptor) : M W unit :=
  let ndim := zlen (Shape d) in
  if (ndim =? 0) || (MaxTensorDims <? ndim)
  then fail (Wrapf "%w: ndim=%d" ErrTensorDims [ArgInt ndim])
  else if negb (zlen (Strides d) =? ndim)
  then fail (Wrapf "%w: %d strides for %d dims" ErrTensorStrides [ArgInt (zlen (Strides d)); ArgInt ndim])
  else
    let buf := [Dtype d; z2b ndim] in
    let buf := appendInt64s buf (Shape d) in
    let buf := appendInt64s buf (Strides d) in
    let buf := appendStringField buf (ShmName d) in
    let buf := buf ++ be_put 8 (Offset d) in
    let buf := buf ++ be_put 8 (Size d) in
    if MaxTensorCaps <? zlen (Capabilities d)
    then fail (Wrapf "%w: %d claims" ErrTensorCaps [ArgInt (zlen (Capabilities d))])
    else
      let buf := buf ++ be_put 2 (u16 (zlen (Capabilities d))) in
      let buf := fold_left appendStringField (Capabilities d) buf in
      let buf := appendStringField buf (ModelDigest d) in
      WriteAll buf.

Section Decoder.
Context {R : Type} `{Reader R}.

Definition readInt64s (n : nat) : M R (list Z) :=
  raw ← ReadFull (n * 8);
  mret ((fun i => i64 (be_get (slice (i * 8) ((i + 1) * 8) raw))) <$> seq 0 n).

Definition readStringField (max : Z) (what : string) : M R string :=
  ln ← wrapfa "read %s length: %w" [ArgStr what] (ReadFull 2);
  let n := be_get ln in
  if max <? n then fail (Wrapf "%w: %s length %d" ErrTensorTooLarge [ArgStr what; ArgInt n])
  else if n =? 0 then mret ""%string
  else
    buf ← wrapfa "read %s: %w" [ArgStr what] (ReadFull (Z.to_nat n));
    mret (string_of_bytes buf).

Fixpoint readCaps (ncap : nat) : M R (list string) :=
  match ncap with
  | O => mret []
  | S ncap' =>
      c ← readStringField MaxTensorCapLen "capability";
      cs ← readCaps ncap';
      mret (c :: cs)
  end.

Definition DecodeTensor : M R TensorDescriptor :=
  head ← wrapf "read dtype/ndim: %w" (ReadFull 2);
  let ndim := b2z (byteAt 1 head) in
  if (ndim =? 0) || (MaxTensorDims <? ndim)
  then fail (Wrapf "%w: ndim=%d" ErrTensorTooLarge [ArgInt ndim])
  else
    shape ← wrapf "read shape: %w" (readInt64s (Z.to_nat ndim));
    strides ← wrapf "read strides: %w" (readInt64s (Z.to_nat ndim));
    shmName ← readStringField MaxTensorShmNameLen "shm_name";
    offSize ← wrapf "read offset/size: %w" (ReadFull 16);
    ncapBuf ← wrapf "read capability count: %w" (ReadFull 2);
    let ncap := be_get ncapBuf in
    if MaxTensorCaps <? ncap
    then fail (Wrapf "%w: %d capabilities" ErrTensorTooLarge [ArgInt ncap])
    else
      caps ← readCaps (Z.to_nat ncap);
      digest ← readStringField MaxTensorDigestLen "model_digest";
      mret (MkTensor (byteAt 0 head) shape strides shmName
        (be_get (slice 0 8 offSize)) (be_get (slice 8 16 offSize)) caps digest).

End Decoder.

(** ** Specification of validity *)

(** The element indices a tensor spans, beyond the first:
    [Σ (shape[i]-1) * strides[i]], in unbounded integers. *)
Fixpoint span (shape strides : list Z) : Z :=
  match shape, strides with
  | d :: shape', s :: strides' => (d - 1) * s + span shape' strides'
  | _, _ => 0
  end.

(** The footprint of the comment above [Validate]. *)
Definition footprint (d : TensorDescriptor) : Z :=
  (1 + span (Shape d) (Strides d)) * dtypeBytes (Dtype d).

(** The byte address of the element with the given indices. *)
Fixpoint element (idx strides : list Z) : Z :=
  match idx, strides with
  | i :: idx', s :: strides' => i * s + element idx' strides'
  | _, _ => 0
  end.

Definition address (d : TensorDescriptor) (idx : list Z) : Z :=
  Offset d + element idx (Strides d) * dtypeBytes (Dtype d).

(** The Go types of the fields. *)
Definition typed (d : TensorDescriptor) : Prop :=
  Forall in_i64 (Shape d) /\ Forall in_i64 (Strides d) /\ in_u64 (Offset d) /\ in_u64 (Size d).

(** The descriptors on which the [int64] sum cannot wrap around: every dtype
    but the one-byte ones, and those whose terms are not exactly [2^62]. *)
Definition no_wrap (d : TensorDescriptor) : Prop :=
  dtypeBytes (Dtype d) <> 1 \/
  Forall2 (fun n s => (n - 1) * s <> 2 ^ 62) (Shape d) (Strides d).

(** What the documentation of [Validate] and of the bounds asks of a
    descriptor.  The code asks one thing more: see [guarded]. *)
Record valid (d : TensorDescriptor) : Prop := Valid {
  valid_dtype : dtypeBytes (Dtype d) <> 0;
  valid_ndim : 1 <= zlen (Shape d) <= MaxTensorDims;
  valid_dims : Forall (fun n => 0 < n) (Shape d);
  valid_nstrides : length (Strides d) = length (Shape d);
  valid_strides : Forall (fun s => 0 <= s) (Strides d);
  valid_align : (dtypeBytes (Dtype d) | Offset d);
  valid_end : Offset d + Size d < 2 ^ 64;
  valid_size : footprint d <= Size d;
  valid_name : ShmName d <> ""%string /\ slen (ShmName d) <= MaxTensorShmNameLen;
  valid_ncaps : zlen (Capabilities d) <= MaxTensorCaps;
  valid_caps : Forall (fun c => c <> ""%string /\ slen c <= MaxTensorCapLen) (Capabilities d);
  valid_digest : ModelDigest d = ""%string \/
    isSHA256Hex (ModelDigest d) = true \/ isSHA256Prefixed (ModelDigest d) = true
}.

(** The guard of the extent loop: footprints above 2^62 bytes are refused,
    although a [Size] can cover twice as much and more. *)
Definition guarded (d : TensorDescriptor) : Prop := footprint d <= 2 ^ 62.

(** *** The extent loop *)

Lemma dtypeBytes_cases t :
  dtypeBytes t = 0 \/ dtypeBytes t = 1 \/ dtypeBytes t = 2 \/ dtypeBytes t = 4.
Proof. unfold dtypeBytes. repeat case_bool_decide; tauto. Qed.

Lemma span_nonneg shape : forall strides,
  Forall (fun n => 0 < n) shape -> Forall (fun s => 0 <= s) strides -> 0 <= span shape strides.
Proof.
  induction shape as [|n shape IH]; intros [|s strides] Hn Hs; cbn [span]; [lia..|].
  apply Forall_cons in Hn as [? ?], Hs as [? ?].
  specialize (IH strides ltac:(done) ltac:(done)). nia.
Qed.

Lemma checkDims_None shape : forall i,
  checkDims i shape = None <-> Forall (fun n => 0 < n) shape.
Proof.
  induction shape as [|n shape IH]; intros i; cbn [checkDims].
  - by split.
  - destruct (n <=? 0) eqn:E; breflect.
    + split; [done|]. inversion 1; lia.
    + rewrite IH, Forall_cons. intuition lia.
Qed.

Lemma checkCaps_None caps : forall i,
  checkCaps i caps = None <->
  Forall (fun c => c <> ""%string /\ slen c <= MaxTensorCapLen) caps.
Proof.
  induction caps as [|c caps IH]; intros i; cbn [checkCaps].
  - by split.
  - rewrite Forall_cons, <-(IH (i + 1)).
    destruct (String.eqb c "") eqn:E; [breflect; subst; cbn [orb]; split; [done|tauto]|].
    destruct (MaxTensorCapLen <? slen c) eqn:E'; breflect; cbn [orb].
    + split; [done|lia].
    + tauto.
Qed.

(** One iteration's multiplication guard is exact. *)
Lemma guard_exact n s :
  0 <= n -> 0 <= s ->
  (0 <? n) && (Z.quot (Z.shiftl 1 62) n <? s) = true <-> 2 ^ 62 < n * s.
Proof.
  intros Hn Hs. rewrite Z.shiftl_mul_pow2, Z.mul_1_l by lia.
  destruct (0 <? n) eqn:E; breflect; cbn [andb].
  - rewrite Z.quot_div_nonneg, Z.ltb_lt by lia. split; intros H.
    + apply Z.nle_gt. intros C. apply (Z.lt_irrefl s).
      eapply Z.le_lt_trans; [|exact H]. apply Z.div_le_lower_bound; lia.
    + apply Z.div_lt_upper_bound; lia.
  - assert (n = 0) as -> by lia. split; [done|lia].
Qed.

Lemma extentLoop_spec elem shape :
  (elem = 1 \/ elem = 2 \/ elem = 4) ->
  forall strides i e e',
    length strides = length shape ->
    Forall in_i64 shape -> Forall in_i64 strides -> Forall (fun n => 0 < n) shape ->
    (elem <> 1 \/ Forall2 (fun n s => (n - 1) * s <> 2 ^ 62) shape strides) ->
    1 <= e -> e * elem <= 2 ^ 62 ->
    extentLoop elem i shape strides e = Ok e' <->
    Forall (fun s => 0 <= s) strides /\ e' = e + span shape strides /\ e' * elem <= 2 ^ 62.
Proof.
  intros Helem. induction shape as [|n shape IH]; intros [|s strides] i e e' Hl Hn Hs Hp Hw He Hm;
    try done; cbn [extentLoop span].
  { split; [intros [= <-]; split; [constructor|lia]|]. intros (_ & -> & _). f_equal; lia. }
  simpl in Hl. apply Forall_cons in Hn as [Hn0 Hn], Hs as [Hs0 Hs], Hp as [Hp0 Hp].
  assert (elem <> 1 \/ (n - 1) * s <> 2 ^ 62) as Hw0.
  { destruct Hw as [?|Hw]; [by left|]. right. by inversion Hw. }
  assert (elem <> 1 \/ Forall2 (fun n s => (n - 1) * s <> 2 ^ 62) shape strides) as Hw'.
  { destruct Hw as [?|Hw]; [by left|]. right. by inversion Hw. }
  clear Hw. rewrite Forall_cons.
  destruct (s <? 0) eqn:Es; breflect; [split; [done|lia]|].
  rewrite (i64_id (n - 1)) by (unfold in_i64 in *; lia).
  destruct ((0 <? n - 1) && (Z.quot (Z.shiftl 1 62) (n - 1) <? s)) eqn:Eg.
  { apply guard_exact in Eg; [|lia..]. split; [done|]. intros ((_ & Hs') & -> & Hle).
    pose proof (span_nonneg shape strides Hp Hs'). destruct Helem as [-> | [-> | ->]]; lia. }
  assert (0 <= (n - 1) * s <= 2 ^ 62) as Hp1.
  { split; [nia|]. apply Z.nlt_ge. rewrite <-guard_exact by lia. by rewrite Eg. }
  clear Eg. set (p := (n - 1) * s) in *.
  rewrite (i64_id p) by (unfold in_i64; lia).
  rewrite (i64_id (e + _)) by (unfold in_i64; destruct Helem as [-> | [-> | ->]]; lia).
  rewrite Z.shiftl_mul_pow2, Z.mul_1_l, Z.quot_div_nonneg by lia.
  assert (2 ^ 62 / elem * elem = 2 ^ 62) as Hdiv by (by destruct Helem as [-> | [-> | ->]]).
  set (q := 2 ^ 62 / elem) in *. clearbody p q.
  destruct (q <? e + p) eqn:Ec; breflect.
  { split; [done|]. intros ((_ & Hs') & -> & Hle).
    pose proof (span_nonneg shape strides Hp Hs'). destruct Helem as [-> | [-> | ->]]; lia. }
  rewrite IH; [|lia|done..|lia|destruct Helem as [-> | [-> | ->]]; lia].
  rewrite Z.add_assoc. tauto.
Qed.

(** *** [Validate] decides validity *)

Lemma elem_cases d :
  dtypeBytes (Dtype d) <> 0 ->
  dtypeBytes (Dtype d) = 1 \/ dtypeBytes (Dtype d) = 2 \/ dtypeBytes (Dtype d) = 4.
Proof. destruct (dtypeBytes_cases (Dtype d)); tauto. Qed.

Lemma extent_spec d e :
  typed d -> no_wrap d -> dtypeBytes (Dtype d) <> 0 ->
  length (Strides d) = length (Shape d) -> Forall (fun n => 0 < n) (Shape d) ->
  extentLoop (dtypeBytes (Dtype d)) 0 (Shape d) (Strides d) 1 = Ok e <->
  Forall (fun s => 0 <= s) (Strides d) /\ e = 1 + span (Shape d) (Strides d) /\
  footprint d <= 2 ^ 62.
Proof.
  intros (HS & HT & _) Hw Hd Hl Hp. pose proof (elem_cases d Hd).
  rewrite extentLoop_spec by (done || lia). unfold footprint.
  split; intros (? & -> & ?); done.
Qed.

Lemma footprint_u64 d e :
  dtypeBytes (Dtype d) <> 0 -> Forall (fun n => 0 < n) (Shape d) ->
  Forall (fun s => 0 <= s) (Strides d) -> footprint d <= 2 ^ 62 ->
  e = 1 + span (Shape d) (Strides d) ->
  u64 (u64 e * u64 (dtypeBytes (Dtype d))) = footprint d /\ 0 < footprint d.
Proof.
  intros Hd Hp Hs Hf ->. pose proof (span_nonneg _ _ Hp Hs) as Hn. unfold footprint in *.
  assert (0 < 1 + span (Shape d) (Strides d)) as Hx by lia. clear Hn.
  set (x := 1 + span _ _) in *. clearbody x.
  destruct (elem_cases d Hd) as [E | [E | E]]; rewrite E in *;
    rewrite (u64_id x), (u64_id (Zpos _)), u64_id; unfold in_u64; lia.
Qed.

Lemma digest_cond s :
  negb (String.eqb s "") && negb (isSHA256Hex s) && negb (isSHA256Prefixed s) = false <->
  s = ""%string \/ isSHA256Hex s = true \/ isSHA256Prefixed s = true.
Proof.
  rewrite !andb_false_iff, !negb_false_iff, String.eqb_eq. tauto.
Qed.

Lemma Validate_sound d :
  typed d -> no_wrap d -> Validate d = None -> valid d /\ guarded d.
Proof.
  intros Ht Hw. pose proof Ht as (_ & _ & HO & HS). unfold in_u64 in *.
  unfold Validate. intros Hv.
  destruct (_ =? 0) eqn:E1 in Hv; [done|]. destruct (_ || _) eqn:E2 in Hv; [done|].
  destruct (checkDims _ _) eqn:E3 in Hv; [done|]. apply checkDims_None in E3.
  destruct (zlen (Strides d) =? _) eqn:E4 in Hv; [|done]. cbn [negb] in Hv. breflect.
  assert (length (Strides d) = length (Shape d)) as Hl by (unfold zlen in *; lia).
  destruct (extentLoop _ _ _ _ _) as [e|] eqn:E5; [|done].
  apply extent_spec in E5 as (Hs & He & Hf); [|done..].
  destruct (footprint_u64 d e) as [Hfp Hpos]; [done..|]. rewrite Hfp in Hv.
  destruct (Z.rem _ _ =? 0) eqn:E6 in Hv; [|done].
  destruct (_ <? Offset d) eqn:E7; [done|]. destruct (Size d <? _) eqn:E8; [done|].
  destruct (_ && _) eqn:E9 in Hv; [done|]. destruct (_ <? slen _) eqn:E10; [done|].
  destruct (_ <? zlen (Capabilities d)) eqn:E11; [done|].
  destruct (checkCaps _ _) eqn:E12; [done|]. apply checkCaps_None in E12.
  destruct (_ && _ && _) eqn:E13 in Hv; [done|]. apply digest_cond in E13.
  cbn [negb] in *. rewrite u64_id in E7 by (unfold in_u64; lia). breflect.
  pose proof (elem_cases d ltac:(done)) as Hc.
  split; [|done]. constructor; try done.
  - unfold zlen, MaxTensorDims in *. lia.
  - apply Z.rem_divide in E6; rewrite ?(u64_id (dtypeBytes _)) in *;
      unfold in_u64; [done|lia..].
  - lia.
  - split; [|done]. destruct E9; breflect; [lia|done].
Qed.

Lemma Validate_complete d :
  typed d -> no_wrap d -> valid d -> guarded d -> Validate d = None.
Proof.
  intros Ht Hw [H1 H2 H3 H4 H5 H7 H8 H9 [H10 H10'] H11 H12 H13] H6. unfold guarded in H6.
  pose proof Ht as (_ & _ & HO & HS). unfold in_u64 in *. unfold Validate.
  pose proof (elem_cases d H1) as Hc.
  rewrite (proj2 (Z.eqb_neq _ _)) by done.
  rewrite (proj2 (orb_false_iff _ _)) by (split; zbool; lia || done).
  rewrite (proj2 (checkDims_None _ _)) by done.
  unfold zlen at 1 2. rewrite H4, Z.eqb_refl. cbn [negb].
  rewrite (proj2 (extent_spec d _ Ht Hw H1 H4 H3)) by done.
  destruct (footprint_u64 d (1 + span (Shape d) (Strides d))) as [-> Hpos]; [done..|].
  apply Z.rem_divide in H7; [|lia]. rewrite (u64_id (dtypeBytes _)), H7 by (unfold in_u64; lia).
  rewrite u64_id by (unfold in_u64; lia). cbn [Z.eqb negb].
  apply String.eqb_neq in H10. rewrite H10, andb_false_r.
  unfold MaxTensorShmNameLen, MaxTensorCaps in *. zbool.
  rewrite (proj2 (checkCaps_None _ _)) by done. by rewrite (proj2 (digest_cond _)).
Qed.

(** *** Addresses of elements *)

Lemma element_bound shape : forall strides idx,
  length strides = length shape -> Forall (fun s => 0 <= s) strides ->
  Forall2 (fun i n => 0 <= i < n) idx shape ->
  0 <= element idx strides <= span shape strides.
Proof.
  induction shape as [|n shape IH]; intros [|s strides] idx Hl Hs Hi; try done;
    inversion Hi as [|i n' idx' shape' Hi0 Hi']; subst; cbn [element span]; [lia|].
  apply Forall_cons in Hs as [Hs0 Hs].
  specialize (IH strides idx' ltac:(simpl in Hl; lia) Hs Hi'). nia.
Qed.

(** ** The wire format *)

Definition int64s (vs : list Z) : list byte := concat ((fun v => be_put 8 (u64 v)) <$> vs).

Definition stringField (s : string) : list byte := be_put 2 (u16 (slen s)) ++ bytes_of_string s.

(** The layout documented above [TensorDescriptor]. *)
Definition wire (d : TensorDescriptor) : list byte :=
  [Dtype d; z2b (zlen (Shape d))] ++ int64s (Shape d) ++ int64s (Strides d) ++
  stringField (ShmName d) ++ be_put 8 (Offset d) ++ be_put 8 (Size d) ++
  be_put 2 (u16 (zlen (Capabilities d))) ++ concat (stringField <$> Capabilities d) ++
  stringField (ModelDigest d).

(** The descriptors within the decode bounds. *)
Record encodable (d : TensorDescriptor) : Prop := Encodable {
  enc_typed : typed d;
  enc_ndim : 1 <= zlen (Shape d) <= MaxTensorDims;
  enc_nstrides : length (Strides d) = length (Shape d);
  enc_name : slen (ShmName d) <= MaxTensorShmNameLen;
  enc_ncaps : zlen (Capabilities d) <= MaxTensorCaps;
  enc_caps : Forall (fun c => slen c <= MaxTensorCapLen) (Capabilities d);
  enc_digest : slen (ModelDigest d) <= MaxTensorDigestLen
}.

Lemma appendInt64s_app buf vs : appendInt64s buf vs = buf ++ int64s vs.
Proof.
  unfold appendInt64s, int64s. revert buf. induction vs as [|v vs IH]; intros buf; cbn [fold_left].
  - by rewrite app_nil_r.
  - rewrite IH, <-app_assoc. done.
Qed.

Lemma appendStringFields_app caps : forall buf,
  fold_left appendStringField caps buf = buf ++ concat (stringField <$> caps).
Proof.
  induction caps as [|c caps IH]; intros buf; cbn [fold_left].
  - by rewrite app_nil_r.
  - rewrite IH. unfold appendStringField. by rewrite <-app_assoc.
Qed.

Lemma tensor_Encode_buffer d (w : list byte) :
  1 <= zlen (Shape d) <= MaxTensorDims -> length (Strides d) = length (Shape d) ->
  zlen (Capabilities d) <= MaxTensorCaps -> Encode d w = (Ok tt, w ++ wire d).
Proof.
  intros Hn Hl Hc. unfold Encode, wire.
  rewrite (proj2 (orb_false_iff _ _)) by (split; zbool; lia || done).
  unfold zlen at 1 2. rewrite Hl, Z.eqb_refl. cbn [negb]. zbool.
  unfold WriteAll, Write, bytes_Writer. unfold appendStringField at 1.
  rewrite appendStringFields_app, !appendInt64s_app. unfold appendStringField.
  by rewrite <-!app_assoc.
Qed.

(** *** Integers *)

Definition words (n : nat) (raw : list byte) : list (list byte) :=
  (fun i => slice (i * 8) ((i + 1) * 8) raw) <$> seq 0 n.

Lemma words_S n raw : words (S n) raw = take 8 raw :: words n (drop 8 raw).
Proof.
  unfold words. cbn [seq]. rewrite fmap_cons. f_equal.
  rewrite <-fmap_S_seq, <-list_fmap_compose. apply list_fmap_ext. intros _ i _. simpl.
  unfold slice. rewrite drop_drop. by f_equal.
Qed.

Lemma readInt64s_words {R} `{Reader R} n (r : R) :
  readInt64s n r =
  (raw ← ReadFull (n * 8); mret ((fun w => i64 (be_get w)) <$> words n raw)) r.
Proof.
  unfold readInt64s, mbind, M_bind. destruct (ReadFull _ r) as [[raw|e] r']; [|done].
  unfold words. by rewrite <-list_fmap_compose.
Qed.

Lemma length_int64s vs : length (int64s vs) = (length vs * 8)%nat.
Proof.
  unfold int64s. induction vs as [|v vs IH]; [done|]. rewrite fmap_cons. cbn [concat].
  rewrite length_app, IH, length_be_put. simpl. lia.
Qed.

Lemma int64s_cons v vs : int64s (v :: vs) = be_put 8 (u64 v) ++ int64s vs.
Proof. done. Qed.

Lemma words_int64s vs : Forall in_i64 vs ->
  (fun w => i64 (be_get w)) <$> words (length vs) (int64s vs) = vs.
Proof.
  induction vs as [|v vs IH]; intros Hv; [done|]. apply Forall_cons in Hv as [Hv0 Hv].
  cbn [length]. rewrite words_S, fmap_cons, int64s_cons.
  rewrite take_app_length', drop_app_length' by (symmetry; apply length_be_put).
  rewrite IH by done. f_equal. rewrite be_get_put_small by apply u64_range. by apply i64_u64.
Qed.

Lemma be_put_i64 bs : length bs = 8%nat -> be_put 8 (u64 (i64 (be_get bs))) = bs.
Proof.
  intros Hl. pose proof (be_get_range bs) as Hr. unfold zlen in Hr. rewrite Hl in Hr.
  assert (u64 (i64 (be_get bs)) = be_get bs) as ->; [|by rewrite <-Hl, be_put_get].
  unfold u64, i64. rewrite Zminus_mod_idemp_l.
  replace (be_get bs + 2 ^ 63 - 2 ^ 63) with (be_get bs) by lia. by apply Z.mod_small.
Qed.

Lemma int64s_words n : forall raw, length raw = (n * 8)%nat ->
  int64s ((fun w => i64 (be_get w)) <$> words n raw) = raw /\
  Forall in_i64 ((fun w => i64 (be_get w)) <$> words n raw).
Proof.
  induction n as [|n IH]; intros raw Hl.
  { by apply nil_length_inv in Hl as ->. }
  rewrite words_S, fmap_cons. destruct (IH (drop 8 raw)) as [IH1 IH2].
  { rewrite length_drop. lia. }
  split.
  - rewrite int64s_cons, IH1, be_put_i64 by (rewrite length_take; lia). apply take_drop.
  - constructor; [|done]. unfold i64, in_i64.
    pose proof (Z.mod_pos_bound (be_get (take 8 raw) + 2 ^ 63) (2 ^ 64)). lia.
Qed.

Lemma readInt64s_ok vs (k : list byte) :
  Forall in_i64 vs -> readInt64s (length vs) (int64s vs ++ k) = (Ok vs, k).
Proof.
  intros Hv. rewrite readInt64s_words. unfold mbind, M_bind.
  rewrite ReadFull_bytes_ok by apply length_int64s. by rewrite words_int64s.
Qed.

Lemma readInt64s_inv n (l k : list byte) vs :
  readInt64s n l = (Ok vs, k) -> l = int64s vs ++ k /\ length vs = n /\ Forall in_i64 vs.
Proof.
  rewrite readInt64s_words. unfold mbind, M_bind.
  destruct (ReadFull _ l) as [[raw|e] l'] eqn:E; [|done]. intros [= <- <-].
  apply ReadFull_bytes_inv in E as [-> Hl]. destruct (int64s_words n raw Hl) as [-> ?].
  split; [done|]. split; [|done]. unfold words. by rewrite !length_fmap, length_seq.
Qed.

(** *** Strings *)

Lemma readStringField_ok max what s (k : list byte) :
  slen s <= max -> max < 2 ^ 16 ->
  readStringField max what (stringField s ++ k) = (Ok s, k).
Proof.
  intros Hs Hm. pose proof (slen_nonneg s) as Hp. unfold readStringField, stringField.
  rewrite <-app_assoc. unfold mbind, M_bind. unfold wrapfa at 1.
  rewrite ReadFull_bytes_ok by done. unfold u16. rewrite Z.mod_small by lia.
  rewrite be_get_put_small by lia. zbool. destruct (slen s =? 0) eqn:E; breflect.
  - destruct s; [done|]. unfold slen in E. simpl in E. lia.
  - unfold wrapfa. rewrite ReadFull_bytes_ok.
    + unfold mret, M_ret. by rewrite String.string_of_list_byte_of_string.
    + rewrite length_bytes_of_string. unfold slen. lia.
Qed.

Lemma readStringField_inv max what (l k : list byte) s :
  readStringField max what l = (Ok s, k) -> l = stringField s ++ k /\ slen s <= max.
Proof.
  unfold readStringField, mbind, M_bind. unfold wrapfa at 1.
  destruct (ReadFull 2 l) as [[ln|?] l1] eqn:E1; [|done].
  apply ReadFull_bytes_inv in E1 as [-> Hln].
  pose proof (be_get_range ln) as Hr. unfold zlen in Hr. rewrite Hln in Hr.
  destruct (max <? _) eqn:E2; [done|]. breflect.
  assert (forall z, z = be_get ln -> be_put 2 (u16 z) = ln) as Hput.
  { intros z ->. unfold u16. rewrite Z.mod_small by lia. by rewrite <-Hln, be_put_get. }
  destruct (be_get ln =? 0) eqn:E3; breflect.
  - intros [= <- <-]. unfold stringField. rewrite Hput by done. rewrite app_nil_r.
    split; [done|]. unfold slen. simpl. lia.
  - unfold wrapfa. destruct (ReadFull _ l1) as [[buf|?] l2] eqn:E4; [|done].
    apply ReadFull_bytes_inv in E4 as [-> Hbuf]. intros [= <- <-].
    assert (slen (string_of_bytes buf) = be_get ln) as Hlen.
    { rewrite slen_string_of_bytes. unfold zlen. lia. }
    unfold stringField. rewrite Hput by done.
    rewrite String.list_byte_of_string_of_list_byte, <-app_assoc. split; [done|lia].
Qed.

Lemma readCaps_ok caps (k : list byte) :
  Forall (fun c => slen c <= MaxTensorCapLen) caps ->
  readCaps (length caps) (concat (stringField <$> caps) ++ k) = (Ok caps, k).
Proof.
  induction caps as [|c caps IH]; intros Hc; [done|]. apply Forall_cons in Hc as [Hc0 Hc].
  rewrite fmap_cons. cbn [length readCaps concat]. rewrite <-app_assoc.
  unfold mbind, M_bind in *. rewrite readStringField_ok by done. by rewrite IH.
Qed.

Lemma readCaps_inv n : forall (l k : list byte) caps,
  readCaps n l = (Ok caps, k) ->
  l = concat (stringField <$> caps) ++ k /\ length caps = n /\
  Forall (fun c => slen c <= MaxTensorCapLen) caps.
Proof.
  induction n as [|n IH]; intros l k caps; cbn [readCaps].
  - intros [= <- <-]. done.
  - unfold mbind, M_bind.
    destruct (readStringField _ _ l) as [[c|?] l1] eqn:E1; [|done].
    destruct (readCaps n l1) as [[cs|?] l2] eqn:E2; [|done]. intros [= <- <-].
    apply readStringField_inv in E1 as [-> Hc]. apply IH in E2 as (-> & <- & Hcs).
    rewrite fmap_cons. cbn [concat length]. rewrite <-app_assoc. split; [done|].
    split; [done|]. by constructor.
Qed.

(** *** The whole descriptor *)

Lemma DecodeTensor_tracks {R} `{StreamReader R} : tracks (R := R) DecodeTensor DecodeTensor.
Proof.
  assert (forall max what, tracks (R := R) (readStringField max what) (readStringField max what)).
  { intros. unfold readStringField. repeat (intros || apply tracks_bind || apply tracks_if
      || apply tracks_wrapf || apply tracks_fail || apply tracks_ret || apply tracks_ReadFull). }
  assert (forall n, tracks (R := R) (readCaps n) (readCaps n)).
  { induction n; cbn [readCaps]; auto 10 with tracks. }
  unfold DecodeTensor, readInt64s. cbv zeta.
  repeat (intros || apply tracks_bind || apply tracks_if || apply tracks_wrapf
    || apply tracks_fail || apply tracks_ret || apply tracks_ReadFull || done).
Qed.

Lemma DecodeTensor_wire d (k : list byte) :
  encodable d -> DecodeTensor (wire d ++ k) = (Ok d, k).
Proof.
  intros [(HS & HT & HO & HZ) Hn Hl Hm Hc Hcs Hd]. unfold wire, DecodeTensor.
  unfold MaxTensorDims, MaxTensorShmNameLen, MaxTensorCaps, MaxTensorDigestLen in *.
  unfold mbind, M_bind. rewrite <-!app_assoc.
  unfold wrapfa at 1. rewrite ReadFull_bytes_ok by done. cbn [byteAt nth].
  rewrite b2z_z2b_small by (unfold in_u8; lia).
  rewrite (proj2 (orb_false_iff _ _)) by (split; zbool; lia || done).
  replace (Z.to_nat (zlen (Shape d))) with (length (Shape d)) by (unfold zlen; lia).
  unfold wrapfa at 1. rewrite readInt64s_ok by done. rewrite <-Hl.
  unfold wrapfa at 1. rewrite readInt64s_ok by done.
  rewrite readStringField_ok by (done || lia).
  unfold wrapfa at 1. rewrite (app_assoc (be_put 8 _)), ReadFull_bytes_ok by done.
  unfold wrapfa at 1. rewrite ReadFull_bytes_ok by done.
  unfold u16. rewrite Z.mod_small by (pose proof (zlen_nonneg (Capabilities d)); lia).
  rewrite be_get_put_small by (pose proof (zlen_nonneg (Capabilities d)); lia). zbool.
  replace (Z.to_nat (zlen (Capabilities d))) with (length (Capabilities d)) by (unfold zlen; lia).
  rewrite readCaps_ok by done. rewrite readStringField_ok by (done || lia).
  change (slice 0 8 (be_put 8 (Offset d) ++ be_put 8 (Size d))) with (be_put 8 (Offset d)).
  change (slice 8 16 (be_put 8 (Offset d) ++ be_put 8 (Size d))) with (be_put 8 (Size d)).
  rewrite !be_get_put_small by done. by destruct d.
Qed.

Lemma split_words (bs : list byte) :
  length bs = 16%nat ->
  bs = be_put 8 (be_get (slice 0 8 bs)) ++ be_put 8 (be_get (slice 8 16 bs)) /\
  in_u64 (be_get (slice 0 8 bs)) /\ in_u64 (be_get (slice 8 16 bs)).
Proof.
  intros Hl.
  assert (length (slice 0 8 bs) = 8%nat) as H1 by (unfold slice; rewrite length_take, length_drop; lia).
  assert (length (slice 8 16 bs) = 8%nat) as H2 by (unfold slice; rewrite length_take, length_drop; lia).
  pose proof (be_get_range (slice 0 8 bs)) as R1. pose proof (be_get_range (slice 8 16 bs)) as R2.
  unfold zlen in R1, R2. rewrite H1 in R1. rewrite H2 in R2.
  pose proof (be_put_get (slice 0 8 bs)) as P1. pose proof (be_put_get (slice 8 16 bs)) as P2.
  rewrite H1 in P1. rewrite H2 in P2. split; [|done]. rewrite P1, P2.
  unfold slice. rewrite drop_0. rewrite <-(take_drop 8 bs) at 1. f_equal.
  symmetry. apply take_ge. rewrite length_drop. lia.
Qed.

Lemma DecodeTensor_inv (l k : list byte) d :
  DecodeTensor l = (Ok d, k) -> encodable d /\ l = wire d ++ k.
Proof.
  unfold DecodeTensor, mbind, M_bind. unfold wrapfa at 1.
  destruct (ReadFull 2 l) as [[head|?] l1] eqn:E1; [|done].
  apply ReadFull_bytes_inv in E1 as [-> Hh].
  destruct head as [|h0 [|h1 [|]]]; try done. cbn [byteAt nth].
  destruct (_ || _) eqn:E2; [done|].
  unfold wrapfa at 1. destruct (readInt64s _ l1) as [[sh|?] l2] eqn:E3; [|done].
  apply readInt64s_inv in E3 as (-> & Hsh & Hsh').
  unfold wrapfa at 1. destruct (readInt64s _ l2) as [[st|?] l3] eqn:E4; [|done].
  apply readInt64s_inv in E4 as (-> & Hst & Hst').
  destruct (readStringField _ _ l3) as [[nm|?] l4] eqn:E5; [|done].
  apply readStringField_inv in E5 as [-> Hnm].
  unfold wrapfa at 1. destruct (ReadFull 16 l4) as [[os|?] l5] eqn:E6; [|done].
  apply ReadFull_bytes_inv in E6 as [-> Hos].
  unfold wrapfa at 1. destruct (ReadFull 2 l5) as [[nc|?] l6] eqn:E7; [|done].
  apply ReadFull_bytes_inv in E7 as [-> Hnc].
  pose proof (be_get_range nc) as Rnc. unfold zlen in Rnc. rewrite Hnc in Rnc.
  destruct (MaxTensorCaps <? _) eqn:E8; [done|].
  destruct (readCaps _ l6) as [[cs|?] l7] eqn:E9; [|done].
  apply readCaps_inv in E9 as (-> & Hcs & Hcs').
  destruct (readStringField _ _ l7) as [[dg|?] l8] eqn:E10; [|done].
  apply readStringField_inv in E10 as [-> Hdg]. intros [= <- <-].
  pose proof (b2z_range h1). breflect.
  destruct (split_words os Hos) as (Ho & Ho1 & Ho2).
  assert (zlen sh = b2z h1) as Hz by (unfold zlen; lia).
  assert (zlen cs = be_get nc) as Hzc by (unfold zlen; lia).
  split.
  - constructor; cbn; try done; unfold MaxTensorDims in *; lia.
  - unfold wire. cbn [Dtype Shape Strides ShmName Offset Size Capabilities ModelDigest].
    rewrite Hz, Hzc, z2b_b2z. unfold u16. rewrite Z.mod_small by lia.
    pose proof (be_put_get nc) as Pn. rewrite Hnc in Pn. rewrite Pn.
    rewrite Ho at 1. by rewrite <-!app_assoc.
Qed.

Lemma digest_length s :
  s = ""%string \/ isSHA256Hex s = true \/ isSHA256Prefixed s = true ->
  slen s <= MaxTensorDigestLen.
Proof.
  unfold isSHA256Hex, isSHA256Prefixed, MaxTensorDigestLen. intros [-> | [H|H]]; [done| |].
  - destruct (slen s =? 64) eqn:E; [|done]. breflect. lia.
  - breflect. unfold slen in *. simpl in *. lia.
Qed.

Lemma Validate_encodable d : typed d -> Validate d = None -> encodable d.
Proof.
  intros Ht. unfold Validate. intros Hv.
  destruct (_ =? 0) in Hv; [done|]. destruct (_ || _) eqn:E2 in Hv; [done|].
  destruct (checkDims _ _) in Hv; [done|].
  destruct (zlen (Strides d) =? _) eqn:E4 in Hv; [|done]. cbn [negb] in Hv.
  destruct (extentLoop _ _ _ _ _) as [e|]; [|done].
  do 4 (case_match; [done|]). case_match eqn:E10; [done|]. case_match eqn:E11; [done|].
  destruct (checkCaps _ _) eqn:E12; [done|]. apply checkCaps_None in E12.
  destruct (_ && _ && _) eqn:E13 in Hv; [done|]. apply digest_cond in E13.
  breflect. pose proof (zlen_nonneg (Shape d)).
  constructor; try done; [lia|unfold zlen in *; lia| |by apply digest_length].
  eapply Forall_impl; [done|]. by intros c [_ ?].
Qed.

(** The end check of [Validate] holds whether or not the extent wrapped. *)
Lemma Validate_end d :
  typed d -> Validate d = None -> 0 <= Offset d /\ 0 <= Size d /\ Offset d + Size d < 2 ^ 64.
Proof.
  intros (_ & _ & HO & HS). unfold in_u64 in *. unfold Validate. intros Hv.
  do 2 (case_match; [done|]). destruct (checkDims _ _) in Hv; [done|].
  case_match; [done|]. destruct (extentLoop _ _ _ _ _) as [e|]; [|done].
  case_match; [done|]. destruct (_ <? Offset d) eqn:E; [done|].
  rewrite u64_id in E by (unfold in_u64; lia). breflect. lia.
Qed.

(** ** Properties *)

(** C33: [Validate] decides validity: on every descriptor whose extent cannot
    wrap around, it returns nil exactly when the documented conditions hold,
    with the footprint taken in unbounded integers (known dtype, 1 to 8
    positive dims, one non-negative stride each, aligned offset, a span that
    does not leave the address space and covers the footprint, bounded names
    and claims, a well-formed digest), and the footprint is at most 2^62 bytes,
    which the documentation does not ask. *)
Theorem validate_iff_valid (d : TensorDescriptor) :
  typed d -> no_wrap d -> Validate d = None <-> valid d /\ footprint d <= 2 ^ 62.
Proof.
  intros Ht Hw. split; [by apply Validate_sound|]. intros [Hv Hg]. by apply Validate_complete.
Qed.

(** A descriptor that meets the documentation and is refused for its footprint
    of 2^62 + 2^62 + 3 bytes. *)
Definition hugeTensor : TensorDescriptor :=
  MkTensor TensorINT8 [2; 2] [2 ^ 62 + 1; 2 ^ 62 + 1] "seg0" 0 (2 ^ 63 + 3) [] "".

Lemma huge_footprint_refused : typed hugeTensor /\ no_wrap hugeTensor /\ valid hugeTensor /\ Validate hugeTensor <> None.
Proof.
  split_and!; [repeat split; repeat constructor; unfold in_i64; simpl; lia|right; repeat constructor; simpl; lia| |done].
  constructor; try (by vm_compute); try (split; by vm_compute); [by repeat constructor|by repeat constructor|by exists 0|by left].
Qed.

Definition sampleTensor : TensorDescriptor :=
  MkTensor TensorF32 [2; 3] [3; 1] "seg0" 16 24 ["inference.local"; "infer"] "".

Lemma sampleTensor_typed : typed sampleTensor.
Proof. repeat split; repeat constructor; unfold in_i64; simpl; lia. Qed.

Lemma sampleTensor_no_wrap : no_wrap sampleTensor.
Proof. left. vm_compute. discriminate. Qed.

Lemma validate_iff_valid_witness : Validate sampleTensor = None /\ valid sampleTensor /\ footprint sampleTensor <= 2 ^ 62.
Proof.
  assert (Validate sampleTensor = None) as H by (vm_compute; reflexivity).
  split; [exact H|].
  exact (proj1 (validate_iff_valid sampleTensor sampleTensor_typed sampleTensor_no_wrap) H).
Defined.

(** Memory safety of accepted descriptors: under the same condition, every
    element a consumer can index, by indices within the shape, lies entirely
    inside the claimed span [Offset, Offset+Size), aligned to the element size,
    and the span does not wrap the 64-bit address space. *)
Theorem validate_in_span (d : TensorDescriptor) (idx : list Z) :
  typed d -> no_wrap d -> Validate d = None ->
  Forall2 (fun i n => 0 <= i < n) idx (Shape d) ->
  Offset d <= address d idx /\
  address d idx + dtypeBytes (Dtype d) <= Offset d + Size d /\
  Offset d + Size d < 2 ^ 64 /\ (dtypeBytes (Dtype d) | address d idx).
Proof.
  intros Ht Hw Hv Hi. apply Validate_sound in Hv as [Hv _]; [|done..]. destruct Hv.
  pose proof (element_bound (Shape d) (Strides d) idx ltac:(done) ltac:(done) Hi).
  pose proof (elem_cases d ltac:(done)) as Hc. unfold address, footprint in *.
  split; [nia|]. split; [nia|]. split; [done|].
  apply Z.divide_add_r; [done|]. apply Z.divide_factor_r.
Qed.

Lemma validate_in_span_witness :
  address sampleTensor [1; 2] + 4 <= Offset sampleTensor + Size sampleTensor.
Proof.
  apply (validate_in_span sampleTensor [1; 2] sampleTensor_typed sampleTensor_no_wrap);
    [vm_compute; reflexivity|]. repeat constructor; lia.
Defined.

(** A descriptor with one-byte elements whose strides sum to [2^64 - 1]. *)
Definition wrappingTensor : TensorDescriptor :=
  MkTensor TensorINT8 [2; 2; 2; 2] [2 ^ 62 - 1; 2 ^ 62; 2 ^ 62; 2 ^ 62] "seg0" 0 1
    ["inference.local"] "".

(** The condition is needed: the [int64] sum can wrap around past the two
    overflow guards, so that [Validate] accepts a well-typed descriptor that
    claims one byte while its last element lies [2^64 - 1] bytes further on. *)
Theorem validate_accepts_wrapped :
  typed wrappingTensor /\ Validate wrappingTensor = None /\ Size wrappingTensor = 1 /\
  footprint wrappingTensor = 2 ^ 64 /\
  Forall2 (fun i n => 0 <= i < n) [1; 1; 1; 1] (Shape wrappingTensor) /\
  address wrappingTensor [1; 1; 1; 1] = 2 ^ 64 - 1.
Proof.
  split; [repeat split; repeat constructor; unfold in_i64, in_u64; simpl; lia|].
  split; [vm_compute; reflexivity|]. split; [done|]. split; [vm_compute; reflexivity|].
  split; [repeat constructor; lia|vm_compute; reflexivity].
Qed.

(** C34: A descriptor that [Validate] accepts survives the wire: it encodes
    without error, and decoding from any stream that starts with the encoding
    returns the same descriptor and stops at the byte behind it. *)
Theorem tensor_decode_encode {R} `{StreamReader R} (d : TensorDescriptor) (r : R) (rest : list byte) :
  typed d -> Validate d = None -> content r = snd (Encode d []) ++ rest ->
  fst (Encode d ([] : list byte)) = Ok tt /\
  exists r', DecodeTensor r = (Ok d, r') /\ content r' = rest.
Proof.
  intros Ht Hv Hr. apply Validate_encodable in Hv; [|done].
  rewrite tensor_Encode_buffer in * by apply Hv. split; [done|].
  destruct (DecodeTensor_tracks r) as (r' & -> & Hr'). rewrite Hr in *. cbn [snd app] in *.
  rewrite DecodeTensor_wire in * by done. eauto.
Qed.

Lemma tensor_decode_encode_witness :
  exists k : list byte, DecodeTensor (snd (Encode sampleTensor []) ++ [z2b 1]) = (Ok sampleTensor, k) /\
    content k = [z2b 1].
Proof.
  refine (proj2 (tensor_decode_encode (R := list byte) sampleTensor _ [z2b 1] sampleTensor_typed _ eq_refl)).
  vm_compute. reflexivity.
Defined.

(** The descriptor decoder accepts encodings only, and only within the decode
    bounds: an accepted descriptor has 1 to 8 dims with as many strides, a name
    of at most 256 bytes, at most 32 claims of at most 128 bytes and a digest
    of at most 128 bytes, its integers fit their types, and the bytes taken
    from the stream are exactly its encoding. *)
Theorem tensor_decode_canonical {R} `{StreamReader R} (r r' : R) (d : TensorDescriptor) :
  DecodeTensor r = (Ok d, r') ->
  encodable d /\ fst (Encode d ([] : list byte)) = Ok tt /\
  content r = snd (Encode d []) ++ content r'.
Proof.
  intros E. destruct (DecodeTensor_tracks r) as (r1 & E1 & Hr1). rewrite E in E1.
  destruct (DecodeTensor (content r)) as [x k] eqn:Ed. cbn [fst snd] in *. simplify_eq.
  apply DecodeTensor_inv in Ed as [Hd Hc]. split; [done|].
  by rewrite tensor_Encode_buffer by apply Hd.
Qed.

Lemma tensor_decode_canonical_witness :
  encodable wrappingTensor /\
  snd (Encode wrappingTensor ([] : list byte)) = snd (Encode wrappingTensor ([] : list byte)) ++ [].
Proof.
  assert (DecodeTensor (snd (Encode wrappingTensor ([] : list byte))) = (Ok wrappingTensor, [])) as E
    by (vm_compute; reflexivity).
  destruct (tensor_decode_canonical (R := list byte) _ _ _ E) as (H1 & _ & H2).
  split; [exact H1|exact H2].
Defined.
