(* ===== verification/TensorMessage.v ===== *)
(** * Binding descriptors to messages: src/protocol/tensor_message.go

    The two primitives [MessagePayload] and [TensorFromPayload] and the
    fail-closed contract of the file's comment: a descriptor travels only with
    a claim, and comes out only under one of its own claims. *)

From S2P Require Import Prelude Tensor.
Local Open Scope Z_scope.

Definition ErrTensorNoCapability := ErrorNew "eipc: tensor descriptor declares no capabilities".
Definition ErrTensorCapabilityMismatch :=
  ErrorNew "eipc: message capability does not match tensor descriptor claims".

(** The receiver may be a nil pointer. *)
Definition MessagePayload (d : option TensorDescriptor) : result (list byte * string) :=
  match d with
  | None => Err ErrTensorNoCapability
  | Some d =>
      match Validate d with
      | Some e => Err e
      | None =>
          match Capabilities d with
          | [] => Err ErrTensorNoCapability
          | c :: _ =>
              match Encode d ([] : list byte) with
              | (Err e, _) => Err e
              | (Ok _, buf) => Ok (buf, c)
              end
          end
      end
  end.

Definition TensorFromPayload (payload : list byte) (capability : string) : result TensorDescriptor :=
  match DecodeTensor payload with
  | (Err e, _) => Err e
  | (Ok d, _) =>
      match Validate d with
      | Some e => Err e
      | None =>
          if existsb (fun claim => String.eqb claim capability) (Capabilities d) then Ok d
          else Err (Wrapf "%w: message asserts %q, descriptor claims %v"
                      ErrTensorCapabilityMismatch [ArgStr capability; ArgStrs (Capabilities d)])
      end
  end.

(** ** Properties *)

Lemma existsb_claim c caps :
  existsb (fun claim => String.eqb claim c) caps = true <-> c ∈ caps.
Proof.
  rewrite existsb_exists, list_elem_of_In. split.
  - intros (x & Hx & ->%String.eqb_eq). done.
  - intros Hc. exists c. by rewrite String.eqb_refl.
Qed.

Lemma MessagePayload_Ok d p c :
  MessagePayload d = Ok (p, c) ->
  exists t, d = Some t /\ Validate t = None /\ head (Capabilities t) = Some c /\
    Encode t ([] : list byte) = (Ok tt, p).
Proof.
  unfold MessagePayload. destruct d as [t|]; [|done]. intros H.
  destruct (Validate t) eqn:Hv; [done|]. destruct (Capabilities t) as [|c0 cs] eqn:Hc; [done|].
  destruct (Encode t []) as [[[]|e] buf] eqn:He; [|done]. simplify_eq. exists t.
  rewrite Hc. done.
Qed.

Lemma TensorFromPayload_encoded t p junk c :
  typed t -> Validate t = None -> Encode t ([] : list byte) = (Ok tt, p) ->
  TensorFromPayload (p ++ junk) c =
  if existsb (fun claim => String.eqb claim c) (Capabilities t) then Ok t
  else Err (Wrapf "%w: message asserts %q, descriptor claims %v"
              ErrTensorCapabilityMismatch [ArgStr c; ArgStrs (Capabilities t)]).
Proof.
  intros Ht Hv He. pose proof (Validate_encodable t Ht Hv) as Hc.
  rewrite tensor_Encode_buffer in He by apply Hc. simplify_eq.
  unfold TensorFromPayload. cbn [app]. rewrite DecodeTensor_wire by done. by rewrite Hv.
Qed.

(** What [MessagePayload] attaches, [TensorFromPayload] gives back, under
    the primary claim it returned and under every other claim of the
    descriptor; under any capability that is not a claim, the extraction fails
    with the mismatch error, whatever trails the encoding in the payload. *)
Theorem attach_extract (d : option TensorDescriptor) (p junk : list byte) (c c' : string) :
  (forall t, d = Some t -> typed t) ->
  MessagePayload d = Ok (p, c) ->
  exists t, d = Some t /\ c ∈ Capabilities t /\ TensorFromPayload p c = Ok t /\
    (c' ∈ Capabilities t -> TensorFromPayload (p ++ junk) c' = Ok t) /\
    (c' ∉ Capabilities t -> exists e, TensorFromPayload (p ++ junk) c' = Err e /\
       errors_Is e ErrTensorCapabilityMismatch = true).
Proof.
  intros Ht Hp. apply MessagePayload_Ok in Hp as (t & -> & Hv & Hc & He).
  specialize (Ht t eq_refl). exists t.
  assert (c ∈ Capabilities t) as Hin.
  { destruct (Capabilities t); simplify_eq/=. constructor. }
  split; [done|]. split; [done|].
  rewrite <-(app_nil_r p) at 1. rewrite !(TensorFromPayload_encoded t) by done.
  rewrite (proj2 (existsb_claim _ _)) by done. split; [done|]. split.
  - intros ?. by rewrite (proj2 (existsb_claim _ _)).
  - intros Hn. destruct (existsb _ _) eqn:E.
    + by apply existsb_claim in E.
    + eexists. done.
Qed.

Lemma attach_extract_witness :
  exists p, MessagePayload (Some sampleTensor) = Ok (p, "inference.local"%string) /\
    TensorFromPayload p "inference.local" = Ok sampleTensor.
Proof.
  exists (snd (Encode sampleTensor ([] : list byte))).
  assert (MessagePayload (Some sampleTensor) =
    Ok (snd (Encode sampleTensor ([] : list byte)), "inference.local"%string)) as E
    by (vm_compute; reflexivity).
  split; [exact E|].
  destruct (attach_extract (Some sampleTensor) _ [] _ "x"
    ltac:(intros t Ht; injection Ht as <-; exact sampleTensor_typed) E) as (t & Ht & _ & H & _).
  injection Ht as Ht. rewrite <-Ht in H. exact H.
Defined.

(** Extraction fails closed: a descriptor that comes out of
    [TensorFromPayload] is one [Validate] accepts, the payload starts with its
    encoding, and the asserted capability is one of its claims; and attaching
    needs a claim: a nil descriptor or one that declares no capabilities is
    refused. *)
Theorem extract_fail_closed (payload : list byte) (capability : string) (d : TensorDescriptor) :
  TensorFromPayload payload capability = Ok d ->
  Validate d = None /\ capability ∈ Capabilities d /\
  (exists junk, payload = snd (Encode d []) ++ junk) /\
  is_ok (MessagePayload None) = false /\
  (forall t, Capabilities t = [] -> is_ok (MessagePayload (Some t)) = false).
Proof.
  unfold TensorFromPayload. intros H.
  destruct (DecodeTensor payload) as [[t|e] k] eqn:Ed; [|done].
  destruct (Validate t) eqn:Hv; [done|]. destruct (existsb _ _) eqn:Ee; [|done]. simplify_eq.
  apply DecodeTensor_inv in Ed as [Hd ->]. split; [done|]. split; [by apply existsb_claim|].
  split; [exists k; by rewrite tensor_Encode_buffer by apply Hd|]. split; [done|].
  intros t Hc. unfold MessagePayload. rewrite Hc. by destruct (Validate t).
Qed.

Lemma extract_fail_closed_witness : "infer"%string ∈ Capabilities sampleTensor.
Proof.
  apply (extract_fail_closed (snd (Encode sampleTensor ([] : list byte))) "infer" sampleTensor).
  vm_compute. reflexivity.
Defined.
