(* ===== verification/TensorRegistry.v ===== *)
(** * The registry of live tensor spans: src/protocol/tensor_registry.go

    The registry as a map from segment names to the live spans of the segment,
    its three operations, and the session property it exists for: in every
    reachable registry no byte of a segment belongs to two live descriptors. *)

From S2P Require Import Prelude Tensor.
Local Open Scope Z_scope.

Record registeredSpan := MkSpan {
  offset : Z;
  size : Z;
  desc : TensorDescriptor
}.

(** [map[string][]registeredSpan]; a missing key reads as the nil slice. *)
Abbreviation TensorRegistry := (gmap string (list registeredSpan)).

Definition NewTensorRegistry : TensorRegistry := ∅.

Definition live (r : TensorRegistry) (shmName : string) : list registeredSpan :=
  default [] (r !! shmName).

(** The intersection test, with [uint64] additions. *)
Definition intersects (d : TensorDescriptor) (s : registeredSpan) : bool :=
  (Offset d <? u64 (offset s + size s)) && (offset s <? u64 (Offset d + Size d)).

Definition Register (r : TensorRegistry) (d : TensorDescriptor) : result TensorRegistry :=
  match Validate d with
  | Some e => Err e
  | None =>
      if Size d =? 0 then Err (Wrapf "%w: zero-size span" ErrTensorDims [])
      else
        match List.find (intersects d) (live r (ShmName d)) with
        | Some s =>
            Err (Wrapf "%w: [%d, %d) intersects live span [%d, %d) in segment %q" ErrTensorOverlap
              [ArgInt (Offset d); ArgInt (u64 (Offset d + Size d)); ArgInt (offset s);
               ArgInt (u64 (offset s + size s)); ArgStr (ShmName d)])
        | None => Ok (<[ShmName d := live r (ShmName d) ++ [MkSpan (Offset d) (Size d) d]]> r)
        end
  end.

(** [append(live[:i], live[i+1:]...)] for the first [i] whose span starts at
    [offset]. *)
Fixpoint removeAt (o : Z) (l : list registeredSpan) : option (list registeredSpan) :=
  match l with
  | [] => None
  | s :: l' =>
      if offset s =? o then Some l'
      else
        match removeAt o l' with
        | Some l'' => Some (s :: l'')
        | None => None
        end
  end.

Definition Deregister (r : TensorRegistry) (shmName : string) (o : Z) : TensorRegistry * bool :=
  match removeAt o (live r shmName) with
  | Some l => (<[shmName := l]> r, true)
  | None => (r, false)
  end.

Definition offset_le (a b : TensorDescriptor) : Prop := Offset a <= Offset b.

#[global] Instance offset_le_dec : RelDecision offset_le.
Proof. intros a b. unfold offset_le. apply _. Defined.

Definition Spans (r : TensorRegistry) (shmName : string) : list TensorDescriptor :=
  merge_sort offset_le (desc <$> live r shmName).

(** ** The invariant *)

(** A live span is the span of a descriptor that [Validate] accepted, is not
    empty and does not wrap. *)
Definition span_ok (seg : string) (s : registeredSpan) : Prop :=
  Validate (desc s) = None /\ ShmName (desc s) = seg /\ offset s = Offset (desc s) /\
  size s = Size (desc s) /\ 0 <= offset s /\ 0 < size s /\ offset s + size s < 2 ^ 64.

Definition holds_byte (s : registeredSpan) (b : Z) : Prop := offset s <= b < offset s + size s.

Definition disjoint_spans (s t : registeredSpan) : Prop :=
  offset s + size s <= offset t \/ offset t + size t <= offset s.

Definition segment_ok (seg : string) (l : list registeredSpan) : Prop :=
  Forall (span_ok seg) l /\ ForallOrdPairs disjoint_spans l.

Definition registry_ok (r : TensorRegistry) : Prop := map_Forall segment_ok r.

(** The sessions: any sequence of calls, each with well-typed arguments. *)
Inductive op :=
  | OpRegister (d : TensorDescriptor)
  | OpDeregister (shmName : string) (o : Z).

Definition step (r : TensorRegistry) (o : op) : TensorRegistry :=
  match o with
  | OpRegister d => match Register r d with Ok r' => r' | Err _ => r end
  | OpDeregister n o => (Deregister r n o).1
  end.

Definition op_typed (o : op) : Prop :=
  match o with OpRegister d => typed d | OpDeregister _ _ => True end.

Definition session (ops : list op) : TensorRegistry := fold_left step ops NewTensorRegistry.

(** ** Lemmas *)

Lemma live_ok r seg : registry_ok r -> segment_ok seg (live r seg).
Proof.
  intros Hr. unfold live. destruct (r !! seg) as [l|] eqn:E; simpl.
  - by apply Hr.
  - split; [done|constructor].
Qed.

Lemma live_insert r seg l seg' :
  live (<[seg := l]> r) seg' = if decide (seg = seg') then l else live r seg'.
Proof. unfold live. rewrite lookup_insert. by case_decide. Qed.

Lemma intersects_false seg d s :
  typed d -> Validate d = None -> span_ok seg s ->
  intersects d s = false <-> disjoint_spans (MkSpan (Offset d) (Size d) d) s.
Proof.
  intros Ht Hv (_ & _ & _ & _ & Ho & Hs & Hw). destruct (Validate_end d Ht Hv) as (? & ? & ?).
  unfold intersects, disjoint_spans. cbn [offset size].
  rewrite !u64_id by (unfold in_u64; lia). rewrite andb_false_iff, !Z.ltb_ge. lia.
Qed.

Lemma find_None_Forall {A} (f : A -> bool) l :
  List.find f l = None <-> Forall (fun x => f x = false) l.
Proof.
  induction l as [|x l IH]; simpl; [by split|]. rewrite Forall_cons.
  destruct (f x); [by split; [|intros [? ?]]|]. tauto.
Qed.

Lemma ForallOrdPairs_snoc {A} (P : A -> A -> Prop) l x :
  ForallOrdPairs P l -> Forall (fun y => P y x) l -> ForallOrdPairs P (l ++ [x]).
Proof.
  induction 1 as [|y l Hy Hl IH]; intros Hx; simpl.
  - constructor; [done|constructor].
  - apply Forall_cons in Hx as [? ?]. constructor; [|by apply IH].
    apply Forall_app. split; [done|]. by constructor.
Qed.

Lemma disjoint_spans_sym s t : disjoint_spans s t -> disjoint_spans t s.
Proof. unfold disjoint_spans. tauto. Qed.

Lemma Register_Ok r d r' :
  registry_ok r -> typed d -> Register r d = Ok r' ->
  Validate d = None /\ 0 < Size d /\
  Forall (disjoint_spans (MkSpan (Offset d) (Size d) d)) (live r (ShmName d)) /\
  r' = <[ShmName d := live r (ShmName d) ++ [MkSpan (Offset d) (Size d) d]]> r.
Proof.
  intros Hr Ht. unfold Register. intros H. destruct (Validate d) eqn:Hv; [done|].
  destruct (Size d =? 0) eqn:Hz; [done|].
  destruct (List.find _ _) eqn:Hf; [done|]. simplify_eq. breflect.
  destruct (Validate_end d Ht Hv) as (? & ? & ?).
  split; [done|]. split; [lia|]. split; [|done].
  apply find_None_Forall in Hf. destruct (live_ok r (ShmName d) Hr) as [Hok _].
  rewrite Forall_forall in *. intros s Hs. eapply intersects_false; eauto.
Qed.

Lemma Register_preserves r d r' :
  registry_ok r -> typed d -> Register r d = Ok r' -> registry_ok r'.
Proof.
  intros Hr Ht H. apply Register_Ok in H as (Hv & Hz & Hd & ->); [|done..].
  destruct (Validate_end d Ht Hv) as (? & ? & ?).
  apply map_Forall_insert_2; [|done]. destruct (live_ok r (ShmName d) Hr) as [Hok Hdj]. split.
  - apply Forall_app. split; [done|]. constructor; [|done]. repeat split; cbn; done || lia.
  - apply ForallOrdPairs_snoc; [done|]. eapply Forall_impl; [exact Hd|].
    intros s. apply disjoint_spans_sym.
Qed.

Lemma filter_all {A} (P : A -> Prop) `{!forall x, Decision (P x)} l :
  Forall P l -> filter P l = l.
Proof.
  induction 1 as [|x l Hx Hl IH]; [done|]. by rewrite filter_cons_True, IH.
Qed.

(** In a segment of disjoint nonempty spans the one at an offset is unique. *)
Lemma removeAt_filter seg o l :
  segment_ok seg l ->
  removeAt o l =
  if decide (Exists (fun s => offset s = o) l)
  then Some (filter (fun s => offset s <> o) l) else None.
Proof.
  intros [Hok Hdj]. induction Hdj as [|s l Hs Hl IH]; [done|]. cbn [removeAt].
  apply Forall_cons in Hok as [Hs0 Hok]. specialize (IH Hok).
  destruct (offset s =? o) eqn:E; breflect.
  - rewrite decide_True by (by left). rewrite filter_cons_False by tauto.
    rewrite filter_all; [done|].
    rewrite Forall_forall in *. intros t Ht.
    destruct (Hok t Ht) as (_ & _ & _ & _ & _ & Ht0 & _), Hs0 as (_ & _ & _ & _ & _ & Hs0 & _).
    specialize (Hs t Ht). unfold disjoint_spans in Hs. lia.
  - rewrite IH, filter_cons_True by done.
    destruct (decide (Exists _ l)) as [Hex|Hex].
    + by rewrite decide_True by (by right).
    + rewrite decide_False; [done|]. inversion 1; subst; done.
Qed.

Lemma Forall_filter {A} (P Q : A -> Prop) `{!forall x, Decision (Q x)} l :
  Forall P l -> Forall P (filter Q l).
Proof. rewrite !Forall_forall. intros Hl x. rewrite list_elem_of_filter. naive_solver. Qed.

Lemma ForallOrdPairs_filter {A} (P : A -> A -> Prop) (Q : A -> Prop)
    `{!forall x, Decision (Q x)} l :
  ForallOrdPairs P l -> ForallOrdPairs P (filter Q l).
Proof.
  induction 1 as [|x l Hx Hl IH]; [constructor|]. rewrite filter_cons. case_decide; [|done].
  constructor; [|done]. by apply Forall_filter.
Qed.

Lemma Deregister_spec r seg o :
  registry_ok r ->
  Deregister r seg o =
  if decide (Exists (fun s => offset s = o) (live r seg))
  then (<[seg := filter (fun s => offset s <> o) (live r seg)]> r, true) else (r, false).
Proof.
  intros Hr. unfold Deregister. rewrite (removeAt_filter seg) by (by apply live_ok).
  by case_decide.
Qed.

Lemma Deregister_preserves r seg o : registry_ok r -> registry_ok (Deregister r seg o).1.
Proof.
  intros Hr. rewrite Deregister_spec by done. case_decide; [|done]. cbn [fst].
  apply map_Forall_insert_2; [|done]. destruct (live_ok r seg Hr) as [Hok Hdj].
  split; [by apply Forall_filter|by apply ForallOrdPairs_filter].
Qed.

Lemma step_preserves r o : registry_ok r -> op_typed o -> registry_ok (step r o).
Proof.
  intros Hr Ho. destruct o as [d|seg o]; cbn [step].
  - destruct (Register r d) eqn:E; [by eapply Register_preserves|done].
  - by apply Deregister_preserves.
Qed.

Lemma session_ok ops : Forall op_typed ops -> registry_ok (session ops).
Proof.
  intros Ho. unfold session. assert (registry_ok NewTensorRegistry) as Hr by apply map_Forall_empty.
  revert Hr. generalize NewTensorRegistry. induction Ho as [|o ops Ho0 Ho IH]; intros r Hr; [done|].
  simpl. apply IH. by apply step_preserves.
Qed.

Lemma ForallOrdPairs_lookup {A} (P : A -> A -> Prop) l i j x y :
  ForallOrdPairs P l -> l !! i = Some x -> l !! j = Some y -> (i < j)%nat -> P x y.
Proof.
  intros Hl. revert i j. induction Hl as [|z l Hz Hl IH]; intros i j Hi Hj Hij; [done|].
  destruct j as [|j]; [lia|]. destruct i as [|i]; simpl in *.
  - simplify_eq. rewrite Forall_lookup in Hz. by eapply Hz.
  - eapply IH; [done..|lia].
Qed.

Lemma disjoint_lookup seg l i j s t :
  segment_ok seg l -> l !! i = Some s -> l !! j = Some t -> i <> j -> disjoint_spans s t.
Proof.
  intros [_ Hd] Hi Hj Hne. destruct (decide (i < j)%nat).
  - by eapply ForallOrdPairs_lookup.
  - apply disjoint_spans_sym. eapply ForallOrdPairs_lookup; [done..|lia].
Qed.

Lemma exclusive seg l i j s t b :
  segment_ok seg l -> l !! i = Some s -> l !! j = Some t ->
  holds_byte s b -> holds_byte t b -> i = j.
Proof.
  intros Hok Hi Hj Hs Ht. destruct (decide (i = j)) as [|Hne]; [done|]. exfalso.
  pose proof (disjoint_lookup _ _ _ _ _ _ Hok Hi Hj Hne) as Hd.
  unfold holds_byte, disjoint_spans in *. lia.
Qed.

(** Spans are told apart by their offsets. *)
Lemma offset_unique seg l s t :
  segment_ok seg l -> s ∈ l -> t ∈ l -> offset s = offset t -> s = t.
Proof.
  intros Hok Hs Ht Ho. pose proof Hok as [Hl _]. rewrite Forall_forall in Hl.
  destruct (Hl s Hs) as (_ & _ & _ & _ & _ & ? & _), (Hl t Ht) as (_ & _ & _ & _ & _ & ? & _).
  apply list_elem_of_lookup in Hs as [i Hi], Ht as [j Hj].
  assert (i = j) as ->; [|congruence].
  eapply (exclusive seg l i j s t (offset s)); [done..| |]; unfold holds_byte; lia.
Qed.

Lemma disjoint_elem seg l s t :
  segment_ok seg l -> s ∈ l -> t ∈ l -> s <> t -> disjoint_spans s t.
Proof.
  intros Hok Hs Ht Hne. apply list_elem_of_lookup in Hs as [i Hi], Ht as [j Hj].
  eapply disjoint_lookup; [done..|]. congruence.
Qed.

(** ** Properties *)

(** C32: Exclusive ownership: after any sequence of [Register] and [Deregister]
    calls, in any order and with any outcome, every byte of a segment is held
    by at most one live span, every live span is that of a descriptor
    [Validate] accepted, is nonempty, and does not wrap the address space. *)
Theorem session_exclusive (ops : list op) (seg : string) (i j : nat) (s t : registeredSpan) (b : Z) :
  Forall op_typed ops ->
  live (session ops) seg !! i = Some s -> live (session ops) seg !! j = Some t ->
  span_ok seg s /\ (holds_byte s b -> holds_byte t b -> i = j).
Proof.
  intros Ho Hi Hj. pose proof (live_ok _ seg (session_ok ops Ho)) as Hok. split.
  - destruct Hok as [Hok _]. rewrite Forall_lookup in Hok. by eapply Hok.
  - intros. by eapply exclusive.
Qed.

Definition sampleTensor2 : TensorDescriptor :=
  MkTensor TensorF32 [4] [1] "seg0" 40 16 ["infer"] "".

Definition sampleOps : list op :=
  [OpRegister sampleTensor; OpRegister sampleTensor; OpRegister sampleTensor2;
   OpDeregister "seg0" 8].

Lemma sampleOps_typed : Forall op_typed sampleOps.
Proof.
  repeat constructor; cbn; unfold in_i64, in_u64; cbn; lia || exact I.
Qed.

Lemma session_exclusive_witness :
  exists s t, live (session sampleOps) "seg0" !! 0%nat = Some s /\
    live (session sampleOps) "seg0" !! 1%nat = Some t /\
    (holds_byte s 40 -> holds_byte t 40 -> 0%nat = 1%nat).
Proof.
  exists (MkSpan 16 24 sampleTensor), (MkSpan 40 16 sampleTensor2).
  assert (live (session sampleOps) "seg0" !! 0%nat = Some (MkSpan 16 24 sampleTensor)) as H1
    by (vm_compute; reflexivity).
  assert (live (session sampleOps) "seg0" !! 1%nat = Some (MkSpan 40 16 sampleTensor2)) as H2
    by (vm_compute; reflexivity).
  split; [exact H1|]. split; [exact H2|].
  exact (proj2 (session_exclusive sampleOps "seg0" 0 1 _ _ 40 sampleOps_typed H1 H2)).
Defined.

(** [Register] on a registry that satisfies the invariant succeeds exactly
    when the descriptor is valid, nonempty and shares no byte with a live span
    of its segment; success appends its span to that segment alone, and the
    invariant is kept. *)
Theorem register_spec (r : TensorRegistry) (d : TensorDescriptor) :
  registry_ok r -> typed d ->
  (is_ok (Register r d) = true <->
   Validate d = None /\ 0 < Size d /\
   forall s b, s ∈ live r (ShmName d) -> holds_byte s b -> ~ (Offset d <= b < Offset d + Size d)) /\
  (forall r', Register r d = Ok r' -> registry_ok r' /\
     forall seg, live r' seg =
       if decide (ShmName d = seg) then live r seg ++ [MkSpan (Offset d) (Size d) d] else live r seg).
Proof.
  intros Hr Ht. split.
  - split.
    + intros H. destruct (Register r d) as [r'|] eqn:E; [|done].
      apply Register_Ok in E as (Hv & Hz & Hd & _); [|done..]. split; [done|]. split; [done|].
      intros s b Hs Hb. rewrite Forall_forall in Hd. specialize (Hd s Hs).
      unfold disjoint_spans, holds_byte in *. simpl in *. lia.
    + intros (Hv & Hz & Hd). unfold Register. rewrite Hv. zbool.
      destruct (List.find _ _) as [s|] eqn:E; [|done]. exfalso.
      apply List.find_some in E as [Hin Hi]. apply list_elem_of_In in Hin.
      destruct (live_ok r (ShmName d) Hr) as [Hok _]. rewrite Forall_forall in Hok.
      pose proof (Hok s Hin) as Hs. destruct (Validate_end d Ht Hv) as (? & ? & ?).
      apply not_false_iff_true in Hi. rewrite (intersects_false (ShmName d)) in Hi by done.
      destruct Hs as (_ & _ & _ & _ & ? & ? & ?). unfold disjoint_spans in Hi. simpl in Hi.
      apply (Hd s (Z.max (offset s) (Offset d)) Hin); unfold holds_byte; lia.
  - intros r' E. split; [by eapply Register_preserves|].
    apply Register_Ok in E as (_ & _ & _ & ->); [|done..]. intros seg. rewrite live_insert.
    case_decide; congruence.
Qed.

Lemma register_spec_witness :
  is_ok (Register (session [OpRegister sampleTensor]) sampleTensor2) = true /\
  is_ok (Register (session [OpRegister sampleTensor]) sampleTensor) = false.
Proof.
  pose proof sampleOps_typed as Ht. apply Forall_cons in Ht as [Ht1 Ht].
  apply Forall_cons in Ht as [_ Ht]. apply Forall_cons in Ht as [Ht2 _].
  assert (registry_ok (session [OpRegister sampleTensor])) as Hr
    by (apply session_ok; constructor; [exact Ht1|constructor]).
  split; [vm_compute; reflexivity|].
  destruct (is_ok (Register (session [OpRegister sampleTensor]) sampleTensor)) eqn:E; [|reflexivity].
  destruct (proj1 (proj1 (register_spec _ sampleTensor Hr Ht1)) E) as (_ & _ & H).
  exfalso. apply (H (MkSpan 16 24 sampleTensor) 16);
    [vm_compute; left; reflexivity|unfold holds_byte; simpl; lia|simpl; lia].
Defined.

(** [Deregister] reports whether a span starts at the offset, removes that
    span and nothing else, keeps the invariant, and frees its bytes: the
    removed descriptor can be registered again at once. *)
Theorem deregister_spec (r : TensorRegistry) (seg : string) (o : Z) (s : registeredSpan) :
  registry_ok r -> s ∈ live r seg -> offset s = o -> typed (desc s) ->
  exists r', Deregister r seg o = (r', true) /\ registry_ok r' /\
    (forall t, t ∈ live r' seg <-> t ∈ live r seg /\ t <> s) /\
    (forall seg', seg' <> seg -> live r' seg' = live r seg') /\
    is_ok (Register r' (desc s)) = true.
Proof.
  intros Hr Hs Ho Ht. pose proof (live_ok r seg Hr) as Hok.
  pose proof (Deregister_preserves r seg o Hr) as Hr'. rewrite Deregister_spec in * by done.
  rewrite decide_True in * by (apply Exists_exists; by exists s). cbn [fst] in Hr'.
  eexists. split; [done|]. split; [done|].
  assert (live (<[seg := filter (fun s => offset s <> o) (live r seg)]> r) seg =
    filter (fun s => offset s <> o) (live r seg)) as Hl by (by rewrite live_insert, decide_True).
  assert (forall t, t ∈ filter (fun s => offset s <> o) (live r seg) <-> t ∈ live r seg /\ t <> s) as Hin.
  { intros t. rewrite list_elem_of_filter. split; intros [H1 H2].
    - split; [done|]. by intros ->.
    - split; [|done]. intros He. apply H2. eapply offset_unique; [done..|congruence]. }
  split; [by rewrite Hl|]. split; [intros seg' Hne; by rewrite live_insert, decide_False|].
  pose proof Hok as [Hf _]. rewrite Forall_forall in Hf.
  pose proof (Hf s Hs) as (Hv & Hseg & E1 & E2 & ? & ? & ?).
  unfold Register. rewrite Hv, Hseg, Hl. zbool.
  destruct (List.find _ _) as [t|] eqn:E; [|done]. exfalso.
  apply List.find_some in E as [Ht' Hi]. apply list_elem_of_In, Hin in Ht' as [Ht' Hne].
  apply not_false_iff_true in Hi. apply Hi. rewrite (intersects_false seg) by auto.
  rewrite <-E1, <-E2. pose proof (disjoint_elem seg _ s t Hok Hs Ht' (not_eq_sym Hne)) as Hd.
  exact Hd.
Qed.

Lemma deregister_spec_witness :
  exists r', Deregister (session sampleOps) "seg0" 16 = (r', true) /\
    is_ok (Register r' sampleTensor) = true.
Proof.
  pose proof sampleOps_typed as Ht. apply Forall_cons in Ht as [Ht _].
  destruct (deregister_spec (session sampleOps) "seg0" 16 (MkSpan 16 24 sampleTensor)
    (session_ok _ sampleOps_typed) ltac:(vm_compute; left; reflexivity) eq_refl Ht)
    as (r' & H & _ & _ & _ & H').
  exists r'. split; [exact H|exact H'].
Defined.

(** [Spans] returns the live descriptors of the segment sorted by offset,
    and there is only one such list: any other sorted arrangement of the live
    descriptors, as another sorting algorithm would produce, is the same. *)
Theorem spans_sorted_unique (r : TensorRegistry) (seg : string) (out : list TensorDescriptor) :
  registry_ok r ->
  (Spans r seg ≡ₚ desc <$> live r seg) /\ Sorted offset_le (Spans r seg) /\
  (out ≡ₚ desc <$> live r seg -> Sorted offset_le out -> out = Spans r seg).
Proof.
  intros Hr. pose proof (live_ok r seg Hr) as Hok. unfold Spans.
  assert (Transitive offset_le) by (intros a b c; unfold offset_le; lia).
  assert (Total offset_le) by (intros a b; unfold offset_le; lia).
  split; [apply merge_sort_Permutation|]. split; [by apply Sorted_merge_sort|].
  intros Hp Hs. apply (Sorted_unique_strong offset_le).
  - intros a b Ha Hb Hab Hba. rewrite Hp, list_elem_of_fmap in Ha.
    rewrite merge_sort_Permutation, list_elem_of_fmap in Hb.
    destruct Ha as (s & -> & Hs1), Hb as (t & -> & Ht1). f_equal.
    pose proof Hok as [Hf _]. rewrite Forall_forall in Hf.
    destruct (Hf s Hs1) as (_ & _ & Es & _), (Hf t Ht1) as (_ & _ & Et & _).
    eapply offset_unique; [done..|]. unfold offset_le in *. lia.
  - done.
  - by apply Sorted_merge_sort.
  - by rewrite merge_sort_Permutation.
Qed.

Lemma spans_sorted_unique_witness :
  Sorted offset_le (Spans (session sampleOps) "seg0") /\
  [sampleTensor; sampleTensor2] = Spans (session sampleOps) "seg0".
Proof.
  destruct (spans_sorted_unique (session sampleOps) "seg0" [sampleTensor; sampleTensor2]
    (session_ok _ sampleOps_typed)) as (_ & H1 & H2).
  split; [exact H1|]. apply H2.
  - vm_compute. apply Permutation_refl.
  - repeat constructor. unfold offset_le. simpl. lia.
Defined.
