(* ===== verification/Sha256.v ===== *)
(** * SHA-256 and HMAC

    What the source uses of Go's [crypto/sha256] and [crypto/hmac]: the hash of
    FIPS 180-4 and the keyed hash of FIPS 198-1, executable, with the published
    test vectors. *)

From S2P Require Import Prelude.
Local Open Scope Z_scope.

Definition add32 (x y : Z) : Z := (x + y) mod 2 ^ 32.

Definition rotr (n x : Z) : Z := Z.lor (Z.shiftr x n) (Z.shiftl x (32 - n) mod 2 ^ 32).

Definition Ch (x y z : Z) : Z := Z.lxor (Z.land x y) (Z.land (Z.lxor x (2 ^ 32 - 1)) z).
Definition Maj (x y z : Z) : Z := Z.lxor (Z.land x y) (Z.lxor (Z.land x z) (Z.land y z)).
Definition bigSigma0 (x : Z) : Z := Z.lxor (rotr 2 x) (Z.lxor (rotr 13 x) (rotr 22 x)).
Definition bigSigma1 (x : Z) : Z := Z.lxor (rotr 6 x) (Z.lxor (rotr 11 x) (rotr 25 x)).
Definition smallSigma0 (x : Z) : Z := Z.lxor (rotr 7 x) (Z.lxor (rotr 18 x) (Z.shiftr x 3)).
Definition smallSigma1 (x : Z) : Z := Z.lxor (rotr 17 x) (Z.lxor (rotr 19 x) (Z.shiftr x 10)).

Definition K256 : list Z := concat
  [[0x428a2f98; 0x71374491; 0xb5c0fbcf; 0xe9b5dba5; 0x3956c25b; 0x59f111f1; 0x923f82a4; 0xab1c5ed5];
   [0xd807aa98; 0x12835b01; 0x243185be; 0x550c7dc3; 0x72be5d74; 0x80deb1fe; 0x9bdc06a7; 0xc19bf174];
   [0xe49b69c1; 0xefbe4786; 0x0fc19dc6; 0x240ca1cc; 0x2de92c6f; 0x4a7484aa; 0x5cb0a9dc; 0x76f988da];
   [0x983e5152; 0xa831c66d; 0xb00327c8; 0xbf597fc7; 0xc6e00bf3; 0xd5a79147; 0x06ca6351; 0x14292967];
   [0x27b70a85; 0x2e1b2138; 0x4d2c6dfc; 0x53380d13; 0x650a7354; 0x766a0abb; 0x81c2c92e; 0x92722c85];
   [0xa2bfe8a1; 0xa81a664b; 0xc24b8b70; 0xc76c51a3; 0xd192e819; 0xd6990624; 0xf40e3585; 0x106aa070];
   [0x19a4c116; 0x1e376c08; 0x2748774c; 0x34b0bcb5; 0x391c0cb3; 0x4ed8aa4a; 0x5b9cca4f; 0x682e6ff3];
   [0x748f82ee; 0x78a5636f; 0x84c87814; 0x8cc70208; 0x90befffa; 0xa4506ceb; 0xbef9a3f7; 0xc67178f2]].

(** The chaining value: eight 32-bit words. *)
Record digest := MkDigest { dA : Z; dB : Z; dC : Z; dD : Z; dE : Z; dF : Z; dG : Z; dH : Z }.

Definition H256 : digest :=
  MkDigest 0x6a09e667 0xbb67ae85 0x3c6ef372 0xa54ff53a 0x510e527f 0x9b05688c 0x1f83d9ab 0x5be0cd19.

(** The message schedule, newest word first. *)
Fixpoint schedule (n : nat) (w : list Z) : list Z :=
  match n with
  | O => w
  | S n' =>
      let at_ i := nth i w 0 in
      schedule n' (add32 (add32 (smallSigma1 (at_ 1%nat)) (at_ 6%nat))
                     (add32 (smallSigma0 (at_ 14%nat)) (at_ 15%nat)) :: w)
  end.

Fixpoint chunks (n : nat) (count : nat) (l : list byte) : list (list byte) :=
  match count with
  | O => []
  | S c => take n l :: chunks n c (drop n l)
  end.

Definition round (d : digest) (kw : Z * Z) : digest :=
  let '(MkDigest a b c d' e f g h) := d in
  let t1 := add32 (add32 (add32 h (bigSigma1 e)) (add32 (Ch e f g) kw.1)) kw.2 in
  let t2 := add32 (bigSigma0 a) (Maj a b c) in
  MkDigest (add32 t1 t2) a b c (add32 d' t1) e f g.

Definition block (d : digest) (b : list byte) : digest :=
  let w := rev (schedule 48 (rev (be_get <$> chunks 4 16 b))) in
  let d' := fold_left round (zip K256 w) d in
  MkDigest (add32 (dA d) (dA d')) (add32 (dB d) (dB d')) (add32 (dC d) (dC d')) (add32 (dD d) (dD d'))
    (add32 (dE d) (dE d')) (add32 (dF d) (dF d')) (add32 (dG d) (dG d')) (add32 (dH d) (dH d')).

Definition padding (msg : list byte) : list byte :=
  msg ++ [z2b 0x80] ++ replicate (Z.to_nat ((55 - zlen msg) mod 64)) (z2b 0) ++ be_put 8 (8 * zlen msg).

Definition digestBytes (d : digest) : list byte :=
  be_put 4 (dA d) ++ be_put 4 (dB d) ++ be_put 4 (dC d) ++ be_put 4 (dD d) ++
  be_put 4 (dE d) ++ be_put 4 (dF d) ++ be_put 4 (dG d) ++ be_put 4 (dH d).

(** [sha256.Sum256] *)
Definition sha256 (msg : list byte) : list byte :=
  let p := padding msg in
  digestBytes (fold_left block (chunks 64 (length p / 64) p) H256).

Definition BlockSize : nat := 64.

Definition xorPad (x : Z) (key : list byte) : list byte :=
  (fun b => z2b (Z.lxor (b2z b) x)) <$> key.

(** [mac := hmac.New(sha256.New, key); mac.Write(data); mac.Sum(nil)] *)
Definition hmacSHA256 (key data : list byte) : list byte :=
  let k := if (BlockSize <? length key)%nat then sha256 key else key in
  let k := k ++ replicate (BlockSize - length k) (z2b 0) in
  sha256 (xorPad 0x5c k ++ sha256 (xorPad 0x36 k ++ data)).

(** [hmac.Equal], a constant-time equality test. *)
Definition hmacEqual (a b : list byte) : bool := bool_decide (a = b).

Lemma length_sha256 msg : length (sha256 msg) = 32%nat.
Proof. done. Qed.

Lemma length_hmac key data : length (hmacSHA256 key data) = 32%nat.
Proof. done. Qed.

Lemma hmacEqual_true a b : hmacEqual a b = true <-> a = b.
Proof. apply bool_decide_eq_true. Qed.

(** ** Test vectors *)

(** FIPS 180-4: the digest of the empty message and of "abc". *)
Example sha256_empty :
  be_get (sha256 []) = 0xe3b0c44298fc1c149afbf4c8996fb92427ae41e4649b934ca495991b7852b855.
Proof. vm_compute. reflexivity. Qed.

Example sha256_abc :
  be_get (sha256 (bytes_of_string "abc")) =
  0xba7816bf8f01cfea414140de5dae2223b00361a396177a9cb410ff61f20015ad.
Proof. vm_compute. reflexivity. Qed.

(** RFC 4231, test case 2. *)
Example hmac_rfc4231_2 :
  be_get (hmacSHA256 (bytes_of_string "Jefe") (bytes_of_string "what do ya want for nothing?")) =
  0x5bdcc146bf60754e6a042426089575c75a003f089d2739839dec58b964ec3843.
Proof. vm_compute. reflexivity. Qed.

(** RFC 4231, test case 6: a key longer than the block. *)
Example hmac_rfc4231_6 :
  be_get (hmacSHA256 (replicate 131 (z2b 0xaa))
    (bytes_of_string "Test Using Larger Than Block-Size Key - Hash Key First")) =
  0x60e431591ee0b67f0d8a26aacbf5b77f8e0bc6213728c5140546040f0ee37f54.
Proof. vm_compute. reflexivity. Qed.
