(* ===== verification/Integrity.v ===== *)
(** * Frame signatures: src/security/integrity/hmac.go *)

From S2P Require Import Prelude Sha256 Frame.
Local Open Scope Z_scope.

Definition Sign (key data : list byte) : list byte := hmacSHA256 key data.

Definition Verify (key data mac : list byte) : bool :=
  let expected := Sign key data in
  hmacEqual expected mac.

Lemma Verify_Sign key data : Verify key data (Sign key data) = true.
Proof. by apply hmacEqual_true. Qed.

Lemma Verify_true key data mac : Verify key data mac = true <-> mac = Sign key data.
Proof. unfold Verify. rewrite hmacEqual_true. naive_solver. Qed.

Lemma length_Sign key data : length (Sign key data) = MACSize.
Proof. apply length_hmac. Qed.
