(* ===== verification/Replay.v ===== *)
(** * Replay protection: src/security/replay/tracker.go

    The sliding-window tracker, its abstract specification (the set of all
    sequence numbers ever accepted) and the refinement between the two: the
    bounded window never accepts a number twice. *)

From S2P Require Import Prelude.
Local Open Scope Z_scope.

Definition defaultWindowSize : Z := 128.

Definition ErrReplay : error := ErrorNew "replay detected".

(** [maxSeen] and [windowSize] are [uint64]s; [seen] is the key set of the map. *)
Record Tracker := MkTracker {
  maxSeen : Z;
  windowSize : Z;
  seen : gset Z
}.

Definition NewTracker (ws : Z) : Tracker :=
  let ws := u64 ws in
  let ws := if ws =? 0 then defaultWindowSize else ws in
  MkTracker 0 ws ∅.

Definition cleanup (t : Tracker) : Tracker :=
  let cutoff := if windowSize t <? maxSeen t then u64 (maxSeen t - windowSize t) else 0 in
  MkTracker (maxSeen t) (windowSize t) (filter (fun seq => ~ (seq < cutoff)) (seen t)).

Definition Check (t : Tracker) (seq : Z) : Tracker * option error :=
  if seq =? 0 then (t, Some ErrReplay)
  else if maxSeen t <? seq then
    let t := cleanup (MkTracker seq (windowSize t) (seen t)) in
    (MkTracker (maxSeen t) (windowSize t) ({[ seq ]} ∪ seen t), None)
  else if windowSize t <? u64 (maxSeen t - seq) then (t, Some ErrReplay)
  else if bool_decide (seq ∈ seen t) then (t, Some ErrReplay)
  else (MkTracker (maxSeen t) (windowSize t) ({[ seq ]} ∪ seen t), None).

Definition Reset (t : Tracker) : Tracker := MkTracker 0 (windowSize t) ∅.

(** ** Runs *)

(** A run of [Check] calls, with the numbers it accepted, latest first. *)
Fixpoint run (t : Tracker) (seqs : list Z) : Tracker * list Z :=
  match seqs with
  | [] => (t, [])
  | s :: seqs' =>
      let '(t', err) := Check t s in
      let '(t'', acc) := run t' seqs' in
      (t'', match err with None => s :: acc | Some _ => acc end)
  end.

(** ** Specification *)

(** The tracker against the set of every number accepted since the last reset:
    [maxSeen] is the largest, and [seen] is the part of them inside the
    window. *)
Record tracks_accepted (t : Tracker) (accepted : gset Z) : Prop := TracksAccepted {
  ta_ws : 0 < windowSize t < 2 ^ 64;
  ta_max : 0 <= maxSeen t < 2 ^ 64;
  ta_range : forall s, s ∈ accepted -> 1 <= s <= maxSeen t;
  ta_top : maxSeen t = 0 \/ maxSeen t ∈ accepted;
  ta_seen : forall s, s ∈ seen t <-> s ∈ accepted /\ maxSeen t - windowSize t <= s
}.

(** What [Check] promises: a number is accepted exactly when it is positive, not
    older than the window and was never accepted before. *)
Definition fresh (t : Tracker) (accepted : gset Z) (seq : Z) : Prop :=
  1 <= seq /\ maxSeen t - windowSize t <= seq /\ seq ∉ accepted.

#[global] Instance fresh_dec t accepted seq : Decision (fresh t accepted seq).
Proof. unfold fresh. apply _. Defined.

Lemma NewTracker_ok ws : in_i64 ws -> tracks_accepted (NewTracker ws) ∅.
Proof.
  intros Hw. unfold NewTracker. pose proof (u64_range ws) as Hr. unfold in_u64, defaultWindowSize in *.
  split; cbn; [|lia|set_solver|by left|set_solver].
  destruct (u64 ws =? 0) eqn:E; breflect; lia.
Qed.

Lemma Reset_ok t accepted : tracks_accepted t accepted -> tracks_accepted (Reset t) ∅.
Proof. intros []. split; cbn; [done|lia|set_solver|by left|set_solver]. Qed.

Lemma Check_refines t accepted seq :
  tracks_accepted t accepted -> in_u64 seq ->
  if decide (fresh t accepted seq)
  then exists t', Check t seq = (t', None) /\ tracks_accepted t' ({[ seq ]} ∪ accepted) /\
    windowSize t' = windowSize t /\ maxSeen t' = Z.max (maxSeen t) seq
  else Check t seq = (t, Some ErrReplay).
Proof.
  intros [Hw Hm Hr Ht Hs] Hq. unfold in_u64 in Hq. unfold Check.
  destruct (seq =? 0) eqn:E0; breflect.
  { rewrite decide_False; [done|]. intros (? & _). lia. }
  destruct (maxSeen t <? seq) eqn:E1; breflect.
  { rewrite decide_True.
    - eexists. split; [done|]. cbn. split; [|split; [done|lia]].
      split; cbn; [done|lia| | |].
      + intros s Hin. assert (s = seq \/ s ∈ accepted) as [->|Hin'] by set_solver; [lia|].
        specialize (Hr s Hin'). lia.
      + right. set_solver.
      + intros s. rewrite elem_of_union, elem_of_singleton, elem_of_filter, Hs, elem_of_union, elem_of_singleton.
        destruct (windowSize t <? seq) eqn:E2; breflect.
        * rewrite u64_id by (unfold in_u64; lia). split; [|intuition lia].
          intros [->|[? [? ?]]]; [split; [by left|lia]|]. split; [by right|lia].
        * split; [|intros [[->|Hin] ?]; [by left|]; specialize (Hr s Hin); right; split; [lia|split; [done|lia]]].
          intros [->|[? [Hin ?]]]; [split; [by left|lia]|]. specialize (Hr s Hin). split; [by right|lia].
    - split; [lia|]. split; [lia|]. intros Hin. specialize (Hr seq Hin). lia. }
  rewrite u64_id by (unfold in_u64; lia).
  destruct (windowSize t <? maxSeen t - seq) eqn:E2; breflect.
  { rewrite decide_False; [done|]. intros (_ & ? & _). lia. }
  case_bool_decide as Hin.
  { rewrite decide_False; [done|]. intros (_ & _ & Hn). apply Hn. by apply Hs. }
  rewrite decide_True.
  - eexists. split; [done|]. cbn. split; [|split; [done|lia]].
    split; cbn; [done|done| | |].
    + intros s Hin'. assert (s = seq \/ s ∈ accepted) as [->|Hin''] by set_solver; [lia|]. auto.
    + destruct Ht as [->|Ht]; [lia|]. right. set_solver.
    + intros s. rewrite elem_of_union, elem_of_singleton, Hs, elem_of_union, elem_of_singleton.
      split; [|intuition lia]. intros [->|[? ?]]; [split; [by left|lia]|]. split; [by right|lia].
  - split; [lia|]. split; [lia|]. intros Hacc. apply Hin, Hs. split; [done|lia].
Qed.

Lemma run_refines seqs : forall t accepted t' acc,
  tracks_accepted t accepted -> Forall in_u64 seqs -> run t seqs = (t', acc) ->
  tracks_accepted t' (list_to_set acc ∪ accepted) /\ NoDup acc /\
  (forall s, s ∈ acc -> s ∉ accepted) /\ windowSize t' = windowSize t.
Proof.
  induction seqs as [|s seqs IH]; intros t accepted t' acc Ht Hs Hr; cbn [run] in Hr.
  { simplify_eq. replace (list_to_set [] ∪ accepted) with accepted by set_solver.
    split; [done|]. split; [constructor|set_solver]. }
  apply Forall_cons in Hs as [Hs0 Hs]. pose proof (Check_refines t accepted s Ht Hs0) as Hc.
  case_decide as Hf.
  - destruct Hc as (t1 & Hc & Ht1 & Hw & _). rewrite Hc in Hr.
    destruct (run t1 seqs) as [t2 acc2] eqn:E. simplify_eq.
    destruct (IH _ _ _ _ Ht1 Hs E) as (H1 & H2 & H3 & H4).
    replace (list_to_set (s :: acc2) ∪ accepted)
      with (list_to_set acc2 ∪ ({[ s ]} ∪ accepted)) by set_solver.
    split; [done|].
    split; [constructor; [|done]; intros Hin; apply (H3 s Hin); set_solver|].
    split; [|congruence]. intros x Hx. destruct Hf as (_ & _ & Hf).
    assert (x = s \/ x ∈ acc2) as [->|Hx'] by (apply elem_of_cons in Hx; tauto); [done|].
    specialize (H3 x Hx'). set_solver.
  - rewrite Hc in Hr. destruct (run t seqs) as [t2 acc2] eqn:E. simplify_eq. by eapply IH.
Qed.

Lemma run_accepts_all seqs : forall t accepted,
  tracks_accepted t accepted -> NoDup seqs ->
  Forall (fun s => 1 <= s < 2 ^ 64 /\ (s ∉ accepted) /\ maxSeen t - windowSize t <= s) seqs ->
  (forall a s b x, seqs = a ++ s :: b -> x ∈ a -> x - windowSize t <= s) ->
  snd (run t seqs) = seqs.
Proof.
  induction seqs as [|s seqs IH]; intros t accepted Ht Hnd Hf Hw; [done|]. cbn [run].
  apply Forall_cons in Hf as [(Hs1 & Hs2 & Hs3) Hf]. apply NoDup_cons in Hnd as [Hn Hnd].
  pose proof (Check_refines t accepted s Ht ltac:(unfold in_u64; lia)) as Hc.
  rewrite decide_True in Hc by (split; [lia|done]). destruct Hc as (t1 & -> & Ht1 & Hws & Hmx).
  destruct (run t1 seqs) as [t2 acc] eqn:E. cbn [snd]. f_equal.
  assert (snd (run t1 seqs) = seqs) as H; [|by rewrite E in H].
  eapply IH; [done|done| |].
  - apply Forall_forall. intros x Hx. rewrite Forall_forall in Hf.
    destruct (Hf x Hx) as (? & ? & ?). split; [done|]. split; [set_solver|].
    rewrite Hmx, Hws. apply list_elem_of_split in Hx as (l1 & l2 & ->).
    pose proof (Hw (s :: l1) x l2 s eq_refl ltac:(left)). lia.
  - intros a y b x -> Hx. rewrite Hws. eapply (Hw (s :: a)); [done|by right].
Qed.

(** The window as a set of consecutive integers. *)
Lemma seen_size t accepted : tracks_accepted t accepted -> Z.of_nat (size (seen t)) <= windowSize t + 1.
Proof.
  intros [Hw Hm Hr Ht Hs].
  set (lo := Z.max 1 (maxSeen t - windowSize t)).
  set (window := list_to_set (C := gset Z) (seqZ lo (windowSize t + 1))).
  assert (seen t ⊆ window) as Hsub.
  { intros s Hin. apply Hs in Hin as [Hin Hge]. specialize (Hr s Hin).
    unfold window. rewrite elem_of_list_to_set, elem_of_seqZ. lia. }
  apply subseteq_size in Hsub. unfold window in Hsub.
  rewrite size_list_to_set, length_seqZ in Hsub by apply NoDup_seqZ. lia.
Qed.

(** ** Properties *)

(** C29: [Check] implements its specification: on a tracker that stands for the
    set of all numbers accepted so far, a number is accepted exactly when it is
    positive, at most [windowSize] below the largest seen, and never accepted
    before; then the tracker stands for the set with the number added, and
    otherwise it is unchanged. The numbers in reach are [windowSize + 1], the
    largest included, one more than the documentation's window of the last N
    numbers. *)
Theorem check_spec (t : Tracker) (accepted : gset Z) (seq : Z) :
  tracks_accepted t accepted -> in_u64 seq ->
  if decide (fresh t accepted seq)
  then exists t', Check t seq = (t', None) /\ tracks_accepted t' ({[ seq ]} ∪ accepted) /\
    windowSize t' = windowSize t /\ maxSeen t' = Z.max (maxSeen t) seq
  else Check t seq = (t, Some ErrReplay).
Proof. apply Check_refines. Qed.

Lemma check_spec_witness : exists t', Check (NewTracker 0) 5 = (t', None) /\ maxSeen t' = 5.
Proof.
  pose proof (check_spec (NewTracker 0) ∅ 5
    (NewTracker_ok 0 ltac:(unfold in_i64; lia)) ltac:(unfold in_u64; lia)) as H.
  destruct (decide (fresh (NewTracker 0) ∅ 5)) as [Hf|Hf].
  - destruct H as (t' & H & _ & _ & Hm). exists t'. split; [exact H|exact Hm].
  - exfalso. apply Hf. split; [lia|]. split; [vm_compute; discriminate|]. vm_compute. discriminate.
Defined.

(** No replay: over any sequence of [uint64] numbers presented to a new
    tracker of any window size, in any order, no number is accepted twice, even
    after it has left the window and its entry was cleaned up. *)
Theorem no_replay (ws : Z) (seqs : list Z) :
  in_i64 ws -> Forall in_u64 seqs -> NoDup (snd (run (NewTracker ws) seqs)).
Proof.
  intros Hw Hs. destruct (run (NewTracker ws) seqs) as [t acc] eqn:E.
  by destruct (run_refines seqs _ ∅ t acc (NewTracker_ok ws Hw) Hs E) as (_ & H & _).
Qed.

Lemma no_replay_witness :
  snd (run (NewTracker 2) [1; 2; 1; 5; 2; 3; 3; 0]) = [1; 2; 5; 3] /\
  NoDup (snd (run (NewTracker 2) [1; 2; 1; 5; 2; 3; 3; 0])).
Proof.
  split; [vm_compute; reflexivity|].
  apply no_replay; solve_ranges.
Defined.

(** No false alarm: distinct positive numbers are all accepted as long as
    none arrives more than [windowSize] behind a number that came before it, so
    that in-order traffic and reordering within the window pass unharmed. *)
Theorem window_accepts (ws : Z) (seqs : list Z) :
  0 < ws < 2 ^ 63 -> NoDup seqs -> Forall (fun s => 1 <= s < 2 ^ 64) seqs ->
  (forall a s b x, seqs = a ++ s :: b -> x ∈ a -> x - ws <= s) ->
  snd (run (NewTracker ws) seqs) = seqs.
Proof.
  intros Hw Hn Hs Ha.
  assert (windowSize (NewTracker ws) = ws) as Hws.
  { unfold NewTracker. rewrite u64_id by (unfold in_u64; lia). cbn. by zbool. }
  eapply (run_accepts_all seqs _ ∅).
  - apply NewTracker_ok. unfold in_i64. lia.
  - done.
  - eapply Forall_impl; [exact Hs|]. intros s Hs'. cbv beta in Hs'.
    split; [done|]. split; [set_solver|]. rewrite Hws. change (maxSeen (NewTracker ws)) with 0. lia.
  - by rewrite Hws.
Qed.

Lemma window_accepts_witness : snd (run (NewTracker 4) [1; 3; 2; 6]) = [1; 3; 2; 6].
Proof.
  apply window_accepts; [lia|apply (bool_decide_unpack _); vm_compute; exact I|solve_ranges|].
  intros a s b x E Hx.
  do 5 (destruct a as [|? a]; [simplify_eq/=; repeat (apply elem_of_cons in Hx as [->|Hx]; [lia|]); by apply not_elem_of_nil in Hx|]).
  discriminate.
Defined.

(** Bounded memory: however many numbers a tracker has seen, it stores at
    most [windowSize + 1] of them. *)
Theorem tracker_bounded (ws : Z) (seqs : list Z) :
  in_i64 ws -> Forall in_u64 seqs ->
  Z.of_nat (size (seen (fst (run (NewTracker ws) seqs)))) <= windowSize (NewTracker ws) + 1.
Proof.
  intros Hw Hs. destruct (run (NewTracker ws) seqs) as [t acc] eqn:E.
  destruct (run_refines seqs _ ∅ t acc (NewTracker_ok ws Hw) Hs E) as (H & _ & _ & <-).
  by eapply seen_size.
Qed.

Lemma tracker_bounded_witness :
  Z.of_nat (size (seen (fst (run (NewTracker 2) [1; 2; 3; 4; 5; 6])))) <= 3.
Proof.
  apply (tracker_bounded 2 [1; 2; 3; 4; 5; 6]); solve_ranges.
Defined.
