(* ===== verification/Transport.v ===== *)
(** * Transports over a byte stream: src/transport/transport.go

    [ConnWrapper], the length-prefixed framing that the TCP, Unix-socket and
    Windows transports put around a [net.Conn], with the in-memory writer and
    reader it uses; and the interface a frame channel offers to the endpoints. *)

From S2P Require Import Prelude Frame.
Local Open Scope Z_scope.

(** ** The buffer and the reader of the file *)

Record limitedBuffer := MkLimitedBuffer { lb_data : list byte }.

#[global] Instance limitedBuffer_Write : Writer limitedBuffer :=
  fun p b => (None, MkLimitedBuffer (lb_data b ++ p)).

Definition Bytes (b : limitedBuffer) : list byte := lb_data b.

Record bytesReader := MkBytesReader { br_data : list byte; br_pos : nat }.

Definition newBytesReader (data : list byte) : bytesReader := MkBytesReader data 0.

#[global] Instance bytesReader_Read : Reader bytesReader :=
  fun n r =>
    if (length (br_data r) <=? br_pos r)%nat then (([], Some EOF), r)
    else
      let p := take n (drop (br_pos r) (br_data r)) in
      ((p, None), MkBytesReader (br_data r) (br_pos r + length p)).

#[global] Program Instance bytesReader_StreamReader : StreamReader bytesReader :=
  {| content r := drop (br_pos r) (br_data r) |}.
Next Obligation.
  intros n r Hr. cbv beta in *. unfold Read, bytesReader_Read.
  apply (f_equal length) in Hr. rewrite length_drop in Hr. simpl in Hr. by zbool.
Qed.
Next Obligation.
  intros n r Hr. cbv beta in *. unfold Read, bytesReader_Read.
  assert (br_pos r < length (br_data r))%nat.
  { apply Nat.nle_gt. intros Hl. by rewrite drop_ge in Hr. }
  zbool. eexists _, _. split; [done|]. cbn [br_pos br_data].
  rewrite length_take, length_drop. split; [|lia].
  rewrite <-drop_drop, <-(take_drop (S n) (drop (br_pos r) (br_data r))) at 1.
  f_equal. destruct (decide (S n <= length (br_data r) - br_pos r)%nat).
  - by rewrite Nat.min_l by lia.
  - rewrite Nat.min_r by lia. rewrite !drop_ge; [done|rewrite length_drop; lia..].
Qed.

(** ** [ConnWrapper] *)

(** [Send] encodes into a buffer first, then writes the 4-byte length and the
    frame with two writes. *)
Definition Send {W} `{Writer W} (f : Frame) : M W unit :=
  match Encode f (MkLimitedBuffer []) with
  | (Err e, _) => fail (Wrapf "encode frame: %w" e [])
  | (Ok _, buf) =>
      let frameBuf := Bytes buf in
      _ ← wrapf "write length: %w" (WriteAll (be_put 4 (u32 (zlen frameBuf))));
      wrapf "write frame: %w" (WriteAll frameBuf)
  end.

Definition Receive {R} `{Reader R} : M R Frame :=
  lenBuf ← wrapf "read length: %w" (ReadFull 4);
  let frameLen := be_get lenBuf in
  if MaxFrameSize <? frameLen then fail (Errorf "frame too large: %d bytes" [ArgInt frameLen])
  else
    frameBuf ← wrapf "read frame: %w" (ReadFull (Z.to_nat frameLen));
    lift (fst (Decode (newBytesReader frameBuf))).

(** ** The channel interface *)

(** One direction of a [transport.Connection]: the sending end, the receiving
    end and what is in flight between them as one state. *)
Class Channel (C : Type) := {
  chan_send : Frame -> M C unit;
  chan_recv : M C Frame
}.

(** The methods of a [transport.Connection] besides; for [ConnWrapper] they
    are those of the [net.Conn] in it. *)
Class Link (C : Type) := {
  link_Close : M C unit;
  link_RemoteAddr : C -> string
}.

Class NetConn (S : Type) := {
  net_Close : M S unit;
  net_RemoteAddr : S -> string
}.

#[global] Instance ConnWrapper_Link (S : Type) `{NetConn S} : Link S :=
  {| link_Close := net_Close; link_RemoteAddr := net_RemoteAddr |}.

(** What a channel promises its endpoints: it is a queue of frames.  [fits]
    says which frames a state takes, [deliver] what the receiver gets of one. *)
Class FrameQueue (C : Type) `{Channel C} := {
  chan_ok : C -> Prop;
  queued : C -> list Frame;
  fits : C -> Frame -> Prop;
  deliver : Frame -> Frame;
  send_enqueues c f : chan_ok c -> fits c f ->
    exists c', chan_send f c = (Ok tt, c') /\ chan_ok c' /\ queued c' = queued c ++ [deliver f];
  recv_dequeues c f q : chan_ok c -> queued c = f :: q ->
    exists c', chan_recv c = (Ok f, c') /\ chan_ok c' /\ queued c' = q
}.

(** A [net.Conn] pair: the bytes in flight. *)
Record pipe := MkPipe { in_flight : list byte }.

#[global] Instance pipe_Writer : Writer pipe :=
  fun p c => (None, MkPipe (in_flight c ++ p)).

#[global] Instance pipe_Reader : Reader pipe :=
  fun n c => let '(out, r) := Read n (in_flight c) in (out, MkPipe r).

#[global] Instance ConnWrapper_Channel : Channel pipe :=
  {| chan_send := Send; chan_recv := Receive |}.

(** ** Lemmas *)

Lemma Encode_limitedBuffer f :
  tooLarge f = false -> Encode f (MkLimitedBuffer []) = (Ok tt, MkLimitedBuffer (wire f)).
Proof.
  intros Hs. unfold Encode, wire. rewrite Hs.
  unfold mbind, M_bind, wrapfa, WriteAll, Write, limitedBuffer_Write. cbn [lb_data app].
  destruct (hasFlag _ _ && _); unfold mret, M_ret; cbn [lb_data];
    by rewrite ?app_nil_r, <-!app_assoc.
Qed.

(** The bytes of one message on the stream. *)
Definition envelope (f : Frame) : list byte := be_put 4 (u32 (zlen (wire f))) ++ wire f.

Lemma zlen_wire f :
  wf_frame f ->
  zlen (wire f) = 16 + zlen (Header f) + zlen (Payload f) + zlen (MAC f).
Proof.
  intros Hf. rewrite wire_wf by done. rewrite !zlen_app. unfold zlen at 1.
  rewrite length_preamble. unfold FrameFixedSize. lia.
Qed.

Lemma zlen_wire_bound f : wf_frame f -> 0 <= zlen (wire f) <= 2 ^ 20 + 48.
Proof.
  intros Hf. rewrite zlen_wire by done. pose proof Hf as (_ & Hs & HM).
  apply not_tooLarge in Hs as (? & ? & ?). pose proof (zlen_nonneg (MAC f)).
  assert (zlen (MAC f) <= 32); [|lia]. unfold zlen. rewrite HM.
  unfold MACSize. destruct (hasFlag _ _); lia.
Qed.

Lemma Send_pipe f c :
  tooLarge f = false -> Send f c = (Ok tt, MkPipe (in_flight c ++ envelope f)).
Proof.
  intros Hs. unfold Send. rewrite Encode_limitedBuffer by done. cbn [Bytes lb_data].
  unfold mbind, M_bind, wrapfa, WriteAll, Write, pipe_Writer. cbn [in_flight].
  unfold envelope. by rewrite <-app_assoc.
Qed.

Lemma Receive_tracks {R} `{StreamReader R} : tracks (R := R) Receive Receive.
Proof.
  unfold Receive. apply tracks_bind; [apply tracks_wrapf, tracks_ReadFull|]. intros lenBuf. cbv zeta.
  apply tracks_if; [apply tracks_fail|].
  apply tracks_bind; [apply tracks_wrapf, tracks_ReadFull|]. intros fb. apply tracks_lift.
Qed.

(** Reading an envelope off the front of the stream. *)
Lemma Receive_envelope f (k : list byte) :
  wf_frame f ->
  Receive (envelope f ++ k) =
  if MaxFrameSize <? zlen (wire f)
  then (Err (Errorf "frame too large: %d bytes" [ArgInt (zlen (wire f))]), wire f ++ k)
  else (Ok f, k).
Proof.
  intros Hf. pose proof (zlen_wire_bound f Hf) as Hb.
  unfold Receive, mbind, M_bind, envelope. rewrite <-app_assoc. unfold wrapfa at 1.
  rewrite ReadFull_bytes_ok by done. unfold u32. rewrite Z.mod_small by lia.
  rewrite be_get_put_small by lia. destruct (_ <? _); [done|].
  unfold wrapfa. rewrite ReadFull_bytes_ok by (unfold zlen; lia).
  destruct (Decode_tracks (newBytesReader (wire f))) as (r' & -> & _). cbn [fst].
  pose proof (Decode_wire f [] Hf) as Hd. rewrite app_nil_r in Hd.
  change (content (newBytesReader (wire f))) with (drop 0 (wire f)). by rewrite drop_0, Hd.
Qed.

(** ** A stream connection is a queue of frames *)

(** The frames a stream connection carries: well-formed, with an envelope
    within [MaxFrameSize]. *)
Definition streamable (f : Frame) : Prop := wf_frame f /\ zlen (wire f) <= MaxFrameSize.

(** The frames in flight, read off the bytes until they run out. *)
Fixpoint parse (fuel : nat) (bs : list byte) : list Frame :=
  match fuel with
  | O => []
  | S fuel' =>
      match Receive bs with
      | (Ok f, bs') => f :: parse fuel' bs'
      | (Err _, _) => []
      end
  end.

Definition pipe_queued (c : pipe) : list Frame := parse (length (in_flight c)) (in_flight c).

Definition envelopes (q : list Frame) : list byte := concat (envelope <$> q).

Definition pipe_ok (c : pipe) : Prop :=
  exists q, Forall streamable q /\ in_flight c = envelopes q.

Lemma Receive_streamable f k : streamable f -> Receive (envelope f ++ k) = (Ok f, k).
Proof. intros [Hf Hs]. rewrite Receive_envelope by done. by zbool. Qed.

Lemma parse_envelopes q : forall fuel,
  Forall streamable q -> (length q <= fuel)%nat -> parse fuel (envelopes q) = q.
Proof.
  induction q as [|f q IH]; intros fuel Hq Hf.
  - destruct fuel; [done|]. cbn [parse]. unfold Receive, mbind, M_bind. unfold wrapfa at 1.
    by rewrite ReadFull_bytes_short by (simpl; lia).
  - apply Forall_cons in Hq as [Hf0 Hq]. destruct fuel as [|fuel]; [simpl in Hf; lia|].
    unfold envelopes. rewrite fmap_cons. cbn [concat parse].
    rewrite Receive_streamable by done. f_equal. apply IH; [done|]. simpl in Hf. lia.
Qed.

Lemma length_envelopes q : (length q <= length (envelopes q))%nat.
Proof.
  unfold envelopes. induction q as [|f q IH]; [done|]. rewrite fmap_cons. cbn [concat].
  rewrite length_app. unfold envelope at 1. rewrite length_app, length_be_put. simpl. lia.
Qed.

Lemma pipe_queued_envelopes c q :
  Forall streamable q -> in_flight c = envelopes q -> pipe_queued c = q.
Proof.
  intros Hq Hc. unfold pipe_queued. rewrite Hc. apply parse_envelopes; [done|].
  apply length_envelopes.
Qed.

#[global] Program Instance pipe_StreamReader : StreamReader pipe :=
  {| content c := in_flight c |}.
Next Obligation. intros n [bs] Hc. simpl in *. by subst. Qed.
Next Obligation.
  intros n [bs] Hc. simpl in *. destruct (read_some (R := list byte) n bs) as (p & r & E & Hb & Hl);
    [done|].
  exists p, (MkPipe r). unfold Read at 1, pipe_Reader. cbn [in_flight]. by rewrite E.
Qed.

Lemma pipe_Receive c : Receive c = ((Receive (in_flight c)).1, MkPipe (Receive (in_flight c)).2).
Proof.
  destruct (Receive_tracks c) as ([k] & -> & Hk). simpl in *. by subst.
Qed.

#[global] Program Instance ConnWrapper_FrameQueue : FrameQueue pipe :=
  {| chan_ok := pipe_ok; queued := pipe_queued;
     fits _ f := streamable f; deliver f := f |}.
Next Obligation.
  intros c f (q & Hq & Hc) Hf. simpl in *. rewrite Send_pipe by apply Hf.
  assert (in_flight c ++ envelope f = envelopes (q ++ [f])) as He.
  { unfold envelopes. rewrite fmap_app, concat_app, Hc. simpl. by rewrite app_nil_r. }
  assert (Forall streamable (q ++ [f])) as Hq' by (apply Forall_app; split; [done|by apply Forall_singleton]).
  eexists. split; [done|]. split; [by exists (q ++ [f])|].
  rewrite (pipe_queued_envelopes c q), (pipe_queued_envelopes _ (q ++ [f])) by done. done.
Qed.
Next Obligation.
  intros c f q (q' & Hq & Hc) Hf. simpl in *.
  rewrite (pipe_queued_envelopes c q') in Hf by done. subst.
  apply Forall_cons in Hq as [Hf0 Hq]. unfold envelopes in Hc. rewrite fmap_cons in Hc.
  cbn [concat] in Hc. rewrite pipe_Receive, Hc, Receive_streamable by done. cbn [fst snd].
  eexists. split; [done|]. split; [by exists q|]. by apply pipe_queued_envelopes.
Qed.

(** ** Properties *)

Fixpoint sendAll (fs : list Frame) (c : pipe) : result unit * pipe :=
  match fs with
  | [] => (Ok tt, c)
  | f :: fs' => (_ ← Send f; sendAll fs') c
  end.

Fixpoint receiveN {R} `{Reader R} (n : nat) : M R (list Frame) :=
  match n with
  | O => mret []
  | S n' => f ← Receive; fs ← receiveN n'; mret (f :: fs)
  end.

Lemma sendAll_envelopes fs : forall c,
  Forall streamable fs -> sendAll fs c = (Ok tt, MkPipe (in_flight c ++ envelopes fs)).
Proof.
  induction fs as [|f fs IH]; intros c Hf; cbn [sendAll].
  - unfold envelopes. simpl. rewrite app_nil_r. by destruct c.
  - apply Forall_cons in Hf as [Hf0 Hf]. unfold mbind, M_bind.
    rewrite Send_pipe by apply Hf0. rewrite IH by done. cbn [in_flight].
    unfold envelopes. by rewrite fmap_cons, <-app_assoc.
Qed.

Lemma receiveN_tracks {R} `{StreamReader R} n : tracks (R := R) (receiveN n) (receiveN n).
Proof. induction n; cbn [receiveN]; eauto using Receive_tracks with tracks. Qed.

Lemma receiveN_envelopes fs : forall k,
  Forall streamable fs -> receiveN (length fs) (envelopes fs ++ k) = (Ok fs, k).
Proof.
  induction fs as [|f fs IH]; intros k Hf; [done|]. apply Forall_cons in Hf as [Hf0 Hf].
  unfold envelopes. rewrite fmap_cons. cbn [length receiveN concat]. rewrite <-app_assoc.
  unfold mbind, M_bind in *. rewrite Receive_streamable by done. by rewrite IH.
Qed.

(** C13: A stream connection delivers: any sequence of well-formed frames whose
    encodings, preamble and MAC included, are at most [MaxFrameSize] bytes long,
    sent one after another, is received complete, unaltered and in order,
    whatever else was already in flight behind it and however the network cuts
    the bytes. Longer frames are not covered: [Send] takes some that [Receive]
    refuses ([oversize_sent_not_received]). *)
Theorem stream_fifo {R} `{StreamReader R} (fs : list Frame) (r : R) (k : list byte) :
  Forall streamable fs ->
  content r = in_flight (snd (sendAll fs (MkPipe []))) ++ k ->
  fst (sendAll fs (MkPipe [])) = Ok tt /\
  exists r', receiveN (length fs) r = (Ok fs, r') /\ content r' = k.
Proof.
  intros Hf Hr. rewrite sendAll_envelopes in * by done. split; [done|].
  destruct (receiveN_tracks (length fs) r) as (r' & -> & Hr'). cbn [snd in_flight app] in Hr.
  rewrite Hr in *. rewrite receiveN_envelopes in * by done. eauto.
Qed.

Lemma stream_fifo_witness :
  exists r' : bytesReader,
    receiveN 2 (newBytesReader (in_flight (snd (sendAll [sampleFrame; sampleFrame] (MkPipe []))))) =
    (Ok [sampleFrame; sampleFrame], r') /\ content r' = [].
Proof.
  assert (streamable sampleFrame) as Hs by (repeat split; vm_compute; discriminate || reflexivity).
  apply (stream_fifo (R := bytesReader) [sampleFrame; sampleFrame] _ []);
    [by apply Forall_cons; split; [|apply Forall_singleton]|vm_compute; reflexivity].
Defined.

(** The two size limits disagree: a well-formed frame whose preamble, header,
    payload and MAC together exceed [MaxFrameSize] is encoded and sent without
    error, and the receiving side refuses it as too large, although header and
    payload are within [MaxFrameSize]. *)
Theorem oversize_sent_not_received (f : Frame) (k : list byte) :
  wf_frame f -> MaxFrameSize < 16 + zlen (Header f) + zlen (Payload f) + zlen (MAC f) ->
  Send f (MkPipe []) = (Ok tt, MkPipe (envelope f)) /\
  Receive (MkPipe (envelope f ++ k)) =
    (Err (Errorf "frame too large: %d bytes" [ArgInt (zlen (wire f))]), MkPipe (wire f ++ k)).
Proof.
  intros Hf Hl. rewrite Send_pipe by apply Hf. split; [done|].
  rewrite pipe_Receive. cbn [in_flight]. rewrite Receive_envelope, zlen_wire by done. by zbool.
Qed.
