(* ===== verification/Shm.v ===== *)
(** * The shared-memory ring buffer: src/transport/shm/shm.go

    [RingBuffer] with its byte buffer and 64-bit counters, and the
    [Connection] made of two of them.  [Write] and [Read] hold the buffer's
    mutex from their first access to the counters to their return, so a
    concurrent run is a sequence of them; the theorems say that every such
    sequence behaves as a bounded FIFO queue of frames. *)

From S2P Require Import Prelude Frame Transport.
Local Open Scope Z_scope.

Record Config := MkConfig { cfg_Name : string; BufferSize : Z; SlotCount : Z }.

Definition DefaultBufferSize : Z := 64 * 1024.
Definition DefaultSlotCount : Z := 256.
Definition MaxSlotSize : Z := 8192.

Record RingBuffer := MkRingBuffer {
  rb_name : string;
  buf : list byte;
  slots : Z;
  slotSize : Z;
  head : Z;
  tail : Z;
  hmacKey : list byte
}.

Definition SetHMACKey (key : list byte) (rb : RingBuffer) : RingBuffer :=
  MkRingBuffer (rb_name rb) (buf rb) (slots rb) (slotSize rb) (head rb) (tail rb) key.

(** The panic of a [make] whose length is out of range, as a value: on 64-bit
    platforms a slice has at most 2^48 bytes. *)
Definition panicMakeSlice : error := ErrorNew "runtime error: makeslice: len out of range".
Definition maxAlloc : Z := 2 ^ 48.

Definition NewRingBuffer (cfg : Config) : result RingBuffer :=
  let bufferSize := if BufferSize cfg <=? 0 then DefaultBufferSize else BufferSize cfg in
  let slotCount := if SlotCount cfg <=? 0 then DefaultSlotCount else SlotCount cfg in
  let slotSize := Z.quot bufferSize slotCount in
  let slotSize := if MaxSlotSize <? slotSize then MaxSlotSize else slotSize in
  let n := i64 (slotCount * slotSize) in
  if (n <? 0) || (maxAlloc <? n) then Err panicMakeSlice
  else Ok (MkRingBuffer (cfg_Name cfg) (replicate (Z.to_nat n) (z2b 0)) slotCount slotSize 0 0 []).

(** A run-time panic of an index or slice expression out of range, as a value. *)
Definition panicIndex : error := ErrorNew "runtime error: index out of range".

(** [copy(b[off:], data)] *)
Definition copyAt (off : nat) (data b : list byte) : list byte :=
  take off b ++ take (length b - off) data ++ drop (off + length data) b.

Definition RingBuffer_Write (frame : Frame) : M RingBuffer unit := fun rb =>
  let data := SignableBytes frame in
  if slotSize rb - 2 <? zlen data
  then (Err (Errorf "frame too large for slot (%d > %d)" [ArgInt (zlen data); ArgInt (slotSize rb - 2)]), rb)
  else if u64 (slots rb) <=? u64 (head rb - tail rb)
  then (Err (ErrorNew "ring buffer full (backpressure)"), rb)
  else
    let idx := i64 (head rb mod u64 (slots rb)) in
    let offset := Z.to_nat (idx * slotSize rb) in
    if (length (buf rb) <=? offset + 1)%nat then (Err panicIndex, rb)
    else
      let b := <[offset := z2b (Z.shiftr (zlen data) 8)]> (buf rb) in
      let b := <[(offset + 1)%nat := z2b (Z.land (zlen data) 0xFF)]> b in
      let b := copyAt (offset + 2) data b in
      (Ok tt, MkRingBuffer (rb_name rb) b (slots rb) (slotSize rb) (u64 (head rb + 1)) (tail rb) (hmacKey rb)).

(** [int(b[i])<<24 | int(b[i+1])<<16 | int(b[i+2])<<8 | int(b[i+3])] *)
Definition shiftInt (i : nat) (b : list byte) : Z :=
  Z.lor (Z.lor (Z.lor (Z.shiftl (b2z (byteAt i b)) 24) (Z.shiftl (b2z (byteAt (i + 1) b)) 16))
               (Z.shiftl (b2z (byteAt (i + 2) b)) 8)) (b2z (byteAt (i + 3) b)).

(** [int(b[i])<<8 | int(b[i+1])] *)
Definition shiftShort (i : nat) (b : list byte) : Z :=
  Z.lor (Z.shiftl (b2z (byteAt i b)) 8) (b2z (byteAt (i + 1) b)).

(** The part of [Read] that rebuilds the frame from the slot's data, at least
    [FrameFixedSize] bytes. *)
Definition unpack (data : list byte) : Frame :=
  let length := zlen data in
  let headerLen := shiftInt 8 data in
  let payloadLen := shiftInt 12 data in
  let pos := Z.of_nat FrameFixedSize in
  let hasHeader := (0 <? headerLen) && (pos + headerLen <=? length) in
  let header := if hasHeader then slice (Z.to_nat pos) (Z.to_nat (pos + headerLen)) data else [] in
  let pos := if hasHeader then pos + headerLen else pos in
  let payload := if (0 <? payloadLen) && (pos + payloadLen <=? length)
                 then slice (Z.to_nat pos) (Z.to_nat (pos + payloadLen)) data else [] in
  MkFrame (shiftShort 4 data) (byteAt 6 data) (byteAt 7 data) header payload [].

(** [None] is the nil frame of an empty buffer. *)
Definition RingBuffer_Read : M RingBuffer (option Frame) := fun rb =>
  if head rb <=? tail rb then (Ok None, rb)
  else
    let idx := i64 (tail rb mod u64 (slots rb)) in
    let offset := Z.to_nat (idx * slotSize rb) in
    if (length (buf rb) <=? offset + 1)%nat then (Err panicIndex, rb)
    else
      let n := shiftShort offset (buf rb) in
      if slotSize rb - 2 <? n then (Err (Errorf "invalid slot length (%d)" [ArgInt n]), rb)
      else if (length (buf rb) <? offset + 2 + Z.to_nat n)%nat then (Err panicIndex, rb)
      else
        let data := slice (offset + 2) (offset + 2 + Z.to_nat n) (buf rb) in
        let rb' := MkRingBuffer (rb_name rb) (buf rb) (slots rb) (slotSize rb) (head rb)
                     (u64 (tail rb + 1)) (hmacKey rb) in
        if n <? Z.of_nat FrameFixedSize
        then (Err (Errorf "slot data too short (%d bytes)" [ArgInt n]), rb')
        else (Ok (Some (unpack data)), rb').

Definition Len (rb : RingBuffer) : Z := i64 (u64 (head rb - tail rb)).

(** ** [Connection] *)

Definition Connection_Send (frame : Frame) : M RingBuffer unit := RingBuffer_Write frame.

(** [Receive] polls [rx]; at each [runtime.Gosched] the other side may write.
    [sched] lists, for each round, the frames it writes there; [None] is a
    receiver still polling when the schedule ends. *)
Definition peerWrites (fs : list Frame) (rb : RingBuffer) : RingBuffer :=
  foldl (fun rb f => snd (RingBuffer_Write f rb)) rb fs.

Fixpoint Connection_Receive (sched : list (list Frame)) : M RingBuffer (option Frame) := fun rb =>
  match RingBuffer_Read rb with
  | (Err e, rb') => (Err e, rb')
  | (Ok (Some frame), rb') => (Ok (Some frame), rb')
  | (Ok None, rb') =>
      match sched with
      | [] => (Ok None, rb')
      | fs :: sched' => Connection_Receive sched' (peerWrites fs rb')
      end
  end.

(** ** Specification: a bounded queue *)

(** What a frame keeps on its way through the ring: all but its MAC, which
    [SignableBytes] does not have. *)
Definition strip (f : Frame) : Frame :=
  MkFrame (Version f) (MsgType f) (Flags f) (Header f) (Payload f) [].

(** A full queue is reported by an error of its own; it is not, and does not
    wrap, [ErrBackpressure]. *)
Definition fifo_write (cap size : Z) (f : Frame) (q : list Frame) : result unit * list Frame :=
  let n := zlen (SignableBytes f) in
  if size - 2 <? n
  then (Err (Errorf "frame too large for slot (%d > %d)" [ArgInt n; ArgInt (size - 2)]), q)
  else if cap <=? zlen q then (Err (ErrorNew "ring buffer full (backpressure)"), q)
  else (Ok tt, q ++ [f]).

(** Frames come out in order, without their MACs.  An oversize frame has no
    signable bytes: it takes a slot and reads back as an error. *)
Definition fifo_read (q : list Frame) : result (option Frame) * list Frame :=
  match q with
  | [] => (Ok None, [])
  | f :: q' =>
      (if tooLarge f then Err (Errorf "slot data too short (%d bytes)" [ArgInt 0])
       else Ok (Some (strip f)), q')
  end.

Lemma write_splice o x y data b :
  (o + 2 + length data <= length b)%nat ->
  copyAt (o + 2) data (<[(o + 1)%nat := y]> (<[o := x]> b)) = splice o (x :: y :: data) b.
Proof.
  intros Hb. unfold copyAt, splice. rewrite !length_insert, (take_ge data) by lia.
  rewrite drop_insert_lt, drop_insert_lt by lia. cbn [length].
  replace (o + S (S (length data)))%nat with (o + 2 + length data)%nat by lia.
  change (x :: y :: data) with ([x; y] ++ data).
  rewrite <-(app_assoc [x; y]), (app_assoc (take o b)). f_equal.
  apply list_eq. intros k. destruct (decide (k < o)%nat) as [Hk|Hk].
  - rewrite lookup_take_lt, !list_lookup_insert_ne by lia.
    rewrite lookup_app_l by (rewrite length_take; lia). by rewrite lookup_take_lt.
  - rewrite lookup_app_r by (rewrite length_take; lia). rewrite length_take, Nat.min_l by lia.
    destruct (decide (k = o)) as [->|]; [|destruct (decide (k = o + 1)%nat) as [->|]].
    + rewrite Nat.sub_diag, lookup_take_lt, list_lookup_insert_ne by lia.
      by rewrite list_lookup_insert_eq by lia.
    + replace (o + 1 - o)%nat with 1%nat by lia. rewrite lookup_take_lt by lia.
      by rewrite list_lookup_insert_eq by (rewrite length_insert; lia).
    + rewrite lookup_take_ge by lia. destruct (k - o)%nat as [|[|]] eqn:E; try lia. done.
Qed.

(** ** The shifted words *)

Lemma put_short n : 0 <= n -> [z2b (Z.shiftr n 8); z2b (Z.land n 0xFF)] = be_put 2 n.
Proof.
  intros Hn. cbn [be_put]. f_equal. f_equal. change (8 * Z.of_nat 0) with 0. rewrite Z.shiftr_0_r.
  change 0xFF with (Z.ones 8). rewrite Z.land_ones by lia.
  unfold z2b. by rewrite Z.mod_mod by lia.
Qed.

Lemma shiftInt_preamble_header f k :
  tooLarge f = false -> shiftInt 8 (preamble f ++ k) = zlen (Header f).
Proof.
  intros (? & ? & ?)%not_tooLarge. unfold shiftInt. rewrite shiftInt_be.
  change (be_get (be_put 4 (u32 (zlen (Header f)))) = zlen (Header f)).
  unfold u32. rewrite Z.mod_small by lia. apply be_get_put_small. lia.
Qed.

Lemma shiftInt_preamble_payload f k :
  tooLarge f = false -> shiftInt 12 (preamble f ++ k) = zlen (Payload f).
Proof.
  intros (? & ? & ?)%not_tooLarge. unfold shiftInt. rewrite shiftInt_be.
  change (be_get (be_put 4 (u32 (zlen (Payload f)))) = zlen (Payload f)).
  unfold u32. rewrite Z.mod_small by lia. apply be_get_put_small. lia.
Qed.

Lemma shiftShort_preamble f k :
  in_u16 (Version f) -> shiftShort 4 (preamble f ++ k) = Version f.
Proof.
  intros Hv. unfold shiftShort. rewrite shiftShort_be.
  change (be_get (be_put 2 (Version f)) = Version f). by apply be_get_put_small.
Qed.

(** The conditional copy of [Read] gives back the part, empty or not. *)
Lemma part_slice (p l k : list byte) :
  (if (0 <? zlen l) && (zlen p + zlen l <=? zlen (p ++ l ++ k))
   then slice (Z.to_nat (zlen p)) (Z.to_nat (zlen p + zlen l)) (p ++ l ++ k) else []) = l.
Proof.
  rewrite !zlen_app. pose proof (zlen_nonneg k). destruct l as [|x l]; [done|].
  zbool; unfold zlen in *; simpl length in *; try lia.
  unfold slice. rewrite drop_app_length' by lia. by rewrite take_app_length' by (simpl; lia).
Qed.

Lemma unpack_SignableBytes f :
  tooLarge f = false -> in_u16 (Version f) -> unpack (SignableBytes f) = strip f.
Proof.
  intros Hs Hv. unfold SignableBytes. rewrite Hs. unfold unpack, strip. cbv zeta.
  rewrite shiftInt_preamble_header, shiftInt_preamble_payload, shiftShort_preamble by done.
  change (Z.of_nat FrameFixedSize) with (zlen (preamble f)).
  pose proof (part_slice (preamble f) (Header f) (Payload f)) as HH. rewrite HH.
  f_equal. pose proof (part_slice (preamble f ++ Header f) (Payload f) []) as HP.
  rewrite app_nil_r, <-app_assoc, zlen_app in HP. etransitivity; [|apply HP].
  destruct (Header f) as [|x h]; [|].
  - cbn [zlen length]. rewrite Z.add_0_r. done.
  - rewrite !zlen_app. pose proof (zlen_nonneg (Payload f)).
    assert (0 < zlen (x :: h)) by (unfold zlen; simpl; lia).
    assert ((0 <? zlen (x :: h)) &&
      (zlen (preamble f) + zlen (x :: h) <=? zlen (preamble f) + (zlen (x :: h) + zlen (Payload f)))
      = true) as -> by by zbool.
    done.
Qed.

(** ** The ring represents a queue *)

Definition slotOff (rb : RingBuffer) (k : Z) : nat := Z.to_nat ((k mod slots rb) * slotSize rb).

(** The record of a frame in its slot: its length and its signable bytes. *)
Definition slotRecord (f : Frame) : list byte :=
  be_put 2 (zlen (SignableBytes f)) ++ SignableBytes f.

Lemma length_slotRecord f : length (slotRecord f) = (2 + length (SignableBytes f))%nat.
Proof. unfold slotRecord. by rewrite length_app, length_be_put. Qed.

(** Position [k] holds the record [Write] makes of [f]. *)
Definition holds (rb : RingBuffer) (k : Z) (f : Frame) : Prop :=
  zlen (SignableBytes f) <= slotSize rb - 2 /\
  slice (slotOff rb k) (slotOff rb k + length (slotRecord f)) (buf rb) = slotRecord f.

Record represents (rb : RingBuffer) (q : list Frame) : Prop := {
  rep_slots : 0 < slots rb < 2 ^ 63;
  rep_size : 0 <= slotSize rb <= MaxSlotSize;
  rep_buf : zlen (buf rb) = slots rb * slotSize rb;
  rep_tail : 0 <= tail rb;
  rep_head : head rb = tail rb + zlen q;
  rep_cap : zlen q <= slots rb;
  rep_range : head rb < 2 ^ 64;
  rep_q i f : q !! i = Some f -> in_u16 (Version f) /\ holds rb (tail rb + Z.of_nat i) f
}.

(** A slot lies within the buffer. *)
Lemma slotOff_bound rb q k :
  represents rb q -> Z.of_nat (slotOff rb k) + slotSize rb <= zlen (buf rb).
Proof.
  intros H. rewrite (rep_buf _ _ H). pose proof (rep_slots _ _ H). pose proof (rep_size _ _ H).
  pose proof (Z.mod_pos_bound k (slots rb) ltac:(lia)). unfold slotOff. nia.
Qed.

(** Distinct positions less than a round apart have disjoint slots. *)
Lemma slotOff_disjoint rb q i j :
  represents rb q -> 0 < j - i < slots rb ->
  (Z.of_nat (slotOff rb i) + slotSize rb <= Z.of_nat (slotOff rb j) \/
   Z.of_nat (slotOff rb j) + slotSize rb <= Z.of_nat (slotOff rb i)).
Proof.
  intros H Hij. pose proof (rep_size _ _ H). pose proof (rep_slots _ _ H).
  pose proof (Z.mod_pos_bound i (slots rb) ltac:(lia)).
  pose proof (Z.mod_pos_bound j (slots rb) ltac:(lia)).
  assert (i mod slots rb <> j mod slots rb) as Hne.
  { intros E. assert ((j - i) mod slots rb = 0) as E0 by (by rewrite Zminus_mod, E, Z.sub_diag, Zmod_0_l).
    rewrite Z.mod_small in E0; lia. }
  unfold slotOff. rewrite !Z2Nat.id by nia.
  destruct (Z.lt_total (i mod slots rb) (j mod slots rb)) as [?|[?|?]]; [left|done|right]; nia.
Qed.

(** The index computed with the code's conversions. *)
Lemma slot_index rb q k :
  represents rb q -> Z.to_nat (i64 (k mod u64 (slots rb)) * slotSize rb) = slotOff rb k.
Proof.
  intros H. pose proof (rep_slots _ _ H). unfold slotOff. rewrite u64_id by (unfold in_u64; lia).
  pose proof (Z.mod_pos_bound k (slots rb) ltac:(lia)). rewrite i64_id; [done|unfold in_i64; lia].
Qed.

(** The state [Write] leaves when it stores [f]. *)
Definition enqueued (rb : RingBuffer) (f : Frame) : RingBuffer :=
  MkRingBuffer (rb_name rb) (splice (slotOff rb (head rb)) (slotRecord f) (buf rb))
    (slots rb) (slotSize rb) (head rb + 1) (tail rb) (hmacKey rb).

Lemma represents_enqueued rb q f :
  represents rb q -> in_u16 (Version f) -> head rb + 1 < 2 ^ 64 ->
  zlen (SignableBytes f) <= slotSize rb - 2 -> zlen q < slots rb ->
  represents (enqueued rb f) (q ++ [f]).
Proof.
  intros H Hv Hh Hd Hc. pose proof (slotOff_bound rb q (head rb) H) as Hb.
  pose proof (rep_head _ _ H) as Hhead. pose proof (zlen_nonneg q).
  assert (slotOff rb (head rb) + length (slotRecord f) <= length (buf rb))%nat as Hlen.
  { rewrite length_slotRecord. unfold zlen in *. lia. }
  destruct H. constructor; simpl; try done; try lia.
  - unfold zlen. rewrite length_splice; done.
  - rewrite zlen_app. unfold zlen at 2. simpl. lia.
  - rewrite zlen_app. unfold zlen at 2. simpl. lia.
  - intros i g. intros [Hi|[Hi Hg]]%lookup_app_Some; unfold holds; simpl buf; simpl slotSize;
      change (slotOff (enqueued rb f)) with (slotOff rb).
    + destruct (rep_q0 i g Hi) as [Hvg [Hdg Hsg]]. split; [done|]. split; [done|].
      etransitivity; [|exact Hsg]. apply lookup_lt_Some in Hi. unfold zlen in *.
      destruct (slotOff_disjoint rb q (tail rb + Z.of_nat i) (head rb)); [done|lia| |];
        (rewrite slice_splice_out; [done|done|rewrite !length_slotRecord; lia]).
    + destruct (i - length q)%nat as [|] eqn:E; [|by destruct n]. injection Hg as [= <-].
      split; [done|]. split; [done|].
      replace (tail rb + Z.of_nat i) with (head rb) by (unfold zlen in *; lia).
      by apply slice_splice_in.
Qed.

Lemma write_refines rb q f r q' :
  represents rb q -> in_u16 (Version f) -> head rb + 1 < 2 ^ 64 ->
  fifo_write (slots rb) (slotSize rb) f q = (r, q') ->
  exists rb', RingBuffer_Write f rb = (r, rb') /\ represents rb' q' /\
    slots rb' = slots rb /\ slotSize rb' = slotSize rb /\ head rb' <= head rb + 1.
Proof.
  intros H Hv Hh. unfold fifo_write, RingBuffer_Write. cbv zeta. rewrite (slot_index rb q) by done.
  pose proof (zlen_nonneg (SignableBytes f)) as Hd0.
  destruct (Z.ltb_spec (slotSize rb - 2) (zlen (SignableBytes f))) as [|Hd].
  { intros [= <- <-]. exists rb. split_and!; try done; lia. }
  pose proof (rep_slots _ _ H). pose proof (rep_tail _ _ H).
  pose proof (rep_head _ _ H) as Hhead. pose proof (zlen_nonneg q).
  rewrite (u64_id (slots rb)), (u64_id (head rb - tail rb)) by (unfold in_u64; lia).
  replace (head rb - tail rb) with (zlen q) by lia.
  destruct (Z.leb_spec (slots rb) (zlen q)) as [|Hc].
  { intros [= <- <-]. exists rb. split_and!; try done; lia. }
  intros [= <- <-]. exists (enqueued rb f).
  split; [|split_and!; [by apply represents_enqueued|done..|simpl; lia]].
  pose proof (slotOff_bound rb q (head rb) H) as Hb. unfold zlen in Hb, Hd. zbool.
  rewrite write_splice by lia. unfold enqueued, slotRecord. rewrite <-put_short by done.
  by rewrite u64_id by (unfold in_u64; lia).
Qed.

Lemma represents_dequeued rb f q :
  represents rb (f :: q) ->
  represents (MkRingBuffer (rb_name rb) (buf rb) (slots rb) (slotSize rb) (head rb)
                (tail rb + 1) (hmacKey rb)) q.
Proof.
  intros [Hs Hz Hb Ht Hh Hc Hr Hq]. unfold zlen in Hh, Hc. cbn [length] in Hh, Hc.
  constructor; simpl; try done; try (unfold zlen; lia).
  intros i g Hi. specialize (Hq (S i) g Hi). unfold holds, slotOff in *. simpl in *.
  by replace (tail rb + 1 + Z.of_nat i) with (tail rb + Z.of_nat (S i)) by lia.
Qed.

Lemma SignableBytes_length f :
  length (SignableBytes f) =
  if tooLarge f then 0%nat else (FrameFixedSize + length (Header f) + length (Payload f))%nat.
Proof. unfold SignableBytes. destruct (tooLarge f); [done|]. rewrite !length_app, length_preamble. lia. Qed.

Lemma slotRecord_prefix rb q k f :
  represents rb q -> holds rb k f ->
  shiftShort (slotOff rb k) (buf rb) = zlen (SignableBytes f) /\
  slice (slotOff rb k + 2) (slotOff rb k + 2 + length (SignableBytes f)) (buf rb) = SignableBytes f.
Proof.
  intros H [Hd Hs]. pose proof (rep_size _ _ H) as Hz. unfold MaxSlotSize in Hz.
  pose proof (zlen_nonneg (SignableBytes f)). unfold slice in *.
  rewrite length_slotRecord in Hs. unfold slotRecord in Hs.
  replace (slotOff rb k + (2 + length (SignableBytes f)) - slotOff rb k)%nat
    with (S (S (length (SignableBytes f)))) in Hs by lia.
  replace (slotOff rb k + 2 + length (SignableBytes f) - (slotOff rb k + 2))%nat
    with (length (SignableBytes f)) by lia.
  rewrite <-drop_drop.
  assert (forall i, byteAt (slotOff rb k + i) (buf rb) = byteAt i (drop (slotOff rb k) (buf rb)))
    as Hbyte by (intros i; unfold byteAt; by rewrite nth_skipn).
  unfold shiftShort. rewrite shiftShort_be, Hbyte.
  rewrite <-(Nat.add_0_r (slotOff rb k)) at 1. rewrite Hbyte.
  destruct (drop (slotOff rb k) (buf rb)) as [|x [|y B]]; try done.
  cbn [take app be_put] in Hs. injection Hs as Hx Hy HB. cbn [byteAt nth drop]. split; [|done].
  unfold byteAt, nth. rewrite Hx, Hy.
  change (be_get (be_put 2 (zlen (SignableBytes f))) = zlen (SignableBytes f)).
  apply be_get_put_small. lia.
Qed.

Lemma read_refines rb q r q' :
  represents rb q -> fifo_read q = (r, q') ->
  exists rb', RingBuffer_Read rb = (r, rb') /\ represents rb' q' /\
    slots rb' = slots rb /\ slotSize rb' = slotSize rb /\ head rb' = head rb.
Proof.
  intros H. pose proof (rep_head _ _ H) as Hh. unfold RingBuffer_Read. cbv zeta.
  rewrite (slot_index rb q) by done. destruct q as [|f q]; cbn [fifo_read].
  { intros [= <- <-]. change (zlen []) with 0 in Hh. zbool. by exists rb. }
  intros [= <- <-]. rewrite zlen_cons in Hh. pose proof (zlen_nonneg q).
  destruct (rep_q _ _ H 0%nat f eq_refl) as [Hv Hf]. rewrite Z.add_0_r in Hf.
  destruct (slotRecord_prefix rb _ _ f H Hf) as [Hn Hdata]. destruct Hf as [Hd _].
  pose proof (slotOff_bound rb _ (tail rb) H) as Hb. pose proof (rep_range _ _ H).
  pose proof (rep_tail _ _ H). rewrite Hn, u64_id by (unfold in_u64; lia).
  pose proof (zlen_nonneg (SignableBytes f)).
  replace (Z.to_nat (zlen (SignableBytes f))) with (length (SignableBytes f)) by (unfold zlen; lia).
  rewrite Hdata. unfold zlen in Hb, Hd, Hn |- *. zbool.
  eexists. split; [|split_and!; [by eapply represents_dequeued|done..]].
  rewrite SignableBytes_length. destruct (tooLarge f) eqn:Hs; [done|]. zbool.
  by rewrite unpack_SignableBytes.
Qed.

Lemma new_represents cfg :
  in_i64 (BufferSize cfg) -> in_i64 (SlotCount cfg) ->
  match NewRingBuffer cfg with
  | Ok rb => represents rb [] /\ head rb = 0
  | Err e => e = panicMakeSlice /\ maxAlloc < BufferSize cfg
  end.
Proof.
  intros Hb Hs. unfold in_i64 in *. unfold NewRingBuffer. cbv zeta.
  set (b := if BufferSize cfg <=? 0 then _ else _). set (s := if SlotCount cfg <=? 0 then _ else _).
  assert (0 < b < 2 ^ 63 /\ (maxAlloc < b -> maxAlloc < BufferSize cfg)) as [Hb' Hbig].
  { unfold b, DefaultBufferSize, maxAlloc. destruct (Z.leb_spec (BufferSize cfg) 0); lia. }
  assert (0 < s < 2 ^ 63) as Hs'.
  { unfold s, DefaultSlotCount. destruct (Z.leb_spec (SlotCount cfg) 0); lia. }
  clearbody b s. pose proof (Z.mul_quot_le b s ltac:(lia) ltac:(lia)) as Hq.
  pose proof (Z.quot_pos b s ltac:(lia) ltac:(lia)).
  assert (exists z, (if MaxSlotSize <? Z.quot b s then MaxSlotSize else Z.quot b s) = z /\
    0 <= z <= MaxSlotSize /\ s * z <= b) as (z & -> & Hz & Hsz).
  { unfold MaxSlotSize. generalize dependent (Z.quot b s). intros w Hw ?.
    destruct (Z.ltb_spec 8192 w); eexists; (split; [done|nia]). }
  rewrite i64_id by (unfold in_i64; nia). destruct ((s * z <? 0) || (maxAlloc <? s * z)) eqn:E.
  { split; [done|]. apply Hbig. apply orb_true_iff in E as [E|E]; breflect; nia. }
  split; [|done]. constructor; unfold zlen; simpl; try done; try lia. rewrite length_replicate. nia.
Qed.

Definition sampleRing : RingBuffer := MkRingBuffer "features" (replicate 64 (z2b 0)) 2 32 0 0 [].

Lemma sampleRing_represents : represents sampleRing [].
Proof. apply (new_represents (MkConfig "features" 64 2)); split; simpl; lia. Qed.

(** ** The ring as a frame channel *)

(** The model's outcome of a receiver that finds nothing and keeps polling. *)
Definition stillPolling : error := ErrorNew "still polling".

#[global] Instance Connection_Channel : Channel RingBuffer :=
  {| chan_send := Connection_Send;
     chan_recv := r ← Connection_Receive [];
                  match r with Some f => mret f | None => fail stillPolling end |}.

(** The frames stored between [tail] and [head]. *)
Definition ring_queued (rb : RingBuffer) : list Frame :=
  (fun i => let off := slotOff rb (tail rb + Z.of_nat i) in
            unpack (slice (off + 2) (off + 2 + Z.to_nat (shiftShort off (buf rb))) (buf rb)))
    <$> seq 0 (Z.to_nat (head rb - tail rb)).

Definition ring_ok (rb : RingBuffer) : Prop :=
  exists q, represents rb q /\ Forall (fun f => tooLarge f = false) q.

Definition ring_fits (rb : RingBuffer) (f : Frame) : Prop :=
  tooLarge f = false /\ in_u16 (Version f) /\ zlen (SignableBytes f) <= slotSize rb - 2 /\
  head rb - tail rb < slots rb /\ head rb + 1 < 2 ^ 64.

Lemma ring_queued_represents rb q :
  represents rb q -> Forall (fun f => tooLarge f = false) q -> ring_queued rb = strip <$> q.
Proof.
  intros H Hq. unfold ring_queued. pose proof (rep_head _ _ H).
  replace (Z.to_nat (head rb - tail rb)) with (length q) by (unfold zlen in *; lia).
  apply list_eq. intros i. rewrite !list_lookup_fmap.
  destruct (q !! i) as [f|] eqn:Hi; simpl.
  - rewrite lookup_seq_lt by by apply lookup_lt_Some in Hi. simpl.
    destruct (rep_q _ _ H i f Hi) as [Hv Hf].
    destruct (slotRecord_prefix rb q _ f H Hf) as [-> Hd]. unfold zlen. rewrite Nat2Z.id, Hd.
    f_equal. apply unpack_SignableBytes; [|done]. by eapply Forall_lookup_1 in Hq.
  - by rewrite lookup_seq_ge by by apply lookup_ge_None in Hi.
Qed.

#[global] Program Instance Connection_FrameQueue : FrameQueue RingBuffer :=
  {| chan_ok := ring_ok; queued := ring_queued; fits := ring_fits; deliver := strip |}.
Next Obligation.
  intros rb f (q & Hq & Hs) (Ht & Hv & Hd & Hc & Hh). pose proof (rep_head _ _ Hq).
  destruct (write_refines rb q f (Ok tt) (q ++ [f])) as (rb' & E & Hr' & _); try done.
  { unfold fifo_write. by zbool. }
  assert (Forall (fun f => tooLarge f = false) (q ++ [f])) as Hs'
    by (apply Forall_app; split; [done|by apply Forall_singleton]).
  exists rb'. split; [done|]. split; [by exists (q ++ [f])|].
  by rewrite (ring_queued_represents rb q), (ring_queued_represents rb' (q ++ [f])), fmap_app.
Qed.
Next Obligation.
  intros rb f q (q' & Hq & Hs) Hf. rewrite (ring_queued_represents rb q') in Hf by done.
  destruct q' as [|g q']; [done|]. rewrite fmap_cons in Hf. injection Hf as <- <-.
  apply Forall_cons in Hs as [Hg Hs].
  destruct (read_refines rb (g :: q') (Ok (Some (strip g))) q') as (rb' & E & Hr' & _); [done| |].
  { simpl. by rewrite Hg. }
  exists rb'. unfold chan_recv, Connection_Channel, mbind, M_bind. cbn [Connection_Receive].
  rewrite E. split; [done|]. split; [by exists q'|]. by apply ring_queued_represents.
Qed.

(** ** Properties *)

Inductive ring_op := OpWrite (f : Frame) | OpRead.

Inductive ring_out := OutWrite (r : result unit) | OutRead (r : result (option Frame)).

Fixpoint ring_run (ops : list ring_op) (rb : RingBuffer) : list ring_out :=
  match ops with
  | [] => []
  | OpWrite f :: ops' =>
      let '(r, rb') := RingBuffer_Write f rb in OutWrite r :: ring_run ops' rb'
  | OpRead :: ops' => let '(r, rb') := RingBuffer_Read rb in OutRead r :: ring_run ops' rb'
  end.

Fixpoint fifo_run (cap size : Z) (ops : list ring_op) (q : list Frame) : list ring_out :=
  match ops with
  | [] => []
  | OpWrite f :: ops' =>
      let '(r, q') := fifo_write cap size f q in OutWrite r :: fifo_run cap size ops' q'
  | OpRead :: ops' => let '(r, q') := fifo_read q in OutRead r :: fifo_run cap size ops' q'
  end.

(** The frame of an operation has a [uint16] version. *)
Definition op_typed (op : ring_op) : Prop :=
  match op with OpWrite f => in_u16 (Version f) | OpRead => True end.

Lemma ring_run_refines ops : forall rb q,
  represents rb q -> Forall op_typed ops -> head rb + zlen ops < 2 ^ 64 ->
  ring_run ops rb = fifo_run (slots rb) (slotSize rb) ops q.
Proof.
  induction ops as [|[f|] ops IH]; intros rb q H Ht Hh; [done| |];
    apply Forall_cons in Ht as [Hf Ht]; rewrite zlen_cons in Hh;
    pose proof (zlen_nonneg ops); cbn [ring_run fifo_run].
  - destruct (fifo_write _ _ f q) as [r q'] eqn:E.
    destruct (write_refines rb q f r q') as (rb' & -> & Hr & Hs & Hz & Hh'); [done|done|lia|done|].
    rewrite <-Hs, <-Hz. f_equal. apply IH; [done|done|lia].
  - destruct (fifo_read q) as [r q'] eqn:E.
    destruct (read_refines rb q r q') as (rb' & -> & Hr & Hs & Hz & Hh'); [done|done|].
    rewrite <-Hs, <-Hz. f_equal. apply IH; [done|done|lia].
Qed.

(** C14: The ring buffer refines a bounded FIFO queue: for every configuration
    and every sequence of fewer than 2^64 writes and reads, in any
    interleaving, the byte buffer with its wrapping slots gives exactly the
    results of the abstract queue of [slots] frames: frames come out in order
    and without their MACs, a frame too large for a slot and a full queue are
    refused with plain errors, an oversize frame reads back as an error, and
    nothing panics.  Making the ring panics only for buffers of more than 2^48
    bytes. *)
Theorem ring_refines_fifo (cfg : Config) (ops : list ring_op) :
  in_i64 (BufferSize cfg) -> in_i64 (SlotCount cfg) ->
  Forall op_typed ops -> zlen ops < 2 ^ 64 ->
  match NewRingBuffer cfg with
  | Ok rb => ring_run ops rb = fifo_run (slots rb) (slotSize rb) ops []
  | Err e => e = panicMakeSlice /\ maxAlloc < BufferSize cfg
  end.
Proof.
  intros Hb Hs Ht Hl. pose proof (new_represents cfg Hb Hs) as H. destruct (NewRingBuffer cfg) as [rb|e]; [|done].
  destruct H as [H Hh]. apply ring_run_refines; [done|done|lia].
Qed.

Lemma ring_refines_fifo_witness :
  let ops := [OpWrite sampleFrame; OpWrite sampleFrame; OpWrite sampleFrame; OpRead; OpRead; OpRead] in
  NewRingBuffer (MkConfig "features" 64 2) = Ok sampleRing /\
  fifo_run 2 32 ops [] =
    [OutWrite (Ok tt); OutWrite (Ok tt); OutWrite (Err (ErrorNew "ring buffer full (backpressure)"));
     OutRead (Ok (Some (strip sampleFrame))); OutRead (Ok (Some (strip sampleFrame)));
     OutRead (Ok None)] /\
  ring_run ops sampleRing = fifo_run 2 32 ops [].
Proof.
  split; [reflexivity|]. split; [vm_compute; reflexivity|].
  apply (ring_refines_fifo (MkConfig "features" 64 2)); [split; simpl; lia|split; simpl; lia| |reflexivity].
  repeat apply Forall_cons_2; try exact I; try (split; reflexivity || discriminate).
  apply Forall_nil_2.
Defined.

Lemma peerWrites_head rb q f fs :
  represents rb q -> zlen q < slots rb -> in_u16 (Version f) -> tooLarge f = false ->
  zlen (SignableBytes f) <= slotSize rb - 2 ->
  Forall (fun g => in_u16 (Version g)) fs -> head rb + zlen fs + 1 < 2 ^ 64 ->
  exists q', represents (peerWrites (f :: fs) rb) (q ++ f :: q').
Proof.
  intros H Hc Hv Hs Hd Hfs Hh. pose proof (zlen_nonneg fs).
  destruct (write_refines rb q f (Ok tt) (q ++ [f])) as (rb' & E & H' & _ & _ & Hh'); try done; try lia.
  { unfold fifo_write. by zbool. }
  unfold peerWrites. cbn [foldl]. rewrite E. cbn [snd]. clear E.
  assert (exists p, represents rb' (q ++ f :: p)) as [p Hp] by (by exists []).
  clear H' H Hc Hd. assert (head rb' + zlen fs < 2 ^ 64) as Hh2 by lia.
  clear Hh Hh'. revert rb' p Hp Hh2.
  induction Hfs as [|g fs Hg Hfs IH]; intros rb' p Hp Hh2; [by exists p|]. cbn [foldl].
  rewrite zlen_cons in Hh2. pose proof (zlen_nonneg fs).
  destruct (fifo_write (slots rb') (slotSize rb') g (q ++ f :: p)) as [r q'] eqn:E.
  destruct (write_refines rb' _ g r q' Hp Hg ltac:(lia) E) as (rb2 & -> & H2 & _ & _ & Hh3). cbn [snd].
  assert (exists p', q' = q ++ f :: p') as [p' ->].
  { revert E. unfold fifo_write. repeat case_match; intros [= _ <-]; try by exists p.
    exists (p ++ [g]). by rewrite <-app_assoc. }
  apply (IH ltac:(lia) rb2 p'); [done|lia].
Qed.

(** A receiver polling an empty ring gets the next frame the other side
    writes, whatever the number of empty rounds before it and whatever is
    written behind it, and gets it without its MAC. *)
Theorem receive_polls_until_written (rb : RingBuffer) (n : nat) (f : Frame) (fs : list Frame)
    (sched : list (list Frame)) :
  represents rb [] -> in_u16 (Version f) -> tooLarge f = false ->
  zlen (SignableBytes f) <= slotSize rb - 2 ->
  Forall (fun g => in_u16 (Version g)) fs -> head rb + zlen fs + 1 < 2 ^ 64 ->
  exists rb', Connection_Receive (replicate n [] ++ (f :: fs) :: sched) rb =
    (Ok (Some (strip f)), rb').
Proof.
  intros H Hv Hs Hd Hfs Hh.
  assert (RingBuffer_Read rb = (Ok None, rb)) as Hempty.
  { pose proof (rep_head _ _ H) as Hz. change (zlen []) with 0 in Hz. unfold RingBuffer_Read. by zbool. }
  induction n as [|n IH]; cbn [replicate app Connection_Receive]; rewrite Hempty; [|done].
  pose proof (rep_slots _ _ H).
  destruct (peerWrites_head rb [] f fs) as [q' Hq']; try done; [unfold zlen; simpl; lia|].
  destruct (read_refines _ _ (Ok (Some (strip f))) q' Hq') as (rb' & E & _).
  { simpl. by rewrite Hs. }
  exists rb'. destruct sched; cbn [Connection_Receive]; by rewrite E.
Qed.

Lemma receive_polls_until_written_witness :
  exists rb', Connection_Receive [[]; []; [sampleFrame; sampleFrame]] sampleRing =
    (Ok (Some (strip sampleFrame)), rb').
Proof.
  apply (receive_polls_until_written sampleRing 2 sampleFrame [sampleFrame] []).
  - exact sampleRing_represents.
  - split; reflexivity || discriminate.
  - reflexivity.
  - vm_compute; discriminate.
  - apply Forall_singleton. split; reflexivity || discriminate.
  - reflexivity.
Defined.

(** A frame over [MaxFrameSize] is accepted by [Write] and lost: its slot
    holds no data, and the reader gets an error in its place. *)
Theorem oversize_write_lost (rb : RingBuffer) (f : Frame) :
  represents rb [] -> in_u16 (Version f) -> head rb + 1 < 2 ^ 64 -> 2 <= slotSize rb ->
  tooLarge f = true ->
  exists rb' rb'', RingBuffer_Write f rb = (Ok tt, rb') /\
    RingBuffer_Read rb' = (Err (Errorf "slot data too short (%d bytes)" [ArgInt 0]), rb'') /\
    represents rb'' [].
Proof.
  intros H Hv Hh Hz Ht. pose proof (rep_slots _ _ H).
  destruct (write_refines rb [] f (Ok tt) [f]) as (rb' & -> & H' & _); try done.
  { unfold fifo_write, zlen. rewrite SignableBytes_length, Ht. simpl length. by zbool. }
  destruct (read_refines rb' [f] _ _ H' eq_refl) as (rb'' & E & H'' & _).
  rewrite Ht in E. eauto.
Qed.

Lemma oversize_write_lost_witness :
  let f := MkFrame 1 (z2b 105) (z2b 0) [] (repeat (z2b 0) (Z.to_nat (2 ^ 20 + 1))) [] in
  exists rb', RingBuffer_Write f sampleRing = (Ok tt, rb').
Proof.
  intros f. destruct (oversize_write_lost sampleRing f) as (rb' & _ & E & _).
  - exact sampleRing_represents.
  - split; reflexivity || discriminate.
  - reflexivity.
  - vm_compute; discriminate.
  - unfold tooLarge, zlen. cbn [Header Payload f]. rewrite repeat_length. vm_compute. reflexivity.
  - exists rb'. exact E.
Defined.
