(* ===== verification/ShmPair.v ===== *)
(** * Connections over shared rings: the type Connection of src/transport/shm/shm.go

    A [Connection] holds pointers to two rings, and the connection of the other
    side holds the same pointers the other way round, so the rings live in a
    store of addresses.  The theorem: whatever the two sides do in whatever
    order, each direction is a bounded queue of its own. *)

From S2P Require Import Prelude Frame Shm.
Local Open Scope string_scope.
Local Open Scope list_scope.
Local Open Scope Z_scope.

Definition Name (rb : RingBuffer) : string := rb_name rb.

(** The rings by address. *)
Abbreviation Rings := (gmap nat RingBuffer).

Record Connection := MkConnection { tx : nat; rx : nat; remote : string }.

Definition NewConnection (tx rx : nat) (remote : string) : Connection := MkConnection tx rx remote.

Definition panicNil : error := ErrorNew "runtime error: invalid memory address or nil pointer dereference".

(** A method of the ring at an address. *)
Definition onRing {A} (p : nat) (op : M RingBuffer A) : M Rings A := fun rs =>
  match rs !! p with
  | None => (Err panicNil, rs)
  | Some rb => let '(r, rb') := op rb in (r, <[p := rb']> rs)
  end.

Definition conn_Send (c : Connection) (frame : Frame) : M Rings unit := onRing (tx c) (Connection_Send frame).

Definition conn_Receive (c : Connection) (sched : list (list Frame)) : M Rings (option Frame) :=
  onRing (rx c) (Connection_Receive sched).

Definition conn_Close (c : Connection) : M Rings unit := mret tt.

Definition RemoteAddr (c : Connection) : string := remote c.

(** ** Two sides *)

(** One of the sides sends a frame, polls once for one, or closes. *)
Inductive conn_op := DoSend (f : Frame) | DoPoll | DoClose.

Inductive conn_out := Sent (r : result unit) | Polled (r : result (option Frame)) | Closed (r : result unit).

Definition connStep (c : Connection) (op : conn_op) : Rings -> conn_out * Rings := fun rs =>
  match op with
  | DoSend f => let '(r, rs) := conn_Send c f rs in (Sent r, rs)
  | DoPoll => let '(r, rs) := conn_Receive c [] rs in (Polled r, rs)
  | DoClose => let '(r, rs) := conn_Close c rs in (Closed r, rs)
  end.

(** A run of both sides; each step has the side that makes it. *)
Fixpoint connRun (steps : list (Connection * conn_op)) (rs : Rings) : list (Connection * conn_out) :=
  match steps with
  | [] => []
  | (c, op) :: steps' => let '(o, rs) := connStep c op rs in (c, o) :: connRun steps' rs
  end.

(** What a run does to the ring at [p], and the results it gets from it. *)
Definition ringOp (p : nat) (x : Connection * conn_op) : option ring_op :=
  match x.2 with
  | DoSend f => if decide (tx x.1 = p) then Some (OpWrite f) else None
  | DoPoll => if decide (rx x.1 = p) then Some OpRead else None
  | DoClose => None
  end.

Definition ringOut (p : nat) (x : Connection * conn_out) : option ring_out :=
  match x.2 with
  | Sent r => if decide (tx x.1 = p) then Some (OutWrite r) else None
  | Polled r => if decide (rx x.1 = p) then Some (OutRead r) else None
  | Closed _ => None
  end.

Lemma onRing_other {A} p q (op : M RingBuffer A) rs : p <> q -> snd (onRing p op rs) !! q = rs !! q.
Proof.
  intros Hpq. unfold onRing. destruct (rs !! p) as [rb|]; [|done]. destruct (op rb) as [r rb']. cbn [snd].
  by rewrite lookup_insert_ne.
Qed.

Lemma receive_once rb : Connection_Receive [] rb = RingBuffer_Read rb.
Proof. cbn [Connection_Receive]. by destruct (RingBuffer_Read rb) as [[[f|]|e] rb']. Qed.

(** The results from the ring at [p] are those of the operations on it alone. *)
Lemma connRun_ring p steps : forall rs rb,
  rs !! p = Some rb -> omap (ringOut p) (connRun steps rs) = ring_run (omap (ringOp p) steps) rb.
Proof.
  induction steps as [|[c op] steps IH]; intros rs rb Hp; [done|]. cbn [connRun]. destruct op as [f| |]; cbn [connStep].
  - pose proof (onRing_other (tx c) p (Connection_Send f) rs) as Ho. unfold conn_Send in *.
    destruct (decide (tx c = p)) as [Ep|Ep].
    + unfold onRing. rewrite Ep, Hp. unfold Connection_Send. cbn [omap list_omap]. unfold ringOp at 1. cbn [fst snd].
      rewrite decide_True by done. cbn [ring_run]. destruct (RingBuffer_Write f rb) as [r rb']. cbn [omap list_omap].
      unfold ringOut at 1. cbn [fst snd]. rewrite decide_True by done. f_equal. apply IH. by rewrite lookup_insert_eq.
    + specialize (Ho Ep). destruct (onRing (tx c) (Connection_Send f) rs) as [r rs']. cbn [snd] in Ho. cbn [omap list_omap].
      unfold ringOut at 1, ringOp at 1. cbn [fst snd]. rewrite !decide_False by done. apply IH. by rewrite Ho.
  - pose proof (onRing_other (rx c) p (Connection_Receive []) rs) as Ho. unfold conn_Receive in *.
    destruct (decide (rx c = p)) as [Ep|Ep].
    + unfold onRing. rewrite Ep, Hp, receive_once. cbn [omap list_omap]. unfold ringOp at 1. cbn [fst snd].
      rewrite decide_True by done. cbn [ring_run]. destruct (RingBuffer_Read rb) as [r rb']. cbn [omap list_omap].
      unfold ringOut at 1. cbn [fst snd]. rewrite decide_True by done. f_equal. apply IH. by rewrite lookup_insert_eq.
    + specialize (Ho Ep). destruct (onRing (rx c) (Connection_Receive []) rs) as [r rs']. cbn [snd] in Ho. cbn [omap list_omap].
      unfold ringOut at 1, ringOp at 1. cbn [fst snd]. rewrite !decide_False by done. apply IH. by rewrite Ho.
  - cbn [omap list_omap]. by apply IH.
Qed.

(** ** Properties *)

(** The two directions of a pair of connections are independent bounded
    queues: whatever the connections over two rings send, poll and close in
    whatever order, the sends into a ring and the polls of it get exactly the
    results of an abstract queue of its own. *)
Theorem duplex_refines_fifos (cfg cfg' : Config) (steps : list (Connection * conn_op)) :
  in_i64 (BufferSize cfg) -> in_i64 (SlotCount cfg) -> in_i64 (BufferSize cfg') -> in_i64 (SlotCount cfg') ->
  Forall (fun x => match x.2 with DoSend f => in_u16 (Version f) | _ => True end) steps -> zlen steps < 2 ^ 64 ->
  forall ab ba, NewRingBuffer cfg = Ok ab -> NewRingBuffer cfg' = Ok ba ->
  let outs := connRun steps (<[0%nat := ab]> (<[1%nat := ba]> ∅)) in
  omap (ringOut 0) outs = fifo_run (slots ab) (slotSize ab) (omap (ringOp 0) steps) [] /\
  omap (ringOut 1) outs = fifo_run (slots ba) (slotSize ba) (omap (ringOp 1) steps) [].
Proof.
  intros Hb Hs Hb' Hs' Ht Hl ab ba Ea Eb outs.
  pose proof (new_represents cfg Hb Hs) as Ra. pose proof (new_represents cfg' Hb' Hs') as Rb. rewrite Ea in Ra. rewrite Eb in Rb.
  destruct Ra as [Ra Ha], Rb as [Rb Hb0].
  assert (forall p, Forall op_typed (omap (ringOp p) steps) /\ zlen (omap (ringOp p) steps) <= zlen steps) as Hops.
  { intros p. clear -Ht. unfold zlen. induction Ht as [|[c op] steps Hx _ [IH1 IH2]]; [by split|].
    cbn [omap list_omap length]. destruct (ringOp p (c, op)) as [o|] eqn:E; [|split; [done|lia]].
    split; [|cbn [length]; lia]. apply Forall_cons. split; [|done].
    unfold ringOp in E. destruct op; cbn [fst snd] in *; repeat case_decide; by simplify_eq. }
  unfold outs. split.
  - rewrite (connRun_ring 0 steps _ ab) by by rewrite lookup_insert_eq. destruct (Hops 0%nat) as [H1 H2].
    apply ring_run_refines; [done|done|lia].
  - rewrite (connRun_ring 1 steps _ ba) by (rewrite lookup_insert_ne by done; by rewrite lookup_insert_eq).
    destruct (Hops 1%nat) as [H1 H2].
    apply ring_run_refines; [done|done|lia].
Qed.

Lemma duplex_refines_fifos_witness :
  let client := NewConnection 0 1 "server" in
  let server := NewConnection 1 0 "client" in
  let cfg := MkConfig "features" 64 2 in
  omap (ringOut 0) (connRun [(client, DoSend sampleFrame); (client, DoPoll); (client, DoClose); (server, DoPoll)]
    (<[0%nat := sampleRing]> (<[1%nat := sampleRing]> ∅))) =
  [OutWrite (Ok tt); OutRead (Ok (Some (strip sampleFrame)))].
Proof.
  intros client server cfg.
  rewrite (proj1 (duplex_refines_fifos cfg cfg
    [(client, DoSend sampleFrame); (client, DoPoll); (client, DoClose); (server, DoPoll)]
    ltac:(split; simpl; lia) ltac:(split; simpl; lia) ltac:(split; simpl; lia) ltac:(split; simpl; lia)
    ltac:(repeat constructor; discriminate) ltac:(reflexivity) sampleRing sampleRing eq_refl eq_refl)).
  vm_compute. reflexivity.
Defined.
