(* ===== verification/Time.v ===== *)
(** * Times: what the program uses of Go's package time

    An instant, its RFC 3339 text ([Time.Format] and [time.Parse] with the
    layout [RFC3339Nano], as src/core/endpoint.go calls them) and the
    comparisons the session and key lifetimes use.  The monotonic reading and
    the zone name of a [time.Time] are not modelled: the program does not
    depend on them. *)

From S2P Require Import Prelude.
Local Open Scope Z_scope.

(** Nanoseconds since January 1, year 1, 00:00:00 UTC, and the zone offset in
    seconds east of UTC. *)
Record Time := MkTime { wall : Z; offset : Z }.

#[global] Instance Time_eq_dec : EqDecision Time.
Proof. solve_decision. Defined.

Definition zeroTime : Time := MkTime 0 0.
Definition IsZero (t : Time) : bool := wall t =? 0.
Definition UTC (t : Time) : Time := MkTime (wall t) 0.

(** Durations in nanoseconds. *)
Definition Second : Z := 1000000000.
Definition Minute : Z := 60 * Second.
Definition Hour : Z := 60 * Minute.

(** [t.Add(d)], [t.After(u)] and [t.Sub(u)], which saturates. *)
Definition Add (t : Time) (d : Z) : Time := MkTime (wall t + d) (offset t).
Definition After (t u : Time) : bool := wall u <? wall t.
Definition Sub (t u : Time) : Z := Z.max (- 2 ^ 63) (Z.min (2 ^ 63 - 1) (wall t - wall u)).

(** ** The calendar *)

Definition isLeap (y : Z) : bool := (y mod 4 =? 0) && (negb (y mod 100 =? 0) || (y mod 400 =? 0)).

Definition daysIn (m y : Z) : Z :=
  if m =? 2 then (if isLeap y then 29 else 28)
  else if (m =? 4) || (m =? 6) || (m =? 9) || (m =? 11) then 30 else 31.

Definition daysPer400Years : Z := 365 * 400 + 97.
Definition daysPer100Years : Z := 365 * 100 + 24.
Definition daysPer4Years : Z := 365 * 4 + 1.

(** Days before month [m + 1] of a common year. *)
Definition daysBefore (m : Z) : Z :=
  nth (Z.to_nat m) [0; 31; 59; 90; 120; 151; 181; 212; 243; 273; 304; 334; 365] 0.

(** The year of a day counted from January 1, year 1, and the day of the year.
    A cycle of four centuries, years or leap years has three equal parts and a
    longer last one. *)
Definition yearOf (days : Z) : Z * Z :=
  let n400 := days / daysPer400Years in
  let d := days - n400 * daysPer400Years in
  let n100 := Z.min (d / daysPer100Years) 3 in
  let d := d - n100 * daysPer100Years in
  let n4 := d / daysPer4Years in
  let d := d - n4 * daysPer4Years in
  let n := Z.min (d / 365) 3 in
  (400 * n400 + 100 * n100 + 4 * n4 + n + 1, d - n * 365).

(** Month and day of the month of a day of the year. *)
Definition monthOf (leap : bool) (yday : Z) : Z * Z :=
  if leap && (yday =? 59) then (2, 29)
  else
    let day := if leap && (59 <? yday) then yday - 1 else yday in
    let month := day / 31 in
    let month := if daysBefore (month + 1) <=? day then month + 1 else month in
    (month + 1, day - daysBefore month + 1).

Definition civil (days : Z) : Z * Z * Z :=
  let '(y, yday) := yearOf days in
  let '(m, d) := monthOf (isLeap y) yday in (y, m, d).

Definition daysSinceEpoch (y m d : Z) : Z :=
  let y1 := y - 1 in
  365 * y1 + y1 / 4 - y1 / 100 + y1 / 400 +
  daysBefore (m - 1) + (if isLeap y && (2 <? m) then 1 else 0) + d - 1.

(** ** Decimal text *)

Definition digit (d : Z) : byte := z2b (48 + d).
Definition isDigit (b : byte) : bool := (48 <=? b2z b) && (b2z b <=? 57).
Definition digitVal (b : byte) : Z := b2z b - 48.

(** The [n] low decimal digits, most significant first. *)
Fixpoint decimals (n : nat) (x : Z) : list byte :=
  match n with
  | O => []
  | S m => decimals m (x / 10) ++ [digit (x mod 10)]
  end.

(** The number of decimal digits of [x], at least 1, by repeated division. *)
Fixpoint numDigits (fuel : nat) (x : Z) : nat :=
  match fuel with
  | O => 1
  | S fuel' => if x <? 10 then 1 else S (numDigits fuel' (x / 10))
  end.

(** [appendInt]: decimal, padded with zeros to [width]; 20 digits hold any
    64-bit value. *)
Definition appendInt (x : Z) (width : nat) : list byte :=
  let u := Z.abs x in
  (if x <? 0 then [z2b 45] else []) ++ decimals (Nat.max width (numDigits 20 u)) u.

Fixpoint trimZeros (rev : list byte) : list byte :=
  match rev with
  | b :: rev' => if b2z b =? 48 then trimZeros rev' else rev
  | [] => []
  end.

(** [appendNano] for [.999999999]: trailing zeros and a bare point dropped. *)
Definition appendNano (nsec : Z) : list byte :=
  if nsec =? 0 then [] else z2b 46 :: reverse (trimZeros (reverse (decimals 9 nsec))).

(** [Format(time.RFC3339Nano)] *)
Definition FormatRFC3339Nano (t : Time) : list byte :=
  let abs := wall t + offset t * Second in
  let '(y, m, d) := civil (abs / (24 * Hour)) in
  let tod := abs mod (24 * Hour) in
  let zone := Z.quot (offset t) 60 in
  appendInt y 4 ++ [z2b 45] ++ appendInt m 2 ++ [z2b 45] ++ appendInt d 2 ++ [z2b 84] ++
  appendInt (tod / Hour) 2 ++ [z2b 58] ++ appendInt (tod / Minute mod 60) 2 ++ [z2b 58] ++
  appendInt (tod / Second mod 60) 2 ++ appendNano (tod mod Second) ++
  if offset t =? 0 then [z2b 90]
  else [if zone <? 0 then z2b 45 else z2b 43] ++
       appendInt (Z.abs zone / 60) 2 ++ [z2b 58] ++ appendInt (Z.abs zone mod 60) 2.

(** ** [time.Parse] *)

Definition skip (c : Z) (v : list byte) : option (list byte) :=
  match v with
  | b :: v' => if b2z b =? c then Some v' else None
  | [] => None
  end.

Definition getnum (fixed : bool) (v : list byte) : option (Z * list byte) :=
  match v with
  | a :: v' =>
      if isDigit a then
        match v' with
        | b :: v'' => if isDigit b then Some (digitVal a * 10 + digitVal b, v'')
                      else if fixed then None else Some (digitVal a, v')
        | [] => if fixed then None else Some (digitVal a, v')
        end
      else None
  | [] => None
  end.

(** The value of a digit string. *)
Definition atoi (ds : list byte) : Z := foldl (fun n b => n * 10 + digitVal b) 0 ds.

Definition getyear (v : list byte) : option (Z * list byte) :=
  if (4 <=? length v)%nat && forallb isDigit (take 4 v) then Some (atoi (take 4 v), drop 4 v) else None.

Fixpoint digitRun (v : list byte) : list byte :=
  match v with
  | b :: v' => if isDigit b then b :: digitRun v' else []
  | [] => []
  end.

Definition commaOrPeriod (b : byte) : bool := (b2z b =? 46) || (b2z b =? 44).

(** The optional fraction: at most nine digits count. *)
Definition getnano (v : list byte) : Z * list byte :=
  match v with
  | c :: v' =>
      if commaOrPeriod c then
        match digitRun v' with
        | [] => (0, v)
        | run => let ds := take 9 run in
                 (atoi ds * 10 ^ (9 - zlen ds), drop (length run) v')
        end
      else (0, v)
  | [] => (0, [])
  end.

Definition inRange (lo hi x : Z) : option unit :=
  if (lo <=? x) && (x <=? hi) then Some tt else None.

(** [Z07:00] at the end of the value. *)
Definition getzone (v : list byte) : option (Z * list byte) :=
  match v with
  | c :: v' =>
      if b2z c =? 90 then Some (0, v')
      else
        '(hr, v) ← getnum true v'; v ← skip 58 v; '(mm, v) ← getnum true v;
        _ ← inRange 0 24 hr; _ ← inRange 0 60 mm;
        let zoneOffset := (hr * 60 + mm) * 60 in
        if b2z c =? 43 then Some (zoneOffset, v)
        else if b2z c =? 45 then Some (- zoneOffset, v) else None
  | [] => None
  end.

Definition ParseRFC3339Nano (v : list byte) : option Time :=
  '(year, v) ← getyear v; v ← skip 45 v;
  '(month, v) ← getnum true v; _ ← inRange 1 12 month; v ← skip 45 v;
  '(day, v) ← getnum true v; v ← skip 84 v;
  '(hour, v) ← getnum false v; _ ← inRange 0 23 hour; v ← skip 58 v;
  '(min, v) ← getnum true v; _ ← inRange 0 59 min; v ← skip 58 v;
  '(sec, v) ← getnum true v; _ ← inRange 0 59 sec;
  let '(nsec, v) := getnano v in
  '(off, v) ← getzone v;
  match v with
  | _ :: _ => None
  | [] =>
      _ ← inRange 1 (daysIn month year) day;
      let local := daysSinceEpoch year month day * (24 * Hour) +
                   hour * Hour + min * Minute + sec * Second + nsec in
      Some (MkTime (local - off * Second) off)
  end.

(** ** The calendar is right *)

(** The shape of a year number: century, leap cycle and year within it. *)
Lemma year_parts e c q n :
  0 <= c <= 3 -> 0 <= q <= 24 -> 0 <= n <= 3 ->
  let y1 := 400 * e + 100 * c + 4 * q + n in
  y1 / 4 = 100 * e + 25 * c + q /\ y1 / 100 = 4 * e + c /\ y1 / 400 = e /\
  isLeap (y1 + 1) = (n =? 3) && (negb (q =? 24) || (c =? 3)).
Proof.
  intros Hc Hq Hn y1. unfold y1. split_and!; try (Z.to_euclidean_division_equations; lia).
  unfold isLeap. destruct (Z.eqb_spec n 3) as [->|].
  - replace ((400 * e + 100 * c + 4 * q + 3 + 1) mod 4) with 0
      by (Z.to_euclidean_division_equations; lia).
    destruct (Z.eqb_spec q 24) as [->|]; [destruct (Z.eqb_spec c 3) as [->|]|].
    + replace ((400 * e + 100 * 3 + 4 * 24 + 3 + 1) mod 400) with 0
        by (Z.to_euclidean_division_equations; lia). simpl. apply orb_true_r.
    + replace ((400 * e + 100 * c + 4 * 24 + 3 + 1) mod 100) with 0
        by (Z.to_euclidean_division_equations; lia). simpl.
      apply Z.eqb_neq. Z.to_euclidean_division_equations; lia.
    + simpl. apply orb_true_iff. left. apply negb_true_iff, Z.eqb_neq.
      replace (400 * e + 100 * c + 4 * q + 3 + 1) with (4 * q + 4 + (4 * e + c) * 100) by lia.
      rewrite Z_mod_plus_full, Z.mod_small; lia.
  - simpl. apply andb_false_iff. left. apply Z.eqb_neq. Z.to_euclidean_division_equations; lia.
Qed.

Lemma yearOf_spec days y yday :
  yearOf days = (y, yday) ->
  365 * (y - 1) + (y - 1) / 4 - (y - 1) / 100 + (y - 1) / 400 + yday = days /\
  0 <= yday < if isLeap y then 366 else 365.
Proof.
  unfold yearOf. cbv zeta.
  change daysPer400Years with 146097. change daysPer100Years with 36524.
  change daysPer4Years with 1461.
  pose proof (Z.mod_pos_bound days 146097 ltac:(done)). pose proof (Z_div_mod_eq_full days 146097).
  remember (days / 146097) as e eqn:Ee. remember (days - e * 146097) as d eqn:Ed.
  assert (0 <= d < 146097) as Hd by lia.
  pose proof (Z.mod_pos_bound d 36524 ltac:(done)). pose proof (Z_div_mod_eq_full d 36524).
  remember (Z.min (d / 36524) 3) as c eqn:Ec. remember (d - c * 36524) as d1 eqn:Ed1.
  assert (0 <= c <= 3 /\ 0 <= d1 <= 36524 /\ (d1 = 36524 -> c = 3)) as (Hc & Hd1 & Hl1) by lia.
  pose proof (Z.mod_pos_bound d1 1461 ltac:(done)). pose proof (Z_div_mod_eq_full d1 1461).
  remember (d1 / 1461) as q eqn:Eq. remember (d1 - q * 1461) as d2 eqn:Ed2.
  assert (0 <= q <= 24 /\ 0 <= d2 <= 1460) as (Hq & Hd2) by lia.
  pose proof (Z.mod_pos_bound d2 365 ltac:(done)). pose proof (Z_div_mod_eq_full d2 365).
  remember (Z.min (d2 / 365) 3) as n eqn:En.
  assert (0 <= n <= 3 /\ 0 <= d2 - n * 365 <= 365 /\ (d2 - n * 365 = 365 -> n = 3))
    as (Hn & Hd3 & Hl3) by lia.
  intros [= <- <-]. destruct (year_parts e c q n Hc Hq Hn) as (E4 & E100 & E400 & EL).
  rewrite EL. rewrite Z.add_simpl_r, E4, E100, E400. split; [lia|]. split; [lia|].
  destruct (Z.eqb_spec n 3), (Z.eqb_spec q 24), (Z.eqb_spec c 3); simpl; lia.
Qed.

Definition monthCheck (leap : bool) (yday : Z) : bool :=
  let '(m, d) := monthOf leap yday in
  (daysBefore (m - 1) + (if leap && (2 <? m) then 1 else 0) + d - 1 =? yday) &&
  (1 <=? m) && (m <=? 12) && (1 <=? d) &&
  (d <=? if m =? 2 then (if leap then 29 else 28)
         else if (m =? 4) || (m =? 6) || (m =? 9) || (m =? 11) then 30 else 31).

Lemma months_checked leap :
  forallb (monthCheck leap) (Z.of_nat <$> seq 0 (if leap then 366 else 365)) = true.
Proof. destruct leap; vm_compute; reflexivity. Qed.

(** The civil date of any day is a date of the calendar, and counts back to it. *)
Lemma civil_spec days y m d :
  civil days = (y, m, d) ->
  daysSinceEpoch y m d = days /\ 1 <= m <= 12 /\ 1 <= d <= daysIn m y.
Proof.
  unfold civil. destruct (yearOf days) as [y0 yday] eqn:Ey.
  apply yearOf_spec in Ey as [Hd Hy]. destruct (monthOf _ _) as [m0 d0] eqn:Em.
  intros [= <- <- <-]. pose proof (months_checked (isLeap y0)) as Hc.
  rewrite forallb_forall in Hc. specialize (Hc yday). unfold monthCheck in Hc. rewrite Em in Hc.
  assert (In yday (Z.of_nat <$> seq 0 (if isLeap y0 then 366 else 365))) as Hin.
  { apply list_elem_of_In, list_elem_of_fmap. exists (Z.to_nat yday). split; [lia|].
    apply elem_of_seq. destruct (isLeap y0); lia. }
  specialize (Hc Hin). fold (daysIn m0 y0) in Hc. breflect.
  unfold daysSinceEpoch. lia.
Qed.

(** ** Decimal text reads back *)

Lemma b2z_digit d : 0 <= d < 10 -> b2z (digit d) = 48 + d.
Proof. intros. apply b2z_z2b_small. unfold in_u8. lia. Qed.

Lemma isDigit_digit d : 0 <= d < 10 -> isDigit (digit d) = true.
Proof. intros. unfold isDigit. rewrite b2z_digit by done. by zbool. Qed.

Lemma digitVal_digit d : 0 <= d < 10 -> digitVal (digit d) = d.
Proof. intros. unfold digitVal. rewrite b2z_digit by done. lia. Qed.

Lemma length_decimals n x : length (decimals n x) = n.
Proof. revert x. induction n as [|n IH]; intros x; [done|]. cbn [decimals]. rewrite length_app, IH. simpl. lia. Qed.

Lemma decimals_digits n x : forallb isDigit (decimals n x) = true.
Proof.
  revert x. induction n as [|n IH]; intros x; [done|]. cbn [decimals]. rewrite forallb_app, IH. simpl.
  rewrite isDigit_digit; [done|]. apply Z.mod_pos_bound. lia.
Qed.

Lemma atoi_snoc ds b : atoi (ds ++ [b]) = atoi ds * 10 + digitVal b.
Proof. unfold atoi. by rewrite foldl_app. Qed.

Lemma atoi_decimals n x : 0 <= x < 10 ^ Z.of_nat n -> atoi (decimals n x) = x.
Proof.
  revert x. induction n as [|n IH]; intros x Hx.
  - change (10 ^ Z.of_nat 0) with 1 in Hx. change (0 = x). lia.
  - cbn [decimals]. rewrite Nat2Z.inj_succ, Z.pow_succ_r in Hx by lia.
    pose proof (Z_div_mod_eq_full x 10). pose proof (Z.mod_pos_bound x 10 ltac:(done)).
    rewrite atoi_snoc, IH, digitVal_digit by lia. lia.
Qed.

Lemma numDigits_le fuel : forall x w,
  0 <= x < 10 ^ Z.of_nat w -> (1 <= w)%nat -> (numDigits fuel x <= w)%nat.
Proof.
  induction fuel as [|fuel IH]; intros x w Hx Hw; [done|]. cbn [numDigits].
  destruct (Z.ltb_spec x 10); [done|]. destruct w as [|[|w]]; [lia| |].
  - change (10 ^ Z.of_nat 1) with 10 in Hx. lia.
  - apply le_n_S. apply IH; [|lia]. rewrite (Nat2Z.inj_succ (S w)), Z.pow_succ_r in Hx by lia.
    split; [apply Z.div_pos; lia|]. apply Z.div_lt_upper_bound; lia.
Qed.

Lemma length_numDigits fuel : forall x, (numDigits fuel x <= S fuel)%nat.
Proof. induction fuel; intros x; cbn [numDigits]; [lia|]. destruct (x <? 10); [lia|]. specialize (IHfuel (x / 10)). lia. Qed.

Lemma length_appendInt x w : (length (appendInt x w) <= 1 + Nat.max w 21)%nat.
Proof.
  unfold appendInt. rewrite length_app, length_decimals. pose proof (length_numDigits 20 (Z.abs x)).
  destruct (x <? 0); cbn [length]; lia.
Qed.

Lemma appendInt_fits x w :
  0 <= x < 10 ^ Z.of_nat w -> (1 <= w)%nat -> appendInt x w = decimals w x.
Proof.
  intros Hx Hw. unfold appendInt. zbool. rewrite Z.abs_eq by lia. cbn [app].
  pose proof (numDigits_le 20 x w Hx Hw). by rewrite Nat.max_l by done.
Qed.

Lemma getnum_decimals fixed x r :
  0 <= x < 100 -> getnum fixed (decimals 2 x ++ r) = Some (x, r).
Proof.
  intros Hx. pose proof (Z_div_mod_eq_full x 10). pose proof (Z.mod_pos_bound x 10 ltac:(done)).
  cbn [decimals app]. rewrite (Z.mod_small (x / 10)) by lia.
  unfold getnum. rewrite !isDigit_digit, !digitVal_digit by lia. do 2 f_equal. lia.
Qed.

Lemma getyear_decimals x r :
  0 <= x < 10000 -> getyear (decimals 4 x ++ r) = Some (x, r).
Proof.
  intros Hx. unfold getyear. rewrite length_app, length_decimals.
  rewrite take_app_length' by (by rewrite length_decimals).
  rewrite drop_app_length' by (by rewrite length_decimals).
  rewrite decimals_digits, atoi_decimals by done. done.
Qed.

(** ** The fraction reads back *)

Lemma trimZeros_spec rev : exists k, rev = replicate k (digit 0) ++ trimZeros rev.
Proof.
  induction rev as [|b rev [k IH]]; [by exists 0%nat|]. cbn [trimZeros].
  destruct (Z.eqb_spec (b2z b) 48) as [Hb|]; [|by exists 0%nat].
  exists (S k). cbn [replicate app]. rewrite <-IH. f_equal. rewrite <-(z2b_b2z b), Hb. done.
Qed.

Lemma atoi_zeros ds k : atoi (ds ++ replicate k (digit 0)) = atoi ds * 10 ^ Z.of_nat k.
Proof.
  induction k as [|k IH]; [simpl; rewrite app_nil_r; lia|].
  rewrite replicate_S_end, app_assoc, atoi_snoc, IH, Nat2Z.inj_succ, Z.pow_succ_r by lia.
  change (digitVal (digit 0)) with 0. lia.
Qed.

Lemma digitRun_app ds r :
  forallb isDigit ds = true -> (forall b, r !! 0%nat = Some b -> isDigit b = false) ->
  digitRun (ds ++ r) = ds.
Proof.
  intros Hd Hr. induction ds as [|b ds IH]; simpl in *.
  - destruct r as [|b r]; [done|]. simpl. by rewrite (Hr b eq_refl).
  - apply andb_true_iff in Hd as [-> Hd]. f_equal. by apply IH.
Qed.

Lemma getnano_appendNano n r :
  0 <= n < Second ->
  (forall b, r !! 0%nat = Some b -> isDigit b = false /\ commaOrPeriod b = false) ->
  getnano (appendNano n ++ r) = (n, r).
Proof.
  intros Hn Hr. unfold appendNano. destruct (Z.eqb_spec n 0) as [->|Hn0].
  { destruct r as [|b r]; [done|]. simpl. by rewrite (proj2 (Hr b eq_refl)). }
  destruct (trimZeros_spec (reverse (decimals 9 n))) as [k Hk].
  apply (f_equal reverse) in Hk. rewrite reverse_involutive, reverse_app, reverse_replicate in Hk.
  set (t := reverse (trimZeros _)) in *. clearbody t.
  pose proof (decimals_digits 9 n) as Hd. rewrite Hk, forallb_app in Hd.
  apply andb_true_iff in Hd as [Ht _].
  pose proof (length_decimals 9 n) as Hl. rewrite Hk, length_app, length_replicate in Hl.
  pose proof (atoi_decimals 9 n Hn) as Ha. rewrite Hk, atoi_zeros in Ha.
  cbn [app getnano]. change (commaOrPeriod (z2b 46)) with true. cbv iota.
  rewrite digitRun_app; [|done|intros b Hb; by apply Hr].
  destruct t as [|b t]; [change (atoi []) with 0 in Ha; lia|].
  rewrite take_ge by lia. rewrite drop_app_length' by done. f_equal.
  etransitivity; [|exact Ha]. do 2 f_equal. unfold zlen. lia.
Qed.

(** ** Formatting then parsing is the identity *)

Lemma skip_char c l : in_u8 c -> skip c ([z2b c] ++ l) = Some l.
Proof. intros Hc. unfold skip. cbn [app]. rewrite b2z_z2b_small by done. by zbool. Qed.

Lemma inRange_ok lo hi x : lo <= x <= hi -> inRange lo hi x = Some tt.
Proof. intros. unfold inRange. by zbool. Qed.

(** One step of a parser on printed text. *)
Ltac read_back :=
  cbn [mbind option_bind];
  first
    [ rewrite getyear_decimals by lia
    | rewrite getnum_decimals by lia
    | rewrite skip_char by (unfold in_u8; lia)
    | rewrite inRange_ok by lia ].

(** The times with a four-digit year and a zone offset in whole minutes of less
    than a day. *)
Definition printable (t : Time) : Prop :=
  0 <= (civil ((wall t + offset t * Second) / (24 * Hour))).1.1 <= 9999 /\
  offset t mod 60 = 0 /\ - 86400 < offset t < 86400.

Definition zoneText (off : Z) : list byte :=
  let zone := Z.quot off 60 in
  if off =? 0 then [z2b 90]
  else [if zone <? 0 then z2b 45 else z2b 43] ++
       appendInt (Z.abs zone / 60) 2 ++ [z2b 58] ++ appendInt (Z.abs zone mod 60) 2.

Lemma getzone_zoneText off :
  off mod 60 = 0 -> - 86400 < off < 86400 -> getzone (zoneText off) = Some (off, []).
Proof.
  intros Hm Hr. unfold zoneText. destruct (Z.eqb_spec off 0) as [->|H0]; [done|].
  pose proof (Z_div_mod_eq_full off 60) as Hd.
  assert (Z.quot off 60 = off / 60) as -> by (Z.to_euclidean_division_equations; lia).
  set (z := off / 60) in *. assert (off = z * 60) as Hz by lia. clearbody z.
  pose proof (Z_div_mod_eq_full (Z.abs z) 60). pose proof (Z.mod_pos_bound (Z.abs z) 60 ltac:(done)).
  rewrite !appendInt_fits by (change (10 ^ Z.of_nat 2) with 100; lia).
  destruct (Z.ltb_spec z 0); unfold getzone; cbn [app]; rewrite b2z_z2b_small by (unfold in_u8; lia);
    change (z2b 58 :: ?l) with ([z2b 58] ++ l);
    rewrite <-(app_nil_r (decimals 2 (Z.abs z mod 60))); zbool;
    repeat read_back; cbn [mbind option_bind]; do 2 f_equal; lia.
Qed.

Lemma zoneText_head off b :
  zoneText off !! 0%nat = Some b -> isDigit b = false /\ commaOrPeriod b = false.
Proof.
  unfold zoneText. destruct (off =? 0); [by intros [= <-]|].
  destruct (Z.quot off 60 <? 0); by intros [= <-].
Qed.

(** The parts of a time of day. *)
Lemma tod_parts x :
  0 <= x < 24 * Hour ->
  0 <= x / Hour <= 23 /\ 0 <= x / Minute mod 60 <= 59 /\ 0 <= x / Second mod 60 <= 59 /\
  0 <= x mod Second < Second /\
  x / Hour * Hour + x / Minute mod 60 * Minute + x / Second mod 60 * Second + x mod Second = x.
Proof. unfold Hour, Minute, Second. intros. Z.to_euclidean_division_equations. lia. Qed.

(** The calendar date printed by [Format], its time of day and its zone are
    what [Parse] reads back. *)
Lemma Parse_Format t : printable t -> ParseRFC3339Nano (FormatRFC3339Nano t) = Some t.
Proof.
  intros (Hy & Hm & Ho). unfold FormatRFC3339Nano.
  set (abs := wall t + offset t * Second) in *.
  destruct (civil (abs / (24 * Hour))) as [[y m] d] eqn:Ec. cbn [fst] in Hy.
  destruct (civil_spec _ _ _ _ Ec) as (Hdays & Hmo & Hd).
  pose proof (Z_div_mod_eq_full abs (24 * Hour)) as Habs.
  pose proof (Z.mod_pos_bound abs (24 * Hour) ltac:(done)) as Htod.
  destruct (tod_parts _ Htod) as (Hh & Hmi & Hs & Hns & Hsum).
  assert (daysIn m y <= 31) by (unfold daysIn; repeat case_match; lia).
  fold (zoneText (offset t)).
  rewrite !appendInt_fits by
    (change (10 ^ Z.of_nat 2) with 100; change (10 ^ Z.of_nat 4) with 10000; lia).
  unfold ParseRFC3339Nano.
  repeat read_back. cbn [mbind option_bind].
  rewrite getnano_appendNano by (done || apply zoneText_head). rewrite getzone_zoneText by done.
  repeat read_back. cbn [mbind option_bind]. rewrite Hdays. destruct t as [w o]. cbn [offset wall] in *.
  do 2 f_equal. lia.
Qed.
