(* ===== verification/Float64.v ===== *)
(** * float64: what the program uses of Go's floating point

    The type, its arithmetic with rounding to nearest even, conversions from
    and to integers, and [math.Frexp], [math.Ldexp] and [math.Pow], on the
    Standard Library's executable model of IEEE 754. *)

From Stdlib Require Import SpecFloat.
From S2P Require Import Prelude.
Local Open Scope Z_scope.

Abbreviation float64 := spec_float.

Definition prec64 : Z := 53.
Definition emax64 : Z := 1024.

(** [float64(z)] for an integer, and [f * 2^e] for literals. *)
Definition ofZ (z : Z) : float64 := binary_normalize prec64 emax64 z 0 false.
Definition lit (m e : Z) : float64 := binary_normalize prec64 emax64 m e false.

Definition fmul : float64 -> float64 -> float64 := SFmul prec64 emax64.
Definition fdiv : float64 -> float64 -> float64 := SFdiv prec64 emax64.
Definition fadd : float64 -> float64 -> float64 := SFadd prec64 emax64.

(** [a < b] and [a == b]; false if either is not a number. *)
Definition flt (a b : float64) : bool := match SFcompare a b with Some Lt => true | _ => false end.
Definition feq (a b : float64) : bool := match SFcompare a b with Some Eq => true | _ => false end.

Definition isNaN (f : float64) : bool := match f with S754_nan => true | _ => false end.

(** Conversion towards zero; [None] for infinities and NaN. *)
Definition truncZ (f : float64) : option Z :=
  match f with
  | S754_zero _ => Some 0
  | S754_finite s m e =>
      let a := if 0 <=? e then Z.pos m * 2 ^ e else Z.pos m / 2 ^ (- e) in
      Some (if s then - a else a)
  | _ => None
  end.

(** [math.Frexp]: a fraction from 1/2 up to 1 and an exponent. *)
Definition Frexp (f : float64) : float64 * Z :=
  match f with S754_finite _ _ _ => SFfrexp prec64 emax64 f | _ => (f, 0) end.

Definition Ldexp (f : float64) (e : Z) : float64 := SFldexp prec64 emax64 f e.

(** [x**yi] by repeated squaring: [x1 * 2^xe] is the current power of [x],
    [a1 * 2^ae] the product so far. *)
Fixpoint powLoop (fuel : nat) (i : Z) (x1 : float64) (xe : Z) (a1 : float64) (ae : Z) : float64 * Z :=
  match fuel with
  | O => (a1, ae)
  | S fuel' =>
      if i =? 0 then (a1, ae)
      else if (xe <? - 4096) || (4096 <? xe) then (a1, ae + xe)
      else
        let '(a1, ae) := if Z.odd i then (fmul a1 x1, ae + xe) else (a1, ae) in
        let x1 := fmul x1 x1 in
        let xe := xe * 2 in
        let '(x1, xe) := if flt x1 (lit 1 (-1)) then (fadd x1 x1, xe - 1) else (x1, xe) in
        powLoop fuel' (Z.shiftr i 1) x1 xe a1 ae
  end.

(** Whether a positive integer held by a float64 is odd. *)
Definition oddFloat (y : Z) : bool := (y <? 2 ^ 53) && Z.odd y.

(** [math.Pow(x, y)] for a [y] that holds the positive integer [yi]. *)
Definition PowInt (x : float64) (yi : Z) : float64 :=
  if feq x (ofZ 1) then ofZ 1
  else if yi =? 1 then x
  else match x with
  | S754_nan => S754_nan
  | S754_zero s => if s && oddFloat yi then x else S754_zero false
  | S754_infinity s => S754_infinity (s && oddFloat yi)
  | S754_finite s m e =>
      if 2 ^ 63 <=? yi then
        if feq x (ofZ (-1)) then ofZ 1
        else if flt (SFabs x) (ofZ 1) then S754_zero false else S754_infinity false
      else
        let '(x1, xe) := Frexp x in
        let '(a1, ae) := powLoop 64 yi x1 xe (ofZ 1) 0 in
        Ldexp a1 ae
  end.

(** ** Rounding of fractions and of decimal numbers *)

(** [num / den] to the nearest integer, ties to even. *)
Definition roundEven (num den : Z) : Z :=
  let q := num / den in
  let r := num mod den in
  if (2 * r <? den) || ((2 * r =? den) && Z.even q) then q else q + 1.

(** The exponent [l] with [2^l <= n / d < 2^(l+1)]. *)
Definition log2Ratio (n d : Z) : Z :=
  let l := Z.log2 n - Z.log2 d in
  if d * 2 ^ Z.max 0 l <=? n * 2 ^ Z.max 0 (- l) then l else l - 1.

(** The float64 nearest to [n / d], for positive [n] and [d]: 53 bits, down to
    the exponent of the subnormal numbers; ties to even; too large ones are
    infinite. *)
Definition nearest (neg : bool) (n d : Z) : float64 :=
  let e := Z.max (log2Ratio n d - 52) (-1074) in
  let q := roundEven (n * 2 ^ Z.max 0 (- e)) (d * 2 ^ Z.max 0 e) in
  let '(q, e) := if q =? 2 ^ 53 then (2 ^ 52, e + 1) else (q, e) in
  match q with
  | Z.pos m => if 971 <? e then S754_infinity neg else S754_finite neg m e
  | _ => S754_zero neg
  end.

(** [m * 10^e], correctly rounded. *)
Definition decimalFloat (neg : bool) (m e : Z) : float64 :=
  if m <=? 0 then S754_zero neg
  else if 0 <=? e then nearest neg (m * 10 ^ e) 1
  else nearest neg m (10 ^ (- e)).

Definition finite (f : spec_float) : bool :=
  match f with S754_zero _ | S754_finite _ _ _ => true | _ => false end.

(** The float64 values that are numbers. *)
Definition finite64 (f : float64) : Prop := valid_binary prec64 emax64 f = true /\ finite f = true.

(** ** Lemmas *)

Lemma roundEven_near num den :
  0 < den -> 2 * Z.abs (num - den * roundEven num den) <= den.
Proof.
  intros Hd. unfold roundEven. pose proof (Z_div_mod_eq_full num den) as Hq. pose proof (Z.mod_pos_bound num den Hd) as Hr.
  destruct ((2 * _ <? den) || _) eqn:E.
  - assert (2 * (num mod den) <= den) by (rewrite orb_true_iff, andb_true_iff in E; destruct E as [|[]]; breflect; lia). nia.
  - rewrite orb_false_iff in E. destruct E as [E _]. breflect. nia.
Qed.

Lemma roundEven_exact m den : 0 < den -> roundEven (m * den) den = m.
Proof. intros Hd. unfold roundEven. rewrite Z.div_mul, Z.mod_mul by lia. by zbool. Qed.

(** Rounding stays between integers. *)
Lemma roundEven_bounds num den a b :
  0 < den -> a * den <= num -> num < b * den -> a <= roundEven num den <= b.
Proof.
  intros Hd Ha Hb. assert (a <= num / den) by (apply Z.div_le_lower_bound; lia).
  assert (num / den < b) by (apply Z.div_lt_upper_bound; lia). unfold roundEven. destruct (_ || _); lia.
Qed.

(** [n / d * 2^-e] as a fraction: scaling by a common power changes nothing. *)
Lemma ratio_scale e K : 0 <= K -> 0 <= K + e -> 2 ^ (K + e) * 2 ^ Z.max 0 (- e) = 2 ^ K * 2 ^ Z.max 0 e.
Proof. intros. rewrite <-!Z.pow_add_r by lia. f_equal. lia. Qed.

Lemma log2Ratio_spec n d K :
  0 < n -> 0 < d -> let l := log2Ratio n d in 0 <= K -> 0 <= K + l ->
  d * 2 ^ (K + l) <= n * 2 ^ K < d * 2 ^ (K + l + 1).
Proof.
  intros Hn Hd. cbv zeta. unfold log2Ratio. set (l := Z.log2 n - Z.log2 d).
  destruct (Z.log2_spec n Hn) as [N1 N2], (Z.log2_spec d Hd) as [D1 D2]. rewrite Z.pow_succ_r in N2, D2 by apply Z.log2_nonneg.
  assert (forall J, 0 <= J -> 0 <= J + l -> n * 2 ^ J < d * 2 ^ (J + l + 1)) as Hup.
  { intros J HJ HJl.
    assert (2 ^ Z.log2 n * 2 ^ J = 2 ^ Z.log2 d * 2 ^ (J + l)) as E
      by (rewrite <-!Z.pow_add_r by (apply Z.log2_nonneg || lia); f_equal; lia).
    rewrite Z.pow_add_r by lia. change (2 ^ 1) with 2. assert (0 < 2 ^ J) by (apply Z.pow_pos_nonneg; lia).
    assert (0 < 2 ^ (J + l)) by (apply Z.pow_pos_nonneg; lia). nia. }
  assert (forall J, 0 <= J -> 0 <= J + l - 1 -> d * 2 ^ (J + l - 1) < n * 2 ^ J) as Hlo.
  { intros J HJ HJl.
    assert (2 ^ Z.log2 n * 2 ^ J = 2 * 2 ^ Z.log2 d * 2 ^ (J + l - 1)) as E
      by (change 2 with (2 ^ 1) at 3; rewrite <-!Z.pow_add_r by (apply Z.log2_nonneg || (pose proof (Z.log2_nonneg d); lia)); f_equal; lia).
    assert (0 < 2 ^ J) by (apply Z.pow_pos_nonneg; lia). assert (0 < 2 ^ (J + l - 1)) by (apply Z.pow_pos_nonneg; lia). nia. }
  assert (forall J, 0 <= J -> 0 <= J + l -> (d * 2 ^ (J + l) <= n * 2 ^ J <-> d * 2 ^ Z.max 0 l <= n * 2 ^ Z.max 0 (- l))) as Hsc.
  { intros J HJ HJl. pose proof (ratio_scale l J HJ HJl) as E.
    assert (0 < 2 ^ Z.max 0 (- l)) by (apply Z.pow_pos_nonneg; lia). assert (0 < 2 ^ J) by (apply Z.pow_pos_nonneg; lia).
    rewrite (Z.mul_le_mono_pos_r _ _ (2 ^ Z.max 0 (- l))) by lia.
    rewrite (Z.mul_le_mono_pos_l (d * 2 ^ Z.max 0 l) _ (2 ^ J)) by lia. split; intros; nia. }
  intros HK HKl. destruct (Z.leb_spec (d * 2 ^ Z.max 0 l) (n * 2 ^ Z.max 0 (- l))) as [Hle|Hgt].
  - split; [by apply Hsc|]. by apply Hup.
  - replace (K + (l - 1)) with (K + l - 1) in * by lia. split; [apply Z.lt_le_incl, Hlo; lia|].
    replace (K + l - 1 + 1) with (K + l) by lia. apply Z.nle_gt. intros H. apply Hsc in H; lia.
Qed.

Lemma digits2_log2 m : Z.pos (digits2_pos m) = Z.log2 (Z.pos m) + 1.
Proof.
  induction m as [m IH|m IH|]; cbn [digits2_pos]; [| |done]; rewrite Pos2Z.inj_succ, IH.
  - rewrite (Pos2Z.inj_xI m), Z.log2_succ_double by lia. lia.
  - rewrite (Pos2Z.inj_xO m), Z.log2_double by lia. lia.
Qed.

(** The representations of float64: 53 bits, or fewer at the lowest exponent. *)
Lemma bounded64 m e :
  bounded prec64 emax64 m e = true <->
  -1074 <= e <= 971 /\ Z.pos m < 2 ^ 53 /\ (e = -1074 \/ 2 ^ 52 <= Z.pos m).
Proof.
  unfold bounded, canonical_mantissa, SpecFloat.fexp, SpecFloat.emin, prec64, emax64. rewrite digits2_log2.
  pose proof (Z.log2_nonneg (Z.pos m)). rewrite andb_true_iff, Z.leb_le, (Z.log2_lt_pow2 (Z.pos m) 53), (Z.log2_le_pow2 (Z.pos m) 52) by lia.
  rewrite Z.eqb_eq. lia.
Qed.

(** The parts of [nearest] within their bounds. *)
Lemma nearest_quotient n d :
  0 < n -> 0 < d ->
  let e := Z.max (log2Ratio n d - 52) (-1074) in
  let q := roundEven (n * 2 ^ Z.max 0 (- e)) (d * 2 ^ Z.max 0 e) in
  0 <= q <= 2 ^ 53 /\ (e = -1074 \/ 2 ^ 52 <= q).
Proof.
  intros Hn Hd e q. set (l := log2Ratio n d) in *. set (K := Z.max 0 (- l) + Z.max 0 (- e) + 53).
  destruct (log2Ratio_spec n d K Hn Hd) as [L1 L2]; [unfold K; lia|unfold K; fold l; lia|]. fold l in L1, L2.
  assert (0 < 2 ^ Z.max 0 (- e)) as Pe by (apply Z.pow_pos_nonneg; lia).
  assert (0 < d * 2 ^ Z.max 0 e) as Pd by (apply Z.mul_pos_pos; [done|apply Z.pow_pos_nonneg; lia]).
  assert (0 < 2 ^ K) as PK by (apply Z.pow_pos_nonneg; unfold K; lia).
  pose proof (ratio_scale e K ltac:(unfold K; lia) ltac:(unfold K; lia)) as Es.
  assert (forall b, 2 ^ K * (2 ^ b * (d * 2 ^ Z.max 0 e)) = d * (2 ^ (K + e) * 2 ^ b) * 2 ^ Z.max 0 (- e)) as Hsc.
  { intros b. transitivity (2 ^ b * d * (2 ^ K * 2 ^ Z.max 0 e)); [ring|]. rewrite <-Es. ring. }
  assert (forall b, 0 <= b -> l + 1 <= e + b -> n * 2 ^ Z.max 0 (- e) < 2 ^ b * (d * 2 ^ Z.max 0 e)) as Hup.
  { intros b Hb Hle. assert (2 ^ (K + l + 1) <= 2 ^ (K + e + b)) by (apply Z.pow_le_mono_r; lia).
    rewrite (Z.pow_add_r _ (K + e) b) in * by (unfold K; lia). apply (Z.mul_lt_mono_pos_l (2 ^ K)); [done|].
    rewrite (Hsc b). replace (2 ^ K * (n * 2 ^ Z.max 0 (- e))) with (n * 2 ^ K * 2 ^ Z.max 0 (- e)) by ring.
    apply Z.mul_lt_mono_pos_r; [done|]. nia. }
  assert (forall b, 0 <= b -> e + b <= l -> 2 ^ b * (d * 2 ^ Z.max 0 e) <= n * 2 ^ Z.max 0 (- e)) as Hlo.
  { intros b Hb Hle. assert (2 ^ (K + e + b) <= 2 ^ (K + l)) by (apply Z.pow_le_mono_r; lia).
    rewrite (Z.pow_add_r _ (K + e) b) in * by (unfold K; lia). apply (Z.mul_le_mono_pos_l _ _ (2 ^ K)); [done|].
    rewrite (Hsc b). replace (2 ^ K * (n * 2 ^ Z.max 0 (- e))) with (n * 2 ^ K * 2 ^ Z.max 0 (- e)) by ring.
    apply Z.mul_le_mono_pos_r; [done|]. nia. }
  split.
  - apply roundEven_bounds; [done|nia|]. apply Hup; lia.
  - destruct (decide (e = -1074)) as [|He]; [by left|right].
    apply (roundEven_bounds _ _ (2 ^ 52) (2 ^ 53)); [done|apply Hlo; lia|apply Hup; lia].
Qed.

Lemma nearest_valid neg n d : 0 < n -> 0 < d -> valid_binary prec64 emax64 (nearest neg n d) = true.
Proof.
  intros Hn Hd. unfold nearest. destruct (nearest_quotient n d Hn Hd) as [Hq Hm]. cbv zeta in *.
  set (e := Z.max (log2Ratio n d - 52) (-1074)) in *. set (q := roundEven _ _) in *. destruct (Z.eqb_spec q (2 ^ 53)) as [E|E].
  - change (2 ^ 52) with (Z.pos 4503599627370496). cbv iota. destruct (Z.ltb_spec 971 (e + 1)); [done|].
    apply bounded64. split; [lia|]. split; [done|]. right. by vm_compute.
  - destruct q as [|m|m]; try done. destruct (Z.ltb_spec 971 e); [done|]. apply bounded64. lia.
Qed.

(** A fraction that is a float64 is that float64. *)
Lemma nearest_exact neg n d m e K :
  0 < n -> 0 < d -> bounded prec64 emax64 m e = true -> 0 <= K -> 0 <= K + e ->
  n * 2 ^ K = d * Z.pos m * 2 ^ (K + e) -> nearest neg n d = S754_finite neg m e.
Proof.
  intros Hn Hd (He & Hm & Hc)%bounded64 HK HKe E. destruct (Z.log2_spec (Z.pos m) ltac:(lia)) as [M1 M2].
  rewrite Z.pow_succ_r in M2 by apply Z.log2_nonneg. pose proof (Z.log2_nonneg (Z.pos m)) as M0.
  set (l := log2Ratio n d). assert (l = Z.log2 (Z.pos m) + e) as Hl.
  { set (J := Z.max 0 (- l) + 1). destruct (log2Ratio_spec n d (K + J) Hn Hd) as [L1 L2]; [unfold J; lia|unfold J; fold l; lia|].
    fold l in L1, L2. rewrite (Z.pow_add_r _ K J), Z.mul_assoc, E in L1, L2 by (unfold J; lia).
    assert (0 < 2 ^ (K + e)) by (apply Z.pow_pos_nonneg; lia). assert (0 < 2 ^ J) by (apply Z.pow_pos_nonneg; unfold J; lia).
    assert (2 ^ (K + e) * 2 ^ J = 2 ^ (K + e + J)) as Ej by (rewrite (Z.pow_add_r 2 (K + e) J) by (unfold J; lia); done).
    assert (d * Z.pos m * 2 ^ (K + e) * 2 ^ J = d * (Z.pos m * 2 ^ (K + e + J))) as Er by (rewrite <-Ej; ring).
    rewrite Er in L1, L2. apply Z.mul_le_mono_pos_l in L1; [|done]. apply Z.mul_lt_mono_pos_l in L2; [|done].
    assert (2 ^ Z.log2 (Z.pos m) * 2 ^ (K + e + J) = 2 ^ (Z.log2 (Z.pos m) + (K + e + J))) as Ep
      by (rewrite (Z.pow_add_r 2 (Z.log2 _)) by (unfold J; lia); done).
    assert (2 * 2 ^ Z.log2 (Z.pos m) * 2 ^ (K + e + J) = 2 ^ (Z.log2 (Z.pos m) + 1 + (K + e + J))) as Eq
      by (rewrite (Z.pow_add_r 2 (_ + 1)), (Z.pow_add_r 2 _ 1) by (unfold J; lia); change (2 ^ 1) with 2; lia).
    assert (K + J + l < Z.log2 (Z.pos m) + 1 + (K + e + J)) by (apply (Z.pow_lt_mono_r_iff 2); [lia|unfold J; lia|nia]).
    assert (Z.log2 (Z.pos m) + (K + e + J) < K + J + l + 1) by (apply (Z.pow_lt_mono_r_iff 2); [lia|unfold J; lia|nia]). lia. }
  unfold nearest. fold l. assert (Z.max (l - 52) (-1074) = e) as ->.
  { rewrite Z.log2_lt_pow2 in Hm by lia. rewrite (Z.log2_le_pow2 _ 52) in Hc by lia. lia. }
  pose proof (ratio_scale e K HK HKe) as Es.
  assert (n * 2 ^ Z.max 0 (- e) = Z.pos m * (d * 2 ^ Z.max 0 e)) as ->.
  { apply (Z.mul_cancel_l _ _ (2 ^ K)); [assert (0 < 2 ^ K) by (apply Z.pow_pos_nonneg; lia); lia|]. nia. }
  rewrite roundEven_exact by (apply Z.mul_pos_pos; [done|apply Z.pow_pos_nonneg; lia]).
  rewrite (proj2 (Z.eqb_neq _ _)) by lia. by rewrite (proj2 (Z.ltb_ge _ _)) by lia.
Qed.

Lemma decimalFloat_valid neg m e : valid_binary prec64 emax64 (decimalFloat neg m e) = true.
Proof.
  unfold decimalFloat. destruct (Z.leb_spec m 0); [done|].
  destruct (Z.leb_spec 0 e); apply nearest_valid; try done; [|apply Z.pow_pos_nonneg; lia].
  apply Z.mul_pos_pos; [done|apply Z.pow_pos_nonneg; lia].
Qed.

(** A decimal number that is a float64 is that float64. *)
Lemma decimalFloat_exact neg c x m e K :
  0 < c -> bounded prec64 emax64 m e = true -> 0 <= K -> 0 <= K + e ->
  c * 10 ^ Z.max 0 x * 2 ^ K = 10 ^ Z.max 0 (- x) * Z.pos m * 2 ^ (K + e) ->
  decimalFloat neg c x = S754_finite neg m e.
Proof.
  intros Hc Hb HK HKe E. unfold decimalFloat. rewrite (proj2 (Z.leb_gt _ _)) by done.
  destruct (Z.leb_spec 0 x) as [Hx|Hx]; apply (nearest_exact neg _ _ m e K); try done.
  - apply Z.mul_pos_pos; [done|apply Z.pow_pos_nonneg; lia].
  - rewrite (Z.max_r 0 x), (Z.max_l 0 (- x)) in E by lia. exact E.
  - apply Z.pow_pos_nonneg; lia.
  - rewrite (Z.max_l 0 x), (Z.max_r 0 (- x)), Z.mul_1_r in E by lia. exact E.
Qed.

(** What is below 2^1023 is not rounded to infinity. *)
Lemma nearest_finite neg n d : 0 < n -> 0 < d -> n < d * 2 ^ 1023 -> finite (nearest neg n d) = true.
Proof.
  intros Hn Hd Hlt. set (l := log2Ratio n d). set (K := Z.max 0 (- l)). assert (0 < 2 ^ K) by (apply Z.pow_pos_nonneg; lia).
  destruct (log2Ratio_spec n d K Hn Hd ltac:(lia)) as [L1 _]; [fold l; lia|]. fold l in L1.
  assert (l < 1023).
  { assert (K + l < 1023 + K); [|lia]. apply (Z.pow_lt_mono_r_iff 2); [done|lia|].
    rewrite (Z.pow_add_r 2 1023 K) by lia. apply (Z.mul_lt_mono_pos_l d); [done|].
    apply (Z.le_lt_trans _ (n * 2 ^ K)); [done|]. rewrite Z.mul_assoc. by apply Z.mul_lt_mono_pos_r. }
  unfold nearest. fold l. destruct (_ =? 2 ^ 53).
  - change (2 ^ 52) with (Z.pos 4503599627370496). cbv iota. by rewrite (proj2 (Z.ltb_ge _ _)) by lia.
  - destruct (roundEven _ _); [done| |done]. by rewrite (proj2 (Z.ltb_ge _ _)) by lia.
Qed.
