(* ===== verification/Utf8.v ===== *)
(** * UTF-8: what the program uses of Go's package unicode/utf8

    Decoding of the first rune of a byte sequence, with Go's treatment of
    surrogates, overlong forms and truncated sequences, and encoding. *)

From S2P Require Import Prelude.
Local Open Scope Z_scope.

Definition RuneError : Z := 0xFFFD.

Definition within (lo hi : Z) (b : byte) : bool := (lo <=? b2z b) && (b2z b <=? hi).
Definition isCont (b : byte) : bool := within 0x80 0xBF b.

(** The six low bits of a continuation byte. *)
Definition low6 (b : byte) : Z := Z.land (b2z b) 0x3F.

(** [utf8.DecodeRune]: the rune and its width in bytes; [None] where Go returns
    [(RuneError, 1)] (or [(RuneError, 0)] on the empty sequence). *)
Definition decodeRune (bs : list byte) : option (Z * nat) :=
  match bs with
  | [] => None
  | b0 :: r =>
      if b2z b0 <? 0x80 then Some (b2z b0, 1%nat)
      else if within 0xC2 0xDF b0 then
        match r with
        | b1 :: _ =>
            if isCont b1 then Some (Z.lor (Z.shiftl (Z.land (b2z b0) 0x1F) 6) (low6 b1), 2%nat) else None
        | _ => None
        end
      else if within 0xE0 0xEF b0 then
        match r with
        | b1 :: b2 :: _ =>
            let lo := if b2z b0 =? 0xE0 then 0xA0 else 0x80 in
            let hi := if b2z b0 =? 0xED then 0x9F else 0xBF in
            if within lo hi b1 && isCont b2 then
              Some (Z.lor (Z.lor (Z.shiftl (Z.land (b2z b0) 0x0F) 12) (Z.shiftl (low6 b1) 6)) (low6 b2), 3%nat)
            else None
        | _ => None
        end
      else if within 0xF0 0xF4 b0 then
        match r with
        | b1 :: b2 :: b3 :: _ =>
            let lo := if b2z b0 =? 0xF0 then 0x90 else 0x80 in
            let hi := if b2z b0 =? 0xF4 then 0x8F else 0xBF in
            if within lo hi b1 && isCont b2 && isCont b3 then
              Some (Z.lor (Z.lor (Z.lor (Z.shiftl (Z.land (b2z b0) 0x07) 18) (Z.shiftl (low6 b1) 12))
                                 (Z.shiftl (low6 b2) 6)) (low6 b3), 4%nat)
            else None
        | _ => None
        end
      else None
  end.

(** [utf8.EncodeRune]; surrogates and values out of range encode as
    [RuneError]. *)
Definition encodeRune (r : Z) : list byte :=
  let cont x := z2b (Z.lor 0x80 (Z.land x 0x3F)) in
  let enc3 r := [z2b (Z.lor 0xE0 (Z.shiftr r 12)); cont (Z.shiftr r 6); cont r] in
  if (r <? 0) || (0x10FFFF <? r) || ((0xD800 <=? r) && (r <=? 0xDFFF)) then enc3 RuneError
  else if r <? 0x80 then [z2b r]
  else if r <? 0x800 then [z2b (Z.lor 0xC0 (Z.shiftr r 6)); cont r]
  else if r <? 0x10000 then enc3 r
  else [z2b (Z.lor 0xF0 (Z.shiftr r 18)); cont (Z.shiftr r 12); cont (Z.shiftr r 6); cont r].

(** [utf8.Valid]: [skip] bytes of the current rune are still to pass. *)
Fixpoint validFrom (skip : nat) (bs : list byte) : bool :=
  match bs with
  | [] => true
  | _ :: r =>
      match skip with
      | S k => validFrom k r
      | O => match decodeRune bs with
             | Some (_, n) => validFrom (n - 1) r
             | None => false
             end
      end
  end.

Definition validUTF8 (bs : list byte) : bool := validFrom 0 bs.

(** ** Lemmas *)

(** Bytes below 128 stand for themselves. *)
Lemma decodeRune_ascii b r : b2z b < 0x80 -> decodeRune (b :: r) = Some (b2z b, 1%nat).
Proof. intros. unfold decodeRune. by zbool. Qed.

(** A decoded rune lies within its bytes, and its continuation bytes are all
    continuation bytes. *)
Lemma decodeRune_width b r x n :
  decodeRune (b :: r) = Some (x, n) -> 0x80 <= b2z b ->
  (2 <= n <= 4)%nat /\ (n - 1 <= length r)%nat /\ Forall (fun c => 0x80 <= b2z c) (take (n - 1) r).
Proof.
  unfold decodeRune, isCont, within. intros H Hb.
  destruct (Z.ltb_spec (b2z b) 0x80); [lia|].
  repeat case_match; simplify_eq; cbn [length take Nat.sub]; breflect;
    (split; [lia|]; split; [lia|]); repeat (apply Forall_cons_2; [lia|]); by apply Forall_nil_2.
Qed.

(** Decoding looks only at the bytes of the rune. *)
Lemma decodeRune_app bs k x n :
  decodeRune bs = Some (x, n) -> decodeRune (bs ++ k) = Some (x, n).
Proof.
  destruct bs as [|b0 r]; [done|]. cbn [app]. unfold decodeRune.
  destruct (b2z b0 <? 0x80); [done|]. destruct (within 0xC2 0xDF b0); [by destruct r|].
  destruct (within 0xE0 0xEF b0); [by destruct r as [|? [|? ?]]|].
  destruct (within 0xF0 0xF4 b0); [|done]. by destruct r as [|? [|? [|? ?]]].
Qed.
