(* ===== verification/Json.v ===== *)
(** * JSON: what the program uses of Go's package encoding/json

    The text that [json.Marshal] writes and the texts that [json.Unmarshal]
    reads, with Go's escaping of strings, treatment of invalid UTF-8 and
    nesting limit.  The theorem of this file is that reading inverts
    writing. *)

From S2P Require Import Prelude Time Utf8.
Local Open Scope Z_scope.

(** Values; a number keeps its text, as the decoder of the library does. *)
#[warnings="-register-all"]
Inductive json :=
  | JNull
  | JBool (b : bool)
  | JNum (text : list byte)
  | JStr (s : list byte)
  | JArr (l : list json)
  | JObj (members : list (list byte * json)).

Definition isC (c : byte) (n : Z) : bool := b2z c =? n.

(** ** Writing *)

Definition hexDigit (n : Z) : byte := if n <? 10 then z2b (48 + n) else z2b (87 + n).

(** [\uXXXX] *)
Definition u4 (r : Z) : list byte :=
  [z2b 92; z2b 117; hexDigit (Z.shiftr r 12 mod 16); hexDigit (Z.shiftr r 8 mod 16);
   hexDigit (Z.shiftr r 4 mod 16); hexDigit (r mod 16)].

(** A byte below 128, with HTML escaping on as [json.Marshal] has it. *)
Definition escape (b : byte) : list byte :=
  let c := b2z b in
  if (c =? 34) || (c =? 92) then [z2b 92; b]
  else if c =? 8 then [z2b 92; z2b 98]
  else if c =? 12 then [z2b 92; z2b 102]
  else if c =? 10 then [z2b 92; z2b 110]
  else if c =? 13 then [z2b 92; z2b 114]
  else if c =? 9 then [z2b 92; z2b 116]
  else if (c <? 32) || (c =? 60) || (c =? 62) || (c =? 38) then u4 c
  else [b].

(** [copy] bytes of the current rune are still to be copied, or [skip] of an
    escaped one still to be passed over. *)
Fixpoint quoteBody (copy skip : nat) (bs : list byte) : list byte :=
  match bs with
  | [] => []
  | b :: r =>
      match copy, skip with
      | S k, _ => b :: quoteBody k 0 r
      | O, S k => quoteBody 0 k r
      | O, O =>
          if b2z b <? 0x80 then escape b ++ quoteBody 0 0 r
          else match decodeRune bs with
               | None => u4 RuneError ++ quoteBody 0 0 r
               | Some (x, n) =>
                   if (x =? 0x2028) || (x =? 0x2029) then u4 x ++ quoteBody 0 (n - 1) r
                   else b :: quoteBody (n - 1) 0 r
               end
      end
  end.

Definition quote (s : list byte) : list byte := z2b 34 :: quoteBody 0 0 s ++ [z2b 34].

Fixpoint commaSep (l : list (list byte)) : list byte :=
  match l with
  | [] => []
  | [x] => x
  | x :: l' => x ++ z2b 44 :: commaSep l'
  end.

Abbreviation text s := (bytes_of_string s).

Fixpoint print (j : json) : list byte :=
  match j with
  | JNull => text "null"
  | JBool true => text "true"
  | JBool false => text "false"
  | JNum t => t
  | JStr s => quote s
  | JArr l => z2b 91 :: commaSep (map print l) ++ [z2b 93]
  | JObj l =>
      z2b 123 :: commaSep (map (fun kv => quote (fst kv) ++ z2b 58 :: print (snd kv)) l) ++ [z2b 125]
  end.

(** ** Reading *)

Definition hexVal (b : byte) : option Z :=
  let c := b2z b in
  if (48 <=? c) && (c <=? 57) then Some (c - 48)
  else if (97 <=? c) && (c <=? 102) then Some (c - 87)
  else if (65 <=? c) && (c <=? 70) then Some (c - 55)
  else None.

Definition hex4 (a b c d : byte) : option Z :=
  a ← hexVal a; b ← hexVal b; c ← hexVal c; d ← hexVal d;
  Some (a * 4096 + b * 256 + c * 16 + d).

Definition isSurrogate (r : Z) : bool := (0xD800 <=? r) && (r <? 0xE000).

(** [utf16.DecodeRune] *)
Definition surrogatePair (r1 r2 : Z) : option Z :=
  if (0xD800 <=? r1) && (r1 <? 0xDC00) && (0xDC00 <=? r2) && (r2 <? 0xE000)
  then Some (Z.lor (Z.shiftl (r1 - 0xD800) 10) (r2 - 0xDC00) + 0x10000) else None.

Definition unescape (e : byte) : option byte :=
  let c := b2z e in
  if (c =? 34) || (c =? 92) || (c =? 47) then Some e
  else if c =? 98 then Some (z2b 8)
  else if c =? 102 then Some (z2b 12)
  else if c =? 110 then Some (z2b 10)
  else if c =? 114 then Some (z2b 13)
  else if c =? 116 then Some (z2b 9)
  else None.

(** [s] in front of what the rest of the string literal gives. *)
Definition prepend (s : list byte) (x : option (list byte * list byte)) : option (list byte * list byte) :=
  '(t, r) ← x; Some (s ++ t, r).

(** The rest of a string literal, after its opening quote: its value and what
    follows the closing quote. *)
Fixpoint unquoteBody (copy : nat) (bs : list byte) : option (list byte * list byte) :=
  match bs with
  | [] => None
  | c :: r =>
      match copy with
      | S k => prepend [c] (unquoteBody k r)
      | O =>
          if isC c 34 then Some ([], r)
          else if isC c 92 then
            match r with
            | [] => None
            | e :: r1 =>
                if isC e 117 then
                  match r1 with
                  | h1 :: h2 :: h3 :: h4 :: r2 =>
                      rr ← hex4 h1 h2 h3 h4;
                      if isSurrogate rr then
                        match r2 with
                        | c' :: e' :: g1 :: g2 :: g3 :: g4 :: r3 =>
                            match (if isC c' 92 && isC e' 117
                                   then rr1 ← hex4 g1 g2 g3 g4; surrogatePair rr rr1 else None) with
                            | Some dec => prepend (encodeRune dec) (unquoteBody 0 r3)
                            | None => prepend (encodeRune RuneError) (unquoteBody 0 r2)
                            end
                        | _ => prepend (encodeRune RuneError) (unquoteBody 0 r2)
                        end
                      else prepend (encodeRune rr) (unquoteBody 0 r2)
                  | _ => None
                  end
                else x ← unescape e; prepend [x] (unquoteBody 0 r1)
            end
          else if b2z c <? 32 then None
          else if b2z c <? 0x80 then prepend [c] (unquoteBody 0 r)
          else match decodeRune bs with
               | Some (_, n) => prepend [c] (unquoteBody (n - 1) r)
               | None => prepend (encodeRune RuneError) (unquoteBody 0 r)
               end
      end
  end.

Definition isSpace (b : byte) : bool := isC b 32 || isC b 9 || isC b 13 || isC b 10.

Fixpoint skipWs (bs : list byte) : list byte :=
  match bs with
  | b :: r => if isSpace b then skipWs r else bs
  | [] => []
  end.

(** One or more digits. *)
Definition digits1 (bs : list byte) : option (list byte * list byte) :=
  match digitRun bs with
  | [] => None
  | ds => Some (ds, drop (length ds) bs)
  end.

Definition parseInt (bs : list byte) : option (list byte * list byte) :=
  match bs with
  | c :: r => if isC c 48 then Some ([c], r) else digits1 bs
  | [] => None
  end.

Definition parseFrac (bs : list byte) : option (list byte * list byte) :=
  match bs with
  | c :: r => if isC c 46 then prepend [c] (digits1 r) else Some ([], bs)
  | [] => Some ([], bs)
  end.

Definition parseExp (bs : list byte) : option (list byte * list byte) :=
  match bs with
  | c :: r =>
      if isC c 101 || isC c 69 then
        match r with
        | s :: r' => if isC s 43 || isC s 45 then prepend [c; s] (digits1 r') else prepend [c] (digits1 r)
        | [] => None
        end
      else Some ([], bs)
  | [] => Some ([], bs)
  end.

Definition parseNumber (bs : list byte) : option (list byte * list byte) :=
  let '(sgn, bs) := match bs with
                    | c :: r => if isC c 45 then ([c], r) else ([], bs)
                    | [] => ([], bs)
                    end in
  '(i, bs) ← parseInt bs; '(f, bs) ← parseFrac bs; '(e, bs) ← parseExp bs;
  Some (sgn ++ i ++ f ++ e, bs).

Definition stripPrefix (p bs : list byte) : option (list byte) :=
  if decide (take (length p) bs = p) then Some (drop (length p) bs) else None.

Definition maxNestingDepth : Z := 10000.

(** [fuel] bounds the recursion; at most every second step consumes no input,
    so two units per byte and two more are enough ([parseJSON_fuel]). *)
Fixpoint parseValue (fuel : nat) (depth : Z) (bs : list byte) : option (json * list byte) :=
  match fuel with
  | O => None
  | S fuel' =>
      match skipWs bs with
      | [] => None
      | c :: r =>
          if isC c 34 then '(s, r) ← unquoteBody 0 r; Some (JStr s, r)
          else if isC c 123 then
            if maxNestingDepth <=? depth then None
            else match skipWs r with
                 | c' :: r' =>
                     if isC c' 125 then Some (JObj [], r')
                     else '(ms, r) ← parseMembers fuel' (depth + 1) r; Some (JObj ms, r)
                 | [] => None
                 end
          else if isC c 91 then
            if maxNestingDepth <=? depth then None
            else match skipWs r with
                 | c' :: r' =>
                     if isC c' 93 then Some (JArr [], r')
                     else '(l, r) ← parseElements fuel' (depth + 1) r; Some (JArr l, r)
                 | [] => None
                 end
          else if isC c 116 then r ← stripPrefix (text "rue") r; Some (JBool true, r)
          else if isC c 102 then r ← stripPrefix (text "alse") r; Some (JBool false, r)
          else if isC c 110 then r ← stripPrefix (text "ull") r; Some (JNull, r)
          else '(t, r) ← parseNumber (c :: r); Some (JNum t, r)
      end
  end
with parseMembers (fuel : nat) (depth : Z) (bs : list byte)
  : option (list (list byte * json) * list byte) :=
  match fuel with
  | O => None
  | S fuel' =>
      match skipWs bs with
      | c :: r =>
          if isC c 34 then
            '(k, r) ← unquoteBody 0 r;
            match skipWs r with
            | c :: r =>
                if isC c 58 then
                  '(v, r) ← parseValue fuel' depth r;
                  match skipWs r with
                  | c :: r =>
                      if isC c 44 then '(ms, r) ← parseMembers fuel' depth r; Some ((k, v) :: ms, r)
                      else if isC c 125 then Some ([(k, v)], r) else None
                  | [] => None
                  end
                else None
            | [] => None
            end
          else None
      | [] => None
      end
  end
with parseElements (fuel : nat) (depth : Z) (bs : list byte) : option (list json * list byte) :=
  match fuel with
  | O => None
  | S fuel' =>
      '(v, r) ← parseValue fuel' depth bs;
      match skipWs r with
      | c :: r =>
          if isC c 44 then '(l, r) ← parseElements fuel' depth r; Some (v :: l, r)
          else if isC c 93 then Some ([v], r) else None
      | [] => None
      end
  end.

(** A whole document. *)
Definition parseJSON (bs : list byte) : option json :=
  '(j, r) ← parseValue (2 * length bs + 2) 0 bs;
  match skipWs r with [] => Some j | _ => None end.

(** ** Reading inverts writing: strings *)

Lemma unquote_escape b r :
  b2z b < 0x80 -> unquoteBody 0 (escape b ++ r) = prepend [b] (unquoteBody 0 r).
Proof. destruct b; intros Hb; try reflexivity; exfalso; vm_compute in Hb; discriminate. Qed.

Lemma isC_false c n : b2z c <> n -> isC c n = false.
Proof. apply Z.eqb_neq. Qed.

Lemma decodeRune_take bs x n k :
  decodeRune bs = Some (x, n) -> decodeRune (take n bs ++ k) = Some (x, n).
Proof.
  destruct bs as [|b0 r]; [done|]. unfold decodeRune at 1.
  repeat case_match; intros; simplify_eq; cbn [take app]; unfold decodeRune;
    repeat match goal with H : _ = true |- _ => rewrite H | H : _ = false |- _ => rewrite H end; done.
Qed.

(** The value of a decoded rune, by the number of its bytes. *)
Lemma rune2 b0 b1 :
  Z.lor (Z.shiftl (Z.land (b2z b0) 0x1F) 6) (low6 b1) = (b2z b0 mod 32) * 64 + b2z b1 mod 64.
Proof.
  unfold low6. change 0x1F with (Z.ones 5). change 0x3F with (Z.ones 6).
  rewrite !Z.land_ones by lia. pose proof (Z.mod_pos_bound (b2z b1) (2 ^ 6) ltac:(done)).
  by rewrite lor_shiftl by lia.
Qed.

Lemma rune3 b0 b1 b2 :
  Z.lor (Z.lor (Z.shiftl (Z.land (b2z b0) 0x0F) 12) (Z.shiftl (low6 b1) 6)) (low6 b2) =
  (b2z b0 mod 16) * 4096 + (b2z b1 mod 64) * 64 + b2z b2 mod 64.
Proof.
  unfold low6. change 0x0F with (Z.ones 4). change 0x3F with (Z.ones 6).
  rewrite !Z.land_ones by lia. pose proof (Z.mod_pos_bound (b2z b1) (2 ^ 6) ltac:(done)).
  pose proof (Z.mod_pos_bound (b2z b2) (2 ^ 6) ltac:(done)).
  change (2 ^ 4) with 16. change (2 ^ 6) with 64 in *.
  rewrite <-Z.lor_assoc, (lor_shiftl (b2z b1 mod _)), lor_shiftl by lia. lia.
Qed.

Lemma rune4 b0 b1 b2 b3 :
  Z.lor (Z.lor (Z.lor (Z.shiftl (Z.land (b2z b0) 0x07) 18) (Z.shiftl (low6 b1) 12))
               (Z.shiftl (low6 b2) 6)) (low6 b3) =
  (b2z b0 mod 8) * 262144 + (b2z b1 mod 64) * 4096 + (b2z b2 mod 64) * 64 + b2z b3 mod 64.
Proof.
  unfold low6. change 0x07 with (Z.ones 3). change 0x3F with (Z.ones 6).
  rewrite !Z.land_ones by lia. pose proof (Z.mod_pos_bound (b2z b1) (2 ^ 6) ltac:(done)).
  pose proof (Z.mod_pos_bound (b2z b2) (2 ^ 6) ltac:(done)).
  pose proof (Z.mod_pos_bound (b2z b3) (2 ^ 6) ltac:(done)).
  change (2 ^ 3) with 8. change (2 ^ 6) with 64 in *.
  rewrite <-!Z.lor_assoc, (lor_shiftl (b2z b2 mod _)), (lor_shiftl (b2z b1 mod _)), lor_shiftl by lia. lia.
Qed.

Lemma byte_is b z : b2z b = z -> b = z2b z.
Proof. intros <-. by rewrite z2b_b2z. Qed.

Lemma byte_eq c n : isC c n = true -> c = z2b n.
Proof. unfold isC. intros H%Z.eqb_eq. by apply byte_is. Qed.

(** The two separators have one encoding. *)
Lemma decodeRune_separator b r x n :
  decodeRune (b :: r) = Some (x, n) -> (x =? 0x2028) || (x =? 0x2029) = true ->
  0x80 <= b2z b -> n = 3%nat /\ exists r', b :: r = encodeRune x ++ r'.
Proof.
  intros H Hx Hb. unfold decodeRune, isCont, within in H.
  destruct (Z.ltb_spec (b2z b) 0x80); [lia|].
  repeat case_match; simplify_eq; rewrite ?rune2, ?rune3, ?rune4 in *; breflect.
  all: try (exfalso; destruct Hx; breflect; Z.to_euclidean_division_equations; lia).
  rename b1 into b2, b0 into b1. split; [done|]. exists l0.
  destruct Hx as [Hx|Hx]; apply Z.eqb_eq in Hx; rewrite Hx;
    rewrite (byte_is b 0xE2), (byte_is b1 0x80) by (Z.to_euclidean_division_equations; lia);
    [rewrite (byte_is b2 0xA8)|rewrite (byte_is b2 0xA9)];
    try (Z.to_euclidean_division_equations; lia); reflexivity.
Qed.

Lemma quoteBody_copy k : forall bs,
  (k <= length bs)%nat -> quoteBody k 0 bs = take k bs ++ quoteBody 0 0 (drop k bs).
Proof.
  induction k as [|k IH]; intros bs Hk; [done|]. destruct bs as [|b bs]; [simpl in Hk; lia|].
  cbn [quoteBody take drop app]. by rewrite IH by (simpl in Hk; lia).
Qed.

Lemma validFrom_skip k : forall bs,
  (k <= length bs)%nat -> validFrom k bs = validFrom 0 (drop k bs).
Proof.
  induction k as [|k IH]; intros bs Hk; [done|]. destruct bs as [|b bs]; [simpl in Hk; lia|].
  cbn [validFrom drop]. by rewrite IH by (simpl in Hk; lia).
Qed.

Lemma unquoteBody_copy p k r :
  length p = k -> unquoteBody k (p ++ r) = prepend p (unquoteBody 0 r).
Proof.
  revert k. induction p as [|b p IH]; intros k Hk; simpl in Hk; subst k.
  - cbn [app]. destruct (unquoteBody 0 r) as [[? ?]|]; done.
  - cbn [app unquoteBody]. rewrite IH by done. by destruct (unquoteBody 0 r) as [[? ?]|].
Qed.

(** The bytes of a string with U+FFFD in place of every byte that is not part
    of a valid encoding; [copy] bytes of a valid one are still to be copied. *)
Fixpoint replaced (copy : nat) (bs : list byte) : list byte :=
  match bs with
  | [] => []
  | b :: r =>
      match copy with
      | S k => b :: replaced k r
      | O => match decodeRune bs with
             | None => encodeRune RuneError ++ replaced 0 r
             | Some (_, n) => b :: replaced (n - 1) r
             end
      end
  end.

Lemma replaced_copy k : forall bs, (k <= length bs)%nat -> replaced k bs = take k bs ++ replaced 0 (drop k bs).
Proof.
  induction k as [|k IH]; intros bs Hk; [done|]. destruct bs as [|b bs]; [simpl in Hk; lia|].
  cbn [replaced take drop app]. by rewrite IH by (simpl in Hk; lia).
Qed.

Lemma replaced_valid bs : forall k, validFrom k bs = true -> replaced k bs = bs.
Proof.
  induction bs as [|b r IH]; intros k; [done|]. cbn [validFrom replaced]. destruct k as [|k]; [|intros H; by rewrite IH].
  destruct (decodeRune (b :: r)) as [[x n]|]; [|done]. intros H. by rewrite IH.
Qed.

(** Reading back a written string gives its bytes, those that are not UTF-8
    replaced. *)
Lemma unquote_quote n : forall s rest,
  (length s <= n)%nat -> unquoteBody 0 (quoteBody 0 0 s ++ z2b 34 :: rest) = Some (replaced 0 s, rest).
Proof.
  induction n as [|n IH]; intros s rest Hn.
  { destruct s; [done|]. simpl in Hn. lia. }
  destruct s as [|b r]; [done|]. simpl in Hn. cbn [quoteBody replaced]. destruct (Z.ltb_spec (b2z b) 0x80) as [Hb|Hb].
  { rewrite decodeRune_ascii by done. change (1 - 1)%nat with 0%nat.
    rewrite <-app_assoc, unquote_escape, IH by (done || lia). done. }
  destruct (decodeRune (b :: r)) as [[x k]|] eqn:Hd.
  2: { rewrite <-app_assoc.
       assert (forall l, unquoteBody 0 (u4 RuneError ++ l) = prepend (encodeRune RuneError) (unquoteBody 0 l)) as -> by done.
       by rewrite IH by lia. }
  destruct (decodeRune_width _ _ _ _ Hd Hb) as (Hk & Hl & Hc).
  destruct (_ || _) eqn:Hx.
  - destruct (decodeRune_separator _ _ _ _ Hd Hx Hb) as (-> & r' & E).
    destruct r as [|c1 [|c2 r]]; [simpl in Hl; lia..|].
    assert (encodeRune x = [b; c1; c2] /\ r' = r) as [Ex ->].
    { apply orb_true_iff in Hx as [Hx%Z.eqb_eq|Hx%Z.eqb_eq]; subst x; injection E as -> -> -> ->; done. }
    change (quoteBody 0 (3 - 1) (c1 :: c2 :: r)) with (quoteBody 0 0 r).
    change (replaced (3 - 1) (c1 :: c2 :: r)) with (c1 :: c2 :: replaced 0 r). rewrite <-app_assoc.
    assert (forall l, unquoteBody 0 (u4 x ++ l) = prepend (encodeRune x) (unquoteBody 0 l)) as ->
      by (intros l; apply orb_true_iff in Hx as [Hx%Z.eqb_eq|Hx%Z.eqb_eq]; subst x; reflexivity).
    simpl in Hn. rewrite IH, Ex by (done || lia). done.
  - rewrite quoteBody_copy, replaced_copy by done. cbn [app unquoteBody].
    rewrite !isC_false by lia. zbool.
    pose proof (decodeRune_take _ _ _ (quoteBody 0 0 (drop (k - 1) r) ++ z2b 34 :: rest) Hd) as Ht.
    destruct k as [|k]; [lia|]. cbn [take app] in Ht. rewrite Nat.sub_succ, Nat.sub_0_r in *.
    rewrite <-app_assoc, Ht, Nat.sub_succ, Nat.sub_0_r.
    rewrite unquoteBody_copy by (rewrite length_take; lia).
    rewrite IH by (rewrite length_drop; lia). done.
Qed.

(** ** Reading inverts writing: numbers *)

(** What may follow a number. *)
Definition delimits (k : list byte) : Prop :=
  forall c, k !! 0%nat = Some c ->
    isDigit c = false /\ isC c 46 = false /\ isC c 101 = false /\ isC c 69 = false.

Lemma digitRun_le bs : (length (digitRun bs) <= length bs)%nat.
Proof. induction bs as [|b bs IH]; [done|]. simpl. destruct (isDigit b); simpl; lia. Qed.

Lemma digitRun_delimits bs k : delimits k -> digitRun (bs ++ k) = digitRun bs.
Proof.
  intros Hk. induction bs as [|b bs IH]; simpl; [|by rewrite IH].
  destruct k as [|c k]; [done|]. simpl. by destruct (Hk c eq_refl) as (-> & _).
Qed.

Lemma digits1_delimits bs k ds r :
  delimits k -> digits1 bs = Some (ds, r) -> digits1 (bs ++ k) = Some (ds, r ++ k).
Proof.
  intros Hk. unfold digits1. rewrite digitRun_delimits by done. pose proof (digitRun_le bs).
  destruct (digitRun bs) as [|d ds']; [done|]. intros [= <- <-].
  by rewrite drop_app_le by done.
Qed.

Lemma parseFrac_delimits bs k f r :
  delimits k -> parseFrac bs = Some (f, r) -> parseFrac (bs ++ k) = Some (f, r ++ k).
Proof.
  intros Hk. unfold parseFrac. destruct bs as [|c bs]; cbn [app].
  - intros [= <- <-]. destruct k as [|c k]; [done|]. by destruct (Hk c eq_refl) as (_ & -> & _).
  - destruct (isC c 46); [|by intros [= <- <-]]. unfold prepend.
    destruct (digits1 bs) as [[ds r']|] eqn:E; [|done]. intros [= <- <-].
    by rewrite (digits1_delimits _ _ _ _ Hk E).
Qed.

Lemma parseExp_delimits bs k e r :
  delimits k -> parseExp bs = Some (e, r) -> parseExp (bs ++ k) = Some (e, r ++ k).
Proof.
  intros Hk. unfold parseExp, prepend. destruct bs as [|c bs]; cbn [app].
  - intros [= <- <-]. destruct k as [|c k]; [done|]. by destruct (Hk c eq_refl) as (_ & _ & -> & ->).
  - destruct (_ || _); [|by intros [= <- <-]]. destruct bs as [|s bs]; [done|]. cbn [app].
    destruct (_ || _).
    + destruct (digits1 bs) as [[ds r']|] eqn:E; [|done]. intros [= <- <-].
      by rewrite (digits1_delimits _ _ _ _ Hk E).
    + destruct (digits1 (s :: bs)) as [[ds r']|] eqn:E; [|done]. intros [= <- <-].
      change (s :: bs ++ k) with ((s :: bs) ++ k). by rewrite (digits1_delimits _ _ _ _ Hk E).
Qed.

Lemma parseInt_delimits bs k i r :
  delimits k -> parseInt bs = Some (i, r) -> parseInt (bs ++ k) = Some (i, r ++ k).
Proof.
  intros Hk. unfold parseInt. destruct bs as [|c bs]; [done|]. cbn [app].
  destruct (isC c 48); [by intros [= <- <-]|]. intros E.
  change (c :: bs ++ k) with ((c :: bs) ++ k). by apply digits1_delimits.
Qed.

Lemma parseNumber_delimits bs k t r :
  delimits k -> parseNumber bs = Some (t, r) -> parseNumber (bs ++ k) = Some (t, r ++ k).
Proof.
  intros Hk. unfold parseNumber. destruct bs as [|c bs]; [done|]. cbn [app].
  set (x := if isC c 45 then ([c], bs) else ([], c :: bs)).
  assert ((if isC c 45 then ([c], bs ++ k) else ([], c :: bs ++ k)) = (x.1, x.2 ++ k)) as ->
    by (unfold x; by destruct (isC c 45)).
  destruct x as [sgn l]. cbn [fst snd].
  destruct (parseInt l) as [[i l1]|] eqn:E1; [|done]. rewrite (parseInt_delimits _ _ _ _ Hk E1). simpl.
  destruct (parseFrac l1) as [[f l2]|] eqn:E2; [|done]. rewrite (parseFrac_delimits _ _ _ _ Hk E2). simpl.
  destruct (parseExp l2) as [[e l3]|] eqn:E3; [|done]. rewrite (parseExp_delimits _ _ _ _ Hk E3). simpl.
  by intros [= <- <-].
Qed.

(** The text of a number starts with a sign or a digit. *)
Lemma parseNumber_head c bs t r :
  parseNumber (c :: bs) = Some (t, r) -> isC c 45 = true \/ isDigit c = true.
Proof.
  unfold parseNumber. destruct (isC c 45); [by left|]. unfold parseInt, isC.
  destruct (Z.eqb_spec (b2z c) 48) as [Hc|]; [intros _; right; unfold isDigit; by zbool|].
  unfold digits1. simpl. destruct (isDigit c); [by right|done].
Qed.

(** ** Reading inverts writing: values *)

Definition membersText (l : list (list byte * json)) : list byte :=
  commaSep (map (fun kv => quote (fst kv) ++ z2b 58 :: print (snd kv)) l).

(** Values whose strings are UTF-8 and whose numbers are JSON numbers. *)
Fixpoint canonical (j : json) : bool :=
  match j with
  | JNull | JBool _ => true
  | JNum t => bool_decide (parseNumber t = Some (t, []))
  | JStr s => validUTF8 s
  | JArr l => forallb canonical l
  | JObj l => forallb (fun kv => validUTF8 (fst kv) && canonical (snd kv)) l
  end.

Fixpoint jsize (j : json) : nat :=
  match j with
  | JArr l => S (list_sum (map (fun x => S (jsize x)) l))
  | JObj l => S (list_sum (map (fun kv => S (jsize (snd kv))) l))
  | _ => 1
  end.

Fixpoint jdepth (j : json) : Z :=
  match j with
  | JArr l => 1 + foldr Z.max 0 (map jdepth l)
  | JObj l => 1 + foldr Z.max 0 (map (fun kv => jdepth (snd kv)) l)
  | _ => 0
  end.

Lemma skipWs_id c r : isSpace c = false -> skipWs (c :: r) = c :: r.
Proof. intros Hc. simpl. by rewrite Hc. Qed.

Lemma parseValue_num fuel depth t k :
  parseNumber t = Some (t, []) -> delimits k -> parseValue (S fuel) depth (t ++ k) = Some (JNum t, k).
Proof.
  intros Ht Hk. destruct t as [|c t]; [done|].
  assert (b2z c = 45 \/ 48 <= b2z c <= 57) as Hc.
  { destruct (parseNumber_head _ _ _ _ Ht) as [H|H]; unfold isC, isDigit in H; breflect; lia. }
  cbn [parseValue app]. rewrite skipWs_id by (unfold isSpace; rewrite !isC_false by lia; done).
  rewrite !isC_false by lia. change (c :: t ++ k) with ((c :: t) ++ k).
  by rewrite (parseNumber_delimits _ _ _ _ Hk Ht).
Qed.

Lemma unquote_text s k : validUTF8 s = true -> unquoteBody 0 (quoteBody 0 0 s ++ z2b 34 :: k) = Some (s, k).
Proof. intros Hv. rewrite (unquote_quote (length s)) by done. by rewrite replaced_valid. Qed.

Lemma quote_app s k : quote s ++ k = z2b 34 :: quoteBody 0 0 s ++ z2b 34 :: k.
Proof. unfold quote. cbn [app]. by rewrite <-app_assoc. Qed.

Lemma delimits_char c k :
  isDigit c = false -> isC c 46 = false -> isC c 101 = false -> isC c 69 = false -> delimits (c :: k).
Proof. by intros ???? ? [= <-]. Qed.

Lemma foldr_max_le (l : list Z) x : x ∈ l -> x <= foldr Z.max 0 l.
Proof. induction 1; simpl; lia. Qed.

(** The head of a written value is not a space and not a closing bracket. *)
Lemma print_head j k : canonical j = true -> exists c r, print j ++ k = c :: r /\
  isSpace c = false /\ isC c 93 = false.
Proof.
  intros Hc. destruct j as [|[]|t|s|l|l]; try (eexists _, _; split; [reflexivity|split; reflexivity]).
  cbn [canonical] in Hc. apply bool_decide_eq_true in Hc. destruct t as [|c t]; [done|].
  eexists _, _. split; [reflexivity|].
  destruct (parseNumber_head _ _ _ _ Hc) as [H|H]; unfold isC, isDigit in H; breflect;
    unfold isSpace; rewrite !isC_false by lia; done.
Qed.

Lemma list_sum_cons x l : list_sum (x :: l) = (x + list_sum l)%nat.
Proof. done. Qed.

Lemma commaSep_cons x y l : commaSep (x :: y :: l) = x ++ z2b 44 :: commaSep (y :: l).
Proof. done. Qed.

Definition roundtrips (fuel : nat) : Prop := forall j depth k,
  canonical j = true -> (jsize j <= fuel)%nat -> depth + jdepth j <= maxNestingDepth -> delimits k ->
  parseValue fuel depth (print j ++ k) = Some (j, k).

Lemma parseMembers_print fuel :
  (forall n, (n < fuel)%nat -> roundtrips n) -> forall l depth k,
  l <> [] -> forallb (fun kv => validUTF8 (fst kv) && canonical (snd kv)) l = true ->
  (list_sum (map (fun kv => S (jsize (snd kv))) l) <= fuel)%nat ->
  Forall (fun kv => depth + jdepth (snd kv) <= maxNestingDepth) l ->
  parseMembers fuel depth (membersText l ++ z2b 125 :: k) = Some (l, k).
Proof.
  induction fuel as [|fuel IH]; intros Hj l depth k Hl Hc Hs Hd;
    (destruct l as [|[key v] l]; [done|]); cbn [map snd] in Hs; rewrite list_sum_cons in Hs; [lia|].
  cbn [forallb fst snd] in Hc. apply andb_true_iff in Hc as [Hc Hcl].
  apply andb_true_iff in Hc as [Hk Hv]. apply Forall_cons in Hd as [Hdv Hd]. cbn [snd] in Hdv.
  assert (exists tail, membersText ((key, v) :: l) ++ z2b 125 :: k =
    z2b 34 :: quoteBody 0 0 key ++ z2b 34 :: z2b 58 :: print v ++ tail /\
    delimits tail /\
    tail = match l with
           | [] => z2b 125 :: k
           | _ => z2b 44 :: membersText l ++ z2b 125 :: k
           end) as (tail & -> & Htail & Et).
  { destruct l as [|kv l]; unfold membersText; cbn [map fst snd]; [cbn [commaSep]|rewrite commaSep_cons];
      (eexists; split; [|split; [|reflexivity]; by apply delimits_char]);
      rewrite <-!app_assoc, quote_app; cbn [app]; by rewrite <-?app_assoc. }
  cbn [parseMembers]. rewrite skipWs_id by done. change (isC (z2b 34) 34) with true. cbv iota.
  rewrite unquote_text by done. cbn [mbind option_bind]. rewrite skipWs_id by done.
  change (isC (z2b 58) 58) with true. cbv iota. rewrite (Hj fuel) by (done || lia).
  cbn [mbind option_bind]. rewrite Et. destruct l as [|kv l]; [done|].
  rewrite skipWs_id by done. change (isC (z2b 44) 44) with true. cbv iota.
  rewrite IH; [done| | | | |]; try done; [|lia]. intros n Hn. apply Hj. lia.
Qed.

Lemma parseElements_print fuel :
  (forall n, (n < fuel)%nat -> roundtrips n) -> forall l depth k,
  l <> [] -> forallb canonical l = true ->
  (list_sum (map (fun x => S (jsize x)) l) <= fuel)%nat ->
  Forall (fun x => depth + jdepth x <= maxNestingDepth) l ->
  parseElements fuel depth (commaSep (map print l) ++ z2b 93 :: k) = Some (l, k).
Proof.
  induction fuel as [|fuel IH]; intros Hj l depth k Hl Hc Hs Hd;
    (destruct l as [|v l]; [done|]); cbn [map] in Hs; rewrite list_sum_cons in Hs; [lia|].
  cbn [forallb] in Hc. apply andb_true_iff in Hc as [Hv Hcl]. apply Forall_cons in Hd as [Hdv Hd].
  assert (exists tail, commaSep (map print (v :: l)) ++ z2b 93 :: k = print v ++ tail /\
    delimits tail /\
    tail = match l with
           | [] => z2b 93 :: k
           | _ => z2b 44 :: commaSep (map print l) ++ z2b 93 :: k
           end) as (tail & -> & Htail & Et).
  { destruct l as [|x l]; cbn [map]; [cbn [commaSep]|rewrite commaSep_cons];
      (eexists; split; [|split; [|reflexivity]; by apply delimits_char]);
      rewrite <-?app_assoc; done. }
  cbn [parseElements]. rewrite (Hj fuel) by (done || lia).
  cbn [mbind option_bind]. rewrite Et. destruct l as [|x l]; [done|].
  rewrite skipWs_id by done. change (isC (z2b 44) 44) with true. cbv iota.
  rewrite IH; [done| | | | |]; try done; [|lia]. intros n Hn. apply Hj. lia.
Qed.

Lemma members_depth (l : list (list byte * json)) depth :
  depth + (1 + foldr Z.max 0 (map (fun kv => jdepth (snd kv)) l)) <= maxNestingDepth ->
  Forall (fun kv => depth + 1 + jdepth (snd kv) <= maxNestingDepth) l.
Proof.
  intros H. apply Forall_forall. intros kv Hkv.
  assert (jdepth (snd kv) <= foldr Z.max 0 (map (fun kv => jdepth (snd kv)) l)); [|lia].
  apply foldr_max_le. by apply (list_elem_of_fmap_2 (fun kv => jdepth (snd kv))).
Qed.

Lemma elements_depth (l : list json) depth :
  depth + (1 + foldr Z.max 0 (map jdepth l)) <= maxNestingDepth ->
  Forall (fun x => depth + 1 + jdepth x <= maxNestingDepth) l.
Proof.
  intros H. apply Forall_forall. intros x Hx.
  assert (jdepth x <= foldr Z.max 0 (map jdepth l)); [|lia].
  apply foldr_max_le. by apply (list_elem_of_fmap_2 jdepth).
Qed.

Lemma foldr_max_nonneg (l : list Z) : 0 <= foldr Z.max 0 l.
Proof. induction l; simpl; lia. Qed.

Lemma parseValue_print fuel : roundtrips fuel.
Proof.
  induction (lt_wf fuel) as [fuel _ IH]. intros j depth k Hc Hs Hd Hk.
  destruct fuel as [|fuel]; [destruct j; simpl in Hs; lia|].
  assert (forall n, (n < fuel)%nat -> roundtrips n) as IH' by (intros; apply IH; lia).
  destruct j as [|[]|t|s|l|l]; try reflexivity.
  - apply parseValue_num; [|done]. cbn [canonical] in Hc. by apply bool_decide_eq_true in Hc.
  - cbn [print parseValue]. rewrite quote_app, skipWs_id by done.
    change (isC (z2b 34) 34) with true. cbv iota. by rewrite unquote_text.
  - cbn [canonical jsize jdepth] in *. cbn [print app parseValue]. rewrite <-app_assoc. cbn [app].
    pose proof (foldr_max_nonneg (map jdepth l)).
    rewrite skipWs_id by done. unfold isC at 1 2 3. rewrite !b2z_z2b_small by (unfold in_u8; lia). zbool.
    destruct l as [|x l]; [done|].
    destruct (print_head x (drop (length (print x)) (commaSep (map print (x :: l)) ++ z2b 93 :: k)))
      as (c & r & E & Hsp & H93); [by cbn [forallb] in Hc; apply andb_true_iff in Hc as []|].
    assert (commaSep (map print (x :: l)) ++ z2b 93 :: k = c :: r) as Ec.
    { rewrite <-E. destruct l; cbn [map]; [cbn [commaSep]|rewrite commaSep_cons, <-app_assoc];
        by rewrite drop_app_length. }
    rewrite Ec, skipWs_id, H93 by done. rewrite <-Ec.
    rewrite parseElements_print; try done; [lia|by apply elements_depth].
  - cbn [canonical jsize jdepth] in *. cbn [print app parseValue]. rewrite <-app_assoc. cbn [app].
    pose proof (foldr_max_nonneg (map (fun kv => jdepth (snd kv)) l)).
    rewrite skipWs_id by done. unfold isC at 1 2. rewrite !b2z_z2b_small by (unfold in_u8; lia). zbool.
    destruct l as [|[key v] l]; [done|]. fold (membersText ((key, v) :: l)).
    assert (exists r, membersText ((key, v) :: l) ++ z2b 125 :: k = z2b 34 :: r) as [r Er]
      by (unfold membersText; destruct l; eexists; reflexivity).
    rewrite Er, skipWs_id by done. change (isC (z2b 34) 125) with false. cbv iota. rewrite <-Er.
    rewrite parseMembers_print; try done; [lia|by apply members_depth].
Qed.

Lemma length_commaSep (l : list (list byte)) :
  (list_sum (map length l) + length l <= S (length (commaSep l)))%nat.
Proof.
  induction l as [|x [|y l] IH]; [simpl; lia|simpl; lia|].
  rewrite commaSep_cons, length_app. cbn [map length] in *. rewrite !list_sum_cons in *. lia.
Qed.

Lemma list_sum_map_le {A} (f g : A -> nat) (l : list A) :
  Forall (fun x => (f x <= S (g x))%nat) l ->
  (list_sum (map f l) <= list_sum (map g l) + length l)%nat.
Proof.
  induction 1 as [|x l Hx Hl IH]; [done|]. cbn [map length]. rewrite !list_sum_cons. lia.
Qed.

Lemma jsize_le n : forall j,
  (jsize j <= n)%nat -> canonical j = true -> (jsize j <= length (print j))%nat.
Proof.
  induction n as [|n IH]; intros j Hn Hc; [destruct j; simpl in Hn; lia|].
  destruct j as [|[]|t|s|l|l]; cbn [jsize print length canonical] in *; try (simpl; lia).
  - apply bool_decide_eq_true in Hc. destruct t; [done|simpl; lia].
  - rewrite length_app. cbn [length]. pose proof (length_commaSep (map print l)) as Hs.
    rewrite map_map, length_map in Hs. apply le_S_n in Hn.
    assert (list_sum (map (fun x => S (jsize x)) l) <=
            list_sum (map (fun x => length (print x)) l) + length l)%nat; [|lia].
    apply list_sum_map_le, Forall_forall. intros x Hx. apply le_n_S, IH.
    + apply list_elem_of_split in Hx as (l1 & l2 & ->).
      rewrite map_app, list_sum_app in Hn. cbn [map] in Hn. rewrite list_sum_cons in Hn. lia.
    + rewrite forallb_forall in Hc. apply Hc. by apply list_elem_of_In.
  - rewrite length_app. cbn [length]. apply le_S_n in Hn.
    pose proof (length_commaSep (map (fun kv => quote (fst kv) ++ z2b 58 :: print (snd kv)) l)) as Hs.
    rewrite map_map, length_map in Hs.
    assert (list_sum (map (fun kv => S (jsize (snd kv))) l) <=
      list_sum (map (fun kv => length (quote (fst kv) ++ z2b 58 :: print (snd kv))) l) + length l)%nat; [|lia].
    apply list_sum_map_le, Forall_forall. intros x Hx. apply le_n_S. rewrite length_app. cbn [length].
    assert (jsize (snd x) <= length (print (snd x)))%nat; [|lia]. apply IH.
    + apply list_elem_of_split in Hx as (l1 & l2 & ->).
      rewrite map_app, list_sum_app in Hn. cbn [map] in Hn. rewrite list_sum_cons in Hn. lia.
    + rewrite forallb_forall in Hc. apply list_elem_of_In in Hx. apply Hc, andb_true_iff in Hx as [_ ?]. done.
Qed.

(** Reading inverts writing, for values of any shape within the nesting limit. *)
Lemma parseJSON_print j :
  canonical j = true -> jdepth j <= maxNestingDepth -> parseJSON (print j) = Some j.
Proof.
  intros Hc Hd. unfold parseJSON. pose proof (jsize_le _ j (le_n _) Hc).
  pose proof (parseValue_print (2 * length (print j) + 2) j 0 [] Hc) as Hp. rewrite app_nil_r in Hp.
  rewrite Hp; [done|lia|lia|]. by intros ? [=].
Qed.

(** ** The fuel is enough *)

Lemma skipWs_le bs : (length (skipWs bs) <= length bs)%nat.
Proof. induction bs as [|b bs IH]; [done|]. simpl. destruct (isSpace b); simpl; lia. Qed.

Lemma skipWs_cons bs c r : skipWs bs = c :: r -> (length r < length bs)%nat.
Proof. intros E. pose proof (skipWs_le bs) as H. rewrite E in H. simpl in H. lia. Qed.

Lemma prepend_some s x t r : prepend s x = Some (t, r) -> exists t', x = Some (t', r).
Proof. destruct x as [[t' r']|]; [|done]. intros [= _ <-]. eauto. Qed.

(** Reading a string literal consumes input. *)
Lemma unquoteBody_lt n : forall bs k s r,
  (length bs <= n)%nat -> unquoteBody k bs = Some (s, r) -> (length r < length bs)%nat.
Proof.
  induction n as [|n IH]; intros bs k s r Hn H; (destruct bs as [|c l]; [done|]); simpl in Hn; [lia|].
  assert (forall k' l' pre, (length l' <= length l)%nat ->
    prepend pre (unquoteBody k' l') = Some (s, r) -> (length r < length (c :: l))%nat) as Hp.
  { intros k' l' pre Hl (t' & Ht)%prepend_some. apply IH in Ht; simpl; lia. }
  cbn [unquoteBody] in H. unfold mbind, option_bind in H.
  repeat (case_match; try discriminate H); subst;
    try (eapply Hp; [|exact H]; simpl; lia); simplify_eq; simpl; lia.
Qed.

Lemma digits1_lt bs ds r : digits1 bs = Some (ds, r) -> (length r < length bs)%nat.
Proof.
  unfold digits1. pose proof (digitRun_le bs). destruct (digitRun bs) as [|d ds'] eqn:E; [done|].
  intros [= _ <-]. rewrite length_drop. simpl in *. lia.
Qed.

Lemma parseNumber_lt bs t r : parseNumber bs = Some (t, r) -> (length r < length bs)%nat.
Proof.
  unfold parseNumber. destruct (match bs with [] => _ | _ => _ end) as [sgn l] eqn:El.
  assert (length l <= length bs)%nat as Hl.
  { destruct bs as [|c bs]; [by simplify_eq|]. destruct (isC c 45); simplify_eq; simpl; lia. }
  destruct (parseInt l) as [[i l1]|] eqn:E1; [|done]. simpl.
  assert (length l1 < length l)%nat.
  { unfold parseInt in E1. destruct l as [|c l]; [done|].
    destruct (isC c 48); [simplify_eq; simpl; lia|by eapply digits1_lt]. }
  destruct (parseFrac l1) as [[f l2]|] eqn:E2; [|done]. simpl.
  assert (length l2 <= length l1)%nat.
  { unfold parseFrac in E2. destruct l1 as [|c l1]; [by simplify_eq|].
    destruct (isC c 46); [|by simplify_eq]. apply prepend_some in E2 as [? E2%digits1_lt]. simpl. lia. }
  destruct (parseExp l2) as [[e l3]|] eqn:E3; [|done]. simpl. intros [= _ <-].
  assert (length l3 <= length l2)%nat; [|lia].
  unfold parseExp in E3. destruct l2 as [|c [|s l2]]; [by simplify_eq|by case_match; simplify_eq|].
  repeat case_match; simplify_eq; try done; apply prepend_some in E3 as [? E3%digits1_lt]; simpl in *; lia.
Qed.

Lemma stripPrefix_le p bs r : stripPrefix p bs = Some r -> (length r <= length bs)%nat.
Proof. unfold stripPrefix. case_decide; [|done]. intros [= <-]. rewrite length_drop. lia. Qed.

(** A parser that leaves less than it got. *)
Definition shrinks {A} (p : Z -> list byte -> option (A * list byte)) : Prop :=
  forall depth bs x r, p depth bs = Some (x, r) -> (length r < length bs)%nat.

(** What the successful steps of a parser say about lengths. *)
Ltac lengths :=
  repeat match goal with
  | H : skipWs _ = _ :: _ |- _ => apply skipWs_cons in H
  | H : unquoteBody 0 _ = Some (_, _) |- _ => apply (unquoteBody_lt _ _ _ _ _ (le_n _)) in H
  | H : parseNumber _ = Some (_, _) |- _ => apply parseNumber_lt in H
  | H : stripPrefix _ _ = Some _ |- _ => apply stripPrefix_le in H
  | S : shrinks ?p, H : ?p _ _ = Some (_, _) |- _ => apply S in H
  end.

Lemma parse_shrinks fuel :
  shrinks (parseValue fuel) /\ shrinks (parseMembers fuel) /\ shrinks (parseElements fuel).
Proof.
  induction fuel as [|fuel (IHv & IHm & IHe)]; [by split_and!|].
  split_and!; intros depth bs x r H;
    [cbn [parseValue] in H|cbn [parseMembers] in H|cbn [parseElements] in H];
    unfold mbind, option_bind in H; repeat (case_match; try discriminate H);
    simplify_eq; lengths; simpl in *; lia.
Qed.

(** Two amounts of fuel that give the same on inputs shorter than [n]. *)
Definition agree {A} (p : nat -> Z -> list byte -> option (A * list byte)) (f g n : nat) : Prop :=
  forall depth bs, (length bs < n)%nat -> p f depth bs = p g depth bs.

Lemma parseValue_agree f g n :
  agree parseMembers f g n -> agree parseElements f g n -> agree parseValue (S f) (S g) (S n).
Proof.
  intros Hm He depth bs Hl. cbn [parseValue].
  destruct (skipWs bs) as [|c l] eqn:E; [done|]. apply skipWs_cons in E.
  repeat (case_match; try done); subst; [by rewrite Hm by lia|by rewrite He by lia].
Qed.

Lemma parseMembers_agree f g n :
  agree parseValue f g n -> agree parseMembers f g n -> agree parseMembers (S f) (S g) (S n).
Proof.
  intros Hv Hm depth bs Hl. cbn [parseMembers]. destruct (parse_shrinks g) as (Sv & _ & _).
  destruct (skipWs bs) as [|c l] eqn:E; [done|]. destruct (isC c 34); [|done].
  destruct (unquoteBody 0 l) as [[k l1]|] eqn:E1; [|done]. cbn [mbind option_bind].
  destruct (skipWs l1) as [|c2 l2] eqn:E2; [done|]. destruct (isC c2 58); [|done].
  lengths. rewrite Hv by lia. destruct (parseValue g depth l2) as [[v l3]|] eqn:E3; [|done].
  cbn [mbind option_bind]. destruct (skipWs l3) as [|c4 l4] eqn:E4; [done|]. lengths.
  by rewrite Hm by lia.
Qed.

Lemma parseElements_agree f g n :
  agree parseValue f g (S n) -> agree parseElements f g n -> agree parseElements (S f) (S g) (S n).
Proof.
  intros Hv He depth bs Hl. cbn [parseElements]. destruct (parse_shrinks g) as (Sv & _ & _).
  rewrite Hv by lia. destruct (parseValue g depth bs) as [[v l]|] eqn:E; [|done].
  cbn [mbind option_bind]. destruct (skipWs l) as [|c l1] eqn:E1; [done|]. lengths.
  by rewrite He by lia.
Qed.

Lemma parse_agree n : forall f g,
  (2 * n <= f)%nat -> (2 * n <= g)%nat ->
  agree parseValue f g n /\ agree parseMembers f g n /\ agree parseElements (S f) (S g) n.
Proof.
  induction n as [|n IH]; intros f g Hf Hg; [split_and!; intros ???; lia|].
  destruct f as [|f]; [lia|]. destruct g as [|g]; [lia|].
  destruct (IH f g) as (Hv & Hm & _); [lia..|].
  destruct (IH (f - 1)%nat (g - 1)%nat) as (_ & _ & He); [lia..|].
  replace (S (f - 1)) with f in He by lia. replace (S (g - 1)) with g in He by lia.
  assert (agree parseValue (S f) (S g) (S n)) as Hv' by by apply parseValue_agree.
  split_and!; [done|by apply parseMembers_agree|].
  apply parseElements_agree; [done|]. destruct (IH f g) as (_ & _ & He'); [lia..|]. done.
Qed.

(** More fuel than [parseJSON] takes changes nothing. *)
Lemma parseJSON_fuel fuel bs :
  (2 * length bs + 2 <= fuel)%nat ->
  parseJSON bs = '(j, r) ← parseValue fuel 0 bs; match skipWs r with [] => Some j | _ => None end.
Proof.
  intros Hf. unfold parseJSON.
  destruct (parse_agree (S (length bs)) (2 * length bs + 2) fuel) as (Hv & _); [lia..|].
  by rewrite Hv by lia.
Qed.
