(* ===== verification/Indent.v ===== *)
(** * [json.Indent]

    The function eipc-cli lays payloads out with, and the proof that the
    result is an indented layout of the same JSON value. *)

From S2P Require Import Prelude Time Utf8 Json.
Local Open Scope list_scope.
Local Open Scope Z_scope.

(** Where the scanner is: between tokens, with a newline due before the next
    one unless it closes, in a string, or behind a backslash in a string. *)
Inductive scanMode := Outside (needIndent : bool) | InString | Escaped.

Section Indent.
Context (pre ind : list byte).

(** [appendNewline] *)
Definition newline (depth : nat) : list byte := z2b 10 :: pre ++ concat (replicate depth ind).

(** The loop of [appendIndent] over valid input. *)
Fixpoint indentLoop (mode : scanMode) (depth : nat) (src : list byte) : list byte :=
  match src with
  | [] => []
  | c :: r =>
      match mode with
      | Escaped => c :: indentLoop InString depth r
      | InString =>
          c :: indentLoop (if isC c 92 then Escaped else if isC c 34 then Outside false else InString) depth r
      | Outside need =>
          if isSpace c then indentLoop (Outside need) depth r
          else if isC c 125 || isC c 93 then
            if need then c :: indentLoop (Outside false) depth r
            else newline (pred depth) ++ c :: indentLoop (Outside false) (pred depth) r
          else
            let lead := if need then newline (S depth) else [] in
            let depth := if need then S depth else depth in
            lead ++
            if isC c 123 || isC c 91 then c :: indentLoop (Outside true) depth r
            else if isC c 44 then c :: newline depth ++ indentLoop (Outside false) depth r
            else if isC c 58 then c :: z2b 32 :: indentLoop (Outside false) depth r
            else c :: indentLoop (if isC c 34 then InString else Outside false) depth r
      end
  end.

(** The white space at the end, which is kept. *)
Definition trailing (src : list byte) : list byte := drop (length (skipWs (reverse src))) src.

(** [json.Indent(&dst, src, pre, ind)]; [None] is its error. *)
Definition Indent (src : list byte) : option (list byte) :=
  match parseJSON src with
  | Some _ => Some (indentLoop (Outside false) 0 src ++ trailing src)
  | None => None
  end.

(** ** White space *)

Definition spaces (ws : list byte) : Prop := Forall (fun c => isSpace c = true) ws.

Lemma skipWs_spaces ws l : spaces ws -> skipWs (ws ++ l) = skipWs l.
Proof. induction 1 as [|c ws Hc _ IH]; [done|]. cbn [app skipWs]. by rewrite Hc. Qed.

Lemma skipWs_split l c r : skipWs l = c :: r -> exists ws, l = ws ++ c :: r /\ spaces ws /\ isSpace c = false.
Proof.
  induction l as [|x l IH]; [done|]. cbn [skipWs]. destruct (isSpace x) eqn:E.
  - intros (ws & -> & Hws & Hc)%IH. exists (x :: ws). split; [done|]. split; [by apply Forall_cons|done].
  - intros [= -> ->]. exists []. by split; [|split; [constructor|]].
Qed.

Lemma skipWs_nil l : skipWs l = [] -> spaces l.
Proof.
  induction l as [|x l IH]; [constructor|]. cbn [skipWs]. destruct (isSpace x) eqn:E; [|done].
  intros H. apply Forall_cons. split; [done|by apply IH].
Qed.

Lemma indent_spaces ws need d l : spaces ws -> indentLoop (Outside need) d (ws ++ l) = indentLoop (Outside need) d l.
Proof. induction 1 as [|c ws Hc _ IH]; [done|]. cbn [app indentLoop]. by rewrite Hc. Qed.

Context (pre_ws : spaces pre) (ind_ws : spaces ind).

Lemma newline_spaces d : spaces (newline d).
Proof.
  apply Forall_cons. split; [done|]. apply Forall_app. split; [done|].
  induction d as [|d IH]; [constructor|]. cbn [replicate concat]. by apply Forall_app.
Qed.

Lemma newline_delimits d l : delimits (newline d ++ l).
Proof. intros c [= <-]. done. Qed.

(** ** Strings *)

Lemma hexVal_char c v : hexVal c = Some v -> isC c 92 = false /\ isC c 34 = false.
Proof. unfold hexVal, isC. intros H. repeat case_match; try done; breflect; split; apply Z.eqb_neq; lia. Qed.

Lemma hex4_chars a b c d v :
  hex4 a b c d = Some v -> Forall (fun x => isC x 92 = false /\ isC x 34 = false) [a; b; c; d].
Proof.
  unfold hex4. destruct (hexVal a) eqn:Ea; [|done]. destruct (hexVal b) eqn:Eb; [|done].
  destruct (hexVal c) eqn:Ec; [|done]. destruct (hexVal d) eqn:Ed; [|done]. intros _.
  repeat (apply Forall_cons; split); try apply Forall_nil_2; by eapply hexVal_char.
Qed.

Lemma indent_string_chars l k d :
  Forall (fun x => isC x 92 = false /\ isC x 34 = false) l ->
  indentLoop InString d (l ++ k) = l ++ indentLoop InString d k.
Proof. induction 1 as [|c l [H1 H2] _ IH]; [done|]. cbn [app indentLoop]. by rewrite H1, H2, IH. Qed.

End Indent.

(** The second half of a surrogate pair. *)
Definition pairOf (rr : Z) (r : list byte) : option Z :=
  match r with
  | c :: e :: g1 :: g2 :: g3 :: g4 :: _ =>
      if isC c 92 && isC e 117 then rr1 ← hex4 g1 g2 g3 g4; surrogatePair rr rr1 else None
  | _ => None
  end.

Lemma unquoteBody_u h1 h2 h3 h4 r rr :
  hex4 h1 h2 h3 h4 = Some rr ->
  unquoteBody 0 (z2b 92 :: z2b 117 :: h1 :: h2 :: h3 :: h4 :: r) =
  if isSurrogate rr then
    match pairOf rr r with
    | Some dec => prepend (encodeRune dec) (unquoteBody 0 (drop 6 r))
    | None => prepend (encodeRune RuneError) (unquoteBody 0 r)
    end
  else prepend (encodeRune rr) (unquoteBody 0 r).
Proof.
  intros Hh. change (z2b 92 :: z2b 117 :: h1 :: h2 :: h3 :: h4 :: r) with ([z2b 92; z2b 117; h1; h2; h3; h4] ++ r).
  cbn [app]. cbn [unquoteBody]. change (isC (z2b 92) 34) with false. change (isC (z2b 92) 92) with true.
  change (isC (z2b 117) 117) with true. cbv iota. rewrite Hh. cbn [mbind option_bind].
  destruct (isSurrogate rr); [|done]. destruct r as [|c [|e [|g1 [|g2 [|g3 [|g4 r]]]]]]; try done.
Qed.

Lemma pairOf_quote rr l i : (i < 6)%nat -> l !! i = Some (z2b 34) -> pairOf rr l = None.
Proof.
  intros Hi Hl. destruct l as [|c [|e [|g1 [|g2 [|g3 [|g4 l]]]]]]; try done. cbn [pairOf].
  destruct (isC c 92 && isC e 117) eqn:E; [|done]. apply andb_true_iff in E as [E1 E2].
  destruct (hex4 g1 g2 g3 g4) as [v|] eqn:Eh; [|done]. apply hex4_chars in Eh.
  assert (z2b 34 ∈ [g1; g2; g3; g4]) as Hin.
  { destruct i as [|[|i]]; cbn in Hl; [by injection Hl as ->|by injection Hl as ->|].
    apply (list_elem_of_lookup_2 _ i). do 4 (destruct i as [|i]; [done|]). lia. }
  rewrite Forall_forall in Eh. by destruct (Eh _ Hin).
Qed.

(** Neither looks beyond the closing quote. *)
Lemma pairOf_local rr raw k k' : pairOf rr (raw ++ z2b 34 :: k) = pairOf rr (raw ++ z2b 34 :: k').
Proof.
  destruct (decide (length raw < 6)%nat) as [Hl|Hl].
  - rewrite !(pairOf_quote _ _ (length raw)) by (done || by rewrite list_lookup_middle). done.
  - do 6 (destruct raw as [|? raw]; [cbn in Hl; lia|]). done.
Qed.

Lemma decodeRune_local c raw k k' : decodeRune (c :: raw ++ z2b 34 :: k) = decodeRune (c :: raw ++ z2b 34 :: k').
Proof.
  assert (forall lo hi, 0x80 <= lo -> within lo hi (z2b 34) = false) as Hw.
  { intros lo hi Hlo. unfold within. change (b2z (z2b 34)) with 34. by rewrite (proj2 (Z.leb_gt _ _)) by lia. }
  assert (isCont (z2b 34) = false) as Hc by done.
  unfold decodeRune. destruct (b2z c <? 128); [done|].
  destruct raw as [|a [|b [|d raw]]]; cbn [app]; [| | |done].
  - rewrite Hc. rewrite !Hw by (destruct (_ =? _); lia). cbn [andb]. by destruct k as [|? [|? ?]], k' as [|? [|? ?]].
  - rewrite Hc, !andb_false_r. cbn [andb]. by destruct k as [|? ?], k' as [|? ?].
  - by rewrite Hc, !andb_false_r.
Qed.

Lemma prepend_inv x o s r : prepend x o = Some (s, r) -> exists t, o = Some (t, r) /\ s = x ++ t.
Proof. unfold prepend. destruct o as [[t r']|]; [|done]. intros [= <- <-]. by exists t. Qed.

(** The literal that a string was read from: what it is in any context, and
    that the layout leaves it alone. *)
Definition literal (copy : nat) (bs s r : list byte) : Prop :=
  exists raw, bs = raw ++ z2b 34 :: r /\
    (forall k, unquoteBody copy (raw ++ z2b 34 :: k) = Some (s, k)) /\
    (forall pre ind d k, indentLoop pre ind InString d (raw ++ z2b 34 :: k) =
                         raw ++ z2b 34 :: indentLoop pre ind (Outside false) d k).

(** Parts of a literal that the layout copies and stays in the string. *)
Definition inert (l : list byte) : Prop :=
  forall pre ind d k, indentLoop pre ind InString d (l ++ k) = l ++ indentLoop pre ind InString d k.

Lemma inert_chars l : Forall (fun x => isC x 92 = false /\ isC x 34 = false) l -> inert l.
Proof. intros Hl pre ind d k. by apply indent_string_chars. Qed.

Lemma inert_escape e l : inert l -> inert (z2b 92 :: e :: l).
Proof.
  intros Hl pre ind d k. cbn [app indentLoop]. change (isC (z2b 92) 92) with true. cbv iota. cbn [indentLoop].
  by rewrite Hl.
Qed.

Lemma inert_app l l' : inert l -> inert l' -> inert (l ++ l').
Proof. intros H H' pre ind d k. by rewrite <-app_assoc, H, H', app_assoc. Qed.

Lemma literal_front copy copy' front bs x s r :
  inert front ->
  (forall raw, bs = raw ++ z2b 34 :: r -> forall k,
     unquoteBody copy (front ++ raw ++ z2b 34 :: k) = prepend x (unquoteBody copy' (raw ++ z2b 34 :: k))) ->
  literal copy' bs s r -> literal copy (front ++ bs) (x ++ s) r.
Proof.
  intros Hf Hu (raw & -> & Hk & Hi). exists (front ++ raw). split; [by rewrite app_assoc|]. split.
  - intros k. rewrite <-app_assoc, (Hu raw) by done. by rewrite Hk.
  - intros pre ind d k. by rewrite <-!app_assoc, Hf, Hi.
Qed.

(** The escape [\uXXXX], alone or with the second half of a pair. *)
Lemma literal_u n h1 h2 h3 h4 t s r :
  (forall bs s r, (length bs < n)%nat -> unquoteBody 0 bs = Some (s, r) -> literal 0 bs s r) ->
  (length t + 4 < n)%nat -> unquoteBody 0 (z2b 92 :: z2b 117 :: h1 :: h2 :: h3 :: h4 :: t) = Some (s, r) ->
  literal 0 (z2b 92 :: z2b 117 :: h1 :: h2 :: h3 :: h4 :: t) s r.
Proof.
  intros IH Hn H. destruct (hex4 h1 h2 h3 h4) as [rr|] eqn:Hh.
  2:{ cbn [unquoteBody] in H. change (isC (z2b 92) 34) with false in H. change (isC (z2b 92) 92) with true in H.
      change (isC (z2b 117) 117) with true in H. cbv iota in H. by rewrite Hh in H. }
  pose proof (hex4_chars _ _ _ _ _ Hh) as Hl. rewrite (unquoteBody_u _ _ _ _ _ _ Hh) in H.
  set (front := [z2b 92; z2b 117; h1; h2; h3; h4]).
  assert (inert front) as Hf by (by apply inert_escape, inert_chars).
  change (literal 0 (front ++ t) s r). destruct (isSurrogate rr) eqn:Es.
  - destruct (pairOf rr t) as [dec|] eqn:Ep; apply prepend_inv in H as (s' & H & ->).
    + destruct t as [|c [|e [|g1 [|g2 [|g3 [|g4 t]]]]]]; try done. cbn [drop] in H. pose proof Ep as Ep'. cbn [pairOf] in Ep.
      destruct (isC c 92 && isC e 117) eqn:Ece; [|done]. apply andb_true_iff in Ece as [->%byte_eq ->%byte_eq].
      destruct (hex4 g1 g2 g3 g4) as [rr1|] eqn:Eg; [|done].
      change (literal 0 (front ++ [z2b 92; z2b 117; g1; g2; g3; g4] ++ t) (encodeRune dec ++ s') r). rewrite app_assoc.
      eapply literal_front; [apply inert_app; [done|eapply inert_escape, inert_chars, hex4_chars, Eg]| |apply IH, H; cbn in Hn; lia].
      intros raw -> k. rewrite <-app_assoc. cbn [front app]. rewrite (unquoteBody_u _ _ _ _ _ _ Hh), Es.
      change (pairOf rr (z2b 92 :: z2b 117 :: g1 :: g2 :: g3 :: g4 :: raw ++ z2b 34 :: k))
        with (pairOf rr (z2b 92 :: z2b 117 :: g1 :: g2 :: g3 :: g4 :: raw ++ z2b 34 :: r)). by rewrite Ep'.
    + eapply literal_front; [done| |apply IH, H; lia].
      intros raw -> k. cbn [front app]. rewrite (unquoteBody_u _ _ _ _ _ _ Hh), Es.
      by rewrite (pairOf_local rr raw k r), Ep.
  - apply prepend_inv in H as (s' & H & ->). eapply literal_front; [done| |apply IH, H; lia].
    intros raw -> k. cbn [front app]. by rewrite (unquoteBody_u _ _ _ _ _ _ Hh), Es.
Qed.

Lemma high_char c : 0x80 <= b2z c -> isC c 92 = false /\ isC c 34 = false.
Proof. intros H. split; apply isC_false; lia. Qed.

Lemma unquote_literal n : forall copy bs s r,
  (length bs < n)%nat -> Forall (fun c => 0x80 <= b2z c) (take copy bs) ->
  unquoteBody copy bs = Some (s, r) -> literal copy bs s r.
Proof.
  induction n as [|n IH]; intros copy bs s r Hn Hc; [lia|]. destruct bs as [|c t]; [done|]. cbn [length] in Hn.
  destruct copy as [|copy].
  2:{ cbn [take] in Hc. apply Forall_cons in Hc as [Hc Ht]. cbn [unquoteBody]. intros (s' & H & ->)%prepend_inv.
      eapply (literal_front _ copy [c]); [by apply inert_chars, Forall_singleton, high_char|done|apply IH; [lia|done|done]]. }
  destruct (isC c 34) eqn:Eq.
  { cbn [unquoteBody]. rewrite Eq. intros [= <- <-]. exists []. apply byte_eq in Eq as ->. by split. }
  destruct (isC c 92) eqn:Ebs.
  - apply byte_eq in Ebs as ->. destruct t as [|e t]; [done|]. destruct (isC e 117) eqn:Eu.
    + apply byte_eq in Eu as ->. destruct t as [|h1 [|h2 [|h3 [|h4 t]]]]; try done. cbn [length] in Hn.
      apply (literal_u n); [|lia]. intros bs s' r' Hl. apply IH; [lia|constructor].
    + cbn [unquoteBody]. change (isC (z2b 92) 34) with false. change (isC (z2b 92) 92) with true. rewrite Eu. cbv iota.
      destruct (unescape e) as [x|] eqn:Ex; [|done]. cbn [mbind option_bind]. intros (s' & H & ->)%prepend_inv.
      eapply (literal_front 0 0 [z2b 92; e]); [by apply inert_escape, inert_chars| |apply IH, H; [cbn [length] in Hn; lia|constructor]].
      intros raw -> k. cbn [app unquoteBody]. change (isC (z2b 92) 34) with false. change (isC (z2b 92) 92) with true.
      rewrite Eu. cbv iota. by rewrite Ex.
  - assert (inert [c]) as Hi by (by apply inert_chars, Forall_singleton). cbn [unquoteBody]. rewrite Eq, Ebs.
    destruct (Z.ltb_spec (b2z c) 32); [done|]. destruct (Z.ltb_spec (b2z c) 0x80) as [Hlt|Hge].
    + intros (s' & H' & ->)%prepend_inv. eapply (literal_front 0 0 [c]); [done| |apply IH, H'; [lia|constructor]].
      intros raw -> k. cbn [app unquoteBody]. rewrite Eq, Ebs. by rewrite (proj2 (Z.ltb_ge _ _)), (proj2 (Z.ltb_lt _ _)) by lia.
    + assert (forall x raw k, decodeRune (c :: t) = x -> t = raw ++ z2b 34 :: r ->
        unquoteBody 0 (c :: raw ++ z2b 34 :: k) = match x with
          | Some (_, m) => prepend [c] (unquoteBody (m - 1) (raw ++ z2b 34 :: k))
          | None => prepend (encodeRune RuneError) (unquoteBody 0 (raw ++ z2b 34 :: k)) end) as Hstep.
      { intros x raw k Hx ->. cbn [unquoteBody]. rewrite Eq, Ebs. rewrite !(proj2 (Z.ltb_ge _ _)) by lia.
        by rewrite (decodeRune_local c raw k r), Hx. }
      destruct (decodeRune (c :: t)) as [[x m]|] eqn:Ed; intros (s' & H' & ->)%prepend_inv.
      * destruct (decodeRune_width _ _ _ _ Ed Hge) as (_ & _ & Hcont).
        eapply (literal_front 0 (m - 1) [c]); [done| |apply IH, H'; [lia|done]].
        intros raw Hraw k. exact (Hstep _ raw k eq_refl Hraw).
      * eapply (literal_front 0 0 [c]); [done| |apply IH, H'; [lia|constructor]].
        intros raw Hraw k. exact (Hstep _ raw k eq_refl Hraw).
Qed.

(** ** Numbers *)

(** Characters of numbers and words, which the layout copies. *)
Definition inertOutside (c : byte) : bool :=
  negb (isSpace c) && negb (isC c 125) && negb (isC c 93) && negb (isC c 123) && negb (isC c 91) &&
  negb (isC c 44) && negb (isC c 58) && negb (isC c 34).

Definition noDigit (l : list byte) : Prop := forall c, l !! 0%nat = Some c -> isDigit c = false.

Lemma digits_inert ds : forallb isDigit ds = true -> forallb inertOutside ds = true.
Proof.
  rewrite !forallb_forall. intros H c Hc. specialize (H c Hc). unfold isDigit in H. breflect.
  unfold inertOutside, isSpace, isC. repeat rewrite (proj2 (Z.eqb_neq _ _)) by lia. done.
Qed.

Lemma digitRun_split bs : exists r, bs = digitRun bs ++ r /\ forallb isDigit (digitRun bs) = true.
Proof.
  induction bs as [|b bs (r & E & H)]; [by exists []|]. cbn [digitRun]. destruct (isDigit b) eqn:Eb.
  - exists r. cbn [app forallb]. rewrite Eb, H. by rewrite <-E.
  - by exists (b :: bs).
Qed.

Lemma digitRun_stop ds l : forallb isDigit ds = true -> noDigit l -> digitRun (ds ++ l) = ds.
Proof.
  intros Hd Hl. induction ds as [|d ds IH]; cbn [app digitRun forallb] in *.
  - destruct l as [|c l]; [done|]. cbn [digitRun]. by rewrite (Hl c eq_refl).
  - apply andb_true_iff in Hd as [-> Hd]. by rewrite IH.
Qed.

Lemma digits1_any bs ds r :
  digits1 bs = Some (ds, r) -> bs = ds ++ r /\ forallb isDigit ds = true /\
  forall l, noDigit l -> digits1 (ds ++ l) = Some (ds, l).
Proof.
  unfold digits1. destruct (digitRun_split bs) as (r' & E & Hd). destruct (digitRun bs) as [|d ds'] eqn:Er; [done|].
  intros [= <- <-]. clear Er. subst bs. split_and!; [f_equal; symmetry; apply (drop_app_length (d :: ds'))|done|].
  intros l Hl. rewrite digitRun_stop by done. by rewrite drop_app_length.
Qed.

Lemma parseInt_any bs i r :
  parseInt bs = Some (i, r) -> bs = i ++ r /\ forallb isDigit i = true /\
  forall l, noDigit l -> parseInt (i ++ l) = Some (i, l).
Proof.
  unfold parseInt. destruct bs as [|c bs]; [done|]. destruct (isC c 48) eqn:E.
  - intros [= <- <-]. split_and!; [done| |intros l _; cbn [app]; by rewrite E].
    apply byte_eq in E as ->. done.
  - intros (H1 & H2 & H3)%digits1_any. split_and!; [done..|]. intros l Hl. specialize (H3 l Hl).
    destruct i as [|d i]; cbn [app] in *; [|injection H1 as <- ->; by rewrite E, H3].
    destruct l as [|x l]; [done|]. unfold digits1 in H3. cbn [digitRun] in H3. by rewrite (Hl x eq_refl) in H3.
Qed.

Lemma parseFrac_any bs f r :
  parseFrac bs = Some (f, r) -> bs = f ++ r /\ forallb inertOutside f = true /\ (forall l, noDigit l -> noDigit (f ++ l)) /\
  forall l, noDigit l -> (forall c, l !! 0%nat = Some c -> isC c 46 = false) -> parseFrac (f ++ l) = Some (f, l).
Proof.
  assert (forall l, (forall c, l !! 0%nat = Some c -> isC c 46 = false) -> parseFrac l = Some ([], l)) as H0.
  { intros [|x l] Hx; [done|]. unfold parseFrac. by rewrite (Hx x eq_refl). }
  unfold parseFrac at 1. destruct bs as [|c bs]; [intros [= <- <-]; by split_and!; auto|].
  destruct (isC c 46) eqn:E; [|intros [= <- <-]; by split_and!; auto]. apply byte_eq in E as ->.
  intros (ds & (H1 & H2 & H3)%digits1_any & ->)%prepend_inv. split_and!.
  - by rewrite H1.
  - cbn [app forallb]. by rewrite digits_inert.
  - intros l _ x [= <-]. done.
  - intros l Hl _. cbn [app parseFrac]. change (isC (z2b 46) 46) with true. cbv iota. by rewrite H3.
Qed.

Lemma parseExp_any bs e r :
  parseExp bs = Some (e, r) -> bs = e ++ r /\ forallb inertOutside e = true /\
  (forall l, delimits l -> noDigit (e ++ l) /\ forall c, (e ++ l) !! 0%nat = Some c -> isC c 46 = false) /\
  forall l, delimits l -> parseExp (e ++ l) = Some (e, l).
Proof.
  assert (forall l, delimits l -> noDigit l /\ (forall c, l !! 0%nat = Some c -> isC c 46 = false) /\ parseExp l = Some ([], l)) as H0.
  { intros l Hl. split_and!; [intros c Hc; by apply Hl|intros c Hc; by apply Hl|].
    destruct l as [|x l]; [done|]. destruct (Hl x eq_refl) as (_ & _ & H1 & H2). unfold parseExp. by rewrite H1, H2. }
  unfold parseExp at 1. destruct bs as [|c bs]; [intros [= <- <-]; split_and!; try done; intros l Hl; naive_solver|].
  destruct (isC c 101 || isC c 69) eqn:E; [|intros [= <- <-]; split_and!; try done; intros l Hl; naive_solver].
  assert (isDigit c = false /\ isC c 46 = false /\ inertOutside c = true) as (F1 & F2 & F3).
  { apply orb_true_iff in E as [->%byte_eq | ->%byte_eq]; by vm_compute. }
  destruct bs as [|s bs]; [done|]. destruct (isC s 43 || isC s 45) eqn:Es.
  - intros (ds & (H1 & H2 & H3)%digits1_any & ->)%prepend_inv.
    assert (inertOutside s = true) as Fs by (apply orb_true_iff in Es as [->%byte_eq | ->%byte_eq]; by vm_compute).
    split_and!.
    + by rewrite H1.
    + cbn [app forallb]. by rewrite F3, Fs, digits_inert.
    + intros l _. split; intros x [= <-]; done.
    + intros l Hl. cbn [app parseExp]. rewrite E, Es, H3 by apply (H0 l Hl). done.
  - intros (ds & (H1 & H2 & H3)%digits1_any & ->)%prepend_inv. split_and!.
    + by rewrite H1.
    + cbn [app forallb]. by rewrite F3, digits_inert.
    + intros l _. split; intros x [= <-]; done.
    + intros l Hl. specialize (H3 l (proj1 (H0 l Hl))). destruct ds as [|d ds].
      * cbn [app] in *. unfold digits1 in H3. by destruct (digitRun l).
      * cbn [app] in *. injection H1 as <- _. unfold parseExp. rewrite E, Es, H3. done.
Qed.

Lemma parseNumber_any bs t r :
  parseNumber bs = Some (t, r) -> bs = t ++ r /\ forallb inertOutside t = true /\
  forall l, delimits l -> parseNumber (t ++ l) = Some (t, l).
Proof.
  unfold parseNumber at 1. set (x := match bs with c :: r => if isC c 45 then ([c], r) else ([], bs) | [] => ([], bs) end).
  assert (bs = x.1 ++ x.2 /\ (x.1 = [z2b 45] \/ x.1 = [])) as [Hbs Hs].
  { unfold x. destruct bs as [|c bs]; [by auto|]. destruct (isC c 45) eqn:E; cbn [fst snd app]; [|by auto].
    apply byte_eq in E as ->. by auto. }
  destruct x as [sgn l0]. cbn [fst snd] in *.
  destruct (parseInt l0) as [[i l1]|] eqn:E1; [|done]. cbn [mbind option_bind].
  destruct (parseFrac l1) as [[f l2]|] eqn:E2; [|done]. cbn [mbind option_bind].
  destruct (parseExp l2) as [[e l3]|] eqn:E3; [|done]. cbn [mbind option_bind]. intros [= <- <-].
  apply parseInt_any in E1 as (A1 & A2 & A3). apply parseFrac_any in E2 as (B1 & B2 & B3 & B4).
  apply parseExp_any in E3 as (C1 & C2 & C3 & C4). split_and!.
  - by rewrite Hbs, A1, B1, C1, <-!app_assoc.
  - rewrite !forallb_app, (digits_inert i), B2, C2 by done. by destruct Hs as [-> | ->].
  - intros l Hl. destruct (C3 l Hl) as [D1 D2]. rewrite <-!app_assoc.
    assert (parseInt (i ++ f ++ e ++ l) = Some (i, f ++ e ++ l)) as G1 by (by apply A3, B3).
    assert (parseFrac (f ++ e ++ l) = Some (f, e ++ l)) as G2 by (by apply B4).
    unfold parseNumber. destruct Hs as [-> | ->]; cbn [app].
    + change (isC (z2b 45) 45) with true. cbv iota. rewrite G1. cbn [mbind option_bind]. rewrite G2. cbn [mbind option_bind].
      by rewrite C4.
    + destruct (i ++ f ++ e ++ l) as [|c k] eqn:Ei; [by rewrite G1|].
      assert (isC c 45 = false) as ->.
      { destruct i as [|d i]; [cbn [app] in *; by specialize (A3 [] ltac:(done))|]. injection Ei as <- _. cbn [forallb] in A2.
        apply andb_true_iff in A2 as [A2 _]. unfold isDigit in A2. breflect. apply isC_false. lia. }
      rewrite G1. cbn [mbind option_bind]. rewrite G2. cbn [mbind option_bind]. by rewrite C4.
Qed.

(** ** Values *)

Lemma parseValue_ws fuel depth ws l : spaces ws -> parseValue fuel depth (ws ++ l) = parseValue fuel depth l.
Proof. intros Hw. destruct fuel as [|fuel]; [done|]. cbn [parseValue]. by rewrite skipWs_spaces. Qed.

Lemma parseMembers_ws fuel depth ws l : spaces ws -> parseMembers fuel depth (ws ++ l) = parseMembers fuel depth l.
Proof. intros Hw. destruct fuel as [|fuel]; [done|]. cbn [parseMembers]. by rewrite skipWs_spaces. Qed.

Lemma parseElements_ws fuel depth ws l : spaces ws -> parseElements fuel depth (ws ++ l) = parseElements fuel depth l.
Proof. intros Hw. destruct fuel as [|fuel]; [done|]. cbn [parseElements]. by rewrite parseValue_ws. Qed.

(** Text that starts with a token other than a closing bracket. *)
Definition headOk (l : list byte) : Prop :=
  exists c t, l = c :: t /\ isSpace c = false /\ isC c 93 = false /\ isC c 125 = false.

Lemma headOk_app l k : headOk l -> headOk (l ++ k).
Proof. intros (c & t & -> & H). by exists c, (t ++ k). Qed.

Lemma headOk_skip l k : headOk l -> skipWs (l ++ k) = l ++ k.
Proof. intros (c & t & -> & Hc & _). cbn [app]. by apply skipWs_id. Qed.

Lemma delimits_closing c k : c = z2b 44 \/ c = z2b 93 \/ c = z2b 125 -> delimits (c :: k).
Proof. intros Hc x [= <-]. by destruct Hc as [-> | [-> | ->]]. Qed.

Section Layout.
Context (pre ind : list byte) (pre_ws : spaces pre) (ind_ws : spaces ind).

Abbreviation loop d l := (indentLoop pre ind (Outside false) d l).
Abbreviation nl d := (newline pre ind d).

Lemma indent_need l k d : headOk l -> indentLoop pre ind (Outside true) d (l ++ k) = nl (S d) ++ loop (S d) (l ++ k).
Proof.
  intros (c & t & -> & H1 & H2 & H3). cbn [app indentLoop]. rewrite H1, H2, H3. cbn [orb]. done.
Qed.

Lemma indent_inert l k d : forallb inertOutside l = true -> loop d (l ++ k) = l ++ loop d k.
Proof.
  induction l as [|c l IH]; [done|]. cbn [forallb app indentLoop]. intros [Hc Hl]%andb_true_iff. unfold inertOutside in Hc.
  rewrite !andb_true_iff, !negb_true_iff in Hc. destruct Hc as (((((((-> & ->) & ->) & ->) & ->) & ->) & ->) & ->).
  cbn [orb app]. by rewrite IH.
Qed.

(** The items of a bracket on lines of their own. *)
Fixpoint onLines (d : nat) (items : list (list byte)) : list byte :=
  match items with
  | [] => []
  | [x] => x
  | x :: items' => x ++ z2b 44 :: nl d ++ onLines d items'
  end.

(** The indented layout of a value at depth [d]: what is in a bracket stands on
    lines of its own, indented one level more than the bracket, with a space
    behind the colons; empty brackets stay together; numbers, strings and
    words are literals with their values. *)
#[warnings="-register-all"]
Inductive layout : nat -> json -> list byte -> Prop :=
  | layout_literal d j raw :
      match j with JArr _ | JObj _ => False | _ => True end -> parseJSON raw = Some j -> layout d j raw
  | layout_empty_array d : layout d (JArr []) (text "[]")
  | layout_empty_object d : layout d (JObj []) (text "{}")
  | layout_array d l items :
      l <> [] -> Forall2 (layout (S d)) l items ->
      layout d (JArr l) (z2b 91 :: nl (S d) ++ onLines (S d) items ++ nl d ++ [z2b 93])
  | layout_object d ms items :
      ms <> [] ->
      Forall2 (fun kv item => exists key body, item = key ++ text ": " ++ body /\
        parseJSON key = Some (JStr (fst kv)) /\ layout (S d) (snd kv) body) ms items ->
      layout d (JObj ms) (z2b 123 :: nl (S d) ++ onLines (S d) items ++ nl d ++ [z2b 125]).

Definition elementsLaid (d : nat) (l : list json) (out : list byte) : Prop :=
  l <> [] /\ exists items, Forall2 (layout (S d)) l items /\ out = onLines (S d) items ++ nl d ++ [z2b 93].

Definition membersLaid (d : nat) (ms : list (list byte * json)) (out : list byte) : Prop :=
  ms <> [] /\ exists items, Forall2 (fun kv item => exists key body, item = key ++ text ": " ++ body /\
    parseJSON key = Some (JStr (fst kv)) /\ layout (S d) (snd kv) body) ms items /\
    out = onLines (S d) items ++ nl d ++ [z2b 125].

Lemma onLines_cons d x y l : onLines d (x :: y :: l) = x ++ z2b 44 :: nl d ++ onLines d (y :: l).
Proof. done. Qed.

(** The layout of what a parser has read: it is read to the same value. *)
Definition laid {A} (parse : list byte -> option (A * list byte)) (lay : nat -> A -> list byte -> Prop) (d' : nat)
    (sep : list byte -> Prop) (bs : list byte) (v : A) (r : list byte) : Prop :=
  exists ws raw, bs = ws ++ raw ++ r /\ spaces ws /\ headOk raw /\
    forall d, exists out, headOk out /\ lay d v out /\ (forall k, loop (d' + d) (raw ++ k) = out ++ loop d k) /\
      forall k, sep k -> parse (out ++ k) = Some (v, k).

Definition layV (fuel : nat) : Prop := forall depth bs j r,
  parseValue fuel depth bs = Some (j, r) -> laid (parseValue fuel depth) layout 0 delimits bs j r.

Definition layM (fuel : nat) : Prop := forall depth bs ms r,
  parseMembers fuel depth bs = Some (ms, r) -> laid (parseMembers fuel depth) membersLaid 1 (fun _ => True) bs ms r.

Definition layE (fuel : nat) : Prop := forall depth bs l r,
  parseElements fuel depth bs = Some (l, r) -> laid (parseElements fuel depth) elementsLaid 1 (fun _ => True) bs l r.

Lemma layE_step fuel : layV fuel -> layE fuel -> layE (S fuel).
Proof.
  intros HV HE depth bs l r. cbn [parseElements].
  destruct (parseValue fuel depth bs) as [[v r1]|] eqn:Ev; [|done]. cbn [mbind option_bind].
  destruct (skipWs r1) as [|c r2] eqn:Es; [done|]. apply skipWs_split in Es as (w1 & -> & Hw1 & Hsp).
  destruct (HV _ _ _ _ Ev) as (ws & raw & -> & Hws & Hh & Hlay).
  destruct (isC c 44) eqn:Ec.
  - apply byte_eq in Ec as ->. destruct (parseElements fuel depth r2) as [[l' r3]|] eqn:Ee; [|done].
    cbn [mbind option_bind]. intros [= <- <-]. destruct (HE _ _ _ _ Ee) as (w2 & raw2 & -> & Hw2 & Hh2 & Hlay2).
    exists ws, (raw ++ w1 ++ z2b 44 :: w2 ++ raw2). split; [by rewrite <-!app_assoc; cbn [app]; rewrite <-!app_assoc|].
    split; [done|]. split; [by apply headOk_app|]. intros d.
    destruct (Hlay (S d)) as (out & Ho & Hy & Hi & Hp), (Hlay2 d) as (out2 & Ho2 & Hy2 & Hi2 & Hp2).
    exists (out ++ z2b 44 :: nl (S d) ++ out2). split; [by apply headOk_app|]. split; [|split].
    + destruct Hy2 as (Hne & items & H2 & ->). split; [done|]. exists (out :: items). split; [by constructor|].
      destruct H2 as [|x y l1 items Hx H2]; [done|]. rewrite onLines_cons. by repeat (rewrite <-app_assoc; cbn [app]).
    + intros k. rewrite <-!app_assoc. cbn [app Nat.add] in *. rewrite <-!app_assoc. rewrite Hi, indent_spaces by done.
      change (loop (S d) (z2b 44 :: ?x)) with (z2b 44 :: nl (S d) ++ loop (S d) x).
      rewrite indent_spaces by done. by rewrite Hi2.
    + intros k _. rewrite <-app_assoc. cbn [app]. rewrite Hp by (apply delimits_closing; auto). cbn [mbind option_bind].
      rewrite skipWs_id by done. change (isC (z2b 44) 44) with true. cbv iota. rewrite <-app_assoc.
      rewrite parseElements_ws by (by apply newline_spaces). by rewrite Hp2.
  - destruct (isC c 93) eqn:Ec'; [|done]. apply byte_eq in Ec' as ->. intros [= <- <-].
    exists ws, (raw ++ w1 ++ [z2b 93]). split; [by rewrite <-!app_assoc|].
    split; [done|]. split; [by apply headOk_app|]. intros d.
    destruct (Hlay (S d)) as (out & Ho & Hy & Hi & Hp).
    exists (out ++ nl d ++ [z2b 93]). split; [by apply headOk_app|]. split; [|split].
    + split; [done|]. exists [out]. split; [constructor; [done|constructor]|done].
    + intros k. rewrite <-!app_assoc. cbn [app Nat.add] in *. rewrite Hi, indent_spaces by done. done.
    + intros k _. rewrite <-!app_assoc. rewrite Hp by apply newline_delimits. cbn [mbind option_bind].
      rewrite skipWs_spaces by (by apply newline_spaces). done.
Qed.

Lemma layM_step fuel : layV fuel -> layM fuel -> layM (S fuel).
Proof.
  intros HV HM depth bs ms r H. cbn [parseMembers] in H. revert H.
  destruct (skipWs bs) as [|c r0] eqn:Es; [done|]. apply skipWs_split in Es as (ws & -> & Hws & _).
  destruct (isC c 34) eqn:Ec; [|done]. apply byte_eq in Ec as ->.
  destruct (unquoteBody 0 r0) as [[key r1]|] eqn:Ek; [|done]. cbn [mbind option_bind].
  apply (unquote_literal (S (length r0))) in Ek as (body & -> & Hk & Hki); [|lia|constructor].
  destruct (skipWs r1) as [|c r2] eqn:Es; [done|]. apply skipWs_split in Es as (w1 & -> & Hw1 & _).
  destruct (isC c 58) eqn:Ec; [|done]. apply byte_eq in Ec as ->.
  destruct (parseValue fuel depth r2) as [[v r3]|] eqn:Ev; [|done]. cbn [mbind option_bind].
  destruct (HV _ _ _ _ Ev) as (w2 & raw & -> & Hw2 & Hh & Hlay).
  destruct (skipWs r3) as [|c r4] eqn:Es; [done|]. apply skipWs_split in Es as (w3 & -> & Hw3 & _).
  set (lead := z2b 34 :: body ++ [z2b 34]).
  assert (forall d k, loop d (lead ++ w1 ++ z2b 58 :: w2 ++ raw ++ k) = lead ++ z2b 58 :: z2b 32 :: loop d (raw ++ k)) as Hlead.
  { intros d k. unfold lead. cbn [app]. rewrite <-!app_assoc. cbn [app].
    change (loop d (z2b 34 :: ?x)) with (z2b 34 :: indentLoop pre ind InString d x).
    rewrite Hki, indent_spaces by done. change (loop d (z2b 58 :: ?x)) with (z2b 58 :: z2b 32 :: loop d x).
    by rewrite indent_spaces by done. }
  assert (headOk lead) as Hlo by (by eexists _, _).
  assert (parseJSON lead = Some (JStr key)) as Hkey.
  { unfold parseJSON, lead. rewrite Nat.add_comm. cbn [Nat.add parseValue]. rewrite skipWs_id by done.
    change (isC (z2b 34) 34) with true. cbv iota. by rewrite Hk. }
  assert (forall out k, (forall k, delimits k -> parseValue fuel depth (out ++ k) = Some (v, k)) -> delimits k ->
    parseMembers (S fuel) depth (lead ++ z2b 58 :: z2b 32 :: out ++ k) =
    match skipWs k with
    | c :: r => if isC c 44 then '(ms, r) ← parseMembers fuel depth r; Some ((key, v) :: ms, r)
                else if isC c 125 then Some ([(key, v)], r) else None
    | [] => None
    end) as Hparse.
  { intros out k Hp Hd. unfold lead. cbn [app parseMembers]. rewrite <-!app_assoc. cbn [app]. rewrite skipWs_id by done.
    change (isC (z2b 34) 34) with true. cbv iota. rewrite Hk. cbn [mbind option_bind]. rewrite skipWs_id by done.
    change (isC (z2b 58) 58) with true. cbv iota. change (z2b 32 :: ?x) with ([z2b 32] ++ x).
    rewrite parseValue_ws by (by apply Forall_singleton). by rewrite Hp. }
  assert (forall x, z2b 34 :: body ++ z2b 34 :: x = lead ++ x) as Hl by (intros x; unfold lead; cbn [app]; by rewrite <-app_assoc).
  rewrite Hl. clearbody lead. destruct (isC c 44) eqn:Ec.
  - apply byte_eq in Ec as ->. destruct (parseMembers fuel depth r4) as [[ms' r5]|] eqn:Em; [|done].
    cbn [mbind option_bind]. intros [= <- <-]. destruct (HM _ _ _ _ Em) as (w4 & raw2 & -> & Hw4 & Hh2 & Hlay2).
    exists ws, (lead ++ w1 ++ z2b 58 :: w2 ++ raw ++ w3 ++ z2b 44 :: w4 ++ raw2).
    split; [by repeat (rewrite <-app_assoc; cbn [app])|].
    split; [done|]. split; [by apply headOk_app|]. intros d.
    destruct (Hlay (S d)) as (out & Ho & Hy & Hi & Hp), (Hlay2 d) as (out2 & Ho2 & Hy2 & Hi2 & Hp2).
    exists (lead ++ z2b 58 :: z2b 32 :: out ++ z2b 44 :: nl (S d) ++ out2). split; [by apply headOk_app|]. split; [|split].
    + destruct Hy2 as (Hne & items & H2 & ->). split; [done|]. exists ((lead ++ text ": " ++ out) :: items).
      split; [constructor; [by exists lead, out|done]|].
      destruct H2 as [|x y l1 items Hx H2]; [done|]. rewrite onLines_cons. by repeat (rewrite <-app_assoc; cbn [app]).
    + intros k. repeat (rewrite <-app_assoc; cbn [app]). cbn [Nat.add] in *. rewrite Hlead, Hi, indent_spaces by done.
      change (loop (S d) (z2b 44 :: ?x)) with (z2b 44 :: nl (S d) ++ loop (S d) x).
      rewrite indent_spaces by done. by rewrite Hi2.
    + intros k _. repeat (rewrite <-app_assoc; cbn [app]). rewrite Hparse by (done || (apply delimits_closing; auto)).
      rewrite skipWs_id by done. change (isC (z2b 44) 44) with true. cbv iota.
      rewrite parseMembers_ws by (by apply newline_spaces). by rewrite Hp2.
  - destruct (isC c 125) eqn:Ec'; [|done]. apply byte_eq in Ec' as ->. intros [= <- <-].
    exists ws, (lead ++ w1 ++ z2b 58 :: w2 ++ raw ++ w3 ++ [z2b 125]).
    split; [by repeat (rewrite <-app_assoc; cbn [app])|].
    split; [done|]. split; [by apply headOk_app|]. intros d. destruct (Hlay (S d)) as (out & Ho & Hy & Hi & Hp).
    exists (lead ++ z2b 58 :: z2b 32 :: out ++ nl d ++ [z2b 125]). split; [by apply headOk_app|]. split; [|split].
    + split; [done|]. exists [lead ++ text ": " ++ out]. split; [constructor; [by exists lead, out|constructor]|].
      cbn [onLines]. by repeat (rewrite <-app_assoc; cbn [app]).
    + intros k. repeat (rewrite <-app_assoc; cbn [app]). cbn [Nat.add] in *. rewrite Hlead, Hi, indent_spaces by done. done.
    + intros k _. repeat (rewrite <-app_assoc; cbn [app]). rewrite Hparse by (done || apply newline_delimits).
      rewrite skipWs_spaces by (by apply newline_spaces). done.
Qed.

(** A token that is copied as it stands. *)
Lemma laid_token fuel depth ws raw v r :
  spaces ws -> headOk raw -> match v with JArr _ | JObj _ => False | _ => True end -> parseJSON raw = Some v ->
  (forall d k, loop d (raw ++ k) = raw ++ loop d k) ->
  (forall k, delimits k -> parseValue fuel depth (raw ++ k) = Some (v, k)) ->
  laid (parseValue fuel depth) layout 0 delimits (ws ++ raw ++ r) v r.
Proof.
  intros Hw Hh Hv Hr Hi Hp. exists ws, raw. split_and!; [done..|]. intros d. exists raw. split_and!; [done| |done..].
  by apply layout_literal.
Qed.

(** A bracket with something in it that was laid out. *)
Lemma laid_bracket {A} fuel depth (inner : list byte -> option (A * list byte)) lay (o : byte) (wrap : A -> json) ws bs v r :
  (forall d out, lay d v out -> layout d (wrap v) (o :: nl (S d) ++ out)) -> spaces ws -> headOk [o] -> (isC o 123 || isC o 91 = true) ->
  (forall d l, headOk l -> parseValue (S fuel) depth (o :: nl d ++ l) = '(m, r) ← inner l; Some (wrap m, r)) ->
  laid inner lay 1 (fun _ => True) bs v r -> laid (parseValue (S fuel) depth) layout 0 delimits (ws ++ o :: bs) (wrap v) r.
Proof.
  intros Hlay0 Hw Hh Ho Hp (ws' & raw & -> & Hw' & Hraw & Hlay). exists ws, (o :: ws' ++ raw).
  split; [by cbn [app]; rewrite <-app_assoc|]. split; [done|]. split; [apply (headOk_app [o]), Hh|]. intros d.
  destruct (Hlay d) as (out & Hout & Hy & Hi & Hpo). exists (o :: nl (S d) ++ out).
  split; [apply (headOk_app [o]), Hh|]. split; [by apply Hlay0|]. destruct Hh as (x & t & [= <- <-] & H1 & H2 & H3). split.
  - intros k. cbn [app Nat.add indentLoop]. rewrite H1, H2, H3, Ho. cbn [orb app]. f_equal. rewrite <-!app_assoc.
    rewrite indent_spaces, indent_need by done. by rewrite Hi.
  - intros k _. cbn [app]. rewrite <-app_assoc, Hp by (by apply headOk_app). by rewrite Hpo.
Qed.

(** An empty bracket. *)
Lemma laid_empty fuel depth o c ws ws' v r :
  spaces ws -> spaces ws' -> headOk [o] -> (isC o 123 || isC o 91 = true) -> isSpace c = false -> (isC c 125 || isC c 93 = true) ->
  (forall k, parseValue (S fuel) depth (o :: c :: k) = Some (v, k)) -> (forall d, layout d v [o; c]) ->
  laid (parseValue (S fuel) depth) layout 0 delimits (ws ++ o :: ws' ++ c :: r) v r.
Proof.
  intros Hw Hw' Hh Ho Hs Hc Hp Hy. exists ws, (o :: ws' ++ [c]). split; [by cbn [app]; rewrite <-app_assoc|].
  split; [done|]. split; [apply (headOk_app [o]), Hh|]. intros d. exists [o; c].
  split; [apply (headOk_app [o]), Hh|]. split; [done|].
  destruct Hh as (x & t & [= <- <-] & H1 & H2 & H3). split; [|intros k _; apply Hp].
  intros k. cbn [app Nat.add indentLoop]. rewrite H1, H2, H3, Ho. cbn [orb app]. f_equal. rewrite <-app_assoc.
  rewrite indent_spaces by done. cbn [app indentLoop]. by rewrite Hs, Hc.
Qed.

Lemma parseValue_object fuel depth d l :
  depth < maxNestingDepth -> headOk l ->
  parseValue (S fuel) depth (z2b 123 :: nl d ++ l) = '(ms, r) ← parseMembers fuel (depth + 1) l; Some (JObj ms, r).
Proof.
  intros Hd Hh. cbn [parseValue]. rewrite skipWs_id by done. change (isC (z2b 123) 34) with false.
  change (isC (z2b 123) 123) with true. cbv iota. rewrite (proj2 (Z.leb_gt _ _)) by done.
  rewrite skipWs_spaces by (by apply newline_spaces). rewrite parseMembers_ws by (by apply newline_spaces).
  destruct Hh as (c & t & -> & H1 & H2 & H3). rewrite skipWs_id by done. by rewrite H3.
Qed.

Lemma parseValue_array fuel depth d l :
  depth < maxNestingDepth -> headOk l ->
  parseValue (S fuel) depth (z2b 91 :: nl d ++ l) = '(xs, r) ← parseElements fuel (depth + 1) l; Some (JArr xs, r).
Proof.
  intros Hd Hh. cbn [parseValue]. rewrite skipWs_id by done. change (isC (z2b 91) 34) with false.
  change (isC (z2b 91) 123) with false. change (isC (z2b 91) 91) with true. cbv iota. rewrite (proj2 (Z.leb_gt _ _)) by done.
  rewrite skipWs_spaces by (by apply newline_spaces). rewrite parseElements_ws by (by apply newline_spaces).
  destruct Hh as (c & t & -> & H1 & H2 & H3). rewrite skipWs_id by done. by rewrite H2.
Qed.

(** One of the words true, false and null. *)
Lemma laid_word fuel depth ws c word r0 r v :
  spaces ws -> forallb inertOutside (c :: word) = true -> stripPrefix word r0 = Some r ->
  match v with JArr _ | JObj _ => False | _ => True end -> parseJSON (c :: word) = Some v ->
  (forall k, parseValue (S fuel) depth (c :: word ++ k) = Some (v, k)) ->
  laid (parseValue (S fuel) depth) layout 0 delimits (ws ++ c :: r0) v r.
Proof.
  intros Hw Hi Hs Hv Hr Hp. unfold stripPrefix in Hs. case_decide as Ht; [|done]. injection Hs as <-.
  assert (c :: r0 = (c :: word) ++ drop (length word) r0) as -> by (cbn [app]; by rewrite <-Ht at 1; rewrite take_drop).
  apply laid_token; [done| |done|done|intros d k; by apply indent_inert|intros k _; apply Hp].
  cbn [forallb] in Hi. apply andb_true_iff in Hi as [Hc _]. unfold inertOutside in Hc.
  rewrite !andb_true_iff, !negb_true_iff in Hc. exists c, word. tauto.
Qed.

Lemma layV_step fuel : layM fuel -> layE fuel -> layV (S fuel).
Proof.
  intros HM HE depth bs j r H. cbn [parseValue] in H. revert H.
  destruct (skipWs bs) as [|c r0] eqn:Es; [done|]. apply skipWs_split in Es as (ws & -> & Hws & Hsp).
  destruct (isC c 34) eqn:E1.
  { apply byte_eq in E1 as ->. destruct (unquoteBody 0 r0) as [[s r1]|] eqn:Eu; [|done]. intros [= <- <-].
    apply (unquote_literal (S (length r0))) in Eu as (body & -> & Hk & Hi); [|lia|constructor].
    change (z2b 34 :: body ++ z2b 34 :: r1) with ([z2b 34] ++ body ++ [z2b 34] ++ r1). rewrite (app_assoc body), (app_assoc [_]).
    apply laid_token; [done|by eexists _, _|done| | |].
    - unfold parseJSON. rewrite Nat.add_comm. cbn [Nat.add app parseValue]. rewrite skipWs_id by done.
      change (isC (z2b 34) 34) with true. cbv iota. by rewrite Hk.
    - intros d k. cbn [app]. rewrite <-!app_assoc. cbn [app]. 
      change (loop d (z2b 34 :: ?x)) with (z2b 34 :: indentLoop pre ind InString d x). by rewrite Hi.
    - intros k _. cbn [app parseValue]. rewrite <-app_assoc. rewrite skipWs_id by done. change (isC (z2b 34) 34) with true.
      cbv iota. cbn [app]. by rewrite Hk. }
  destruct (isC c 123) eqn:E2.
  { apply byte_eq in E2 as ->. destruct (Z.leb_spec maxNestingDepth depth) as [|Hd]; [done|].
    destruct (skipWs r0) as [|c' r'] eqn:Es; [done|]. destruct (isC c' 125) eqn:Ec.
    - apply byte_eq in Ec as ->. intros [= <- <-]. apply skipWs_split in Es as (w & -> & Hw & _).
      apply laid_empty; try done; [by eexists _, _| |intros d; apply layout_empty_object]. intros k. cbn [parseValue]. rewrite skipWs_id by done.
      change (isC (z2b 123) 34) with false. change (isC (z2b 123) 123) with true. cbv iota.
      by rewrite (proj2 (Z.leb_gt _ _)) by done.
    - destruct (parseMembers fuel (depth + 1) r0) as [[ms r1]|] eqn:Em; [|done]. intros [= <- <-].
      eapply laid_bracket; [|done|by eexists _, _|done| |by apply HM, Em].
      { intros d out (Hne & items & H2 & ->). by apply layout_object. }
      intros d l Hl. by apply parseValue_object. }
  destruct (isC c 91) eqn:E3.
  { apply byte_eq in E3 as ->. destruct (Z.leb_spec maxNestingDepth depth) as [|Hd]; [done|].
    destruct (skipWs r0) as [|c' r'] eqn:Es; [done|]. destruct (isC c' 93) eqn:Ec.
    - apply byte_eq in Ec as ->. intros [= <- <-]. apply skipWs_split in Es as (w & -> & Hw & _).
      apply laid_empty; try done; [by eexists _, _| |intros d; apply layout_empty_array]. intros k. cbn [parseValue]. rewrite skipWs_id by done.
      change (isC (z2b 91) 34) with false. change (isC (z2b 91) 123) with false. change (isC (z2b 91) 91) with true. cbv iota.
      by rewrite (proj2 (Z.leb_gt _ _)) by done.
    - destruct (parseElements fuel (depth + 1) r0) as [[l r1]|] eqn:Em; [|done]. intros [= <- <-].
      eapply laid_bracket; [|done|by eexists _, _|done| |by apply HE, Em].
      { intros d out (Hne & items & H2 & ->). by apply layout_array. }
      intros d l' Hl. by apply parseValue_array. }
  destruct (isC c 116) eqn:E4.
  { apply byte_eq in E4 as ->. destruct (stripPrefix _ r0) as [r1|] eqn:Ew; [|done]. intros [= <- <-].
    by eapply laid_word; [done| |exact Ew|..]. }
  destruct (isC c 102) eqn:E5.
  { apply byte_eq in E5 as ->. destruct (stripPrefix _ r0) as [r1|] eqn:Ew; [|done]. intros [= <- <-].
    by eapply laid_word; [done| |exact Ew|..]. }
  destruct (isC c 110) eqn:E6.
  { apply byte_eq in E6 as ->. destruct (stripPrefix _ r0) as [r1|] eqn:Ew; [|done]. intros [= <- <-].
    by eapply laid_word; [done| |exact Ew|..]. }
  destruct (parseNumber (c :: r0)) as [[t r1]|] eqn:En; [|done]. intros [= <- <-].
  apply parseNumber_any in En as (Et & Hi & Hp). rewrite Et.
  destruct t as [|x t]; [by specialize (Hp [] ltac:(done))|]. injection Et as <- _.
  pose proof Hi as Hc. cbn [forallb] in Hc. apply andb_true_iff in Hc as [Hc _]. unfold inertOutside in Hc.
  rewrite !andb_true_iff, !negb_true_iff in Hc.
  assert (forall fuel depth k, delimits k -> parseValue (S fuel) depth ((c :: t) ++ k) = Some (JNum (c :: t), k)) as Hv.
  { intros fuel' depth' k Hk. cbn [app parseValue]. rewrite skipWs_id by done. rewrite E1, E2, E3, E4, E5, E6.
    change (c :: t ++ k) with ((c :: t) ++ k). by rewrite Hp. }
  apply laid_token; [done|exists c, t; tauto|done| |intros d k; by apply indent_inert|by apply Hv].
  unfold parseJSON. rewrite Nat.add_comm. cbn [Nat.add]. rewrite <-(app_nil_r (c :: t)) at 2. by rewrite Hv.
Qed.

Lemma layout_parses fuel : layV fuel /\ layM fuel /\ layE fuel.
Proof.
  induction fuel as [|fuel (HV & HM & HE)]; [by split_and!|].
  split_and!; [by apply layV_step|by apply layM_step|by apply layE_step].
Qed.

End Layout.

Lemma skipWs_suffix l : exists ws, l = ws ++ skipWs l /\ spaces ws.
Proof.
  induction l as [|c l (ws & E & Hw)]; [by exists []; split; [|constructor]|]. cbn [skipWs].
  destruct (isSpace c) eqn:Ec; [|by exists []; split; [|constructor]].
  exists (c :: ws). split; [by rewrite E at 1|by apply Forall_cons].
Qed.

Lemma trailing_spaces src : spaces (trailing src).
Proof.
  unfold trailing. destruct (skipWs_suffix (reverse src)) as (ws & E & Hw).
  assert (src = reverse (skipWs (reverse src)) ++ reverse ws) as Hs by (by rewrite <-reverse_app, <-E, reverse_involutive).
  rewrite Hs at 2. rewrite drop_app_length' by (by rewrite length_reverse). by apply Forall_reverse.
Qed.

(** [json.Indent] gives every valid document, with any white space for prefix
    and indentation, the indented layout of its value, which parses to it; the
    white space at the end is kept. *)
Lemma indent_layout pre ind src j :
  spaces pre -> spaces ind -> parseJSON src = Some j ->
  exists t, Indent pre ind src = Some (t ++ trailing src) /\ layout pre ind 0 j t /\ parseJSON (t ++ trailing src) = Some j.
Proof.
  intros Hpre Hind Hj. unfold Indent. rewrite Hj.
  set (out := indentLoop pre ind (Outside false) 0 src ++ trailing src). set (F := (2 * length src + 2 * length out + 2)%nat).
  rewrite (parseJSON_fuel F src) in Hj by lia. pose proof (parseJSON_fuel F out ltac:(lia)) as Hout.
  destruct (parseValue F 0 src) as [[v r]|] eqn:Ev; [|done]. cbn [mbind option_bind] in *.
  destruct (skipWs r) eqn:Er; [|done]. injection Hj as ->. apply skipWs_nil in Er.
  destruct (layout_parses pre ind Hpre Hind F) as [HV _].
  destruct (HV _ _ _ _ Ev) as (ws & raw & -> & Hw & _ & Hlay). destruct (Hlay 0%nat) as (t & _ & Hy & Hi & Hp).
  assert (out = t ++ trailing (ws ++ raw ++ r)) as Eo.
  { unfold out. f_equal. rewrite indent_spaces by done. cbn [Nat.add] in Hi. rewrite Hi, <-(app_nil_r r), indent_spaces by done.
    by rewrite app_nil_r. }
  exists t. rewrite <-Eo. split; [done|]. split; [done|]. rewrite Hout, Eo.
  pose proof (trailing_spaces (ws ++ raw ++ r)) as Ht. rewrite Hp.
  - cbn [mbind option_bind]. by rewrite <-(app_nil_r (trailing _)), skipWs_spaces.
  - intros c Hc. destruct (trailing _) as [|x l]; [done|]. injection Hc as <-. apply Forall_cons in Ht as [Hx _].
    unfold isSpace in Hx. rewrite !orb_true_iff in Hx. by destruct Hx as [[[Hx|Hx]|Hx]|Hx]; apply byte_eq in Hx as ->.
Qed.
