(* ===== verification/JsonValid.v ===== *)
(** * What the JSON reader gives: valid strings, numbers and nesting

    Whatever bytes [parseJSON] accepts, the value has UTF-8 strings (bytes that
    are not UTF-8 and lone surrogates are replaced), JSON numbers and at most
    [maxNestingDepth] levels.  So writing a value that was read and reading it
    again gives the value. *)

From S2P Require Import Prelude Utf8 Time Json Indent.
Local Open Scope Z_scope.
Local Open Scope list_scope.

(** ** Encoded runes *)

Lemma lor_high c q k : 0 <= k -> 0 <= q < 2 ^ k -> Z.lor (c * 2 ^ k) q = c * 2 ^ k + q.
Proof. intros Hk Hq. rewrite <-(Z.shiftl_mul_pow2 c k), lor_shiftl by lia. by rewrite Z.shiftl_mul_pow2. Qed.

Lemma b2z_cont x : b2z (z2b (Z.lor 0x80 (Z.land x 0x3F))) = 0x80 + x mod 64.
Proof.
  change 0x3F with (Z.ones 6). rewrite Z.land_ones by lia. change 0x80 with (2 * 2 ^ 6).
  pose proof (Z.mod_pos_bound x (2 ^ 6) ltac:(done)). rewrite lor_high by lia.
  change (2 ^ 6) with 64 in *. rewrite b2z_z2b_small by (unfold in_u8; lia). lia.
Qed.

Lemma within_true lo hi b : lo <= b2z b <= hi -> within lo hi b = true.
Proof. intros. unfold within. by zbool. Qed.

Lemma within_false lo hi b : b2z b < lo \/ hi < b2z b -> within lo hi b = false.
Proof. intros []; unfold within; zbool; by rewrite ?andb_false_r. Qed.

Lemma valid2 b0 b1 s :
  0xC2 <= b2z b0 <= 0xDF -> 0x80 <= b2z b1 <= 0xBF -> validUTF8 ([b0; b1] ++ s) = validUTF8 s.
Proof.
  intros H0 H1. unfold validUTF8. cbn [app validFrom]. unfold decodeRune. zbool.
  rewrite (within_true 0xC2 0xDF) by lia. unfold isCont. by rewrite (within_true 0x80) by lia.
Qed.

Lemma valid3 b0 b1 b2 s :
  0xE0 <= b2z b0 <= 0xEF -> 0x80 <= b2z b1 <= 0xBF -> 0x80 <= b2z b2 <= 0xBF ->
  (b2z b0 = 0xE0 -> 0xA0 <= b2z b1) -> (b2z b0 = 0xED -> b2z b1 <= 0x9F) ->
  validUTF8 ([b0; b1; b2] ++ s) = validUTF8 s.
Proof.
  intros H0 H1 H2 Hlo Hhi. unfold validUTF8. cbn [app validFrom]. unfold decodeRune. zbool.
  rewrite (within_false 0xC2 0xDF), (within_true 0xE0 0xEF) by lia. unfold isCont.
  rewrite (within_true 0x80 0xBF b2) by lia.
  rewrite within_true by (destruct (Z.eqb_spec (b2z b0) 0xE0), (Z.eqb_spec (b2z b0) 0xED); lia). done.
Qed.

Lemma valid4 b0 b1 b2 b3 s :
  0xF0 <= b2z b0 <= 0xF4 -> 0x80 <= b2z b1 <= 0xBF -> 0x80 <= b2z b2 <= 0xBF -> 0x80 <= b2z b3 <= 0xBF ->
  (b2z b0 = 0xF0 -> 0x90 <= b2z b1) -> (b2z b0 = 0xF4 -> b2z b1 <= 0x8F) ->
  validUTF8 ([b0; b1; b2; b3] ++ s) = validUTF8 s.
Proof.
  intros H0 H1 H2 H3 Hlo Hhi. unfold validUTF8. cbn [app validFrom]. unfold decodeRune. zbool.
  rewrite (within_false 0xC2 0xDF), (within_false 0xE0 0xEF), (within_true 0xF0 0xF4) by lia. unfold isCont.
  rewrite (within_true 0x80 0xBF b2), (within_true 0x80 0xBF b3) by lia.
  rewrite within_true by (destruct (Z.eqb_spec (b2z b0) 0xF0), (Z.eqb_spec (b2z b0) 0xF4); lia). done.
Qed.

Lemma valid_ascii b s : b2z b < 0x80 -> validUTF8 (b :: s) = validUTF8 s.
Proof. intros Hb. unfold validUTF8. cbn [validFrom]. by rewrite decodeRune_ascii. Qed.

(** The lead byte of a rune of several bytes. *)
Lemma b2z_lead c q k : 0 <= k -> 0 <= q < 2 ^ k -> 0 <= c * 2 ^ k -> c * 2 ^ k + 2 ^ k <= 256 ->
  b2z (z2b (Z.lor (c * 2 ^ k) q)) = c * 2 ^ k + q.
Proof. intros Hk Hq H0 Hc. rewrite lor_high by lia. apply b2z_z2b_small. unfold in_u8. lia. Qed.

(** Every rune is encoded as valid UTF-8. *)
Lemma encodeRune_valid x s : validUTF8 (encodeRune x ++ s) = validUTF8 s.
Proof.
  unfold encodeRune. destruct (_ || _ || _) eqn:E; [reflexivity|].
  rewrite !orb_false_iff, andb_false_iff, !Z.ltb_ge, Z.leb_gt, Z.leb_gt in E. destruct E as [[H0 Hmax] Hs].
  rewrite !Z.shiftr_div_pow2 by lia. change (2 ^ 6) with 64. change (2 ^ 12) with 4096. change (2 ^ 18) with 262144.
  destruct (Z.ltb_spec x 0x80).
  { apply (valid_ascii (z2b x)). by rewrite b2z_z2b_small by (unfold in_u8; lia). }
  pose proof (Z.mod_pos_bound x 64 ltac:(done)). pose proof (Z.div_mod x 64 ltac:(done)).
  destruct (Z.ltb_spec x 0x800).
  { change 0xC0 with (6 * 2 ^ 5).
    apply valid2; rewrite ?b2z_cont; [rewrite b2z_lead by (simpl; lia); simpl; lia|lia]. }
  pose proof (Z.mod_pos_bound (x / 64) 64 ltac:(done)). pose proof (Z.div_mod (x / 64) 64 ltac:(done)).
  assert (x / 4096 = x / 64 / 64) as -> by (by rewrite Z.div_div by lia).
  destruct (Z.ltb_spec x 0x10000).
  { change 0xE0 with (14 * 2 ^ 4).
    assert (b2z (z2b (Z.lor (14 * 2 ^ 4) (x / 64 / 64))) = 0xE0 + x / 64 / 64) as Hb
      by (rewrite b2z_lead by (simpl; lia); simpl; lia).
    apply valid3; rewrite ?b2z_cont, ?Hb; lia. }
  pose proof (Z.mod_pos_bound (x / 64 / 64) 64 ltac:(done)). pose proof (Z.div_mod (x / 64 / 64) 64 ltac:(done)).
  assert (x / 262144 = x / 64 / 64 / 64) as -> by (by rewrite !Z.div_div by lia).
  change 0xF0 with (30 * 2 ^ 3).
  assert (b2z (z2b (Z.lor (30 * 2 ^ 3) (x / 64 / 64 / 64))) = 0xF0 + x / 64 / 64 / 64) as Hb
    by (rewrite b2z_lead by (simpl; lia); simpl; lia).
  apply valid4; rewrite ?b2z_cont, ?Hb; lia.
Qed.

(** ** Strings *)

Lemma unquoteBody_copied k : forall bs s r,
  unquoteBody k bs = Some (s, r) ->
  exists t, s = take k bs ++ t /\ unquoteBody 0 (drop k bs) = Some (t, r) /\ (k <= length bs)%nat.
Proof.
  induction k as [|k IH]; intros bs s r E; [exists s; by split_and!; [| |lia]|].
  destruct bs as [|c bs]; [done|]. cbn [unquoteBody] in E.
  apply prepend_inv in E as (t & (t' & -> & E & Hl)%IH & ->). exists t'. cbn [take drop length app]. by split_and!; [| |lia].
Qed.

Lemma unescape_ascii e x : unescape e = Some x -> b2z x < 0x80.
Proof.
  unfold unescape. intros H. repeat case_match; simplify_eq; try (vm_compute; reflexivity).
  rewrite !orb_true_iff, !Z.eqb_eq in *. lia.
Qed.

Lemma unquote_valid n : forall bs s r,
  (length bs <= n)%nat -> unquoteBody 0 bs = Some (s, r) -> validUTF8 s = true.
Proof.
  induction n as [|n IH]; intros bs s r Hn H; (destruct bs as [|c l]; [done|]); simpl in Hn; [lia|].
  assert (forall l' pre, (length l' <= length l)%nat -> (forall t, validUTF8 (pre ++ t) = validUTF8 t) ->
    prepend pre (unquoteBody 0 l') = Some (s, r) -> validUTF8 s = true) as Hp.
  { intros l' pre Hl Hpre (t & E & ->)%prepend_inv. rewrite Hpre. eapply IH; [|done]. lia. }
  cbn [unquoteBody] in H. destruct (isC c 34); [by simplify_eq|]. destruct (isC c 92).
  { unfold mbind, option_bind in H. repeat (case_match; try discriminate H); subst;
      first [ eapply Hp; [|apply encodeRune_valid|exact H]; simpl; lia
            | eapply Hp; [| |exact H]; [simpl; lia|intros t; apply valid_ascii; by eapply unescape_ascii] ]. }
  destruct (b2z c <? 32); [done|]. destruct (Z.ltb_spec (b2z c) 0x80) as [Hc|Hc].
  { apply (Hp l [c]); [lia|intros t; by apply valid_ascii|exact H]. }
  destruct (decodeRune (c :: l)) as [[x k]|] eqn:Ed; [|eapply Hp; [|apply encodeRune_valid|exact H]; lia].
  destruct (decodeRune_width _ _ _ _ Ed Hc) as (Hk & Hl & _).
  apply prepend_inv in H as (t & (t' & -> & E & _)%unquoteBody_copied & ->).
  pose proof (decodeRune_take _ _ _ t' Ed) as Et. destruct k as [|k]; [lia|].
  rewrite Nat.sub_succ, Nat.sub_0_r in *. cbn [take app] in *. unfold validUTF8. cbn [validFrom]. rewrite Et.
  rewrite Nat.sub_succ, Nat.sub_0_r, validFrom_skip by (rewrite length_app, length_take; lia).
  rewrite drop_app_length' by (rewrite length_take; lia).
  eapply IH; [|exact E]. rewrite length_drop. lia.
Qed.

(** ** Values *)

Definition wellFormed (depth : Z) (j : json) : Prop := canonical j = true /\ depth + jdepth j <= maxNestingDepth.

Lemma wellFormed_obj depth ms :
  depth < maxNestingDepth -> Forall (fun kv => validUTF8 (fst kv) = true /\ wellFormed (depth + 1) (snd kv)) ms ->
  wellFormed depth (JObj ms).
Proof.
  intros Hd H. unfold wellFormed. cbn [canonical jdepth]. split.
  - apply forallb_forall. intros kv Hin%list_elem_of_In. rewrite Forall_forall in H.
    destruct (H kv Hin) as (-> & -> & _). done.
  - assert (depth + 1 + foldr Z.max 0 (map (fun kv => jdepth kv.2) ms) <= maxNestingDepth); [|lia].
    induction H as [|kv ms (_ & _ & Hj) _ IH]; cbn [map foldr]; lia.
Qed.

Lemma wellFormed_arr depth l :
  depth < maxNestingDepth -> Forall (wellFormed (depth + 1)) l -> wellFormed depth (JArr l).
Proof.
  intros Hd H. unfold wellFormed. cbn [canonical jdepth]. split.
  - apply forallb_forall. intros j Hin%list_elem_of_In. rewrite Forall_forall in H. by apply H.
  - assert (depth + 1 + foldr Z.max 0 (map jdepth l) <= maxNestingDepth); [|lia].
    induction H as [|j l (_ & Hj) _ IH]; cbn [map foldr]; lia.
Qed.

Lemma wellFormed_leaf depth j : canonical j = true -> jdepth j = 0 -> depth <= maxNestingDepth -> wellFormed depth j.
Proof. intros Hc Hj Hd. split; [done|]. lia. Qed.

Lemma parseValue_wellFormed fuel :
  (forall depth bs j r, depth < maxNestingDepth -> parseMembers fuel (depth + 1) bs = Some (j, r) ->
     Forall (fun kv => validUTF8 (fst kv) = true /\ wellFormed (depth + 1) (snd kv)) j) ->
  (forall depth bs l r, depth < maxNestingDepth -> parseElements fuel (depth + 1) bs = Some (l, r) ->
     Forall (wellFormed (depth + 1)) l) ->
  forall depth bs j r, depth <= maxNestingDepth -> parseValue (S fuel) depth bs = Some (j, r) -> wellFormed depth j.
Proof.
  intros Hm He depth bs j r Hd H. cbn [parseValue] in H. unfold mbind, option_bind in H.
  destruct (skipWs bs) as [|c l]; [done|].
  destruct (isC c 34).
  { destruct (unquoteBody 0 l) as [[s r']|] eqn:E; [|done]. simplify_eq.
    apply wellFormed_leaf; [|done..]. by eapply unquote_valid. }
  destruct (isC c 123).
  { destruct (Z.leb_spec maxNestingDepth depth); [done|]. destruct (skipWs l) as [|c' r']; [done|].
    destruct (isC c' 125); [simplify_eq; by apply wellFormed_obj|].
    destruct (parseMembers fuel (depth + 1) l) as [[ms r2]|] eqn:E; [|done]. simplify_eq.
    apply wellFormed_obj; [done|]. by eapply Hm. }
  destruct (isC c 91).
  { destruct (Z.leb_spec maxNestingDepth depth); [done|]. destruct (skipWs l) as [|c' r']; [done|].
    destruct (isC c' 93); [simplify_eq; by apply wellFormed_arr|].
    destruct (parseElements fuel (depth + 1) l) as [[ms r2]|] eqn:E; [|done]. simplify_eq.
    apply wellFormed_arr; [done|]. by eapply He. }
  destruct (isC c 116); [destruct (stripPrefix _ l); simplify_eq; by apply wellFormed_leaf|].
  destruct (isC c 102); [destruct (stripPrefix _ l); simplify_eq; by apply wellFormed_leaf|].
  destruct (isC c 110); [destruct (stripPrefix _ l); simplify_eq; by apply wellFormed_leaf|].
  destruct (parseNumber (c :: l)) as [[t r']|] eqn:E; [|done]. simplify_eq. apply wellFormed_leaf; [|done..].
  apply bool_decide_eq_true. apply parseNumber_any in E as (_ & _ & E). specialize (E []).
  rewrite app_nil_r in E. apply E. by intros ? [=].
Qed.

Lemma parse_wellFormed fuel : forall depth bs, depth <= maxNestingDepth ->
  (forall j r, parseValue fuel depth bs = Some (j, r) -> wellFormed depth j) /\
  (forall ms r, parseMembers fuel depth bs = Some (ms, r) ->
     Forall (fun kv => validUTF8 (fst kv) = true /\ wellFormed depth (snd kv)) ms) /\
  (forall l r, parseElements fuel depth bs = Some (l, r) -> Forall (wellFormed depth) l).
Proof.
  induction fuel as [|fuel IH]; intros depth bs Hd; [done|]. split_and!.
  - intros j r. apply parseValue_wellFormed; [|  |done]; intros d l x r'; intros; eapply (IH (d + 1)); try done; lia.
  - intros ms r H. cbn [parseMembers] in H. unfold mbind, option_bind in H.
    destruct (skipWs bs) as [|c l]; [done|]. destruct (isC c 34); [|done].
    destruct (unquoteBody 0 l) as [[k l1]|] eqn:E1; [|done]. apply (unquote_valid _ _ _ _ (le_n _)) in E1.
    destruct (skipWs l1) as [|c2 l2]; [done|]. destruct (isC c2 58); [|done].
    destruct (parseValue fuel depth l2) as [[v l3]|] eqn:E2; [|done]. apply IH in E2; [|done].
    destruct (skipWs l3) as [|c4 l4]; [done|]. destruct (isC c4 44).
    + destruct (parseMembers fuel depth l4) as [[ms' l5]|] eqn:E3; [|done]. apply IH in E3; [|done].
      simplify_eq. by apply Forall_cons.
    + destruct (isC c4 125); [|done]. simplify_eq. by apply Forall_singleton.
  - intros l r H. cbn [parseElements] in H. unfold mbind, option_bind in H.
    destruct (parseValue fuel depth bs) as [[v l3]|] eqn:E2; [|done]. apply IH in E2; [|done].
    destruct (skipWs l3) as [|c4 l4]; [done|]. destruct (isC c4 44).
    + destruct (parseElements fuel depth l4) as [[l' l5]|] eqn:E3; [|done]. apply IH in E3; [|done].
      simplify_eq. by apply Forall_cons.
    + destruct (isC c4 93); [|done]. simplify_eq. by apply Forall_singleton.
Qed.

(** What was read is a value that can be written and read again. *)
Lemma parseJSON_wellFormed bs j : parseJSON bs = Some j -> canonical j = true /\ jdepth j <= maxNestingDepth.
Proof.
  unfold parseJSON. destruct (parseValue _ 0 bs) as [[v r]|] eqn:E; [|done]. cbn [mbind option_bind].
  destruct (skipWs r); [|done]. intros [= <-]. by apply parse_wellFormed in E.
Qed.

Lemma parseJSON_stable bs j : parseJSON bs = Some j -> parseJSON (print j) = Some j.
Proof. intros [Hc Hd]%parseJSON_wellFormed. by apply parseJSON_print. Qed.
