(* ===== verification/Message.v ===== *)
(** * Messages: src/core/message.go, types.go, errors.go, tensor_message.go,
      src/protocol/header.go, and the type bytes of src/core/endpoint.go

    The message envelope, the header that travels in a frame, the one-byte
    wire form of message types, and the binding of tensor descriptors to
    messages. *)

From S2P Require Import Prelude Time Frame Tensor TensorMessage.
Local Open Scope string_scope.
Local Open Scope list_scope.
Local Open Scope Z_scope.

(** [type MessageType string] *)
Definition MessageType := string.

Definition TypeIntent : MessageType := "intent".
Definition TypeFeatures : MessageType := "features".
Definition TypeToolRequest : MessageType := "tool_request".
Definition TypeAuth : MessageType := "auth".
Definition TypeChallenge : MessageType := "challenge".
Definition TypeAuthResponse : MessageType := "auth_response".
Definition TypeAck : MessageType := "ack".
Definition TypePolicyResult : MessageType := "policy_result".
Definition TypeHeartbeat : MessageType := "heartbeat".
Definition TypeAudit : MessageType := "audit".
Definition TypeChat : MessageType := "chat".
Definition TypeComplete : MessageType := "complete".

(** [type Priority uint8] *)
Definition PriorityP0 : Z := 0.
Definition PriorityP1 : Z := 1.
Definition PriorityP2 : Z := 2.
Definition PriorityP3 : Z := 3.

Definition PayloadJSON : Z := 0.
Definition PayloadMsgPack : Z := 1.

Definition ErrAuth : error := ErrorNew "eipc: authentication failed".
Definition ErrCapability : error := ErrorNew "eipc: capability check failed".
Definition ErrIntegrity : error := ErrorNew "eipc: integrity verification failed".
Definition ErrTimeout : error := ErrorNew "eipc: operation timed out".
Definition ErrBackpressure : error := ErrorNew "eipc: backpressure limit reached".
Definition ErrNilMessage : error := ErrorNew "eipc: nil message".

Record Message := MkMessage {
  MVersion : Z;
  MType : MessageType;
  Source : string;
  Timestamp : Time;
  SessionID : string;
  RequestID : string;
  MPriority : Z;
  Capability : string;
  MPayload : list byte
}.

(** [now] is the reading of [time.Now]. *)
Definition NewMessage (now : Time) (msgType : MessageType) (source : string) (payload : list byte)
  : Message :=
  MkMessage ProtocolVersion msgType source (UTC now) "" "" PriorityP1 "" payload.

(** [protocol.Header] *)
Record MessageHeader := MkHeader {
  hServiceID : string;
  hSessionID : string;
  hRequestID : string;
  hSequence : Z;
  hTimestamp : string;
  hPriority : Z;
  hCapability : string;
  hRoute : string;
  hPayloadFormat : Z
}.

(** ** The type byte *)

(** [s[0]] of a string that is not empty: a character constant. *)
Definition chr (s : string) : byte :=
  match s with
  | String.String c _ => Ascii.byte_of_ascii c
  | String.EmptyString => z2b 0
  end.

(** [string(rune(b))]: the UTF-8 text of the code point [b]. *)
Definition stringOfRune (b : byte) : string :=
  if b2z b <? 128 then string_of_bytes [b]
  else string_of_bytes [z2b (Z.lor 0xC0 (Z.shiftr (b2z b) 6)); z2b (Z.lor 0x80 (Z.land (b2z b) 0x3F))].

Definition msgTypeFromByte (b : byte) : MessageType :=
  if decide (b = chr "i") then TypeIntent
  else if decide (b = chr "f") then TypeFeatures
  else if decide (b = chr "t") then TypeToolRequest
  else if decide (b = chr "a") then TypeAck
  else if decide (b = chr "A") then TypeAuth
  else if decide (b = chr "H") then TypeChallenge
  else if decide (b = chr "R") then TypeAuthResponse
  else if decide (b = chr "p") then TypePolicyResult
  else if decide (b = chr "h") then TypeHeartbeat
  else if decide (b = chr "u") then TypeAudit
  else if decide (b = chr "c") then TypeChat
  else if decide (b = chr "C") then TypeComplete
  else stringOfRune b.

Definition MsgTypeToByte (mt : MessageType) : byte :=
  if String.eqb mt TypeIntent then chr "i"
  else if String.eqb mt TypeFeatures then chr "f"
  else if String.eqb mt TypeToolRequest then chr "t"
  else if String.eqb mt TypeAck then chr "a"
  else if String.eqb mt TypeAuth then chr "A"
  else if String.eqb mt TypeChallenge then chr "H"
  else if String.eqb mt TypeAuthResponse then chr "R"
  else if String.eqb mt TypePolicyResult then chr "p"
  else if String.eqb mt TypeHeartbeat then chr "h"
  else if String.eqb mt TypeAudit then chr "u"
  else if String.eqb mt TypeChat then chr "c"
  else if String.eqb mt TypeComplete then chr "C"
  else if 0 <? slen mt then chr mt
  else z2b 0.

(** ** Tensors in messages *)

Definition AttachTensor (now : Time) (d : option TensorDescriptor) : result Message :=
  '(payload, capability) ← MessagePayload d;
  let msg := NewMessage now TypeFeatures "" payload in
  Ok (MkMessage (MVersion msg) (MType msg) (Source msg) (Timestamp msg) (SessionID msg)
        (RequestID msg) (MPriority msg) capability (MPayload msg)).

Definition ExtractTensor (m : option Message) : result TensorDescriptor :=
  match m with
  | None => Err ErrNilMessage
  | Some m => TensorFromPayload (MPayload m) (Capability m)
  end.

(** ** Properties *)

(** The types of the protocol. *)
Definition knownTypes : list MessageType :=
  [TypeIntent; TypeFeatures; TypeToolRequest; TypeAuth; TypeChallenge; TypeAuthResponse; TypeAck;
   TypePolicyResult; TypeHeartbeat; TypeAudit; TypeChat; TypeComplete].

Lemma knownTypes_roundtrip : Forall (fun t => msgTypeFromByte (MsgTypeToByte t) = t) knownTypes.
Proof. repeat constructor. Qed.

Lemma msgTypeFromByte_ascii b : b2z b < 128 -> MsgTypeToByte (msgTypeFromByte b) = b.
Proof. destruct b; intros H; try reflexivity; exfalso; vm_compute in H; discriminate. Qed.

(** The type byte identifies the protocol's message types: every type of the
    protocol comes back from its byte, and every byte below 128 comes back from
    the type it stands for, so that no two types of the protocol, and no type
    of the protocol and any one-letter type, share a byte. *)
Theorem type_byte_roundtrip :
  Forall (fun t => msgTypeFromByte (MsgTypeToByte t) = t) knownTypes /\
  (forall b, b2z b < 128 -> MsgTypeToByte (msgTypeFromByte b) = b) /\
  (forall t u, t ∈ knownTypes -> u ∈ knownTypes -> MsgTypeToByte t = MsgTypeToByte u -> t = u).
Proof.
  split; [exact knownTypes_roundtrip|]. split; [exact msgTypeFromByte_ascii|].
  intros t u Ht Hu E. pose proof knownTypes_roundtrip as H. rewrite Forall_forall in H.
  rewrite <-(H t Ht), <-(H u Hu). by rewrite E.
Qed.
