(* ===== verification/Codec.v ===== *)
(** * The payload codec: src/protocol/codec.go

    The [Codec] interface as a type class with its law, and [JSONCodec]: how
    [encoding/json] writes a struct of strings and unsigned integers and
    decodes an object into one, member by member, with Go's matching of keys.
    The law is proved for the header of a message. *)

From S2P Require Import Prelude Time Utf8 Json Frame Message.
Local Open Scope string_scope.
Local Open Scope list_scope.
Local Open Scope Z_scope.

(** [Marshal(v)] for a [v] of type [T], and [Unmarshal(data, &v)] for a zero [v]. *)
Class Codec (T : Type) := {
  Marshal : T -> result (list byte);
  Unmarshal : list byte -> result T
}.

(** What the endpoints rely on: a marshalled value of the range [marshals]
    comes back. *)
Class CodecLaw (T : Type) `{Codec T} := {
  marshals : T -> Prop;
  unmarshal_marshal v : marshals v -> exists bs, Marshal v = Ok bs /\ Unmarshal bs = Ok v
}.

(** ** Decoding an object into a struct *)

(** Keys match up to case: ASCII letters, and the two other code points whose
    case folding is an ASCII letter (U+017F for S, U+212A for K). *)
Fixpoint foldName (bs : list byte) : list byte :=
  match bs with
  | [] => []
  | a :: r =>
      match r with
      | b :: r1 =>
          if isC a 0xC5 && isC b 0xBF then z2b 83 :: foldName r1
          else match r1 with
               | c :: r2 =>
                   if isC a 0xE2 && isC b 0x84 && isC c 0xAA then z2b 75 :: foldName r2
                   else (if within 97 122 a then z2b (b2z a - 32) else a) :: foldName r
               | [] => (if within 97 122 a then z2b (b2z a - 32) else a) :: foldName r
               end
      | [] => [if within 97 122 a then z2b (b2z a - 32) else a]
      end
  end.

(** A field of a struct: its JSON name and how a value is stored in it. *)
Record field (T : Type) := MkField { fname : list byte; store : json -> T -> result T }.
Arguments MkField {T} _ _.
Arguments fname {T} _.
Arguments store {T} _ _ _.

Definition lookupField {T} (fields : list (field T)) (key : list byte) : option (field T) :=
  match find (fun f => bool_decide (fname f = key)) fields with
  | Some f => Some f
  | None => find (fun f => bool_decide (foldName (fname f) = foldName key)) fields
  end.

Definition errUnmarshalType : error := ErrorNew "json: cannot unmarshal value into Go struct field".
Definition errSyntax : error := ErrorNew "json: syntax error".

(** Members in order; a later one overwrites an earlier one; unknown keys are
    ignored. *)
Fixpoint storeMembers {T} (fields : list (field T)) (ms : list (list byte * json)) (v : T) : result T :=
  match ms with
  | [] => Ok v
  | (key, j) :: ms' =>
      match lookupField fields key with
      | Some f => v ← store f j v; storeMembers fields ms' v
      | None => storeMembers fields ms' v
      end
  end.

(** [json.Unmarshal] into a struct that is [zero] before. *)
Definition unmarshalStruct {T} (fields : list (field T)) (zero : T) (data : list byte) : result T :=
  match parseJSON data with
  | None => Err errSyntax
  | Some (JObj ms) => storeMembers fields ms zero
  | Some JNull => Ok zero
  | Some _ => Err errUnmarshalType
  end.

Definition storeString {T} (set : string -> T -> T) (j : json) (v : T) : result T :=
  match j with
  | JStr s => Ok (set (string_of_bytes s) v)
  | JNull => Ok v
  | _ => Err errUnmarshalType
  end.

(** [strconv.ParseUint] and the overflow test, for an unsigned type of [bits]. *)
Definition storeUint {T} (bits : Z) (set : Z -> T -> T) (j : json) (v : T) : result T :=
  match j with
  | JNum t => if forallb isDigit t && (atoi t <? 2 ^ bits) then Ok (set (atoi t) v) else Err errUnmarshalType
  | JNull => Ok v
  | _ => Err errUnmarshalType
  end.

(** ** The header *)

Definition uintText (x : Z) : json := JNum (appendInt x 0).
Definition strText (s : string) : json := JStr (bytes_of_string s).

(** A member with the [omitempty] option. *)
Definition omitempty (key s : string) : list (list byte * json) :=
  if String.eqb s "" then [] else [(text key, strText s)].

Definition headerJSON (h : MessageHeader) : json :=
  JObj ([(text "service_id", strText (hServiceID h));
         (text "session_id", strText (hSessionID h));
         (text "request_id", strText (hRequestID h));
         (text "sequence", uintText (hSequence h));
         (text "timestamp", strText (hTimestamp h));
         (text "priority", uintText (hPriority h))] ++
        omitempty "capability" (hCapability h) ++
        omitempty "route" (hRoute h) ++
        [(text "payload_format", uintText (hPayloadFormat h))]).

Definition zeroHeader : MessageHeader := MkHeader "" "" "" 0 "" 0 "" "" 0.

Definition headerFields : list (field MessageHeader) :=
  [MkField (text "service_id") (storeString (fun s h => MkHeader s (hSessionID h) (hRequestID h) (hSequence h) (hTimestamp h) (hPriority h) (hCapability h) (hRoute h) (hPayloadFormat h)));
   MkField (text "session_id") (storeString (fun s h => MkHeader (hServiceID h) s (hRequestID h) (hSequence h) (hTimestamp h) (hPriority h) (hCapability h) (hRoute h) (hPayloadFormat h)));
   MkField (text "request_id") (storeString (fun s h => MkHeader (hServiceID h) (hSessionID h) s (hSequence h) (hTimestamp h) (hPriority h) (hCapability h) (hRoute h) (hPayloadFormat h)));
   MkField (text "sequence") (storeUint 64 (fun n h => MkHeader (hServiceID h) (hSessionID h) (hRequestID h) n (hTimestamp h) (hPriority h) (hCapability h) (hRoute h) (hPayloadFormat h)));
   MkField (text "timestamp") (storeString (fun s h => MkHeader (hServiceID h) (hSessionID h) (hRequestID h) (hSequence h) s (hPriority h) (hCapability h) (hRoute h) (hPayloadFormat h)));
   MkField (text "priority") (storeUint 8 (fun n h => MkHeader (hServiceID h) (hSessionID h) (hRequestID h) (hSequence h) (hTimestamp h) n (hCapability h) (hRoute h) (hPayloadFormat h)));
   MkField (text "capability") (storeString (fun s h => MkHeader (hServiceID h) (hSessionID h) (hRequestID h) (hSequence h) (hTimestamp h) (hPriority h) s (hRoute h) (hPayloadFormat h)));
   MkField (text "route") (storeString (fun s h => MkHeader (hServiceID h) (hSessionID h) (hRequestID h) (hSequence h) (hTimestamp h) (hPriority h) (hCapability h) s (hPayloadFormat h)));
   MkField (text "payload_format") (storeUint 8 (fun n h => MkHeader (hServiceID h) (hSessionID h) (hRequestID h) (hSequence h) (hTimestamp h) (hPriority h) (hCapability h) (hRoute h) n))].

(** [JSONCodec] on headers. *)
#[global] Instance JSONCodec : Codec MessageHeader :=
  {| Marshal h := Ok (print (headerJSON h));
     Unmarshal data := unmarshalStruct headerFields zeroHeader data |}.

(** ** The law for headers *)

Lemma decimals_cons n : forall x,
  0 <= x -> decimals (S n) x = digit (x / 10 ^ Z.of_nat n mod 10) :: decimals n x.
Proof.
  induction n as [|n IH]; intros x Hx; [by rewrite Z.div_1_r|].
  change (decimals (S (S n)) x) with (decimals (S n) (x / 10) ++ [digit (x mod 10)]).
  rewrite IH by (apply Z.div_pos; lia). cbn [app]. do 2 f_equal.
  rewrite Zdiv_Zdiv by lia. by rewrite Nat2Z.inj_succ, Z.pow_succ_r by lia.
Qed.

Lemma numDigits_spec fuel : forall x,
  0 <= x < 10 ^ (Z.of_nat fuel + 1) ->
  x < 10 ^ Z.of_nat (numDigits fuel x) /\
  (numDigits fuel x = 1%nat \/ exists m, numDigits fuel x = S m /\ 10 ^ Z.of_nat m <= x).
Proof.
  induction fuel as [|fuel IH]; intros x Hx; cbn [numDigits]; [split; [apply Hx|by left]|].
  destruct (Z.ltb_spec x 10) as [|H10]; [split; [done|by left]|].
  replace (Z.of_nat (S fuel) + 1) with (Z.succ (Z.of_nat fuel + 1)) in Hx by lia.
  rewrite Z.pow_succ_r in Hx by lia.
  destruct (IH (x / 10)) as [Hlt Hge].
  { split; [apply Z.div_pos; lia|apply Z.div_lt_upper_bound; lia]. }
  rewrite Nat2Z.inj_succ, Z.pow_succ_r by lia. pose proof (Z_div_mod_eq_full x 10).
  pose proof (Z.mod_pos_bound x 10 ltac:(done)). split; [lia|]. right. eexists. split; [done|].
  destruct Hge as [->|(m & -> & Hm)]; [change (10 ^ Z.of_nat 1) with 10; lia|].
  rewrite Nat2Z.inj_succ, Z.pow_succ_r by lia. lia.
Qed.

Lemma digitRun_all ds : forallb isDigit ds = true -> digitRun ds = ds.
Proof. induction ds as [|d ds IH]; [done|]. simpl. intros [-> H]%andb_true_iff. by rewrite IH. Qed.

Lemma parseNumber_digits d ds :
  isDigit d = true -> forallb isDigit ds = true -> (isC d 48 = true -> ds = []) ->
  parseNumber (d :: ds) = Some (d :: ds, []).
Proof.
  intros Hd Hds H0. unfold parseNumber.
  assert (isC d 45 = false) as -> by (unfold isDigit in Hd; breflect; apply isC_false; lia).
  unfold parseInt. destruct (isC d 48) eqn:E; [by rewrite H0|].
  unfold digits1. rewrite digitRun_all by (simpl; by rewrite Hd). rewrite drop_all. simpl.
  by rewrite !app_nil_r.
Qed.

(** The decimal digits of a number: no zero in front of others. *)
Lemma decimals_lead fuel x :
  0 <= x < 10 ^ (Z.of_nat fuel + 1) ->
  exists d ds, decimals (numDigits fuel x) x = d :: ds /\ isDigit d = true /\ forallb isDigit ds = true /\
    (isC d 48 = true -> ds = []).
Proof.
  intros Hx. destruct (numDigits_spec fuel x Hx) as [Hlt Hge]. generalize dependent (numDigits fuel x). intros n Hlt Hge.
  assert (exists m, n = S m /\ (m = 0%nat \/ 10 ^ Z.of_nat m <= x)) as (m & -> & Hm).
  { destruct Hge as [->|(m & -> & Hm)]; eauto. }
  rewrite decimals_cons by lia. eexists _, _. split; [done|].
  split; [apply isDigit_digit, Z.mod_pos_bound; lia|]. split; [apply decimals_digits|].
  destruct Hm as [->|Hm]; [done|]. unfold isC.
  rewrite Nat2Z.inj_succ, Z.pow_succ_r in Hlt by lia.
  assert (1 <= x / 10 ^ Z.of_nat m < 10) as Hq.
  { split; [apply Z.div_le_lower_bound; lia|apply Z.div_lt_upper_bound; lia]. }
  rewrite Z.mod_small, b2z_digit by lia. intros H. breflect. lia.
Qed.

(** The decimal text of an unsigned integer is a JSON number with its value. *)
Lemma uint_text x :
  in_u64 x -> parseNumber (appendInt x 0) = Some (appendInt x 0, []) /\
  forallb isDigit (appendInt x 0) = true /\ atoi (appendInt x 0) = x.
Proof.
  intros [H0 Hx]. assert (x < 10 ^ (Z.of_nat 20 + 1)) as Hb by (simpl; lia).
  destruct (numDigits_spec 20 x (conj H0 Hb)) as [Hlt _].
  unfold appendInt. zbool. rewrite Z.abs_eq, Nat.max_0_l by done. cbn [app].
  split; [|split; [apply decimals_digits|by apply atoi_decimals]].
  destruct (decimals_lead 20 x (conj H0 Hb)) as (d & ds & -> & Hd & Hds & Hz). by apply parseNumber_digits.
Qed.

(** The headers whose fields are of their types, with UTF-8 strings. *)
Definition validString (s : string) : bool := validUTF8 (bytes_of_string s).

Definition header_ok (h : MessageHeader) : Prop :=
  validString (hServiceID h) = true /\ validString (hSessionID h) = true /\
  validString (hRequestID h) = true /\ in_u64 (hSequence h) /\
  validString (hTimestamp h) = true /\ in_u8 (hPriority h) /\
  validString (hCapability h) = true /\ validString (hRoute h) = true /\ in_u8 (hPayloadFormat h).

Lemma in_u8_u64 x : in_u8 x -> in_u64 x.
Proof. unfold in_u8, in_u64. lia. Qed.

Lemma canonical_uint x : in_u64 x -> canonical (uintText x) = true.
Proof. intros Hx. cbn [canonical uintText]. apply bool_decide_eq_true, uint_text, Hx. Qed.

Lemma storeUint_uint {T} bits set (v : T) x :
  in_u64 x -> x < 2 ^ bits -> storeUint bits set (uintText x) v = Ok (set x v).
Proof.
  intros Hx Hb. destruct (uint_text x Hx) as (_ & Hd & Ha). cbn [storeUint uintText].
  rewrite Hd, Ha. by zbool.
Qed.

Lemma storeString_str {T} set (v : T) s : storeString set (strText s) v = Ok (set s v).
Proof. cbn [storeString strText]. by rewrite String.string_of_list_byte_of_string. Qed.

Lemma headerJSON_canonical h : header_ok h -> canonical (headerJSON h) = true.
Proof.
  intros (H1 & H2 & H3 & H4 & H5 & H6 & H7 & H8 & H9).
  assert (forall key s, validUTF8 (text key) = true -> validString s = true ->
    forallb (fun kv => validUTF8 (fst kv) && canonical (snd kv)) (omitempty key s) = true) as Hom.
  { intros key s Hk Hs. unfold omitempty. destruct (String.eqb s ""); [done|]. simpl.
    rewrite Hk. unfold validString in Hs. by rewrite Hs. }
  assert (forall key s l, validUTF8 (text key) = true -> validString s = true ->
    forallb (fun kv => validUTF8 (fst kv) && canonical (snd kv)) ((text key, strText s) :: l) =
    forallb (fun kv => validUTF8 (fst kv) && canonical (snd kv)) l) as Hs.
  { intros key s l Hk Hs. simpl. unfold validString in Hs. by rewrite Hk, Hs. }
  assert (forall key x l, validUTF8 (text key) = true -> in_u64 x ->
    forallb (fun kv => validUTF8 (fst kv) && canonical (snd kv)) ((text key, uintText x) :: l) =
    forallb (fun kv => validUTF8 (fst kv) && canonical (snd kv)) l) as Hn.
  { intros key x l Hk Hx. cbn [forallb fst snd]. by rewrite Hk, canonical_uint. }
  cbn [canonical headerJSON app].
  rewrite !Hs, Hn, Hs, Hn, !forallb_app, !Hom, Hn by (done || by apply in_u8_u64). done.
Qed.

Lemma storeMembers_cons {T} (fields : list (field T)) key j ms v f v' :
  lookupField fields key = Some f -> store f j v = Ok v' ->
  storeMembers fields ((key, j) :: ms) v = storeMembers fields ms v'.
Proof. intros Hf Hs. cbn [storeMembers]. rewrite Hf. simpl. by rewrite Hs. Qed.

(** One member of the header stored. *)
Ltac store_member :=
  erewrite storeMembers_cons;
    [|reflexivity|cbn [store]; first [apply storeString_str | apply storeUint_uint; [by auto using in_u8_u64|]; by auto]];
  cbn [hServiceID hSessionID hRequestID hSequence hTimestamp hPriority hCapability hRoute hPayloadFormat].

Lemma unmarshal_header h :
  header_ok h -> Unmarshal (print (headerJSON h)) = Ok h.
Proof.
  intros Hh. cbn [Unmarshal JSONCodec]. unfold unmarshalStruct.
  rewrite parseJSON_print; [|by apply headerJSON_canonical|].
  2: { unfold headerJSON, omitempty. repeat case_match; vm_compute; discriminate. }
  destruct Hh as (_ & _ & _ & H4 & _ & H6 & _ & _ & H9).
  assert (hSequence h < 2 ^ 64) by apply H4. assert (hPriority h < 2 ^ 8) by apply H6.
  assert (hPayloadFormat h < 2 ^ 8) by apply H9.
  unfold headerJSON, omitempty. cbn [app]. unfold zeroHeader.
  do 6 store_member.
  destruct (String.eqb_spec (hCapability h) "") as [Hc|_], (String.eqb_spec (hRoute h) "") as [Hr|_];
    cbn [app]; repeat store_member; cbn [storeMembers]; destruct h; simpl in *; congruence.
Qed.

#[global] Program Instance JSONCodec_law : CodecLaw MessageHeader := {| marshals := header_ok |}.
Next Obligation. intros h Hh. eexists. split; [done|]. by apply unmarshal_header. Qed.

(** ** Decoded numbers are in range *)

Lemma atoi_nonneg ds : forallb isDigit ds = true -> 0 <= atoi ds.
Proof.
  induction ds as [|d ds IH] using rev_ind; [done|]. rewrite forallb_app, atoi_snoc. simpl.
  intros [Hds Hd]%andb_true_iff. rewrite andb_true_r in Hd. apply IH in Hds.
  unfold isDigit, digitVal in *. breflect. lia.
Qed.

Lemma lookupField_elem {T} (fields : list (field T)) key f : lookupField fields key = Some f -> f ∈ fields.
Proof.
  unfold lookupField. intros Hf. apply list_elem_of_In.
  destruct (find _ fields) eqn:E; [simplify_eq; apply (find_some _ _ E)|apply (find_some _ _ Hf)].
Qed.

(** An invariant that every field keeps holds of the decoded struct. *)
Lemma storeMembers_inv {T} (P : T -> Prop) (fields : list (field T)) ms : forall v v',
  Forall (fun f => forall j v v', store f j v = Ok v' -> P v -> P v') fields ->
  P v -> storeMembers fields ms v = Ok v' -> P v'.
Proof.
  intros v v' Hf. revert v. induction ms as [|[key j] ms IH]; intros v Hv Hs; cbn [storeMembers] in Hs.
  { by simplify_eq. }
  destruct (lookupField fields key) as [f|] eqn:Ef; [|by eapply IH].
  destruct (store f j v) as [v1|] eqn:Es; [|done]. eapply IH; [|exact Hs].
  rewrite Forall_forall in Hf. eapply Hf; [by eapply lookupField_elem|done|done].
Qed.

Lemma JSON_sequence_u64 bs h : Unmarshal bs = Ok h -> in_u64 (hSequence h).
Proof.
  cbn [Unmarshal JSONCodec]. unfold unmarshalStruct.
  destruct (parseJSON bs) as [[]|]; try done; [intros [= <-]; split; done|].
  apply (storeMembers_inv (fun h => in_u64 (hSequence h))); [|done]. unfold headerFields.
  repeat apply Forall_cons_2; [..|by apply Forall_nil_2]; intros j v v';
    destruct j; cbn [store storeString storeUint]; try done; try (by intros [= <-]);
    intros Hs; (destruct (_ && _) eqn:E; [|done]); injection Hs as <-; cbn [hSequence]; try done.
  intros _. apply andb_true_iff in E as [Hd Hb]. apply atoi_nonneg in Hd. breflect. split; lia.
Qed.

(** ** Properties *)

(** [JSONCodec] inverts itself on headers: the JSON text of every header
    whose strings are UTF-8, quotes, control characters, HTML characters and
    separators included, decodes to the same header. *)
Theorem header_roundtrip (h : MessageHeader) :
  header_ok h -> exists bs, Marshal h = Ok bs /\ Unmarshal bs = Ok h.
Proof. intros Hh. eexists. split; [reflexivity|]. by apply unmarshal_header. Qed.

Definition sampleHeader : MessageHeader :=
  MkHeader "eni.min" "s<1>" "r\1" 18446744073709551615 "2026-01-02T03:04:05.5Z" 1 "ui:control" "" 0.

Lemma header_roundtrip_witness :
  header_ok sampleHeader /\ exists bs, Marshal sampleHeader = Ok bs /\ Unmarshal bs = Ok sampleHeader.
Proof.
  assert (header_ok sampleHeader) as H by (repeat split; vm_compute; (reflexivity || discriminate)).
  split; [exact H|]. apply (header_roundtrip sampleHeader H).
Defined.
