(* ===== verification/FloatText.v ===== *)
(** * The text of a float64: what the program uses of Go's package strconv

    [strconv.ParseFloat] on JSON numbers, with correct rounding and the range
    error, and the text that [json.Marshal] writes for a float64: the shortest
    digits that are read back as the number, in one of two forms.  The theorem
    of this file is that every finite float64 is written and is read back as
    itself, the sign of zero included. *)

From Stdlib Require Import SpecFloat.
From S2P Require Import Prelude Time Float64 Json Indent Codec.
Local Open Scope string_scope.
Local Open Scope list_scope.
Local Open Scope Z_scope.

(** ** Reading *)

(** The value of a decimal exponent; [readFloat] stops counting at 10000. *)
Definition expVal (ds : list byte) : Z :=
  foldl (fun e d => if e <? 10000 then e * 10 + digitVal d else e) 0 ds.

(** The mantissa and the exponent of a JSON number. *)
Definition decimalOf (t : list byte) : Z * Z :=
  let t := match t with c :: r => if isC c 45 then r else t | [] => t end in
  let ip := digitRun t in
  let t := drop (length ip) t in
  let '(fp, t) := match t with
                  | c :: r => if isC c 46 then (digitRun r, drop (length (digitRun r)) r) else ([], t)
                  | [] => ([], t)
                  end in
  let e := match t with
           | _ :: s :: r => if isC s 45 then - expVal r else if isC s 43 then expVal r else expVal (s :: r)
           | _ => 0
           end in
  (atoi (ip ++ fp), e - zlen fp).

Definition negative (t : list byte) : bool := match t with c :: _ => isC c 45 | [] => false end.

(** [strconv.ParseFloat(t, 64)] for a JSON number; [None] is the error that
    the number is out of range. *)
Definition parseFloat (t : list byte) : option float64 :=
  let '(m, e) := decimalOf t in
  let f := decimalFloat (negative t) m e in
  if finite f then Some f else None.

(** ** Writing *)

(** [m * 2^e] as [c * 10^x]. *)
Definition exactDecimal (m : positive) (e : Z) : Z * Z :=
  if 0 <=? e then (Z.pos m * 2 ^ e, 0) else (Z.pos m * 5 ^ (- e), e).

(** Trailing zeros moved to the exponent. *)
Fixpoint trimTens (fuel : nat) (c x : Z) : Z * Z :=
  match fuel with
  | O => (c, x)
  | S fuel' => if c mod 10 =? 0 then trimTens fuel' (c / 10) (x + 1) else (c, x)
  end.

(** 800 digits hold the exact value of any float64. *)
Definition maxDigits : nat := 800.

(** A decimal number, if it is read as [m * 2^e]. *)
Definition readsAs (m : positive) (e c x : Z) : option (Z * Z) :=
  let '(c, x) := trimTens maxDigits c x in
  match decimalFloat false c x with
  | S754_finite false m' e' => if Pos.eqb m m' && (e =? e') then Some (c, x) else None
  | _ => None
  end.

(** The fewest digits from [n] on of which one of the two neighbours of the
    exact value is read as it; the nearer one first. *)
Fixpoint shortestFrom (fuel : nat) (n : Z) (m : positive) (e c x : Z) (l : Z) : Z * Z :=
  match fuel with
  | O => (c, x)
  | S fuel' =>
      let k := l - n in
      let near := roundEven c (10 ^ k) in
      let other := if near =? c / 10 ^ k then near + 1 else near - 1 in
      match readsAs m e near (x + k) with
      | Some r => r
      | None =>
          match readsAs m e other (x + k) with
          | Some r => r
          | None => shortestFrom fuel' (n + 1) m e c x l
          end
      end
  end.

Definition shortest (m : positive) (e : Z) : Z * Z :=
  let '(c, x) := exactDecimal m e in
  let l := numDigits maxDigits c in
  shortestFrom l 1 m e c x (Z.of_nat l).

Definition zeros (n : Z) : list byte := replicate (Z.to_nat n) (digit 0).

(** [fmtF] and [fmtE] for the digits [ds] with the point behind the first
    [dp]; the exponent as [encoding/json] cleans it up. *)
Definition fmtF (ds : list byte) (dp : Z) : list byte :=
  let nd := zlen ds in
  (if 0 <? dp then take (Z.to_nat dp) ds ++ zeros (dp - nd) else [digit 0]) ++
  (if 0 <? nd - dp then z2b 46 :: zeros (- dp) ++ drop (Z.to_nat dp) ds else []).

Definition fmtE (ds : list byte) (dp : Z) : list byte :=
  take 1 ds ++ (if 1 <? zlen ds then z2b 46 :: drop 1 ds else []) ++
  [z2b 101; if dp - 1 <? 0 then z2b 45 else z2b 43] ++ appendInt (Z.abs (dp - 1)) 0.

Definition minus (s : bool) : list byte := if s then [z2b 45] else [].

(** What [json.Marshal] writes for a float64; [None] is its error for infinities
    and NaN. *)
Definition floatText (f : float64) : option (list byte) :=
  match f with
  | S754_zero s => Some (minus s ++ fmtF [] 0)
  | S754_finite s m e =>
      let '(c, x) := shortest m e in
      let ds := decimals (numDigits maxDigits c) c in
      let dp := zlen ds + x in
      let abs := S754_finite false m e in
      if flt abs (decimalFloat false 1 (-6)) || negb (flt abs (decimalFloat false 1 21))
      then Some (minus s ++ fmtE ds dp) else Some (minus s ++ fmtF ds dp)
  | S754_infinity _ | S754_nan => None
  end.

(** ** The two forms are JSON numbers *)

Definition fracText (fp : list byte) : list byte := match fp with [] => [] | _ => z2b 46 :: fp end.

(** A decimal exponent, absent or signed. *)
Definition expText (ex : list byte) (v : Z) : Prop :=
  ex = [] /\ v = 0 \/
  exists sg es, ex = z2b 101 :: (if sg : bool then z2b 45 else z2b 43) :: es /\ es <> [] /\
    forallb isDigit es = true /\ v = if sg then - expVal es else expVal es.

Lemma expText_first ex v : expText ex v -> noDigit ex /\ forall c, ex !! 0%nat = Some c -> isC c 46 = false.
Proof. intros [[-> _]|(sg & es & -> & _)]; split; intros c; try done; by intros [= <-]. Qed.

Lemma fracText_first fp ex : noDigit ex -> noDigit (fracText fp ++ ex).
Proof. intros H. destruct fp as [|f fp]; [done|]. intros c [= <-]. done. Qed.

Lemma digits1_stop ds l : ds <> [] -> forallb isDigit ds = true -> noDigit l -> digits1 (ds ++ l) = Some (ds, l).
Proof. intros H Hd Hl. unfold digits1. rewrite digitRun_stop by done. destruct ds; [done|]. by rewrite drop_app_length. Qed.

Lemma number_text s d ds fp ex v :
  forallb isDigit (d :: ds) = true -> (isC d 48 = true -> ds = []) -> forallb isDigit fp = true -> expText ex v ->
  let t := minus s ++ (d :: ds) ++ fracText fp ++ ex in
  parseNumber t = Some (t, []) /\ negative t = s /\ decimalOf t = (atoi ((d :: ds) ++ fp), v - zlen fp).
Proof.
  intros Hd H0 Hf He t. destruct (expText_first ex v He) as [E1 E2].
  assert (isC d 45 = false) as Hm.
  { cbn [forallb] in Hd. apply andb_true_iff in Hd as [Hd _]. unfold isDigit in Hd. breflect. apply isC_false. lia. }
  assert (noDigit (fracText fp ++ ex)) as Hn by by apply fracText_first.
  assert (parseInt ((d :: ds) ++ fracText fp ++ ex) = Some (d :: ds, fracText fp ++ ex)) as Pi.
  { cbn [app]. unfold parseInt. destruct (isC d 48) eqn:E; [by rewrite H0|]. by apply (digits1_stop (d :: ds)). }
  assert (parseFrac (fracText fp ++ ex) = Some (fracText fp, ex)) as Pf.
  { destruct fp as [|f fp]; [|cbn [fracText app parseFrac]; change (isC (z2b 46) 46) with true; cbv iota;
      change (f :: fp ++ ex) with ((f :: fp) ++ ex); by rewrite digits1_stop].
    cbn [fracText app]. destruct ex as [|x ex]; [done|]. unfold parseFrac. by rewrite (E2 x eq_refl). }
  assert (parseExp ex = Some (ex, [])) as Pe.
  { destruct He as [[-> _]|(sg & es & -> & Hne & Hes & _)]; [done|].
    assert (digits1 es = Some (es, [])) as H1 by (rewrite <-(app_nil_r es) at 1; by apply digits1_stop).
    unfold parseExp. change (isC (z2b 101) 101) with true. cbn [orb]. rewrite H1. by destruct sg. }
  split_and!.
  - unfold t, parseNumber. destruct s; cbn [minus app].
    + change (isC (z2b 45) 45) with true. cbv iota. change (d :: ds ++ fracText fp ++ ex) with ((d :: ds) ++ fracText fp ++ ex).
      rewrite Pi. cbn. rewrite Pf. cbn. rewrite Pe. done.
    + rewrite Hm. change (d :: ds ++ fracText fp ++ ex) with ((d :: ds) ++ fracText fp ++ ex). rewrite Pi. cbn.
      rewrite Pf. cbn. rewrite Pe. done.
  - by destruct s.
  - assert (decimalOf t = decimalOf ((d :: ds) ++ fracText fp ++ ex)) as ->.
    { destruct s; [|done]. unfold decimalOf at 2. cbn [app]. by rewrite Hm. }
    unfold decimalOf. cbn [app]. rewrite Hm. change (d :: ds ++ fracText fp ++ ex) with ((d :: ds) ++ fracText fp ++ ex).
    rewrite digitRun_stop, drop_app_length by done. destruct fp as [|f fp]; cbn [fracText app].
    + destruct He as [[-> ->]|(sg & es & -> & _ & _ & ->)]; [done|]. by destruct sg.
    + change (isC (z2b 46) 46) with true. cbv iota. change (f :: fp ++ ex) with ((f :: fp) ++ ex).
      rewrite digitRun_stop, drop_app_length by done.
      destruct He as [[-> ->]|(sg & es & -> & _ & _ & ->)]; [done|]. by destruct sg.
Qed.

Lemma expVal_decimals n : forall x, 0 <= x < 10 ^ Z.of_nat n -> x < 10000 -> expVal (decimals n x) = x.
Proof.
  induction n as [|n IH]; intros x Hx Hl; [change (10 ^ Z.of_nat 0) with 1 in Hx; change (0 = x); lia|].
  cbn [decimals]. rewrite Nat2Z.inj_succ, Z.pow_succ_r in Hx by lia.
  pose proof (Z_div_mod_eq_full x 10). pose proof (Z.mod_pos_bound x 10 ltac:(done)).
  unfold expVal. rewrite foldl_app. fold (expVal (decimals n (x / 10))). rewrite IH by lia. cbn [foldl].
  rewrite (proj2 (Z.ltb_lt _ _)), digitVal_digit by lia. lia.
Qed.

(** ** The digits are read back *)

Lemma trimTens_bounds fuel : forall c x c' x',
  0 <= c -> trimTens fuel c x = (c', x') -> 0 <= c' <= c /\ x <= x' <= x + Z.of_nat fuel.
Proof.
  induction fuel as [|fuel IH]; intros c x c' x' Hc; cbn [trimTens]; [intros [= <- <-]; lia|].
  destruct (c mod 10 =? 0); [|intros [= <- <-]; lia].
  assert (0 <= c / 10 <= c) by (split; [apply Z.div_pos; lia|apply Z.div_le_upper_bound; lia]).
  intros E. apply IH in E; lia.
Qed.

Lemma readsAs_ok m e c x c' x' :
  0 <= c -> readsAs m e c x = Some (c', x') ->
  decimalFloat false c' x' = S754_finite false m e /\ c' <= c /\ x <= x' <= x + 800.
Proof.
  intros Hc. unfold readsAs. destruct (trimTens maxDigits c x) as [c1 x1] eqn:E. apply trimTens_bounds in E; [|done].
  destruct (decimalFloat false c1 x1) as [| | |[] m' e'] eqn:Ed; try done. destruct (Pos.eqb_spec m m') as [->|]; [|done].
  destruct (Z.eqb_spec e e') as [->|]; [|done]. intros [= <- <-]. change (Z.of_nat maxDigits) with 800 in E. split; [done|lia].
Qed.

Lemma shortestFrom_ok m e c x l fuel : forall n,
  decimalFloat false c x = S754_finite false m e -> 0 <= c -> n + Z.of_nat fuel = l + 1 -> 1 <= n ->
  let '(c', x') := shortestFrom fuel n m e c x l in
  decimalFloat false c' x' = S754_finite false m e /\ c' <= c + 1 /\ x <= x' <= x + Z.max 0 l + 800.
Proof.
  induction fuel as [|fuel IH]; intros n Hd Hc Hn H1; cbn [shortestFrom]; [split; [done|lia]|].
  set (k := l - n). assert (0 < 10 ^ k) as Hk by (apply Z.pow_pos_nonneg; lia).
  assert (0 <= c / 10 ^ k <= c) as Hq by (split; [apply Z.div_pos; lia|apply Z.div_le_upper_bound; nia]).
  assert (roundEven c (10 ^ k) = c / 10 ^ k \/ roundEven c (10 ^ k) = c / 10 ^ k + 1) as Hr by (unfold roundEven; destruct (_ || _); auto).
  destruct (readsAs m e (roundEven c (10 ^ k)) (x + k)) as [[c1 x1]|] eqn:E1.
  { apply readsAs_ok in E1; [|lia]. destruct E1 as (E1 & H2 & H3). split; [done|lia]. }
  set (other := if _ =? _ then _ else _).
  assert (0 <= other <= c + 1) as Ho by (unfold other; destruct (Z.eqb_spec (roundEven c (10 ^ k)) (c / 10 ^ k)); lia).
  destruct (readsAs m e other (x + k)) as [[c2 x2]|] eqn:E2; [|apply IH; lia || done].
  apply readsAs_ok in E2; [|lia]. destruct E2 as (E2 & H2 & H3). split; [done|lia].
Qed.

(** The exact decimal value of a float64, within 800 digits. *)
Lemma exactDecimal_ok m e :
  bounded prec64 emax64 m e = true ->
  let '(c, x) := exactDecimal m e in
  decimalFloat false c x = S754_finite false m e /\ 0 < c < 10 ^ 800 - 1 /\ -1074 <= x <= 0.
Proof.
  intros Hb. pose proof (proj1 (bounded64 m e) Hb) as (He & Hm & _). unfold exactDecimal.
  destruct (Z.leb_spec 0 e) as [H|H].
  - assert (0 < 2 ^ e) by (apply Z.pow_pos_nonneg; lia). assert (2 ^ e <= 2 ^ 971) by (apply Z.pow_le_mono_r; lia). split.
    + apply (decimalFloat_exact _ _ _ _ _ 0); try done; [apply Z.mul_pos_pos; lia|].
      change (Z.max 0 0) with 0. change (Z.max 0 (-0)) with 0. rewrite Z.add_0_l, !Z.pow_0_r. lia.
    + split; [|lia]. split; [apply Z.mul_pos_pos; lia|].
      apply (Z.le_lt_trans _ (2 ^ 53 * 2 ^ 971)); [apply Z.mul_le_mono_nonneg; lia|by vm_compute].
  - assert (0 < 5 ^ (- e)) by (apply Z.pow_pos_nonneg; lia). assert (5 ^ (- e) <= 5 ^ 1074) by (apply Z.pow_le_mono_r; lia). split.
    + apply (decimalFloat_exact _ _ _ _ _ (- e)); try done; try lia.
      rewrite (Z.max_l 0 e), (Z.max_r 0 (- e)), Z.add_opp_diag_l, !Z.pow_0_r by lia.
      change 10 with (5 * 2). rewrite Z.pow_mul_l. ring.
    + split; [|lia]. split; [apply Z.mul_pos_pos; lia|].
      apply (Z.le_lt_trans _ (2 ^ 53 * 5 ^ 1074)); [apply Z.mul_le_mono_nonneg; lia|by vm_compute].
Qed.

Lemma numDigits_bound fuel : forall x, (1 <= numDigits fuel x <= S fuel)%nat.
Proof. induction fuel as [|fuel IH]; intros x; cbn [numDigits]; [lia|]. specialize (IH (x / 10)). destruct (x <? 10); lia. Qed.

Lemma decimalFloat_finite_pos neg c x s m e : decimalFloat neg c x = S754_finite s m e -> 0 < c.
Proof. unfold decimalFloat. destruct (Z.leb_spec c 0); [done|]. intros _. lia. Qed.

Lemma shortest_ok m e :
  bounded prec64 emax64 m e = true ->
  let '(c, x) := shortest m e in
  decimalFloat false c x = S754_finite false m e /\ 0 < c < 10 ^ 800 /\ -2000 <= x <= 2000.
Proof.
  intros Hb. unfold shortest. pose proof (exactDecimal_ok m e Hb) as H. destruct (exactDecimal m e) as [c x].
  destruct H as (Hd & Hc & Hx). pose proof (numDigits_bound maxDigits c) as Hl. set (l := numDigits maxDigits c) in *.
  change (S maxDigits) with 801%nat in Hl.
  pose proof (shortestFrom_ok m e c x (Z.of_nat l) l 1 Hd ltac:(lia) ltac:(lia) ltac:(lia)) as H.
  destruct (shortestFrom _ _ _ _ _ _ _) as [c' x']. destruct H as (Hd' & Hc' & Hx').
  pose proof (decimalFloat_finite_pos _ _ _ _ _ _ Hd'). split; [done|]. split; [|lia]. split; [done|].
  apply (Z.le_lt_trans _ (c + 1)); [done|]. clear -Hc. lia.
Qed.

(** ** The round trip *)

Lemma decimalFloat_sign s c x m e :
  decimalFloat false c x = S754_finite false m e -> decimalFloat s c x = S754_finite s m e.
Proof.
  assert (forall n d, nearest false n d = S754_finite false m e -> nearest s n d = S754_finite s m e) as H.
  { intros n d. unfold nearest. destruct (if _ =? 2 ^ 53 then _ else _) as [[|q|q] x1]; try done.
    destruct (971 <? x1); [done|]. by intros [= -> ->]. }
  unfold decimalFloat. destruct (c <=? 0); [done|]. destruct (0 <=? x); apply H.
Qed.

(** The digits of a positive number. *)
Definition digitsOf (c : Z) (ds : list byte) : Prop :=
  forallb isDigit ds = true /\ atoi ds = c /\ exists d r, ds = d :: r /\ isC d 48 = false.

Lemma decimals_digitsOf c : 0 < c < 10 ^ 800 -> digitsOf c (decimals (numDigits maxDigits c) c).
Proof.
  intros Hc. assert (0 <= c < 10 ^ (Z.of_nat maxDigits + 1)) as Hb.
  { change (Z.of_nat maxDigits) with 800. split; [lia|]. apply (Z.lt_le_trans _ (10 ^ 800)); [lia|]. by apply Z.pow_le_mono_r. }
  destruct (numDigits_spec maxDigits c Hb) as [Hlt _]. destruct (decimals_lead maxDigits c Hb) as (d & ds & E & Hd & Hds & Hz).
  split_and!; [apply decimals_digits|apply atoi_decimals; clear -Hc Hlt; lia|]. exists d, ds. split; [done|].
  destruct (isC d 48) eqn:E0; [|done]. assert (atoi (decimals (numDigits maxDigits c) c) = c) as Ha by (apply atoi_decimals; lia).
  rewrite E, (Hz eq_refl) in Ha. apply byte_eq in E0 as ->. change (0 = c) in Ha. lia.
Qed.

Lemma zeros_digits n : forallb isDigit (zeros n) = true.
Proof. unfold zeros. induction (Z.to_nat n) as [|k IH]; [done|]. cbn [replicate forallb]. by rewrite IH. Qed.

Lemma atoi_front k ds : atoi (replicate k (digit 0) ++ ds) = atoi ds.
Proof. induction k as [|k IH]; [done|]. rewrite <-IH. done. Qed.

Lemma fracText_cons fp : fp <> [] -> z2b 46 :: fp = fracText fp.
Proof. by destruct fp. Qed.

Lemma to_nat_nonpos n : n <= 0 -> Z.to_nat n = 0%nat.
Proof. lia. Qed.

(** A number without an exponent: zeros are added to whole numbers. *)
Lemma fmtF_text s c ds x :
  digitsOf c ds -> let t := minus s ++ fmtF ds (zlen ds + x) in
  parseNumber t = Some (t, []) /\ negative t = s /\ decimalOf t = (c * 10 ^ Z.max 0 x, Z.min 0 x).
Proof.
  intros (Hds & <- & d & r & -> & Hd) t. assert (expText [] 0) as Hex by by left.
  assert (0 < zlen (d :: r)) by (unfold zlen; cbn [length]; lia). set (nd := zlen (d :: r)) in *. revert t. unfold fmtF. fold nd.
  destruct (Z.ltb_spec 0 (nd + x)) as [Hp|Hp]; [|].
  - destruct (Z.ltb_spec 0 (nd - (nd + x))) as [Hx|Hx].
    + assert (drop (Z.to_nat (nd + x)) (d :: r) <> []) as Hne.
      { intros E%(f_equal length). rewrite length_drop in E. cbn [length] in E. unfold nd, zlen in *. cbn [length] in *. lia. }
      assert (take (Z.to_nat (nd + x)) (d :: r) = d :: take (Z.to_nat (nd + x) - 1) r) as Et
        by (destruct (Z.to_nat (nd + x)) eqn:En; [lia|]; cbn [take]; by rewrite Nat.sub_1_r).
      unfold zeros. rewrite !(to_nat_nonpos (_ + _ - _)), (to_nat_nonpos (- _)) by lia. cbn [replicate]. rewrite app_nil_r, app_nil_l.
      rewrite (fracText_cons _ Hne), Et. rewrite <-(take_drop (Z.to_nat (nd + x)) (d :: r)), forallb_app in Hds.
      rewrite Et in Hds. apply andb_true_iff in Hds as [H1 H2].
      destruct (number_text s d _ _ [] 0 H1 ltac:(congruence) H2 Hex) as (P1 & P2 & P3). rewrite app_nil_r in P1, P2, P3.
      split_and!; [done..|]. rewrite P3. rewrite <-Et, take_drop. rewrite Z.max_l, Z.pow_0_r, Z.mul_1_r by lia.
      f_equal. unfold zlen at 1. rewrite length_drop. unfold nd, zlen in *. cbn [length] in *. lia.
    + rewrite app_nil_r, (take_ge (d :: r)) by (unfold nd, zlen in *; cbn [length] in *; lia).
      assert (forallb isDigit (d :: r ++ zeros (nd + x - nd)) = true) as H1.
      { change (d :: r ++ ?z) with ((d :: r) ++ z). by rewrite forallb_app, Hds, zeros_digits. }
      destruct (number_text s d _ [] [] 0 H1 ltac:(congruence) eq_refl Hex) as (P1 & P2 & P3). cbn [fracText] in P1, P2, P3.
      rewrite !app_nil_r in P1, P2, P3. split_and!; [done..|]. cbn [app] in P3 |- *. rewrite P3, app_nil_r.
      change (d :: r ++ ?z) with ((d :: r) ++ z). unfold zeros. rewrite atoi_zeros. change (zlen (@nil byte)) with 0. f_equal; [|lia]. do 2 f_equal. lia.
  - rewrite (proj2 (Z.ltb_lt _ _)) by lia. rewrite (to_nat_nonpos (nd + x)), drop_0 by lia.
    assert (forallb isDigit (zeros (- (nd + x)) ++ d :: r) = true) as H1 by by rewrite forallb_app, zeros_digits.
    rewrite fracText_cons by (by destruct (zeros _)).
    destruct (number_text s (digit 0) [] _ [] 0 eq_refl ltac:(done) H1 Hex) as (P1 & P2 & P3). rewrite app_nil_r in P1, P2, P3.
    split_and!; [done..|]. rewrite P3. unfold zeros at 1. change (?a :: [] ++ ?b) with (replicate 1 a ++ b).
    rewrite (atoi_front 1), atoi_front, Z.max_l, Z.pow_0_r, Z.mul_1_r by lia. f_equal.
    unfold zlen, zeros. rewrite length_app, length_replicate. unfold nd, zlen in *. lia.
Qed.

(** A number with one digit before the point and an exponent. *)
Lemma fmtE_text s c ds x :
  digitsOf c ds -> Z.abs (zlen ds + x - 1) < 10000 -> let t := minus s ++ fmtE ds (zlen ds + x) in
  parseNumber t = Some (t, []) /\ negative t = s /\ decimalOf t = (c, x).
Proof.
  intros (Hds & <- & d & r & -> & Hd) Hx. set (v := zlen (d :: r) + x - 1) in *. unfold fmtE. fold v.
  set (es := appendInt (Z.abs v) 0). assert (es <> [] /\ forallb isDigit es = true /\ expVal es = Z.abs v) as (E1 & E2 & E3).
  { assert (0 <= Z.abs v < 10 ^ (Z.of_nat 20 + 1)) as Hb by (change (10 ^ (Z.of_nat 20 + 1)) with 1000000000000000000000; lia).
    destruct (numDigits_spec 20 _ Hb) as [Hlt _]. pose proof (numDigits_bound 20 (Z.abs v)). unfold es, appendInt.
    rewrite Z.abs_idemp, Nat.max_0_l, (proj2 (Z.ltb_ge _ _)) by lia. cbn [app].
    split_and!; [|apply decimals_digits|apply expVal_decimals; lia].
    intros E%(f_equal length). rewrite length_decimals in E. cbn [length] in E. lia. }
  assert (expText ([z2b 101; if v <? 0 then z2b 45 else z2b 43] ++ es) v) as Hex.
  { right. exists (v <? 0), es. split_and!; [done..|]. rewrite E3. destruct (Z.ltb_spec v 0); lia. }
  assert (forallb isDigit [d] = true /\ forallb isDigit r = true) as [H1 H2] by (cbn [forallb] in *; by destruct (isDigit d)).
  destruct (number_text s d [] r _ v H1 ltac:(done) H2 Hex) as (P1 & P2 & P3).
  assert ((if 1 <? zlen (d :: r) then z2b 46 :: drop 1 (d :: r) else []) = fracText r) as ->.
  { unfold zlen. destruct r as [|y r]; [done|]. cbn [length]. by rewrite (proj2 (Z.ltb_lt _ _)) by lia. }
  cbn [take]. rewrite take_0. split_and!; [done..|]. rewrite P3. cbn [app]. f_equal. unfold v, zlen. cbn [length]. lia.
Qed.

(** Every number is written, as a JSON number that is read back as it: the
    sign of zero and the smallest and largest numbers included. *)
Theorem float_roundtrip f :
  finite64 f -> exists t, floatText f = Some t /\ parseNumber t = Some (t, []) /\ parseFloat t = Some f.
Proof.
  intros [Hv Hf]. destruct f as [s| | |s m e]; try done; [exists (minus s ++ text "0"); by destruct s|].
  cbn [valid_binary] in Hv. pose proof (shortest_ok m e Hv) as H. unfold floatText. destruct (shortest m e) as [c x].
  destruct H as (Hd & Hc & Hx). pose proof (decimals_digitsOf c Hc) as Hds. apply (decimalFloat_sign s) in Hd.
  pose proof (numDigits_bound maxDigits c) as Hn. change (S maxDigits) with 801%nat in Hn.
  pose proof (length_decimals (numDigits maxDigits c) c) as Hlen. set (ds := decimals _ c) in *.
  destruct (_ || _); (eexists; split; [done|]).
  - destruct (fmtE_text s c ds x Hds ltac:(unfold zlen; lia)) as (P1 & P2 & P3). split; [done|].
    unfold parseFloat. rewrite P3, P2, Hd. done.
  - destruct (fmtF_text s c ds x Hds) as (P1 & P2 & P3). split; [done|]. unfold parseFloat. rewrite P3, P2.
    assert (decimalFloat s (c * 10 ^ Z.max 0 x) (Z.min 0 x) = decimalFloat s c x) as ->; [|by rewrite Hd].
    unfold decimalFloat. destruct (Z.leb_spec 0 x).
    + rewrite Z.max_r, Z.min_l by done. assert (0 < 10 ^ x) by (apply Z.pow_pos_nonneg; lia).
      rewrite (proj2 (Z.leb_gt _ 0)), (proj2 (Z.leb_gt c 0)), Z.leb_refl by nia. by rewrite Z.mul_1_r.
    + rewrite Z.max_l, Z.min_r, Z.pow_0_r, Z.mul_1_r by lia. by rewrite (proj2 (Z.leb_gt 0 x)) by done.
Qed.

(** A number that is read is a float64 value. *)
Lemma parseFloat_finite64 t f : parseFloat t = Some f -> finite64 f.
Proof.
  unfold parseFloat. destruct (decimalOf t) as [m e]. destruct (finite _) eqn:E; [|done]. intros [= <-].
  split; [apply decimalFloat_valid|done].
Qed.
