(* ===== verification/Endpoint.v ===== *)
(** * Endpoints: src/core/endpoint.go

    [ClientEndpoint] and [ServerEndpoint] over any connection that offers the
    channel interface and any codec that offers the codec interface.  A state
    of an endpoint operation is the endpoint with the channel it works on: the
    outgoing one for [Send], the incoming one for [Receive].  The theorems
    cover delivery from a client to a server, authenticity, replay and the
    behaviour over the shared-memory channel. *)

From S2P Require Import Prelude Time Utf8 Json Frame Tensor TensorMessage Integrity Replay Transport Shm.
From S2P Require Import Message Codec.
Local Open Scope Z_scope.

(** ** What both kinds of endpoint do *)

(** The header of an outgoing message. *)
Definition headerOf (seq : Z) (msg : Message) : MessageHeader :=
  MkHeader (Source msg) (SessionID msg) (RequestID msg) seq
    (string_of_bytes (FormatRFC3339Nano (Timestamp msg))) (MPriority msg) (Capability msg) ""
    PayloadJSON.

(** The frame of an outgoing message, signed. *)
Definition signedFrame (key hdrBytes : list byte) (msg : Message) : Frame :=
  let frame := MkFrame ProtocolVersion (MsgTypeToByte (MType msg)) FlagHMAC hdrBytes (MPayload msg) [] in
  MkFrame (Version frame) (MsgType frame) (Flags frame) (Header frame) (Payload frame)
    (Sign key (SignableBytes frame)).

(** The integrity test of an incoming frame. *)
Definition integrityOk (key : list byte) (frame : Frame) : bool :=
  if hasFlag (Flags frame) FlagHMAC then Verify key (SignableBytes frame) (MAC frame) else true.

(** The message of an incoming frame; a timestamp that does not parse is the
    zero time. *)
Definition messageOf (frame : Frame) (hdr : MessageHeader) : Message :=
  let ts := match ParseRFC3339Nano (bytes_of_string (hTimestamp hdr)) with
            | Some t => t
            | None => zeroTime
            end in
  MkMessage (Version frame) (msgTypeFromByte (MsgType frame)) (hServiceID hdr) ts (hSessionID hdr)
    (hRequestID hdr) (hPriority hdr) (hCapability hdr) (Payload frame).

Record ClientEndpoint := MkClient {
  ce_hmacKey : list byte;
  ce_sessionID : string;
  ce_sequence : Z
}.

Definition NewClientEndpoint (hmacKey : list byte) (sessionID : string) : ClientEndpoint :=
  MkClient hmacKey sessionID 0.

Record ServerEndpoint := MkServer {
  se_hmacKey : list byte;
  se_replay : Tracker;
  se_seq : Z;
  peerCapabilities : list string
}.

Definition NewServerEndpoint (hmacKey : list byte) : ServerEndpoint :=
  MkServer hmacKey (NewTracker 0) 0 [].

Definition SetPeerCapabilities (caps : list string) (e : ServerEndpoint) : ServerEndpoint :=
  MkServer (se_hmacKey e) (se_replay e) (se_seq e) caps.

Definition ValidateCapability (msgCap : string) (e : ServerEndpoint) : option error :=
  if String.eqb msgCap "" then None
  else if existsb (fun c => String.eqb c msgCap) (peerCapabilities e) then None
  else Some (Wrapf "%w: peer lacks capability %q" ErrCapability [ArgStr msgCap]).

Section Endpoints.
Context {C : Type} `{Channel C} `{Codec MessageHeader}.

Definition ClientEndpoint_Send (msg : Message) : M (ClientEndpoint * C) unit := fun '(e, conn) =>
  let seq := u64 (ce_sequence e + 1) in
  let e := MkClient (ce_hmacKey e) (ce_sessionID e) seq in
  match Marshal (headerOf seq msg) with
  | Err err => (Err (Wrapf "marshal header: %w" err []), (e, conn))
  | Ok hdrBytes =>
      let '(r, conn) := chan_send (signedFrame (ce_hmacKey e) hdrBytes msg) conn in (r, (e, conn))
  end.

Definition ClientEndpoint_Receive : M (ClientEndpoint * C) Message := fun '(e, conn) =>
  match chan_recv conn with
  | (Err err, conn) => (Err err, (e, conn))
  | (Ok frame, conn) =>
      if negb (integrityOk (ce_hmacKey e) frame) then (Err ErrIntegrity, (e, conn))
      else match Unmarshal (Header frame) with
           | Err err => (Err (Wrapf "unmarshal header: %w" err []), (e, conn))
           | Ok hdr => (Ok (messageOf frame hdr), (e, conn))
           end
  end.

Definition ServerEndpoint_Send (msg : Message) : M (ServerEndpoint * C) unit := fun '(e, conn) =>
  let seq := u64 (se_seq e + 1) in
  let e := MkServer (se_hmacKey e) (se_replay e) seq (peerCapabilities e) in
  match Marshal (headerOf seq msg) with
  | Err err => (Err (Wrapf "marshal header: %w" err []), (e, conn))
  | Ok hdrBytes =>
      let '(r, conn) := chan_send (signedFrame (se_hmacKey e) hdrBytes msg) conn in (r, (e, conn))
  end.

(** [Receive] from the point where it has a frame. *)
Definition accept (frame : Frame) : M ServerEndpoint Message := fun e =>
  if negb (integrityOk (se_hmacKey e) frame) then (Err ErrIntegrity, e)
  else match Unmarshal (Header frame) with
       | Err err => (Err (Wrapf "unmarshal header: %w" err []), e)
       | Ok hdr =>
           let '(t, err) := Check (se_replay e) (hSequence hdr) in
           let e := MkServer (se_hmacKey e) t (se_seq e) (peerCapabilities e) in
           match err with
           | Some err => (Err err, e)
           | None => (Ok (messageOf frame hdr), e)
           end
       end.

Definition ServerEndpoint_Receive : M (ServerEndpoint * C) Message := fun '(e, conn) =>
  match chan_recv conn with
  | (Err err, conn) => (Err err, (e, conn))
  | (Ok frame, conn) => let '(r, e) := accept frame e in (r, (e, conn))
  end.

Definition ClientEndpoint_Close `{Link C} : M (ClientEndpoint * C) unit := fun '(e, conn) =>
  let '(r, conn) := link_Close conn in (r, (e, conn)).

Definition ServerEndpoint_Close `{Link C} : M (ServerEndpoint * C) unit := fun '(e, conn) =>
  let '(r, conn) := link_Close conn in (r, (e, conn)).

Definition ServerEndpoint_RemoteAddr `{Link C} (s : ServerEndpoint * C) : string := link_RemoteAddr (snd s).

(** ** Runs *)

Fixpoint sendMessages (msgs : list Message) : M (ClientEndpoint * C) unit :=
  match msgs with
  | [] => mret tt
  | m :: msgs' => _ ← ClientEndpoint_Send m; sendMessages msgs'
  end.

Fixpoint receiveMessages (n : nat) : M (ServerEndpoint * C) (list Message) :=
  match n with
  | O => mret []
  | S n' => m ← ServerEndpoint_Receive; ms ← receiveMessages n'; mret (m :: ms)
  end.

(** The frames a server accepts out of a sequence of incoming ones. *)
Fixpoint acceptedOf (frames : list Frame) (e : ServerEndpoint) : list Frame :=
  match frames with
  | [] => []
  | f :: frames' =>
      match accept f e with
      | (Ok _, e') => f :: acceptedOf frames' e'
      | (Err _, e') => acceptedOf frames' e'
      end
  end.

End Endpoints.

(** ** Signed frames *)

Lemma signedFrame_signable key bs m :
  SignableBytes (signedFrame key bs m) =
  SignableBytes (MkFrame ProtocolVersion (MsgTypeToByte (MType m)) FlagHMAC bs (MPayload m) []).
Proof. done. Qed.

Lemma signedFrame_intact key bs m : integrityOk key (signedFrame key bs m) = true.
Proof. apply (Verify_Sign key). Qed.

Lemma signedFrame_wf key bs m :
  zlen bs + zlen (MPayload m) <= MaxFrameSize -> wf_frame (signedFrame key bs m).
Proof.
  intros Hs. split; [done|]. split; [unfold tooLarge; cbn [Header Payload signedFrame]; by zbool|].
  apply length_Sign.
Qed.

Lemma signedFrame_streamable key bs m :
  48 + zlen bs + zlen (MPayload m) <= MaxFrameSize -> streamable (signedFrame key bs m).
Proof.
  intros Hs. assert (wf_frame (signedFrame key bs m)) as Hw by (apply signedFrame_wf; lia).
  split; [done|]. rewrite zlen_wire by done. cbn [Header Payload MAC signedFrame]. unfold zlen at 3.
  rewrite length_Sign. change (Z.of_nat MACSize) with 32. lia.
Qed.

(** ** Delivery *)

(** What the receiver gets of a message: the protocol's version and the type
    after its passage through the type byte; everything else unchanged. *)
Definition received (m : Message) : Message :=
  MkMessage ProtocolVersion (msgTypeFromByte (MsgTypeToByte (MType m))) (Source m) (Timestamp m)
    (SessionID m) (RequestID m) (MPriority m) (Capability m) (MPayload m).

Lemma messageOf_signed key bs seq m :
  printable (Timestamp m) -> messageOf (signedFrame key bs m) (headerOf seq m) = received m.
Proof.
  intros Ht. unfold messageOf. cbn [hTimestamp headerOf].
  rewrite String.list_byte_of_string_of_list_byte, Parse_Format by done. done.
Qed.

Section Delivery.
Context {C : Type} `{FrameQueue C} `{CodecLaw MessageHeader}.

(** Messages an endpoint can put on the wire and its peer can read back. *)
Definition deliverable (m : Message) : Prop :=
  printable (Timestamp m) /\ forall seq, in_u64 seq -> marshals (headerOf seq m).

Definition marshalled (h : MessageHeader) : list byte :=
  match Marshal h with Ok bs => bs | Err _ => [] end.

(** The frames of messages numbered from [k + 1]. *)
Fixpoint framesFrom (key : list byte) (k : Z) (msgs : list Message) : list Frame :=
  match msgs with
  | [] => []
  | m :: msgs' => signedFrame key (marshalled (headerOf (k + 1) m)) m :: framesFrom key (k + 1) msgs'
  end.

(** One message out of a client, and out of a server. *)
Lemma client_send_ok m e (c : C) :
  (forall f, deliver (C := C) f = f) -> chan_ok c -> deliverable m ->
  0 <= ce_sequence e -> ce_sequence e + 1 < 2 ^ 64 ->
  let f := signedFrame (ce_hmacKey e) (marshalled (headerOf (ce_sequence e + 1) m)) m in
  fits c f ->
  exists c', ClientEndpoint_Send m (e, c) =
    (Ok tt, (MkClient (ce_hmacKey e) (ce_sessionID e) (ce_sequence e + 1), c')) /\
    chan_ok c' /\ queued c' = queued c ++ [f].
Proof.
  intros Hdel Hc [Ht Hm] Hlo Hhi f Hf. cbn [ClientEndpoint_Send]. rewrite u64_id by (unfold in_u64; lia).
  destruct (unmarshal_marshal _ (Hm (ce_sequence e + 1) ltac:(unfold in_u64; lia))) as (bs & Hbs & _).
  assert (marshalled (headerOf (ce_sequence e + 1) m) = bs) as Hmar by (unfold marshalled; by rewrite Hbs).
  rewrite Hbs. unfold f in *. rewrite Hmar in *. cbn [ce_hmacKey ce_sessionID].
  destruct (send_enqueues c _ Hc Hf) as (c1 & -> & Hc1 & Hq1). rewrite Hdel in Hq1. eauto.
Qed.

Lemma server_send_ok m e (c : C) :
  (forall f, deliver (C := C) f = f) -> chan_ok c -> deliverable m -> 0 <= se_seq e -> se_seq e + 1 < 2 ^ 64 ->
  let f := signedFrame (se_hmacKey e) (marshalled (headerOf (se_seq e + 1) m)) m in
  fits c f ->
  exists c', ServerEndpoint_Send m (e, c) =
    (Ok tt, (MkServer (se_hmacKey e) (se_replay e) (se_seq e + 1) (peerCapabilities e), c')) /\
    chan_ok c' /\ queued c' = queued c ++ [f].
Proof.
  intros Hdel Hc [Ht Hm] Hlo Hhi f Hf. cbn [ServerEndpoint_Send]. rewrite u64_id by (unfold in_u64; lia).
  destruct (unmarshal_marshal _ (Hm (se_seq e + 1) ltac:(unfold in_u64; lia))) as (bs & Hbs & _).
  assert (marshalled (headerOf (se_seq e + 1) m) = bs) as Hmar by (unfold marshalled; by rewrite Hbs).
  rewrite Hbs. unfold f in *. rewrite Hmar in *. cbn [se_hmacKey se_replay peerCapabilities].
  destruct (send_enqueues c _ Hc Hf) as (c1 & -> & Hc1 & Hq1). rewrite Hdel in Hq1. eauto.
Qed.

Lemma sendMessages_ok msgs : forall e (c : C),
  (forall f, deliver (C := C) f = f) ->
  chan_ok c -> Forall deliverable msgs -> 0 <= ce_sequence e ->
  ce_sequence e + zlen msgs < 2 ^ 64 ->
  (forall c f, chan_ok c -> f ∈ framesFrom (ce_hmacKey e) (ce_sequence e) msgs -> fits c f) ->
  exists e' c', sendMessages msgs (e, c) = (Ok tt, (e', c')) /\ chan_ok c' /\
    queued c' = queued c ++ framesFrom (ce_hmacKey e) (ce_sequence e) msgs.
Proof.
  intros e c Hdel. revert e c.
  induction msgs as [|m msgs IH]; intros e c Hc Hm Hseq0 Hlen Hfit.
  { eexists _, _. split; [done|]. by rewrite app_nil_r. }
  apply Forall_cons in Hm as [Hm Hms]. rewrite zlen_cons in Hlen. pose proof (zlen_nonneg msgs).
  cbn [sendMessages framesFrom] in *. unfold mbind at 1, M_bind at 1.
  destruct (client_send_ok m e c Hdel Hc Hm Hseq0 ltac:(lia)) as (c1 & -> & Hc1 & Hq1).
  { apply Hfit; [done|]. left. }
  destruct (IH (MkClient (ce_hmacKey e) (ce_sessionID e) (ce_sequence e + 1)) c1)
    as (e' & c' & -> & Hc' & Hq'); cbn [ce_sequence ce_hmacKey] in *; try done; try lia.
  { intros c2 f Hc2 Hf. apply Hfit; [done|]. by right. }
  eexists _, _. split; [done|]. split; [done|]. by rewrite Hq', Hq1, <-app_assoc.
Qed.

Lemma accept_signed key bs m t t' seq e :
  se_hmacKey e = key -> se_replay e = t -> Unmarshal bs = Ok (headerOf seq m) ->
  Check t seq = (t', None) -> printable (Timestamp m) ->
  accept (signedFrame key bs m) e =
  (Ok (received m), MkServer key t' (se_seq e) (peerCapabilities e)).
Proof.
  intros Hk Ht Hu Hc Hp. unfold accept. rewrite Hk, signedFrame_intact. simpl negb. cbv iota.
  change (Header (signedFrame key bs m)) with bs. rewrite Hu, Ht. cbn [hSequence headerOf].
  rewrite Hc. by rewrite messageOf_signed.
Qed.

(** A frame with the next number, whoever made it. *)
Lemma accept_next f e hdr accepted :
  let k := maxSeen (se_replay e) in
  integrityOk (se_hmacKey e) f = true -> Unmarshal (Header f) = Ok hdr -> hSequence hdr = k + 1 ->
  tracks_accepted (se_replay e) accepted -> k + 1 < 2 ^ 64 ->
  exists t', accept f e = (Ok (messageOf f hdr), MkServer (se_hmacKey e) t' (se_seq e) (peerCapabilities e)) /\
    tracks_accepted t' ({[k + 1]} ∪ accepted) /\ maxSeen t' = k + 1.
Proof.
  intros k Hi Hu Hs Ht Hlen. pose proof (ta_max _ _ Ht) as Hmax. fold k in Hmax.
  pose proof (Check_refines _ _ (k + 1) Ht ltac:(unfold in_u64; lia)) as Hch. rewrite decide_True in Hch.
  2: { pose proof (ta_ws _ _ Ht). split; [lia|]. split; [fold k; lia|].
       intros Hin. apply (ta_range _ _ Ht) in Hin. fold k in Hin. lia. }
  destruct Hch as (t' & Hch & Ht' & _ & Hmx). fold k in Hmx. rewrite Z.max_r in Hmx by lia.
  exists t'. split; [|done]. unfold accept. rewrite Hi, Hu, Hs, Hch. done.
Qed.

(** The next message into a server, and any message into a client. *)
Lemma server_receive_ok m e (c : C) accepted q :
  tracks_accepted (se_replay e) accepted -> chan_ok c -> deliverable m ->
  let k := maxSeen (se_replay e) in
  k + 1 < 2 ^ 64 -> queued c = signedFrame (se_hmacKey e) (marshalled (headerOf (k + 1) m)) m :: q ->
  exists t' c', ServerEndpoint_Receive (e, c) =
    (Ok (received m), (MkServer (se_hmacKey e) t' (se_seq e) (peerCapabilities e), c')) /\
    chan_ok c' /\ queued c' = q /\ tracks_accepted t' ({[k + 1]} ∪ accepted) /\ maxSeen t' = k + 1.
Proof.
  intros Ht Hc [Hp Hm] k Hlen Hq. cbn [ServerEndpoint_Receive].
  destruct (recv_dequeues c _ _ Hc Hq) as (c1 & -> & Hc1 & Hq1).
  pose proof (ta_max _ _ Ht) as Hmax. fold k in Hmax.
  destruct (unmarshal_marshal _ (Hm (k + 1) ltac:(unfold in_u64; lia))) as (bs & Hbs & Hu).
  assert (marshalled (headerOf (k + 1) m) = bs) as -> by (unfold marshalled; by rewrite Hbs).
  destruct (accept_next (signedFrame (se_hmacKey e) bs m) e (headerOf (k + 1) m) accepted) as (t' & -> & Ht' & Hmx);
    [apply signedFrame_intact|done..|]. rewrite messageOf_signed by done. eauto 10.
Qed.

Lemma client_receive_ok m e (c : C) k q :
  chan_ok c -> deliverable m -> in_u64 k ->
  queued c = signedFrame (ce_hmacKey e) (marshalled (headerOf k m)) m :: q ->
  exists c', ClientEndpoint_Receive (e, c) = (Ok (received m), (e, c')) /\ chan_ok c' /\ queued c' = q.
Proof.
  intros Hc [Hp Hm] Hk Hq. cbn [ClientEndpoint_Receive].
  destruct (recv_dequeues c _ _ Hc Hq) as (c1 & -> & Hc1 & Hq1).
  destruct (unmarshal_marshal _ (Hm k Hk)) as (bs & Hbs & Hu).
  assert (marshalled (headerOf k m) = bs) as -> by (unfold marshalled; by rewrite Hbs).
  rewrite signedFrame_intact. cbn [negb]. change (Header (signedFrame (ce_hmacKey e) bs m)) with bs.
  rewrite Hu. rewrite messageOf_signed by done. eauto.
Qed.

Lemma receiveMessages_ok msgs : forall key e (c : C) accepted,
  se_hmacKey e = key -> tracks_accepted (se_replay e) accepted ->
  chan_ok c -> Forall deliverable msgs -> maxSeen (se_replay e) + zlen msgs < 2 ^ 64 ->
  queued c = framesFrom key (maxSeen (se_replay e)) msgs ->
  exists e' c', receiveMessages (length msgs) (e, c) = (Ok (map received msgs), (e', c')) /\
    queued c' = [] /\ maxSeen (se_replay e') = maxSeen (se_replay e) + zlen msgs.
Proof.
  induction msgs as [|m msgs IH]; intros key e c accepted Hk Ht Hc Hm Hlen Hq.
  { eexists _, _. split; [done|]. split; [done|]. unfold zlen. simpl. lia. }
  apply Forall_cons in Hm as [Hm Hms]. rewrite zlen_cons in *. pose proof (zlen_nonneg msgs).
  cbn [framesFrom] in Hq. cbn [length receiveMessages]. unfold mbind at 1, M_bind at 1. subst key.
  destruct (server_receive_ok m e c accepted _ Ht Hc Hm ltac:(lia) Hq) as (t' & c1 & -> & Hc1 & Hq1 & Ht' & Hmx).
  destruct (IH (se_hmacKey e) (MkServer (se_hmacKey e) t' (se_seq e) (peerCapabilities e)) c1 _ eq_refl Ht' Hc1 Hms)
    as (e' & c' & Hr & Hq' & Hmx'); cbn [se_hmacKey se_replay] in *; rewrite ?Hmx; try done; try lia.
  unfold mbind, M_bind. rewrite Hr. eexists _, _. split; [done|]. split; [done|]. lia.
Qed.

End Delivery.

(** ** Replay over frames *)

Section Replays.
Context `{Codec MessageHeader}.
Context (sequences_u64 : forall bs h, Unmarshal bs = Ok h -> in_u64 (hSequence h)).

Definition seqOf (f : Frame) : Z :=
  match Unmarshal (Header f) with Ok h => hSequence h | Err _ => 0 end.

(** Accepting a frame is accepting its number. *)
Lemma accept_inv f e m e' accepted :
  tracks_accepted (se_replay e) accepted -> accept f e = (Ok m, e') ->
  (seqOf f ∉ accepted) /\ tracks_accepted (se_replay e') ({[seqOf f]} ∪ accepted).
Proof.
  intros Ht. unfold accept, seqOf. destruct (negb _); [done|].
  destruct (Unmarshal (Header f)) as [h|] eqn:Eh; [|done].
  pose proof (Check_refines _ _ _ Ht (sequences_u64 _ _ Eh)) as Hc. case_decide as Hf.
  - destruct Hc as (t' & -> & Ht' & _). intros [= _ <-]. split; [apply Hf|done].
  - by rewrite Hc.
Qed.

Lemma reject_inv f e err e' accepted :
  tracks_accepted (se_replay e) accepted -> accept f e = (Err err, e') -> se_replay e' = se_replay e.
Proof.
  intros Ht. unfold accept. destruct (negb _); [by intros [= _ <-]|].
  destruct (Unmarshal (Header f)) as [h|] eqn:Eh; [|by intros [= _ <-]].
  pose proof (Check_refines _ _ _ Ht (sequences_u64 _ _ Eh)) as Hc. case_decide as Hf.
  - by destruct Hc as (t' & -> & _).
  - rewrite Hc. by intros [= _ <-].
Qed.

Lemma acceptedOf_distinct frames : forall e accepted,
  tracks_accepted (se_replay e) accepted ->
  NoDup (seqOf <$> acceptedOf frames e) /\
  Forall (fun f => seqOf f ∉ accepted) (acceptedOf frames e).
Proof.
  induction frames as [|f frames IH]; intros e accepted Ht; [by repeat constructor|].
  cbn [acceptedOf]. destruct (accept f e) as [[m|err] e'] eqn:E.
  - destruct (accept_inv _ _ _ _ _ Ht E) as [Hn Ht']. destruct (IH e' _ Ht') as [Hd Ha].
    rewrite fmap_cons. split.
    + constructor; [|done]. intros (g & Hg & Hin)%list_elem_of_fmap.
      rewrite Forall_forall in Ha. apply (Ha g Hin). set_solver.
    + constructor; [done|]. eapply Forall_impl; [exact Ha|]. intros g Hg. set_solver.
  - apply IH. by rewrite (reject_inv _ _ _ _ _ Ht E).
Qed.

End Replays.


(** ** Properties *)

(** C1: Delivery: over any connection that is a lossless queue of frames and any
    codec that keeps its law, the messages a client sends are received by the
    server with the same key, all of them, in order, with every field but the
    version and the type byte unchanged, and every signature and sequence number
    passes. *)
Theorem session_delivery {C} `{FrameQueue C} `{CodecLaw MessageHeader}
    (key : list byte) (sessionID : string) (c : C) (msgs : list Message) :
  (forall f, deliver (C := C) f = f) -> chan_ok c -> queued c = [] ->
  Forall deliverable msgs -> zlen msgs < 2 ^ 64 ->
  (forall c f, chan_ok c -> f ∈ framesFrom key 0 msgs -> fits c f) ->
  exists e' c' s' c'',
    sendMessages msgs (NewClientEndpoint key sessionID, c) = (Ok tt, (e', c')) /\
    receiveMessages (length msgs) (NewServerEndpoint key, c') = (Ok (map received msgs), (s', c'')) /\
    queued c'' = [].
Proof.
  intros Hd Hc Hq Hm Hl Hf.
  destruct (sendMessages_ok msgs (NewClientEndpoint key sessionID) c) as (e' & c' & Hs & Hc' & Hq');
    try done. rewrite Hq in Hq'. cbn [app] in Hq'.
  destruct (receiveMessages_ok msgs key (NewServerEndpoint key) c' ∅) as (s' & c'' & Hr & Hq'' & _);
    try done; [apply NewTracker_ok; by vm_compute|]. by exists e', c', s', c''.
Qed.

Definition sampleMessage : Message :=
  MkMessage 1 TypeIntent "eni.min" (MkTime 63900000000500000000 0) "session" "req-1" PriorityP0
    "ui:control" (bytes_of_string "move_left").

Lemma sampleMessage_deliverable : deliverable sampleMessage.
Proof.
  split; [split_and!; vm_compute; (reflexivity || discriminate)|].
  intros seq Hseq. unfold marshals, JSONCodec_law, header_ok, headerOf.
  cbn [hServiceID hSessionID hRequestID hSequence hTimestamp hPriority hCapability hRoute hPayloadFormat].
  split_and!; try exact Hseq; vm_compute; first [reflexivity | discriminate | split; (reflexivity || discriminate)].
Qed.

Lemma session_delivery_witness :
  let msgs := [sampleMessage; sampleMessage] in
  exists e' c' s' c'',
    sendMessages msgs (NewClientEndpoint [] "session", MkPipe []) = (Ok tt, (e', c')) /\
    receiveMessages (length msgs) (NewServerEndpoint [], c') = (Ok (map received msgs), (s', c'')) /\
    queued c'' = [].
Proof.
  apply (session_delivery (C := pipe) [] "session" (MkPipe []) [sampleMessage; sampleMessage]).
  - reflexivity.
  - exists []. split; [by apply Forall_nil_2|reflexivity].
  - reflexivity.
  - apply Forall_cons. split; [|apply Forall_singleton]; exact sampleMessage_deliverable.
  - reflexivity.
  - intros c f _ Hf. assert (Forall streamable (framesFrom [] 0 [sampleMessage; sampleMessage])) as H.
    { cbn [framesFrom]. apply Forall_cons. split; [|apply Forall_singleton];
        apply signedFrame_streamable; vm_compute; discriminate. }
    rewrite Forall_forall in H. exact (H f Hf).
Defined.

(** C3: No frame is accepted twice: whatever frames arrive at a server endpoint,
    in whatever order and however often repeated, the accepted ones are pairwise
    different, and so are their sequence numbers. *)
Theorem no_frame_accepted_twice `{Codec MessageHeader} (key : list byte) (frames : list Frame) :
  (forall bs h, Unmarshal bs = Ok h -> in_u64 (hSequence h)) ->
  NoDup (acceptedOf frames (NewServerEndpoint key)) /\
  NoDup (seqOf <$> acceptedOf frames (NewServerEndpoint key)).
Proof.
  intros Hu. destruct (acceptedOf_distinct Hu frames (NewServerEndpoint key) ∅) as [Hd _].
  { apply NewTracker_ok. by vm_compute. }
  split; [by apply NoDup_fmap_1 in Hd|done].
Qed.

Definition sampleUnsigned (seq : Z) : Frame :=
  MkFrame 1 (z2b 105) (z2b 0) (print (headerJSON (headerOf seq sampleMessage))) [] [].

Lemma no_frame_accepted_twice_witness :
  let frames := [sampleUnsigned 1; sampleUnsigned 2; sampleUnsigned 1; sampleUnsigned 2] in
  seqOf <$> acceptedOf frames (NewServerEndpoint []) = [1; 2] /\
  NoDup (acceptedOf frames (NewServerEndpoint [])).
Proof.
  split; [vm_compute; reflexivity|].
  exact (proj1 (no_frame_accepted_twice [] _ JSON_sequence_u64)).
Defined.

(** C4: Authenticity of signed frames: a frame with the HMAC flag is accepted
    only with the HMAC-SHA256 of its own signable bytes under the endpoint's
    key; so an accepted frame that carries the MAC of a different, genuinely
    signed frame exhibits a collision of HMAC-SHA256 under that key. *)
Theorem accepted_is_signed `{Codec MessageHeader} (e e' : ServerEndpoint) (g : Frame) (m : Message) :
  accept g e = (Ok m, e') -> hasFlag (Flags g) FlagHMAC = true ->
  MAC g = Sign (se_hmacKey e) (SignableBytes g) /\
  forall f, wf_frame f -> wf_frame g -> hasFlag (Flags f) FlagHMAC = true ->
    MAC f = Sign (se_hmacKey e) (SignableBytes f) -> MAC f = MAC g -> f <> g ->
    SignableBytes f <> SignableBytes g /\
    Sign (se_hmacKey e) (SignableBytes f) = Sign (se_hmacKey e) (SignableBytes g).
Proof.
  intros Ha Hg. unfold accept, integrityOk in Ha. rewrite Hg in Ha.
  destruct (Verify _ _ _) eqn:Hv; [|done]. apply Verify_true in Hv. split; [done|].
  intros f Hf Hwg Hff HMf HM Hne. split; [|congruence]. intros Hs. apply Hne.
  assert (Version f = Version g /\ MsgType f = MsgType g /\ Flags f = Flags g /\
    Header f = Header g /\ Payload f = Payload g) as (E1 & E2 & E3 & E4 & E5).
  { destruct Hf as (Vf & Tf & _), Hwg as (Vg & _).
    apply SignableBytes_inj; rewrite ?Vf, ?Vg; done. }
  destruct f, g; simpl in *; congruence.
Qed.

Lemma marshalled_JSON h : marshalled h = print (headerJSON h).
Proof. done. Qed.

Lemma accept_sample :
  accept (signedFrame [] (marshalled (headerOf 1 sampleMessage)) sampleMessage) (NewServerEndpoint []) =
  (Ok (received sampleMessage), MkServer [] (fst (Check (NewTracker 0) 1)) 0 []).
Proof.
  apply (accept_signed [] _ _ (NewTracker 0) _ 1 (NewServerEndpoint [])); [done|done| |done|].
  - rewrite marshalled_JSON. apply unmarshal_header. apply (proj2 sampleMessage_deliverable). split; [lia|reflexivity].
  - exact (proj1 sampleMessage_deliverable).
Qed.

Lemma accepted_is_signed_witness :
  let g := signedFrame [] (marshalled (headerOf 1 sampleMessage)) sampleMessage in
  MAC g = Sign [] (SignableBytes g).
Proof.
  intros g.
  exact (proj1 (accepted_is_signed (NewServerEndpoint []) _ g (received sampleMessage) accept_sample eq_refl)).
Defined.

(** The HMAC flag is the sender's choice: a frame that does not set it is
    accepted by a server endpoint with any key, unsigned, on the strength of a
    fresh sequence number alone. *)
Theorem unsigned_accepted `{Codec MessageHeader} (key : list byte) (frame : Frame) (hdr : MessageHeader) :
  hasFlag (Flags frame) FlagHMAC = false -> Unmarshal (Header frame) = Ok hdr ->
  1 <= hSequence hdr < 2 ^ 64 ->
  fst (accept frame (NewServerEndpoint key)) = Ok (messageOf frame hdr).
Proof.
  intros Hf Hu Hs. unfold accept, integrityOk. rewrite Hf, Hu. cbn [negb se_replay NewServerEndpoint].
  pose proof (Check_refines (NewTracker 0) ∅ (hSequence hdr)) as Hc.
  rewrite decide_True in Hc.
  - destruct Hc as (t' & -> & _); [apply NewTracker_ok; by vm_compute|unfold in_u64; lia|done].
  - split; [lia|]. split; [|set_solver]. change (- 128 <= hSequence hdr). lia.
Qed.

Lemma unsigned_accepted_witness :
  fst (accept (sampleUnsigned 7) (NewServerEndpoint (bytes_of_string "secret"))) =
  Ok (messageOf (sampleUnsigned 7) (headerOf 7 sampleMessage)).
Proof.
  apply (unsigned_accepted (bytes_of_string "secret") (sampleUnsigned 7) (headerOf 7 sampleMessage)).
  - reflexivity.
  - apply unmarshal_header. apply (proj2 sampleMessage_deliverable). split; [lia|reflexivity].
  - simpl. lia.
Defined.

Lemma strip_not_intact key f : hasFlag (Flags f) FlagHMAC = true -> integrityOk key (strip f) = false.
Proof.
  intros Hf. unfold integrityOk. cbn [Flags strip]. rewrite Hf.
  destruct (Verify _ _ _) eqn:Hv; [|done]. apply Verify_true in Hv. cbn [MAC strip] in Hv.
  apply (f_equal length) in Hv. by rewrite length_Sign in Hv.
Qed.

(** Endpoints do not work over the shared-memory transport: its ring drops
    the MAC of a frame, so that every message a client sends over it, with any
    key, is refused by the server endpoint with the integrity error. *)
Theorem shm_breaks_integrity `{CodecLaw MessageHeader}
    (key key' : list byte) (sessionID : string) (rb : RingBuffer) (msg : Message) :
  ring_ok rb -> queued rb = [] -> marshals (headerOf 1 msg) ->
  fits rb (signedFrame key (marshalled (headerOf 1 msg)) msg) ->
  exists e' rb', ClientEndpoint_Send msg (NewClientEndpoint key sessionID, rb) = (Ok tt, (e', rb')) /\
    fst (ServerEndpoint_Receive (NewServerEndpoint key', rb')) = Err ErrIntegrity.
Proof.
  intros Hr Hq Hm Hf. change (chan_ok rb) in Hr. unfold ClientEndpoint_Send. cbn [ce_sequence NewClientEndpoint ce_hmacKey].
  change (u64 (0 + 1)) with 1. destruct (unmarshal_marshal _ Hm) as (bs & Hbs & _).
  assert (marshalled (headerOf 1 msg) = bs) as E by (unfold marshalled; by rewrite Hbs).
  rewrite E in Hf. rewrite Hbs.
  destruct (send_enqueues rb (signedFrame key bs msg) Hr Hf) as (rb' & -> & Hr' & Hq').
  rewrite Hq in Hq'. destruct (recv_dequeues rb' _ _ Hr' Hq') as (rb'' & Hrecv & _).
  eexists _, _. split; [done|]. cbn [ServerEndpoint_Receive]. rewrite Hrecv. unfold accept.
  change (deliver (signedFrame key bs msg)) with (strip (signedFrame key bs msg)).
  by rewrite strip_not_intact.
Qed.

Lemma shm_breaks_integrity_witness :
  let rb := MkRingBuffer "features" (replicate (Z.to_nat 65536) (z2b 0)) 16 4096 0 0 [] in
  exists e' rb', ClientEndpoint_Send sampleMessage (NewClientEndpoint [] "s", rb) = (Ok tt, (e', rb')) /\
    fst (ServerEndpoint_Receive (NewServerEndpoint [], rb')) = Err ErrIntegrity.
Proof.
  intros rb. apply (shm_breaks_integrity [] [] "s" rb sampleMessage).
  - exists []. split; [|by apply Forall_nil_2]. apply (new_represents (MkConfig "features" 65536 16)); split; simpl; lia.
  - reflexivity.
  - apply (proj2 sampleMessage_deliverable). split; [lia|reflexivity].
  - split_and!; vm_compute; first [reflexivity | discriminate | split; [discriminate|reflexivity]].
Defined.

(** No error of a write to the ring is the [ErrBackpressure] its documentation
    names for a full one. *)
Lemma ring_error_not_backpressure f rb err rb' :
  RingBuffer_Write f rb = (Err err, rb') -> errors_Is err ErrBackpressure = false.
Proof. unfold RingBuffer_Write. repeat case_match; by intros [= <- _]. Qed.

(** [ValidateCapability] passes exactly the empty capability and those
    granted to the peer by the last [SetPeerCapabilities]; any other is refused
    with an error that is [ErrCapability]. *)
Theorem validate_capability_spec (e : ServerEndpoint) (caps : list string) (msgCap : string) :
  (ValidateCapability msgCap (SetPeerCapabilities caps e) = None <-> msgCap = ""%string \/ msgCap ∈ caps) /\
  (forall err, ValidateCapability msgCap (SetPeerCapabilities caps e) = Some err ->
     errors_Is err ErrCapability = true).
Proof.
  unfold ValidateCapability. cbn [peerCapabilities SetPeerCapabilities].
  destruct (String.eqb_spec msgCap "") as [->|Hne]; [split; [by split; [left|]|done]|].
  destruct (existsb _ caps) eqn:E.
  - split; [|done]. split; [|done]. intros _. right. by apply existsb_claim in E.
  - split; [|by intros err [= <-]]. split; [done|]. intros [?|Hin]; [done|].
    apply existsb_claim in Hin. congruence.
Qed.
