(* ===== verification/Heap.v ===== *)
(** * Binary heaps: what the program uses of Go's package container/heap

    [heap.Init] and [heap.Pop] on a slice ordered by a key, with the
    sift-down loop they share, and the theorem that popping until the heap is
    empty sorts. *)

From S2P Require Import Prelude.
From Stdlib Require Import Sorting.Sorted.
Local Open Scope nat_scope.

Section Heap.
Context {A : Type} (key : A -> Z).

(** [h.Less(i, j)] *)
Definition Less (l : list A) (i j : nat) : bool :=
  match l !! i, l !! j with
  | Some x, Some y => (key x <? key y)%Z
  | _, _ => false
  end.

(** [h.Swap(i, j)] *)
Definition Swap (i j : nat) (l : list A) : list A :=
  match l !! i, l !! j with
  | Some x, Some y => <[i := y]> (<[j := x]> l)
  | _, _ => l
  end.

(** [down]: each round moves to a child, so [n] rounds are enough. *)
Fixpoint down (fuel i n : nat) (l : list A) : list A :=
  match fuel with
  | O => l
  | S fuel' =>
      let j1 := 2 * i + 1 in
      if n <=? j1 then l
      else
        let j2 := j1 + 1 in
        let j := if (j2 <? n) && Less l j2 j1 then j2 else j1 in
        if negb (Less l j i) then l
        else down fuel' j n (Swap i j l)
  end.

(** [for i := k - 1; i >= 0; i-- { down(h, i, n) }] *)
Fixpoint heapify (k n : nat) (l : list A) : list A :=
  match k with
  | O => l
  | S i => heapify i n (down n i n l)
  end.

Definition Init (l : list A) : list A := heapify (length l / 2) (length l) l.

(** [heap.Pop] with the [Pop] of a slice, which cuts off the last element; the
    slice is not empty. *)
Definition Pop (l : list A) : option (A * list A) :=
  let n := length l - 1 in
  let l := down n 0 n (Swap 0 n l) in
  x ← l !! n; Some (x, take n l).

(** [for h.Len() > 0 { heap.Pop(h) }] *)
Fixpoint popAll (fuel : nat) (l : list A) : list A :=
  match fuel with
  | O => []
  | S fuel' =>
      match l with
      | [] => []
      | _ => match Pop l with
             | Some (x, l') => x :: popAll fuel' l'
             | None => []
             end
      end
  end.

(** ** Swaps *)

Lemma length_Swap i j l : length (Swap i j l) = length l.
Proof. unfold Swap. destruct (l !! i), (l !! j); rewrite ?length_insert; done. Qed.

Lemma Swap_lookup i j l k :
  i < length l -> j < length l ->
  Swap i j l !! k = if decide (k = i) then l !! j else if decide (k = j) then l !! i else l !! k.
Proof.
  intros Hi Hj. destruct (lookup_lt_is_Some_2 l i Hi) as [x Hx].
  destruct (lookup_lt_is_Some_2 l j Hj) as [y Hy]. unfold Swap. rewrite Hx, Hy.
  destruct (decide (k = i)) as [->|Hki].
  - by rewrite list_lookup_insert_eq by (by rewrite length_insert).
  - rewrite list_lookup_insert_ne by done. destruct (decide (k = j)) as [->|].
    + by rewrite list_lookup_insert_eq.
    + by rewrite list_lookup_insert_ne.
Qed.

Lemma Swap_perm i j l : Swap i j l ≡ₚ l.
Proof.
  unfold Swap. destruct (l !! i) as [x|] eqn:Hx; [|done]. destruct (l !! j) as [y|] eqn:Hy; [|done].
  by apply Permutation_insert_swap.
Qed.

(** ** The loop moves elements below [n] only *)

Lemma length_down fuel : forall i n l, length (down fuel i n l) = length l.
Proof.
  induction fuel as [|fuel IH]; intros i n l; [done|]. cbn [down]. cbv zeta.
  destruct (n <=? 2 * i + 1); [done|]. destruct (negb _); [done|]. by rewrite IH, length_Swap.
Qed.

Lemma down_perm fuel : forall i n l, down fuel i n l ≡ₚ l.
Proof.
  induction fuel as [|fuel IH]; intros i n l; [done|]. cbn [down]. cbv zeta.
  destruct (n <=? 2 * i + 1); [done|]. destruct (negb _); [done|]. by rewrite IH, Swap_perm.
Qed.

(** The child [down] compares with. *)
Definition smaller (l : list A) (i n : nat) : nat :=
  if (2 * i + 1 + 1 <? n) && Less l (2 * i + 1 + 1) (2 * i + 1) then 2 * i + 1 + 1 else 2 * i + 1.

Lemma smaller_bound l i n : 2 * i + 1 < n -> i < smaller l i n < n.
Proof.
  intros H. unfold smaller. destruct (2 * i + 1 + 1 <? n) eqn:E; simpl; [|lia].
  destruct (Less _ _ _); apply Nat.ltb_lt in E; lia.
Qed.

Lemma down_unfold fuel i n l :
  down (S fuel) i n l =
  if n <=? 2 * i + 1 then l
  else if negb (Less l (smaller l i n) i) then l
  else down fuel (smaller l i n) n (Swap i (smaller l i n) l).
Proof. done. Qed.

Lemma down_above fuel : forall i n l k,
  n <= length l -> n <= k -> down fuel i n l !! k = l !! k.
Proof.
  induction fuel as [|fuel IH]; intros i n l k Hn Hk; [done|]. rewrite down_unfold.
  destruct (n <=? 2 * i + 1) eqn:E; [done|]. destruct (negb _); [done|]. apply Nat.leb_gt in E.
  pose proof (smaller_bound l i n E). rewrite IH by (rewrite ?length_Swap; lia).
  rewrite Swap_lookup by lia. by rewrite !decide_False by lia.
Qed.

(** ** The heap order *)

Definition le_at (l : list A) (p c : nat) : Prop :=
  forall x y, l !! p = Some x -> l !! c = Some y -> (key x <= key y)%Z.

Definition child (p c : nat) : Prop := c = 2 * p + 1 \/ c = 2 * p + 2.

(** The heap order among the first [n] elements, for parents from [lo]. *)
Definition heap (lo n : nat) (l : list A) : Prop :=
  forall p c, lo <= p -> child p c -> c < n -> le_at l p c.

(** The same, broken at most between [i] and its children. *)
Definition heapExcept (lo i n : nat) (l : list A) : Prop :=
  (forall p c, lo <= p -> p <> i -> child p c -> c < n -> le_at l p c) /\
  (forall p c, lo <= p -> child p i -> child i c -> c < n -> le_at l p c).

Lemma Less_true l i j : Less l i j = true -> le_at l i j.
Proof. unfold Less, le_at. intros H x y Hx Hy. rewrite Hx, Hy in H. apply Z.ltb_lt in H. lia. Qed.

Lemma Less_false l i j : Less l j i = false -> le_at l i j.
Proof. unfold Less, le_at. intros H x y Hx Hy. rewrite Hx, Hy in H. apply Z.ltb_ge in H. lia. Qed.

Lemma smaller_le l i n c : child i c -> c < n -> le_at l (smaller l i n) c.
Proof.
  intros Hc Hn. unfold smaller. destruct ((2 * i + 1 + 1 <? n) && _) eqn:E.
  - apply andb_true_iff in E as [_ E]. destruct Hc as [-> | ->].
    + by apply Less_true.
    + replace (2 * i + 2) with (2 * i + 1 + 1) by lia. intros x y Hx Hy. simplify_eq. lia.
  - destruct Hc as [-> | ->]; [intros x y Hx Hy; simplify_eq; lia|].
    apply andb_false_iff in E as [E|E]; [apply Nat.ltb_ge in E; lia|].
    apply Less_false. by replace (2 * i + 2) with (2 * i + 1 + 1) by lia.
Qed.

Lemma smaller_child l i n : child i (smaller l i n).
Proof. unfold smaller, child. destruct (_ && _); lia. Qed.

(** One round of [down] moves the defect to a child. *)
Lemma heapExcept_Swap lo i j n l :
  n <= length l -> lo <= i -> child i j -> j < n -> le_at l j i ->
  (forall c, child i c -> c < n -> le_at l j c) ->
  heapExcept lo i n l -> heapExcept lo j n (Swap i j l).
Proof.
  intros Hn Hlo Hij Hj Hji Hsm [H1 H2]. assert (i < j) as Hlt by (destruct Hij; lia).
  split; unfold le_at.
  - intros p c Hp Hpj Hc Hcn x y. rewrite !Swap_lookup by lia. rewrite (decide_False (P := p = j)) by done.
    destruct (decide (p = i)) as [->|Hpi].
    + assert (c <> i) by (destruct Hc; lia). rewrite decide_False by done.
      destruct (decide (c = j)) as [->|]; [apply Hji|by apply Hsm].
    + assert (c <> j) by (unfold child in *; lia).
      destruct (decide (c = i)) as [->|]; [by apply H2|]. rewrite decide_False by done. by apply H1.
  - intros p c Hp Hpj Hc Hcn x y. assert (p = i) as -> by (unfold child in *; lia).
    rewrite !Swap_lookup by lia. rewrite decide_True by done.
    rewrite !decide_False by (unfold child in *; lia). apply H1; [lia|lia|done|done].
Qed.

Lemma down_heap lo fuel : forall i n l,
  n <= length l -> lo <= i -> n <= i + fuel -> heapExcept lo i n l -> heap lo n (down fuel i n l).
Proof.
  induction fuel as [|fuel IH]; intros i n l Hn Hlo Hf [H1 H2].
  { intros p c Hp Hc Hcn. apply H1; try done. intros ->. unfold child in Hc. lia. }
  rewrite down_unfold. destruct (n <=? 2 * i + 1) eqn:E.
  { apply Nat.leb_le in E. intros p c Hp Hc Hcn. apply H1; try done. intros ->. unfold child in Hc. lia. }
  apply Nat.leb_gt in E. pose proof (smaller_bound l i n E) as Hb.
  destruct (Less l (smaller l i n) i) eqn:EL; simpl.
  - apply IH; [by rewrite length_Swap|lia|lia|].
    apply heapExcept_Swap; [done|done|apply smaller_child|lia|by apply Less_true|
      intros; by apply smaller_le|done].
  - intros p c Hp Hc Hcn. destruct (decide (p = i)) as [->|]; [|by apply H1].
    intros x y Hx Hy. destruct (lookup_lt_is_Some_2 l (smaller l i n)) as [z Hz]; [lia|].
    pose proof (Less_false _ _ _ EL x z Hx Hz). pose proof (smaller_le l i n c Hc Hcn z y Hz Hy). lia.
Qed.

Lemma heapify_heap k : forall n l, n <= length l -> heap k n l -> heap 0 n (heapify k n l).
Proof.
  induction k as [|i IH]; intros n l Hn Hh; [done|]. cbn [heapify].
  apply IH; [by rewrite length_down|]. apply down_heap; [done|done|lia|].
  split; [|intros p c Hp Hc; unfold child in Hc; lia].
  intros p c Hp Hpi. apply Hh. lia.
Qed.

Lemma heapify_perm k : forall n l, heapify k n l ≡ₚ l.
Proof. induction k as [|i IH]; intros n l; [done|]. cbn [heapify]. by rewrite IH, down_perm. Qed.

Lemma Init_heap l : heap 0 (length l) (Init l).
Proof.
  apply heapify_heap; [done|]. intros p c Hp Hc Hcn. unfold child in Hc.
  pose proof (Nat.div_mod_eq (length l) 2). pose proof (Nat.mod_upper_bound (length l) 2). lia.
Qed.

(** The root is a minimum. *)
Lemma heap_root n l : heap 0 n l -> n <= length l -> forall k, k < n -> le_at l 0 k.
Proof.
  intros Hh Hn k. induction k as [k IH] using lt_wf_ind. intros Hk.
  destruct (decide (k = 0)) as [->|]; [intros x y Hx Hy; simplify_eq; lia|].
  set (p := (k - 1) / 2). assert (child p k /\ p < k) as [Hc Hp].
  { pose proof (Nat.div_mod_eq (k - 1) 2). pose proof (Nat.mod_upper_bound (k - 1) 2).
    unfold child, p. lia. }
  intros x y Hx Hy. destruct (lookup_lt_is_Some_2 l p) as [z Hz]; [lia|].
  pose proof (IH p Hp ltac:(lia) x z Hx Hz). pose proof (Hh p k ltac:(lia) Hc Hk z y Hz Hy). lia.
Qed.

(** [Pop] takes a minimum and leaves a heap of the rest. *)
Lemma Pop_spec l :
  l <> [] -> heap 0 (length l) l ->
  exists x l', Pop l = Some (x, l') /\ l ≡ₚ x :: l' /\ heap 0 (length l') l' /\
    Forall (fun y => (key x <= key y)%Z) l'.
Proof.
  intros Hne Hh. assert (0 < length l) as Hl by (destruct l; simpl; [done|lia]).
  unfold Pop. cbv zeta. set (n := length l - 1). set (l1 := Swap 0 n l). set (l2 := down n 0 n l1).
  assert (length l1 = length l) as L1 by apply length_Swap.
  assert (length l2 = length l) as L2 by (unfold l2; by rewrite length_down).
  assert (heap 0 n l2) as H2.
  { apply down_heap; [lia|lia|lia|]. split; [|intros p c Hp Hc; unfold child in Hc; lia].
    intros p c Hp Hp0 Hc Hcn x y. unfold l1. rewrite !Swap_lookup by lia.
    rewrite !decide_False by (unfold child in Hc; lia). apply Hh; [lia|done|lia]. }
  destruct (lookup_lt_is_Some_2 l 0 Hl) as [x Hx].
  assert (l2 !! n = Some x) as Hn.
  { unfold l2. rewrite down_above by lia. unfold l1. rewrite Swap_lookup by lia.
    destruct (decide (n = 0)) as [E|]; [by rewrite E|by rewrite decide_True]. }
  exists x, (take n l2). rewrite Hn. split; [done|].
  assert (l ≡ₚ x :: take n l2) as Hp.
  { transitivity l2; [by unfold l2, l1; rewrite down_perm, Swap_perm|].
    rewrite <-(take_drop_middle l2 n x) at 1 by done. rewrite drop_ge by lia.
    rewrite Permutation_app_comm. done. }
  split; [done|]. rewrite length_take, Nat.min_l by lia. split.
  - intros p c Hp0 Hc Hcn y z Hy Hz. rewrite lookup_take_lt in Hz by done.
    rewrite lookup_take_lt in Hy by (unfold child in Hc; lia). by eapply H2.
  - apply Forall_forall. intros y Hy. assert (y ∈ l) as Hyl by (rewrite Hp; by right).
    apply list_elem_of_lookup in Hyl as [k Hk].
    exact (heap_root (length l) l Hh (le_n _) k (lookup_lt_Some _ _ _ Hk) x y Hx Hk).
Qed.

(** Popping until the heap is empty gives the elements in key order. *)
Lemma popAll_spec fuel : forall l,
  length l <= fuel -> heap 0 (length l) l ->
  popAll fuel l ≡ₚ l /\ StronglySorted (fun x y => (key x <= key y)%Z) (popAll fuel l).
Proof.
  induction fuel as [|fuel IH]; intros l Hl Hh.
  { destruct l; [|simpl in Hl; lia]. split; [done|constructor]. }
  cbn [popAll]. destruct l as [|a l]; [split; [done|constructor]|].
  destruct (Pop_spec (a :: l)) as (x & l' & -> & Hp & Hh' & Hm); [done|done|].
  pose proof (Permutation_length Hp) as Hlen. simpl in Hlen, Hl.
  destruct (IH l') as [Hp' Hs]; [lia|done|]. split; [by rewrite Hp, Hp'|].
  constructor; [done|]. by rewrite Hp'.
Qed.

Lemma Init_popAll l :
  popAll (length l) (Init l) ≡ₚ l /\
  StronglySorted (fun x y => (key x <= key y)%Z) (popAll (length l) (Init l)).
Proof.
  assert (Init l ≡ₚ l) as Hp by apply heapify_perm. pose proof (Permutation_length Hp) as Hl.
  destruct (popAll_spec (length l) (Init l)) as [H1 H2]; [lia|rewrite Hl; apply Init_heap|].
  split; [by rewrite H1|done].
Qed.

End Heap.
