(* ===== verification/Router.v ===== *)
(** * Message routing: src/core/router.go

    [Router] with its handler table, [Dispatch], and [DispatchBatch] over the
    priority queue.  A handler may act on the world around the router: it is a
    function of a message and a state [W] that gives a response, an error and
    the state afterwards.  The theorem on batches says in which order the
    handlers run and where each result goes. *)

From S2P Require Import Prelude Time Message Heap.
From Stdlib Require Import Sorting.Sorted.
Local Open Scope Z_scope.

(** [DispatchResult]: the response and the error, each possibly nil. *)
Record DispatchResult := MkDispatchResult { Response : option Message; DErr : option error }.

Section Router.
Context {W : Type}.

Definition HandlerFunc : Type := Message -> W -> DispatchResult * W.

Record Router := MkRouter { handlers : gmap string HandlerFunc }.

Definition NewRouter : Router := MkRouter ∅.

Definition Handle (msgType : MessageType) (handler : HandlerFunc) (r : Router) : Router :=
  MkRouter (<[msgType := handler]> (handlers r)).

Definition Dispatch (r : Router) (msg : Message) (w : W) : DispatchResult * W :=
  match handlers r !! MType msg with
  | None => (MkDispatchResult None None, w)
  | Some handler => handler msg w
  end.

(** A [*priorityItem] of the queue. *)
Record priorityItem := MkItem { item_msg : Message; item_index : nat }.

Definition itemKey (it : priorityItem) : Z := MPriority (item_msg it).

(** [for pq.Len() > 0 { ... }]; the queue shrinks by one in each round. *)
Fixpoint dispatchLoop (fuel : nat) (r : Router) (pq : list priorityItem)
    (results : list DispatchResult) (w : W) : list DispatchResult * W :=
  match fuel with
  | O => (results, w)
  | S fuel' =>
      match pq with
      | [] => (results, w)
      | _ =>
          match Pop itemKey pq with
          | Some (item, pq') =>
              let '(res, w') := Dispatch r (item_msg item) w in
              dispatchLoop fuel' r pq' (<[item_index item := res]> results) w'
          | None => (results, w)
          end
      end
  end.

Definition DispatchBatch (r : Router) (messages : list Message) (w : W) : list DispatchResult * W :=
  let pq := imap (fun i msg => MkItem msg i) messages in
  let pq := Init itemKey pq in
  let results := replicate (length messages) (MkDispatchResult None None) in
  dispatchLoop (length messages) r pq results w.

(** ** Specification *)

(** The messages one after the other. *)
Fixpoint dispatchAll (r : Router) (msgs : list Message) (w : W) : list DispatchResult * W :=
  match msgs with
  | [] => ([], w)
  | m :: msgs' =>
      let '(res, w') := Dispatch r m w in
      let '(rest, w'') := dispatchAll r msgs' w' in (res :: rest, w'')
  end.

(** Results stored at the indices of their items. *)
Definition storeAt (results : list DispatchResult) (items : list priorityItem) (outs : list DispatchResult)
  : list DispatchResult :=
  foldl (fun acc x => <[item_index (fst x) := snd x]> acc) results (zip items outs).

Lemma dispatchLoop_popAll fuel : forall r pq results w,
  dispatchLoop fuel r pq results w =
  let items := popAll itemKey fuel pq in
  let '(outs, w') := dispatchAll r (item_msg <$> items) w in (storeAt results items outs, w').
Proof.
  induction fuel as [|fuel IH]; intros r pq results w; [done|]. cbn [dispatchLoop popAll].
  destruct pq as [|it pq]; [done|]. destruct (Pop itemKey (it :: pq)) as [[item pq']|]; [|done].
  cbv zeta. rewrite fmap_cons. cbn [dispatchAll].
  destruct (Dispatch r (item_msg item) w) as [res w']. rewrite IH. cbv zeta.
  by destruct (dispatchAll r _ w') as [outs w''].
Qed.

Lemma length_dispatchAll r msgs : forall w, length (fst (dispatchAll r msgs w)) = length msgs.
Proof.
  induction msgs as [|m msgs IH]; intros w; [done|]. cbn [dispatchAll].
  destruct (Dispatch r m w) as [res w']. specialize (IH w').
  destruct (dispatchAll r msgs w') as [rest w'']. simpl in *. by rewrite IH.
Qed.

Lemma storeAt_length items : forall results outs, length (storeAt results items outs) = length results.
Proof.
  unfold storeAt. induction items as [|it items IH]; intros results [|o outs]; try done.
  cbn [zip zip_with foldl fst snd]. rewrite IH. apply length_insert.
Qed.

Lemma storeAt_other items : forall results outs i,
  i ∉ (item_index <$> items) -> storeAt results items outs !! i = results !! i.
Proof.
  unfold storeAt. induction items as [|it items IH]; intros results [|o outs] i Hi; try done.
  rewrite fmap_cons in Hi. apply not_elem_of_cons in Hi as [Hi1 Hi2].
  cbn [zip zip_with foldl fst snd]. rewrite IH by done. by rewrite list_lookup_insert_ne.
Qed.

Lemma storeAt_lookup items : forall results outs k it o,
  NoDup (item_index <$> items) -> Forall (fun it => (item_index it < length results)%nat) items ->
  items !! k = Some it -> outs !! k = Some o -> storeAt results items outs !! item_index it = Some o.
Proof.
  unfold storeAt. induction items as [|it0 items IH]; intros results [|o0 outs] k it o Hn Hf Hk Ho; try done.
  rewrite fmap_cons in Hn. apply NoDup_cons in Hn as [Hn0 Hn]. apply Forall_cons in Hf as [Hf0 Hf].
  cbn [zip zip_with foldl fst snd]. destruct k as [|k]; simplify_eq/=.
  - pose proof (storeAt_other items (<[item_index it := o]> results) outs (item_index it) Hn0) as E.
    unfold storeAt in E. rewrite E. by apply list_lookup_insert_eq.
  - eapply IH; try done. eapply Forall_impl; [exact Hf|]. intros x Hx. by rewrite length_insert.
Qed.

End Router.
Arguments Router : clear implicits.
Arguments HandlerFunc : clear implicits.

(** ** Properties *)

Section Batches.
Context {W : Type}.

Lemma items_lookup (msgs : list Message) it :
  it ∈ imap (fun i msg => MkItem msg i) msgs -> msgs !! item_index it = Some (item_msg it).
Proof.
  intros (k & Hk)%list_elem_of_lookup. rewrite list_lookup_imap in Hk.
  destruct (msgs !! k) as [m|] eqn:E; [|done]. by simplify_eq/=.
Qed.

Lemma items_indices (msgs : list Message) :
  item_index <$> imap (fun i msg => MkItem msg i) msgs = seq 0 (length msgs).
Proof.
  apply list_eq. intros k. rewrite list_lookup_fmap, list_lookup_imap.
  destruct (msgs !! k) as [m|] eqn:E; simpl.
  - by rewrite lookup_seq_lt by by apply lookup_lt_Some in E.
  - by rewrite lookup_seq_ge by by apply lookup_ge_None in E.
Qed.

Lemma items_messages (msgs : list Message) items :
  Forall (fun it => msgs !! item_index it = Some (item_msg it)) items ->
  omap (fun i => msgs !! i) (item_index <$> items) = item_msg <$> items.
Proof. induction 1 as [|it items Hit _ IH]; [done|]. simpl. rewrite Hit. by f_equal. Qed.

Lemma StronglySorted_indices (msgs : list Message) items :
  Forall (fun it => msgs !! item_index it = Some (item_msg it)) items ->
  StronglySorted (fun x y => itemKey x <= itemKey y) items ->
  StronglySorted (fun i j => forall m n, msgs !! i = Some m -> msgs !! j = Some n ->
    MPriority m <= MPriority n) (item_index <$> items).
Proof.
  intros Hf Hs. induction Hs as [|it items Hs IH Hle]; [constructor|].
  apply Forall_cons in Hf as [Hit Hf]. rewrite fmap_cons. constructor; [by apply IH|].
  apply Forall_fmap. rewrite Forall_forall in *. intros it' Hin m n Hm Hn. simpl in *.
  rewrite (Hf it' Hin) in Hn. specialize (Hle it' Hin). unfold itemKey in Hle. simplify_eq. done.
Qed.

(** C36: [DispatchBatch] runs the handlers of all messages once each, in order of
    priority with P0 first, each seeing the effects of those before it, and puts
    the result of every message at the index the message has in the batch. *)
Theorem dispatch_batch_order (r : Router W) (msgs : list Message) (w : W) :
  exists order,
    order ≡ₚ seq 0 (length msgs) /\
    StronglySorted (fun i j => forall m n, msgs !! i = Some m -> msgs !! j = Some n ->
      MPriority m <= MPriority n) order /\
    let '(outs, w') := dispatchAll r (omap (fun i => msgs !! i) order) w in
    let '(results, w'') := DispatchBatch r msgs w in
    w'' = w' /\ length results = length msgs /\
    forall k i o, order !! k = Some i -> outs !! k = Some o -> results !! i = Some o.
Proof.
  unfold DispatchBatch. cbv zeta. rewrite dispatchLoop_popAll. cbv zeta.
  set (items0 := imap (fun i msg => MkItem msg i) msgs).
  assert (length items0 = length msgs) as Hl by apply length_imap.
  destruct (Init_popAll itemKey items0) as [Hp Hs]. rewrite Hl in Hp, Hs.
  set (items := popAll itemKey (length msgs) (Init itemKey items0)) in *. clearbody items.
  assert (Forall (fun it => msgs !! item_index it = Some (item_msg it)) items) as Hf.
  { rewrite Hp. apply Forall_forall. apply items_lookup. }
  exists (item_index <$> items).
  assert (item_index <$> items ≡ₚ seq 0 (length msgs)) as Ho by (rewrite Hp; unfold items0; by rewrite items_indices).
  split; [done|]. split; [by apply StronglySorted_indices|]. rewrite items_messages by done.
  destruct (dispatchAll r (item_msg <$> items) w) as [outs w'] eqn:Ed. split; [done|].
  split; [by rewrite storeAt_length, length_replicate|].
  intros k i o Hk Hok. apply list_lookup_fmap_Some in Hk as (it & -> & Hk).
  eapply storeAt_lookup; [|..]; try done.
  - rewrite Ho. apply NoDup_seq.
  - eapply Forall_impl; [exact Hf|]. intros it' Hit. rewrite length_replicate.
    by apply lookup_lt_Some in Hit.
Qed.

(** [Dispatch] uses the last handler registered for the type, and none for other
    types. *)
Lemma Dispatch_Handle (r : Router W) t h msg w :
  Dispatch (Handle t h r) msg w = if decide (MType msg = t) then h msg w else Dispatch r msg w.
Proof.
  unfold Dispatch, Handle. cbn [handlers]. destruct (decide (MType msg = t)) as [->|Hn].
  - by rewrite lookup_insert_eq.
  - by rewrite lookup_insert_ne.
Qed.

End Batches.
