(* ===== verification/Flags.v ===== *)
(** * Command-line flags: what the program uses of Go's package flag

    Sets of string and int flags, [FlagSet.Parse] under [ExitOnError], and
    [strconv.ParseInt] with base 0, which reads the ints.  The usage text that
    a refused command line prints goes to the error output and is left out. *)

From S2P Require Import Prelude Time Json Codec.
Local Open Scope string_scope.
Local Open Scope list_scope.
Local Open Scope Z_scope.

(** ** [strconv.ParseInt(s, 0, 64)] *)

(** [lower]: bit 5 set, which is the small letter of a letter. *)
Definition orCase (c : byte) : Z := Z.lor (b2z c) 0x20.

(** The base and the digits behind the prefix. *)
Definition basePrefix (s : list byte) : Z * list byte :=
  match s with
  | z :: r =>
      if isC z 48 then
        match r with
        | x :: (_ :: _ as ds) =>
            if orCase x =? 98 then (2, ds)
            else if orCase x =? 111 then (8, ds)
            else if orCase x =? 120 then (16, ds)
            else (8, r)
        | _ => (8, r)
        end
      else (10, s)
  | [] => (10, s)
  end.

Definition digitOf (c : byte) : option Z :=
  if isDigit c then Some (b2z c - 48)
  else if (97 <=? orCase c) && (orCase c <=? 122) then Some (orCase c - 87)
  else None.

(** The digit loop of [ParseUint]: underscores are passed over; [None] is an
    error, of syntax or of range. *)
Fixpoint uintLoop (base n : Z) (s : list byte) : option Z :=
  match s with
  | [] => Some n
  | c :: r =>
      if isC c 95 then uintLoop base n r
      else
        d ← digitOf c;
        if base <=? d then None
        else if 2 ^ 64 <=? n * base + d then None
        else uintLoop base (n * base + d) r
  end.

(** [underscoreOK] from the number proper on; [saw] is the class of the byte
    before: a digit, an underscore, or something else. *)
Inductive saw := SawDigit | SawUnderscore | SawOther.

Fixpoint underscoreLoop (hex : bool) (last : saw) (s : list byte) : bool :=
  match s with
  | [] => match last with SawUnderscore => false | _ => true end
  | c :: r =>
      if isDigit c || (hex && (97 <=? orCase c) && (orCase c <=? 102)) then underscoreLoop hex SawDigit r
      else if isC c 95 then match last with SawDigit => underscoreLoop hex SawUnderscore r | _ => false end
      else match last with SawUnderscore => false | _ => underscoreLoop hex SawOther r end
  end.

Definition underscoreOK (s : list byte) : bool :=
  match s with
  | z :: x :: r =>
      if isC z 48 && ((orCase x =? 98) || (orCase x =? 111) || (orCase x =? 120))
      then underscoreLoop (orCase x =? 120) SawDigit r
      else underscoreLoop false SawOther s
  | _ => underscoreLoop false SawOther s
  end.

Definition ParseUint0 (s : list byte) : option Z :=
  match s with
  | [] => None
  | _ =>
      let '(base, ds) := basePrefix s in
      n ← uintLoop base 0 ds;
      if existsb (fun c => isC c 95) ds && negb (underscoreOK s) then None else Some n
  end.

Definition ParseInt0 (str : string) : option Z :=
  let s := bytes_of_string str in
  let '(neg, s) := match s with
                   | c :: r => if isC c 43 then (false, r) else if isC c 45 then (true, r) else (false, s)
                   | [] => (false, s)
                   end in
  un ← ParseUint0 s;
  if neg : bool then (if 2 ^ 63 <? un then None else Some (- un))
  else if 2 ^ 63 <=? un then None else Some un.

(** ** Flag sets *)

Inductive flagValue := FlagString (s : string) | FlagInt (n : Z).

(** The flags that were defined, with their values. *)
Definition FlagSet : Type := list (string * flagValue).

Fixpoint flagLookup (fs : FlagSet) (name : string) : option flagValue :=
  match fs with
  | [] => None
  | (n, v) :: fs' => if String.eqb n name then Some v else flagLookup fs' name
  end.

Fixpoint flagUpdate (fs : FlagSet) (name : string) (v : flagValue) : FlagSet :=
  match fs with
  | [] => []
  | (n, w) :: fs' => if String.eqb n name then (n, v) :: fs' else (n, w) :: flagUpdate fs' name v
  end.

(** [flag.Value.Set]; [None] is its error. *)
Definition flagSet (old : flagValue) (value : string) : option flagValue :=
  match old with
  | FlagString _ => Some (FlagString value)
  | FlagInt _ => FlagInt <$> ParseInt0 value
  end.

(** What [parseOne] takes an argument for. *)
Inductive flagArg := NotFlag | EndOfFlags | BadSyntax | Flag (name : string) (value : option string).

(** The name up to an equals sign, which cannot be its first byte. *)
Fixpoint splitEquals (s : list byte) : list byte * option (list byte) :=
  match s with
  | [] => ([], None)
  | c :: r => if isC c 61 then ([], Some r) else let '(n, v) := splitEquals r in (c :: n, v)
  end.

Definition namedFlag (name : list byte) : flagArg :=
  match name with
  | [] => BadSyntax
  | c :: r =>
      if isC c 45 || isC c 61 then BadSyntax
      else let '(n, v) := splitEquals r in Flag (string_of_bytes (c :: n)) (string_of_bytes <$> v)
  end.

Definition flagOf (s : string) : flagArg :=
  match bytes_of_string s with
  | c0 :: c1 :: r =>
      if isC c0 45 then
        if isC c1 45 then match r with [] => EndOfFlags | _ => namedFlag r end
        else namedFlag (c1 :: r)
      else NotFlag
  | _ => NotFlag
  end.

(** [FlagSet.Parse] with [ExitOnError]: the values and the arguments left, or
    the exit status of the process. *)
Inductive parsed := Parsed (fs : FlagSet) (args : list string) | Exited (status : Z).

Fixpoint flagParse (fs : FlagSet) (args : list string) : parsed :=
  match args with
  | [] => Parsed fs []
  | s :: rest =>
      match flagOf s with
      | NotFlag => Parsed fs args
      | EndOfFlags => Parsed fs rest
      | BadSyntax => Exited 2
      | Flag name value =>
          match flagLookup fs name with
          | None => Exited (if String.eqb name "help" || String.eqb name "h" then 0 else 2)
          | Some old =>
              match value, rest with
              | Some v, _ => match flagSet old v with Some new => flagParse (flagUpdate fs name new) rest | None => Exited 2 end
              | None, v :: rest' =>
                  match flagSet old v with Some new => flagParse (flagUpdate fs name new) rest' | None => Exited 2 end
              | None, [] => Exited 2
              end
          end
      end
  end.

Definition stringFlag (fs : FlagSet) (name : string) : string :=
  match flagLookup fs name with Some (FlagString s) => s | _ => "" end.

Definition intFlag (fs : FlagSet) (name : string) : Z :=
  match flagLookup fs name with Some (FlagInt n) => n | _ => 0 end.

(** ** Properties *)

(** The spellings of a flag with its value. *)
Inductive spelling := OneDash | TwoDashes | OneDashEquals | TwoDashesEquals.

Definition spell (sp : spelling) (name value : string) : list string :=
  match sp with
  | OneDash => ["-" +:+ name; value]
  | TwoDashes => ["--" +:+ name; value]
  | OneDashEquals => ["-" +:+ name +:+ "=" +:+ value]
  | TwoDashesEquals => ["--" +:+ name +:+ "=" +:+ value]
  end.

(** Names that can be flags: no equals sign, no dash in front. *)
Definition flagName (name : string) : bool :=
  match bytes_of_string name with
  | c :: r => negb (isC c 45) && forallb (fun c => negb (isC c 61)) (c :: r)
  | [] => false
  end.

Lemma bytes_append s t : bytes_of_string (s +:+ t) = bytes_of_string s ++ bytes_of_string t.
Proof. induction s as [|c s IH]; [done|]. exact (f_equal (cons _) IH). Qed.

Lemma splitEquals_none n : forallb (fun c => negb (isC c 61)) n = true -> splitEquals n = (n, None).
Proof. induction n as [|c n IH]; [done|]. cbn [forallb splitEquals]. intros [Hc Hn]%andb_true_iff.
  apply negb_true_iff in Hc. by rewrite Hc, IH.
Qed.

Lemma splitEquals_some n v :
  forallb (fun c => negb (isC c 61)) n = true -> splitEquals (n ++ z2b 61 :: v) = (n, Some v).
Proof.
  induction n as [|c n IH]; [done|]. cbn [forallb splitEquals app]. intros [Hc Hn]%andb_true_iff.
  apply negb_true_iff in Hc. by rewrite Hc, IH.
Qed.

Lemma flagName_shape name :
  flagName name = true -> exists c r, bytes_of_string name = c :: r /\ isC c 45 = false /\ isC c 61 = false /\
    forallb (fun c => negb (isC c 61)) r = true.
Proof.
  unfold flagName. destruct (bytes_of_string name) as [|c r]; [done|]. cbn [forallb].
  rewrite !andb_true_iff, !negb_true_iff. intros (H1 & H2 & H3). by exists c, r.
Qed.

Lemma flagOf_spelled sp name value :
  flagName name = true ->
  match spell sp name value with
  | [s] => flagOf s = Flag name (Some value)
  | s :: l => flagOf s = Flag name None /\ l = [value]
  | [] => False
  end.
Proof.
  intros (c & r & E & Hd & He & Hr)%flagName_shape.
  assert (name = string_of_bytes (c :: r)) as Hn by (by rewrite <-E, String.string_of_list_byte_of_string).
  assert (namedFlag (c :: r) = Flag name None) as H1.
  { unfold namedFlag. rewrite Hd, He. cbn [orb]. by rewrite splitEquals_none, Hn. }
  assert (namedFlag (c :: r ++ z2b 61 :: bytes_of_string value) = Flag name (Some value)) as H2.
  { unfold namedFlag. rewrite Hd, He. cbn [orb]. rewrite splitEquals_some by done.
    change (string_of_bytes <$> Some ?x) with (Some (string_of_bytes x)).
    by rewrite Hn, String.string_of_list_byte_of_string. }
  destruct sp; cbn [spell]; unfold flagOf; rewrite !bytes_append, ?E.
  - split; [|done]. change (bytes_of_string "-") with [z2b 45]. cbn [app]. change (isC (z2b 45) 45) with true. cbv iota.
    by rewrite Hd.
  - split; [|done]. change (bytes_of_string "--") with [z2b 45; z2b 45]. cbn [app].
    change (isC (z2b 45) 45) with true. by cbv iota.
  - change (bytes_of_string "-") with [z2b 45]. change (bytes_of_string "=") with [z2b 61]. cbn [app].
    change (isC (z2b 45) 45) with true. cbv iota. by rewrite Hd.
  - change (bytes_of_string "--") with [z2b 45; z2b 45]. change (bytes_of_string "=") with [z2b 61]. cbn [app].
    change (isC (z2b 45) 45) with true. by cbv iota.
Qed.

(** A flag in any spelling is set, and the rest is parsed. *)
Lemma flagParse_spelled sp fs name value old new rest :
  flagName name = true -> flagLookup fs name = Some old -> flagSet old value = Some new ->
  flagParse fs (spell sp name value ++ rest) = flagParse (flagUpdate fs name new) rest.
Proof.
  intros Hn Hl Hs. pose proof (flagOf_spelled sp name value Hn) as H.
  destruct sp; cbn [spell app] in *; cbn [flagParse]; [destruct H as [-> _]|destruct H as [-> _]|rewrite H|rewrite H];
    by rewrite Hl, Hs.
Qed.

(** The settings of a command line, in order. *)
Fixpoint applyFlags (fs : FlagSet) (l : list (spelling * string * string)) : option FlagSet :=
  match l with
  | [] => Some fs
  | (_, name, value) :: l' =>
      old ← flagLookup fs name; new ← flagSet old value; applyFlags (flagUpdate fs name new) l'
  end.

Lemma flagLookup_name fs name v :
  Forall (fun x => flagName x.1 = true) fs -> flagLookup fs name = Some v -> flagName name = true.
Proof.
  induction 1 as [|[n w] fs Hn _ IH]; [done|]. cbn [flagLookup].
  destruct (String.eqb_spec n name) as [<-|]; [done|]. exact IH.
Qed.

Lemma flagUpdate_names fs name v :
  Forall (fun x => flagName x.1 = true) fs -> Forall (fun x => flagName x.1 = true) (flagUpdate fs name v).
Proof.
  induction 1 as [|[n w] fs Hn Hfs IH]; [by apply Forall_nil_2|]. cbn [flagUpdate].
  destruct (String.eqb n name); by apply Forall_cons.
Qed.

(** A command line of such settings is parsed to their effect, in whatever
    spelling each is given: the last setting of a flag wins. *)
Lemma flagParse_settings l : forall fs fs',
  Forall (fun x => flagName x.1 = true) fs -> applyFlags fs l = Some fs' ->
  flagParse fs (concat ((fun x => spell x.1.1 x.1.2 x.2) <$> l)) = Parsed fs' [].
Proof.
  induction l as [|[[sp name] value] l IH]; intros fs fs' Hfs; [by intros [= <-]|]. cbn [applyFlags].
  destruct (flagLookup fs name) as [old|] eqn:E; [|done]. cbn [mbind option_bind].
  destruct (flagSet old value) as [new|] eqn:E1; [|done]. cbn [mbind option_bind]. intros H.
  rewrite fmap_cons. cbn [concat fst snd].
  rewrite (flagParse_spelled sp fs name value old new) by (done || by eapply flagLookup_name).
  by apply IH; [apply flagUpdate_names|].
Qed.

Lemma flagLookup_update fs name new n :
  is_Some (flagLookup fs name) ->
  flagLookup (flagUpdate fs name new) n = if String.eqb name n then Some new else flagLookup fs n.
Proof.
  induction fs as [|[m w] fs IH]; intros Hs; [by destruct Hs|]. cbn [flagLookup flagUpdate] in *.
  destruct (String.eqb_spec m name) as [->|Hm]; cbn [flagLookup]; [by destruct (String.eqb name n)|].
  rewrite IH by done. destruct (String.eqb_spec m n) as [->|]; [|done].
  by destruct (String.eqb_spec name n); subst.
Qed.

(** ** Ints are read back *)

Lemma digitOf_digit c :
  isDigit c = true -> digitOf c = Some (digitVal c) /\ 0 <= digitVal c < 10 /\ isC c 95 = false /\ isC c 43 = false /\ isC c 45 = false.
Proof. destruct c; try discriminate; intros _; vm_compute; repeat split; congruence. Qed.

Lemma digits_grow ds : forall n,
  forallb isDigit ds = true -> 0 <= n -> n <= foldl (fun n b => n * 10 + digitVal b) n ds.
Proof.
  induction ds as [|c ds IH]; intros n Hd Hn; [done|]. cbn [forallb foldl] in *.
  apply andb_true_iff in Hd as [(_ & Hc & _)%digitOf_digit Hd]. specialize (IH (n * 10 + digitVal c) Hd). lia.
Qed.

Lemma uintLoop_digits ds : forall n,
  forallb isDigit ds = true -> 0 <= n -> foldl (fun n b => n * 10 + digitVal b) n ds < 2 ^ 64 ->
  uintLoop 10 n ds = Some (foldl (fun n b => n * 10 + digitVal b) n ds).
Proof.
  induction ds as [|c ds IH]; intros n Hd Hn Hlt; [done|]. cbn [forallb foldl uintLoop] in *.
  apply andb_true_iff in Hd as [(-> & Hc & -> & _)%digitOf_digit Hd]. cbn [mbind option_bind].
  pose proof (digits_grow ds (n * 10 + digitVal c) Hd). zbool. apply IH; lia || done.
Qed.

Lemma no_underscores ds : forallb isDigit ds = true -> existsb (fun c => isC c 95) ds = false.
Proof.
  induction ds as [|c ds IH]; [done|]. cbn [forallb existsb].
  intros [(_ & _ & -> & _)%digitOf_digit Hd]%andb_true_iff. by apply IH.
Qed.

Lemma ParseUint0_decimal x : in_u64 x -> ParseUint0 (decimals (numDigits 20 x) x) = Some x.
Proof.
  intros [H0 Hx]. assert (x < 10 ^ (Z.of_nat 20 + 1)) as Hb by (simpl; lia).
  destruct (numDigits_spec 20 x (conj H0 Hb)) as [Hlt _].
  pose proof (atoi_decimals _ x (conj H0 Hlt)) as Ha. unfold atoi in Ha.
  destruct (decimals_lead 20 x (conj H0 Hb)) as (d & ds & E & Hd & Hds & Hz). rewrite E in *.
  assert (forallb isDigit (d :: ds) = true) as Hall by (cbn [forallb]; by rewrite Hd).
  unfold ParseUint0, basePrefix. destruct (isC d 48) eqn:Ed.
  - rewrite (Hz eq_refl) in *. apply byte_eq in Ed as ->. rewrite <-Ha. reflexivity.
  - rewrite uintLoop_digits by (done || lia || by rewrite Ha). rewrite Ha. cbn [mbind option_bind].
    by rewrite no_underscores.
Qed.

(** The decimal text of an int is read as the int. *)
Lemma ParseInt0_decimal n : in_i64 n -> ParseInt0 (string_of_bytes (appendInt n 0)) = Some n.
Proof.
  unfold in_i64. intros Hn. unfold ParseInt0, appendInt. rewrite String.list_byte_of_string_of_list_byte, Nat.max_0_l.
  pose proof (ParseUint0_decimal (Z.abs n) ltac:(unfold in_u64; lia)) as Hu.
  destruct (Z.ltb_spec n 0); cbn [app].
  - change (isC (z2b 45) 43) with false. change (isC (z2b 45) 45) with true. cbv iota. rewrite Hu.
    cbn [mbind option_bind]. zbool. f_equal. lia.
  - destruct (decimals_lead 20 (Z.abs n)) as (d & ds & E & Hd & _); [simpl; lia|]. rewrite E in *.
    apply digitOf_digit in Hd as (_ & _ & _ & -> & ->). rewrite Hu. cbn [mbind option_bind]. zbool. f_equal. lia.
Qed.
