(* ===== verification/Fmt.v ===== *)
(** * Formatted text: what the program uses of Go's packages fmt and strconv

    [fmt.Sprintf] for the verbs of the program's format strings, [%q] with
    [strconv.Quote], and the text of an error ([err.Error()]).  Which code
    points beyond ASCII are printable is a table of the Unicode standard that
    [strconv] carries; it is a parameter here. *)

From S2P Require Import Prelude Time Utf8.
Local Open Scope Z_scope.

(** [strconv.IsPrint] beyond ASCII. *)
Class UnicodeTable := isPrintRune : Z -> bool.

Definition hexLower (n : Z) : byte := if n <? 10 then z2b (48 + n) else z2b (87 + n).

(** [n] hexadecimal digits of [x], most significant first. *)
Fixpoint hexDigits (n : nat) (x : Z) : list byte :=
  match n with
  | O => []
  | S m => hexDigits m (x / 16) ++ [hexLower (x mod 16)]
  end.

(** [hex.EncodeToString] *)
Definition hexEncode (bs : list byte) : list byte := concat ((fun b => hexDigits 2 (b2z b)) <$> bs).

Section Quote.
Context `{UnicodeTable}.

(** [appendEscapedRune] for a rune that is valid. *)
Definition escapeRune (r : Z) : list byte :=
  if (r =? 34) || (r =? 92) then [z2b 92; z2b r]
  else if (if r <? 0x80 then (32 <=? r) && (r <? 127) else isPrintRune r) then encodeRune r
  else if r =? 7 then [z2b 92; z2b 97]
  else if r =? 8 then [z2b 92; z2b 98]
  else if r =? 12 then [z2b 92; z2b 102]
  else if r =? 10 then [z2b 92; z2b 110]
  else if r =? 13 then [z2b 92; z2b 114]
  else if r =? 9 then [z2b 92; z2b 116]
  else if r =? 11 then [z2b 92; z2b 118]
  else if (r <? 32) || (r =? 0x7f) then [z2b 92; z2b 120] ++ hexDigits 2 r
  else if r <? 0x10000 then [z2b 92; z2b 117] ++ hexDigits 4 r
  else [z2b 92; z2b 85] ++ hexDigits 8 r.

(** [skip] bytes of the current rune are still to be passed over. *)
Fixpoint quoteWith (skip : nat) (bs : list byte) : list byte :=
  match bs with
  | [] => []
  | b :: r =>
      match skip with
      | S k => quoteWith k r
      | O => match decodeRune bs with
             | Some (x, n) => escapeRune x ++ quoteWith (n - 1) r
             | None => [z2b 92; z2b 120] ++ hexDigits 2 (b2z b) ++ quoteWith 0 r
             end
      end
  end.

(** [strconv.Quote] *)
Definition Quote (s : list byte) : list byte := [z2b 34] ++ quoteWith 0 s ++ [z2b 34].

(** Strings separated by spaces, as [%v] prints a slice. *)
Fixpoint spaced (l : list string) : list byte :=
  match l with
  | [] => []
  | [s] => bytes_of_string s
  | s :: l' => bytes_of_string s ++ [z2b 32] ++ spaced l'
  end.

(** One operand under one verb, for the combinations the program uses. *)
Definition formatArg (verb : Z) (a : arg) : list byte :=
  match a with
  | ArgStr s => if verb =? 113 then Quote (bytes_of_string s) else bytes_of_string s
  | ArgInt z => appendInt z 0
  | ArgStrs l => [z2b 91] ++ spaced l ++ [z2b 93]
  end.

(** [fmt.Sprintf]; [w] is the text of the operand of [%w]. *)
Fixpoint formatText (fmt w : list byte) (args : list arg) : list byte :=
  match fmt with
  | [] => []
  | p :: rest =>
      if b2z p =? 37 then
        match rest with
        | v :: rest' =>
            if b2z v =? 119 then w ++ formatText rest' w args
            else match args with
                 | a :: args' => formatArg (b2z v) a ++ formatText rest' w args'
                 | [] => bytes_of_string "%!" ++ [v] ++ bytes_of_string "(MISSING)" ++ formatText rest' w []
                 end
        | [] => bytes_of_string "%!(NOVERB)"
        end
      else p :: formatText rest w args
  end.

Definition Sprintf (format : string) (args : list arg) : string :=
  string_of_bytes (formatText (bytes_of_string format) [] args).

(** [err.Error()] *)
Fixpoint errorText (e : error) : list byte :=
  match e with
  | ErrorNew msg => bytes_of_string msg
  | Errorf format args => formatText (bytes_of_string format) [] args
  | Wrapf format w args => formatText (bytes_of_string format) (errorText w) args
  end.

Definition Error (e : error) : string := string_of_bytes (errorText e).

End Quote.

(** ** Hexadecimal text *)

Lemma length_hexDigits n x : length (hexDigits n x) = n.
Proof. revert x. induction n as [|n IH]; intros x; [done|]. cbn [hexDigits]. rewrite length_app, IH. simpl. lia. Qed.

Lemma hexLower_inj x y : 0 <= x < 16 -> 0 <= y < 16 -> hexLower x = hexLower y -> x = y.
Proof.
  intros Hx Hy E. apply (f_equal b2z) in E. unfold hexLower in E.
  destruct (Z.ltb_spec x 10), (Z.ltb_spec y 10); rewrite !b2z_z2b_small in E by (unfold in_u8; lia); lia.
Qed.

Lemma hexDigits2_inj x y : in_u8 x -> in_u8 y -> hexDigits 2 x = hexDigits 2 y -> x = y.
Proof.
  unfold in_u8. intros Hx Hy. cbn [hexDigits app]. intros [= E1 E2].
  pose proof (Z_div_mod_eq_full x 16). pose proof (Z_div_mod_eq_full y 16).
  pose proof (Z.mod_pos_bound x 16 ltac:(done)). pose proof (Z.mod_pos_bound y 16 ltac:(done)).
  rewrite !(Z.mod_small (_ / 16)) in E1 by lia.
  apply hexLower_inj in E1; [|lia..]. apply hexLower_inj in E2; [|lia..]. lia.
Qed.

(** Distinct byte strings have distinct hexadecimal texts. *)
Lemma hexEncode_inj l : forall k, hexEncode l = hexEncode k -> l = k.
Proof.
  unfold hexEncode. induction l as [|a l IH]; intros [|b k] E; try done.
  rewrite !fmap_cons in E. cbn [concat] in E.
  apply app_inj_1 in E as [E1 E2]; [|by rewrite !length_hexDigits].
  apply hexDigits2_inj in E1; [|apply b2z_range..].
  rewrite (IH k E2), <-(z2b_b2z a), E1, z2b_b2z. done.
Qed.
