(* ===== verification/Capability.v ===== *)
(** * Capability checks: src/security/capability/checker.go

    The allowlist of actions per capability with its run-time changes.  The
    theorem relates a check to the history of grants and revocations. *)

From S2P Require Import Prelude Time Message.
Local Open Scope Z_scope.

Record Checker := MkChecker { allowlist : gmap string (gset string) }.

Definition NewChecker (al : gmap string (list string)) : Checker :=
  MkChecker ((fun actions => list_to_set actions) <$> al).

(** The loop over the peer's capabilities: the first that permits the action
    ends it. *)
Fixpoint permitted (c : Checker) (peerCapabilities : list string) (action : string) : bool :=
  match peerCapabilities with
  | [] => false
  | cap :: rest =>
      match allowlist c !! cap with
      | Some actions => if decide (action ∈ actions) then true else permitted c rest action
      | None => permitted c rest action
      end
  end.

Definition Checker_Check (c : Checker) (peerCapabilities : list string) (action : string) : option error :=
  if permitted c peerCapabilities action then None
  else Some (Wrapf "%w: no capability permits action %q" ErrCapability [ArgStr action]).

Definition Grant (capability action : string) (c : Checker) : Checker :=
  let actions := match allowlist c !! capability with Some s => s | None => ∅ end in
  MkChecker (<[capability := {[action]} ∪ actions]> (allowlist c)).

Definition Checker_Revoke (capability action : string) (c : Checker) : Checker :=
  match allowlist c !! capability with
  | Some actions => MkChecker (<[capability := actions ∖ {[action]}]> (allowlist c))
  | None => c
  end.

(** ** Specification *)

Inductive cap_op := OpGrant (capability action : string) | OpRevoke (capability action : string).

Definition cap_step (c : Checker) (op : cap_op) : Checker :=
  match op with
  | OpGrant cap act => Grant cap act c
  | OpRevoke cap act => Checker_Revoke cap act c
  end.

(** The last change of a pair decides it; without one, the initial list does. *)
Fixpoint granted (al : gmap string (list string)) (ops : list cap_op) (cap act : string) : bool :=
  match ops with
  | [] => match al !! cap with Some actions => bool_decide (act ∈ actions) | None => false end
  | OpGrant c a :: older => if decide (c = cap /\ a = act) then true else granted al older cap act
  | OpRevoke c a :: older => if decide (c = cap /\ a = act) then false else granted al older cap act
  end.

(** Capability [cap] permits [act]. *)
Definition allows (c : Checker) (cap act : string) : Prop :=
  exists actions, allowlist c !! cap = Some actions /\ act ∈ actions.

Lemma allows_new al cap act : allows (NewChecker al) cap act <-> granted al [] cap act = true.
Proof.
  unfold allows, NewChecker. cbn [allowlist granted]. rewrite lookup_fmap.
  destruct (al !! cap) as [l|]; simpl; [|naive_solver].
  rewrite bool_decide_eq_true. split; [|intros; eexists; split; [done|set_solver]].
  intros (actions & [= <-] & H). set_solver.
Qed.

Lemma allows_Grant c cap act cap' act' :
  allows (Grant cap act c) cap' act' <-> (cap = cap' /\ act = act') \/ allows c cap' act'.
Proof.
  unfold allows, Grant. cbn [allowlist]. destruct (decide (cap = cap')) as [->|Hne].
  - rewrite lookup_insert_eq. split.
    + intros (actions & [= <-] & Hin). apply elem_of_union in Hin as [->%elem_of_singleton|Hin]; [by left|].
      right. destruct (allowlist c !! cap'); [by eexists|set_solver].
    + intros [[_ ->]|(actions & -> & Hin)]; (eexists; split; [done|set_solver]).
  - rewrite lookup_insert_ne by done. naive_solver.
Qed.

Lemma allows_Revoke c cap act cap' act' :
  allows (Checker_Revoke cap act c) cap' act' <-> ~ (cap = cap' /\ act = act') /\ allows c cap' act'.
Proof.
  unfold allows, Checker_Revoke. destruct (allowlist c !! cap) as [s|] eqn:E.
  - cbn [allowlist]. destruct (decide (cap = cap')) as [<-|Hne].
    + rewrite lookup_insert_eq, E. split.
      * intros (actions & [= <-] & [Hin Hne]%elem_of_difference). split; [|by eexists]. set_solver.
      * intros [Hne (actions & [= <-] & Hin)]. eexists. split; [done|]. set_solver.
    + rewrite lookup_insert_ne by done. naive_solver.
  - split; [|naive_solver]. intros (actions & Ha & Hin). split; [|by exists actions].
    intros [<- <-]. congruence.
Qed.

Lemma allows_history al ops cap act :
  allows (foldr (fun op c => cap_step c op) (NewChecker al) ops) cap act <->
  granted al ops cap act = true.
Proof.
  induction ops as [|op ops IH]; [apply allows_new|]. destruct op as [c a|c a]; cbn [foldr cap_step granted].
  - rewrite allows_Grant, IH. case_decide; naive_solver.
  - rewrite allows_Revoke, IH. case_decide; naive_solver.
Qed.

Lemma permitted_spec c caps act :
  permitted c caps act = true <-> exists cap, cap ∈ caps /\ allows c cap act.
Proof.
  induction caps as [|cap caps IH]; cbn [permitted]; [set_solver|].
  assert ((exists cap0, cap0 ∈ cap :: caps /\ allows c cap0 act) <->
    allows c cap act \/ exists cap0, cap0 ∈ caps /\ allows c cap0 act) as -> by set_solver.
  rewrite <-IH. unfold allows. destruct (allowlist c !! cap) as [s|]; [|naive_solver].
  case_decide; naive_solver.
Qed.

(** ** Properties *)

(** A check passes exactly when some capability of the peer permits the
    action according to the history of the checker: the latest grant or
    revocation of that capability and action, or the initial allowlist when
    there was none; every refusal is [ErrCapability].  ([ops] lists the changes
    latest first.) *)
Theorem checker_history (al : gmap string (list string)) (ops : list cap_op)
    (peerCapabilities : list string) (action : string) :
  let c := foldr (fun op c => cap_step c op) (NewChecker al) ops in
  (Checker_Check c peerCapabilities action = None <->
   exists cap, cap ∈ peerCapabilities /\ granted al ops cap action = true) /\
  (forall e, Checker_Check c peerCapabilities action = Some e -> errors_Is e ErrCapability = true).
Proof.
  intros c. unfold Checker_Check. pose proof (permitted_spec c peerCapabilities action) as Hp.
  assert ((exists cap, cap ∈ peerCapabilities /\ granted al ops cap action = true) <->
    exists cap, cap ∈ peerCapabilities /\ allows c cap action) as ->
    by (split; intros (cap & ? & ?); exists cap; split; try done; by apply allows_history).
  destruct (permitted c peerCapabilities action).
  - split; [naive_solver|done].
  - split; [naive_solver|]. by intros e [= <-].
Qed.
