(* ===== verification/Auth.v ===== *)
(** * Authentication: src/security/auth/identity.go

    The challenge-response handshake, the session table and session
    lifetimes.  The clock reading and the bytes of the random source are inputs
    of the operations that use them; a random read may fail.  The theorems say
    which responses are accepted, where every session in the table comes from,
    and when a session is valid. *)

From S2P Require Import Prelude Time Utf8 Sha256 Fmt Message.
Local Open Scope Z_scope.

Record PeerIdentity := MkPeer {
  ServiceID : string;
  Capabilities : list string;
  SessionToken : string;
  CreatedAt : Time;
  SessionTTL : Z
}.

Definition IsExpired (now : Time) (p : PeerIdentity) : bool :=
  if SessionTTL p <=? 0 then false
  else SessionTTL p <? Sub now (CreatedAt p).

Record Challenge := MkChallenge {
  ch_ServiceID : string;
  Nonce : list byte;
  ch_CreatedAt : Time
}.

Record Authenticator := MkAuthenticator {
  sharedSecret : list byte;
  knownServices : gmap string (list string);
  activeSessions : gmap string PeerIdentity;
  pendingChallenges : gmap string Challenge;
  sessionTTL : Z
}.

Definition NewAuthenticator (secret : list byte) (known : gmap string (list string)) : Authenticator :=
  MkAuthenticator secret known ∅ ∅ (1 * Hour).

Definition SetSessionTTL (ttl : Z) (a : Authenticator) : Authenticator :=
  MkAuthenticator (sharedSecret a) (knownServices a) (activeSessions a) (pendingChallenges a) ttl.

(** The table updates of the operations. *)
Definition with_pending (f : gmap string Challenge -> gmap string Challenge) (a : Authenticator) :=
  MkAuthenticator (sharedSecret a) (knownServices a) (activeSessions a) (f (pendingChallenges a)) (sessionTTL a).

Definition with_sessions (f : gmap string PeerIdentity -> gmap string PeerIdentity) (a : Authenticator) :=
  MkAuthenticator (sharedSecret a) (knownServices a) (f (activeSessions a)) (pendingChallenges a) (sessionTTL a).

(** [rnd] is the outcome of the [rand.Read] of the operation. *)
Definition CreateChallenge (rnd : result (list byte)) (now : Time) (serviceID : string)
  : M Authenticator Challenge := fun a =>
  match knownServices a !! serviceID with
  | None => (Err (Wrapf "%w: unknown service %q" ErrAuth [ArgStr serviceID]), a)
  | Some _ =>
      match rnd with
      | Err err => (Err (Wrapf "generate nonce: %w" err []), a)
      | Ok nonce =>
          let challenge := MkChallenge serviceID nonce (UTC now) in
          (Ok challenge, with_pending (insert serviceID challenge) a)
      end
  end.

(** [generateToken] *)
Definition generateToken (rnd : result (list byte)) : result string :=
  b ← rnd; Ok (string_of_bytes (hexEncode b)).

(** The session both authentication paths open. *)
Definition openSession (rnd : result (list byte)) (now : Time) (serviceID : string) (capsSrc : list string)
  : M Authenticator PeerIdentity := fun a =>
  match generateToken rnd with
  | Err err => (Err (Wrapf "generate token: %w" err []), a)
  | Ok token =>
      let peer := MkPeer serviceID capsSrc token (UTC now) (sessionTTL a) in
      (Ok peer, with_sessions (insert token peer) a)
  end.

Definition VerifyResponse (rnd : result (list byte)) (now : Time) (serviceID : string) (response : list byte)
  : M Authenticator PeerIdentity := fun a =>
  match pendingChallenges a !! serviceID with
  | None => (Err (Wrapf "%w: no pending challenge for %q" ErrAuth [ArgStr serviceID]), a)
  | Some challenge =>
      let a := with_pending (delete serviceID) a in
      let expected := hmacSHA256 (sharedSecret a) (Nonce challenge) in
      if negb (hmacEqual expected response)
      then (Err (Wrapf "%w: challenge-response verification failed for %q" ErrAuth [ArgStr serviceID]), a)
      else
        let capsSrc := match knownServices a !! serviceID with Some c => c | None => [] end in
        openSession rnd now serviceID capsSrc a
  end.

Definition Authenticate (rnd : result (list byte)) (now : Time) (serviceID : string)
  : M Authenticator PeerIdentity := fun a =>
  match knownServices a !! serviceID with
  | None => (Err (Wrapf "%w: unknown service %q" ErrAuth [ArgStr serviceID]), a)
  | Some capsSrc => openSession rnd now serviceID capsSrc a
  end.

Definition ValidateSession (now : Time) (token : string) (a : Authenticator) : result PeerIdentity :=
  match activeSessions a !! token with
  | None => Err (Wrapf "%w: invalid session token" ErrAuth [])
  | Some peer =>
      if IsExpired now peer then Err (Wrapf "%w: session expired" ErrAuth []) else Ok peer
  end.

Definition RevokeSession (token : string) (a : Authenticator) : Authenticator :=
  with_sessions (delete token) a.

Definition CleanupExpired (now : Time) (a : Authenticator) : Z * Authenticator :=
  let expired := filter (fun kv => IsExpired now (snd kv) = true) (activeSessions a) in
  (Z.of_nat (size expired),
   with_sessions (filter (fun kv => ~ (IsExpired now (snd kv) = true))) a).

Definition ActiveSessionCount (a : Authenticator) : Z := Z.of_nat (size (activeSessions a)).

(** ** Histories *)

(** The operations that change the authenticator, with their inputs. *)
Inductive auth_op :=
  | AChallenge (rnd : result (list byte)) (now : Time) (serviceID : string)
  | AVerify (rnd : result (list byte)) (now : Time) (serviceID : string) (response : list byte)
  | AAuthenticate (rnd : result (list byte)) (now : Time) (serviceID : string)
  | ARevoke (token : string)
  | ACleanup (now : Time)
  | ASetTTL (ttl : Z).

Definition auth_step (a : Authenticator) (op : auth_op) : Authenticator :=
  match op with
  | AChallenge rnd now sid => snd (CreateChallenge rnd now sid a)
  | AVerify rnd now sid resp => snd (VerifyResponse rnd now sid resp a)
  | AAuthenticate rnd now sid => snd (Authenticate rnd now sid a)
  | ARevoke token => RevokeSession token a
  | ACleanup now => snd (CleanupExpired now a)
  | ASetTTL ttl => SetSessionTTL ttl a
  end.

Definition auth_run (a : Authenticator) (ops : list auth_op) : Authenticator := foldl auth_step a ops.

(** The operations that replace or consume the challenge of a service. *)
Definition concerns (sid : string) (op : auth_op) : Prop :=
  match op with
  | AChallenge (Ok _) _ s => s = sid
  | AVerify _ _ s _ => s = sid
  | _ => False
  end.

(** The history [ops] has a successful challenge of [sid] with [nonce], and
    nothing since that touches it. *)
Definition challenged (ops : list auth_op) (sid : string) (nonce : list byte) : Prop :=
  exists pre now mid, ops = pre ++ AChallenge (Ok nonce) now sid :: mid /\
    Forall (fun op => ~ concerns sid op) mid.

(** The history [ops] has a challenge of [sid] and then the right response to
    it, which opened the session [token]. *)
Definition responded (secret : list byte) (ops : list auth_op) (sid token : string) : Prop :=
  exists pre nonce rnd now post,
    ops = pre ++ AVerify (Ok rnd) now sid (hmacSHA256 secret nonce) :: post /\
    challenged pre sid nonce /\ token = string_of_bytes (hexEncode rnd).

(** The history [ops] opened the session by the legacy path. *)
Definition legacy (ops : list auth_op) (sid token : string) : Prop :=
  exists rnd now, AAuthenticate (Ok rnd) now sid ∈ ops /\ token = string_of_bytes (hexEncode rnd).

(** What the tables record of a history. *)
Record explains (secret : list byte) (known : gmap string (list string)) (ops : list auth_op)
    (a : Authenticator) : Prop := {
  ex_secret : sharedSecret a = secret;
  ex_known : knownServices a = known;
  ex_pending sid ch : pendingChallenges a !! sid = Some ch ->
    is_Some (known !! sid) /\ challenged ops sid (Nonce ch);
  ex_sessions token p : activeSessions a !! token = Some p ->
    SessionToken p = token /\ known !! ServiceID p = Some (Capabilities p) /\
    (responded secret ops (ServiceID p) token \/ legacy ops (ServiceID p) token)
}.

Lemma challenged_snoc ops op sid nonce :
  challenged ops sid nonce -> ~ concerns sid op -> challenged (ops ++ [op]) sid nonce.
Proof.
  intros (pre & now & mid & -> & Hm) Hop. exists pre, now, (mid ++ [op]).
  split; [by rewrite <-app_assoc|]. apply Forall_app. by split; [|apply Forall_singleton].
Qed.

Lemma responded_snoc secret ops op sid token :
  responded secret ops sid token -> responded secret (ops ++ [op]) sid token.
Proof.
  intros (pre & nonce & rnd & now & post & -> & Hc & Ht). exists pre, nonce, rnd, now, (post ++ [op]).
  by rewrite <-app_assoc.
Qed.

Lemma legacy_snoc ops op sid token : legacy ops sid token -> legacy (ops ++ [op]) sid token.
Proof. intros (rnd & now & Hin & Ht). exists rnd, now. set_solver. Qed.

(** A step that touches neither table of challenges nor opens a session. *)
Lemma explains_keep secret known ops op a a' :
  explains secret known ops a ->
  sharedSecret a' = sharedSecret a -> knownServices a' = knownServices a ->
  pendingChallenges a' = pendingChallenges a -> activeSessions a' ⊆ activeSessions a ->
  (forall sid, is_Some (pendingChallenges a !! sid) -> ~ concerns sid op) ->
  explains secret known (ops ++ [op]) a'.
Proof.
  intros [Hs Hk Hp Ha] Es Ek Ep Ea Hc. constructor; [congruence|congruence|..].
  - intros sid ch Hch. rewrite Ep in Hch. destruct (Hp sid ch Hch) as [Hks Hcs]. split; [done|].
    apply challenged_snoc; [done|]. apply Hc. by eexists.
  - intros token p Ht. destruct (Ha token p) as (H1 & H2 & H3); [by eapply lookup_weaken|].
    split; [done|]. split; [done|]. destruct H3; [left; by apply responded_snoc|right; by apply legacy_snoc].
Qed.

Lemma explains_open secret known ops op a rnd now sid caps :
  explains secret known ops a -> known !! sid = Some caps ->
  (forall sid', is_Some (pendingChallenges a !! sid') -> ~ concerns sid' op) ->
  (forall b, rnd = Ok b -> let token := string_of_bytes (hexEncode b) in
     responded secret (ops ++ [op]) sid token \/ legacy (ops ++ [op]) sid token) ->
  explains secret known (ops ++ [op]) (snd (openSession rnd now sid caps a)).
Proof.
  intros H Hk Hc Hr.
  assert (explains secret known (ops ++ [op]) a) as H' by (by eapply explains_keep).
  unfold openSession, generateToken. destruct rnd as [b|err]; [|done]. cbn [mbind result_bind].
  specialize (Hr b eq_refl). cbv zeta in *. destruct H' as [Hs Hkn Hp Ha].
  constructor; cbn [snd with_sessions sharedSecret knownServices pendingChallenges activeSessions]; try done.
  intros token p Ht. apply lookup_insert_Some in Ht as [[<- <-]|[_ Ht]]; [|by apply Ha].
  cbn [SessionToken ServiceID Capabilities]. done.
Qed.

Lemma explains_step secret known ops op a :
  explains secret known ops a -> explains secret known (ops ++ [op]) (auth_step a op).
Proof.
  intros H. pose proof H as [Hs Hk Hp Ha]. destruct op as [rnd now sid|rnd now sid resp|rnd now sid|token|now|ttl]; cbn [auth_step].
  - unfold CreateChallenge. rewrite Hk. destruct (known !! sid) as [caps|] eqn:Ek.
    2: { eapply explains_keep; try done. intros sid' Hs' Hc. destruct rnd; [|done]. simpl in Hc. subst.
         destruct Hs' as [ch Hch]. destruct (Hp _ _ Hch) as [[? ?] _]. congruence. }
    destruct rnd as [nonce|err]; [|eapply explains_keep; try done; by intros ? _ []].
    constructor; cbn [snd with_pending sharedSecret knownServices pendingChallenges activeSessions]; try done.
    + intros sid' ch Hch. apply lookup_insert_Some in Hch as [[<- <-]|[Hne Hch]].
      * split; [by eexists|]. cbn [Nonce]. exists ops, now, []. split; [done|by apply Forall_nil_2].
      * destruct (Hp sid' ch Hch) as [? Hc]. split; [done|]. by apply challenged_snoc.
    + intros token p Ht. destruct (Ha token p Ht) as (? & ? & H3). split_and!; try done.
      destruct H3; [left; by apply responded_snoc|right; by apply legacy_snoc].
  - unfold VerifyResponse. destruct (pendingChallenges a !! sid) as [ch|] eqn:Ech.
    2: { eapply explains_keep; try done. intros sid' [ch Hch] Hc. simpl in Hc. subst. congruence. }
    destruct (Hp sid ch Ech) as [[caps Hcaps] Hchal]. cbv zeta.
    set (a1 := with_pending (delete sid) a).
    assert (forall sid', is_Some (pendingChallenges a1 !! sid') -> ~ concerns sid' (AVerify rnd now sid resp)) as Hnc.
    { intros sid' [ch' Hch'] Hc. simpl in Hc. subst sid'.
      cbn [a1 with_pending pendingChallenges] in Hch'. by rewrite lookup_delete_eq in Hch'. }
    assert (explains secret known ops a1) as H1.
    { constructor; try done. intros sid' ch' Hch'. cbn [a1 with_pending pendingChallenges] in Hch'.
      apply lookup_delete_Some in Hch' as [_ Hch']. by apply Hp. }
    destruct (hmacEqual _ resp) eqn:Eh; [|by eapply explains_keep].
    change (knownServices a1) with (knownServices a). rewrite Hk, Hcaps. simpl negb. cbv iota.
    apply explains_open; try done. intros b ->. left. apply hmacEqual_true in Eh.
    change (sharedSecret a1) with (sharedSecret a) in Eh. rewrite Hs in Eh. subst resp.
    by exists ops, (Nonce ch), b, now, [].
  - unfold Authenticate. rewrite Hk. destruct (known !! sid) as [caps|] eqn:Ek; [|eapply explains_keep; try done; by intros ? _ []].
    apply explains_open; try done. { by intros sid' _ []. }
    intros b ->. right. exists b, now. split; [set_solver|done].
  - eapply explains_keep; try done; [apply delete_subseteq|by intros ? _ []].
  - eapply explains_keep; try done; [apply map_filter_subseteq|by intros ? _ []].
  - eapply explains_keep; try done. by intros ? _ [].
Qed.

Lemma explains_run secret known ops :
  explains secret known ops (auth_run (NewAuthenticator secret known) ops).
Proof.
  induction ops as [|op ops IH] using rev_ind.
  - constructor; try done; intros ? ?; simpl; by rewrite lookup_empty.
  - unfold auth_run. rewrite foldl_app. by apply explains_step.
Qed.

(** ** Properties *)

(** C30: Every session has a proof behind it: whatever sequence of operations an
    authenticator goes through, with whatever clock readings, random bytes and
    responses, a session in its table belongs to a known service, has exactly
    that service's capabilities, and was opened either by the legacy
    [Authenticate] or by the response HMAC(secret, nonce) to the challenge with
    that nonce issued to that service, with no other challenge or response for
    the service in between. *)
Theorem session_provenance (secret : list byte) (known : gmap string (list string))
    (ops : list auth_op) (token : string) (p : PeerIdentity) :
  activeSessions (auth_run (NewAuthenticator secret known) ops) !! token = Some p ->
  SessionToken p = token /\ known !! ServiceID p = Some (Capabilities p) /\
  (responded secret ops (ServiceID p) token \/ legacy ops (ServiceID p) token).
Proof. apply (explains_run secret known ops). Qed.

Definition sampleKnown : gmap string (list string) := {[ "eni.min"%string := ["ui:control"%string] ]}.

Definition sampleHandshake : list auth_op :=
  [AChallenge (Ok [z2b 7]) zeroTime "eni.min";
   AVerify (Ok [z2b 255]) zeroTime "eni.min" (hmacSHA256 [z2b 1] [z2b 7])].

Lemma session_provenance_witness :
  exists p, activeSessions (auth_run (NewAuthenticator [z2b 1] sampleKnown) sampleHandshake) !! "ff"%string = Some p /\
    Capabilities p = ["ui:control"%string] /\
    (responded [z2b 1] sampleHandshake "eni.min" "ff" \/ legacy sampleHandshake "eni.min" "ff").
Proof.
  exists (MkPeer "eni.min" ["ui:control"%string] "ff" zeroTime (1 * Hour)).
  assert (activeSessions (auth_run (NewAuthenticator [z2b 1] sampleKnown) sampleHandshake) !! "ff"%string =
    Some (MkPeer "eni.min" ["ui:control"%string] "ff" zeroTime (1 * Hour))) as E by (vm_compute; reflexivity).
  split; [exact E|]. split; [reflexivity|]. apply (session_provenance _ _ _ _ _ E).
Defined.

(** C31: [VerifyResponse] on every branch: it succeeds exactly on a pending
    challenge answered with the HMAC of its nonce (and random bytes for the
    token), opening a session with the service's capabilities; it consumes the
    challenge whatever the answer, so that a second answer is refused; and a
    refusal opens no session. *)
Theorem verify_response_spec (a : Authenticator) (rnd : result (list byte)) (now : Time)
    (sid : string) (resp : list byte) :
  let '(r, a') := VerifyResponse rnd now sid resp a in
  pendingChallenges a' !! sid = None /\
  match r with
  | Ok p => exists ch b, pendingChallenges a !! sid = Some ch /\ rnd = Ok b /\
      resp = hmacSHA256 (sharedSecret a) (Nonce ch) /\
      p = MkPeer sid (default [] (knownServices a !! sid)) (string_of_bytes (hexEncode b)) (UTC now) (sessionTTL a) /\
      activeSessions a' = <[SessionToken p := p]> (activeSessions a)
  | Err e => activeSessions a' = activeSessions a /\
      (errors_Is e ErrAuth = true \/ exists err, rnd = Err err) /\
      forall ch b, pendingChallenges a !! sid = Some ch -> rnd = Ok b ->
        resp <> hmacSHA256 (sharedSecret a) (Nonce ch)
  end.
Proof.
  unfold VerifyResponse. destruct (pendingChallenges a !! sid) as [ch|] eqn:Ech; [|naive_solver].
  cbv zeta. cbn [sharedSecret knownServices with_pending].
  destruct (hmacEqual _ resp) eqn:Eh; cbn [negb].
  - apply hmacEqual_true in Eh. unfold openSession, generateToken.
    destruct rnd as [b|err]; cbn [mbind result_bind pendingChallenges activeSessions with_pending with_sessions].
    + rewrite lookup_delete_eq. split; [done|]. exists ch, b. by split_and!.
    + rewrite lookup_delete_eq. split_and!; [done|done|right; by eexists|done].
  - cbn [pendingChallenges activeSessions with_pending]. rewrite lookup_delete_eq.
    split_and!; [done|done|by left|]. intros ch' b [= <-] _ ->.
    rewrite (proj2 (hmacEqual_true _ _) eq_refl) in Eh. done.
Qed.

(** Session lifetimes: a token validates exactly while its session is in the
    table and not expired, a session without a positive TTL never expires, and
    [CleanupExpired] removes the expired sessions only, reports how many there
    were, and changes no valid session. *)
Theorem session_lifetime (a : Authenticator) (now : Time) (token : string) (p : PeerIdentity) :
  (ValidateSession now token a = Ok p <-> activeSessions a !! token = Some p /\
     (SessionTTL p <= 0 \/ Sub now (CreatedAt p) <= SessionTTL p)) /\
  let '(removed, a') := CleanupExpired now a in
  (ValidateSession now token a' = Ok p <-> ValidateSession now token a = Ok p) /\
  removed + ActiveSessionCount a' = ActiveSessionCount a /\
  pendingChallenges a' = pendingChallenges a.
Proof.
  assert (forall a, ValidateSession now token a = Ok p <->
    activeSessions a !! token = Some p /\ IsExpired now p = false) as Hv.
  { intros a0. unfold ValidateSession. destruct (activeSessions a0 !! token) as [q|]; [|by split; [|intros []]].
    destruct (IsExpired now q) eqn:E.
    - split; [done|]. intros [[= ->] ?]. congruence.
    - split; [by intros [= ->]|by intros [[= ->] _]]. }
  split.
  - rewrite Hv. unfold IsExpired. destruct (Z.leb_spec (SessionTTL p) 0).
    + split; [intros [? _]; split; [done|by left]|by intros [? _]].
    + rewrite Z.ltb_ge. split; [intros [? ?]; split; [done|by right]|intros [? [?|?]]; [lia|done]].
  - cbn [CleanupExpired]. split; [|split; [|done]].
    + rewrite !Hv. cbn [activeSessions with_sessions]. rewrite map_lookup_filter_Some. simpl.
      destruct (IsExpired now p); [by split; intros []|]. split; [by intros [[? _] _]|by intros [? _]].
    + unfold ActiveSessionCount. cbn [activeSessions with_sessions].
      rewrite <-Nat2Z.inj_add. f_equal. rewrite <-map_size_disj_union by apply map_disjoint_filter_complement.
      by rewrite map_filter_union_complement.
Qed.
