(* ===== verification/Keyring.v ===== *)
(** * The key ring: src/security/keyring/keyring.go

    Keys with expiry, revocation and rotation.  The ring's map holds pointers
    to entries that callers also hold, and [Revoke] and [Rotate] write through
    them; entries therefore live in a store of their own and the map holds
    their addresses. *)

From S2P Require Import Prelude Time Utf8 Fmt.
Local Open Scope Z_scope.

Record KeyEntry := MkEntry {
  ID : string;
  Key : list byte;
  KCreatedAt : Time;
  ExpiresAt : Time;
  Revoked : bool
}.

Record Keyring := MkKeyring {
  keys : gmap string nat;
  entries : gmap nat KeyEntry;
  nextAddr : nat
}.

Definition New : Keyring := MkKeyring ∅ ∅ 0.

(** [&KeyEntry{...}] *)
Definition alloc (e : KeyEntry) (kr : Keyring) : nat * Keyring :=
  (nextAddr kr, MkKeyring (keys kr) (<[nextAddr kr := e]> (entries kr)) (S (nextAddr kr))).

(** [kr.keys[id] = entry] and [delete(kr.keys, id)] *)
Definition setKey (id : string) (addr : nat) (kr : Keyring) : Keyring :=
  MkKeyring (<[id := addr]> (keys kr)) (entries kr) (nextAddr kr).
Definition delKey (id : string) (kr : Keyring) : Keyring :=
  MkKeyring (delete id (keys kr)) (entries kr) (nextAddr kr).

(** [entry.Revoked = true] *)
Definition revokeEntry (e : KeyEntry) : KeyEntry := MkEntry (ID e) (Key e) (KCreatedAt e) (ExpiresAt e) true.
Definition revokeAddr (addr : nat) (kr : Keyring) : Keyring :=
  MkKeyring (keys kr) (alter revokeEntry addr (entries kr)) (nextAddr kr).

(** The entry of a new key; a TTL that is not positive sets no expiry. *)
Definition newEntry (id : string) (key : list byte) (now : Time) (ttl : Z) : KeyEntry :=
  MkEntry id key (UTC now) (if 0 <? ttl then Add (UTC now) ttl else zeroTime) false.

(** Random bytes: [rnd n] is the outcome of reading [n] of them. *)
Definition Generate (rnd : Z -> result (list byte)) (now : Time) (id : string) (keyLen ttl : Z)
  : M Keyring nat := fun kr =>
  if String.eqb id "" then (Err (ErrorNew "key id is required"), kr)
  else
    let keyLen := if keyLen <=? 0 then 32 else keyLen in
    match rnd keyLen with
    | Err err => (Err (Wrapf "generate random key: %w" err []), kr)
    | Ok raw =>
        let '(entry, kr) := alloc (newEntry id raw now ttl) kr in
        (Ok entry, setKey id entry kr)
    end.

Definition Store (now : Time) (id : string) (key : list byte) (ttl : Z) : M Keyring unit := fun kr =>
  if String.eqb id "" || (zlen key =? 0) then (Err (ErrorNew "id and key are required"), kr)
  else
    let '(entry, kr) := alloc (newEntry id key now ttl) kr in
    (Ok tt, setKey id entry kr).

Definition isExpired (now : Time) (e : KeyEntry) : bool :=
  negb (IsZero (ExpiresAt e)) && After now (ExpiresAt e).

(** The entry under [id], through its pointer. *)
Definition entryOf (id : string) (kr : Keyring) : option (nat * KeyEntry) :=
  addr ← keys kr !! id; e ← entries kr !! addr; Some (addr, e).

Definition Lookup (now : Time) (id : string) (kr : Keyring) : result (nat * KeyEntry) :=
  match entryOf id kr with
  | None => Err (Errorf "key %q not found" [ArgStr id])
  | Some (addr, e) =>
      if Revoked e then Err (Errorf "key %q has been revoked" [ArgStr id])
      else if isExpired now e then Err (Errorf "key %q has expired" [ArgStr id])
      else Ok (addr, e)
  end.

Definition Keyring_Revoke (id : string) : M Keyring unit := fun kr =>
  match keys kr !! id with
  | None => (Err (Errorf "key %q not found" [ArgStr id]), kr)
  | Some addr => (Ok tt, revokeAddr addr kr)
  end.

Definition Keyring_Delete (id : string) (kr : Keyring) : Keyring := delKey id kr.

Definition randomBytes (rnd : Z -> result (list byte)) (n : Z) : result (list byte) :=
  match rnd n with
  | Err err => Err (Wrapf "read %d random bytes: %w" err [ArgInt n])
  | Ok b => Ok b
  end.

(** [rnd1] is the source for the suffix, [rnd2] for the key. *)
Definition Rotate (rnd1 rnd2 : Z -> result (list byte)) (now : Time) (id : string) (keyLen ttl : Z)
  : M Keyring nat := fun kr =>
  match randomBytes rnd1 4 with
  | Err err => (Err (Wrapf "rotate %q: %w" err [ArgStr id]), kr)
  | Ok suffix =>
      let oldID := (id +:+ ".prev." +:+ string_of_bytes (hexEncode suffix))%string in
      let kr := match keys kr !! id with
                | Some old => delKey id (setKey oldID old (revokeAddr old kr))
                | None => kr
                end in
      let keyLen := if keyLen <=? 0 then 32 else keyLen in
      match rnd2 keyLen with
      | Err err => (Err (Wrapf "generate random key: %w" err []), kr)
      | Ok raw =>
          let '(entry, kr) := alloc (newEntry id raw now ttl) kr in
          (Ok entry, setKey id entry kr)
      end
  end.

(** The entries of the map, as values; Go's map order is arbitrary. *)
Definition live (now : Time) (kr : Keyring) (addr : nat) : bool :=
  match entries kr !! addr with
  | Some e => negb (Revoked e) && negb (isExpired now e)
  | None => false
  end.

Definition ListActive (now : Time) (kr : Keyring) : list KeyEntry :=
  omap (fun kv => if live now kr (snd kv) then entries kr !! snd kv else None) (map_to_list (keys kr)).

Definition Cleanup (now : Time) (kr : Keyring) : Z * Keyring :=
  let dead := filter (fun kv => live now kr (snd kv) = false) (keys kr) in
  let kept := filter (fun kv => ~ (live now kr (snd kv) = false)) (keys kr) in
  (Z.of_nat (size dead), MkKeyring kept (entries kr) (nextAddr kr)).

(** ** The invariant *)

(** Every pointer of the map is to an entry, and no two ids share one, so that
    revoking one id never touches another. *)
Record ring_inv (kr : Keyring) : Prop := {
  inv_alloc addr : is_Some (entries kr !! addr) <-> (addr < nextAddr kr)%nat;
  inv_keys id addr : keys kr !! id = Some addr -> (addr < nextAddr kr)%nat;
  inv_inj id id' addr : keys kr !! id = Some addr -> keys kr !! id' = Some addr -> id = id'
}.

Lemma inv_New : ring_inv New.
Proof.
  constructor; simpl; intros *; rewrite ?lookup_empty; [|done|done].
  split; [by intros []|lia].
Qed.

Lemma inv_revokeAddr addr kr : ring_inv kr -> ring_inv (revokeAddr addr kr).
Proof.
  intros [Ha Hk Hi]. constructor; simpl; [|done|done]. intros a. rewrite <-Ha.
  destruct (decide (a = addr)) as [->|]; [rewrite lookup_alter_eq; by rewrite fmap_is_Some|].
  by rewrite lookup_alter_ne.
Qed.

Lemma inv_delKey id kr : ring_inv kr -> ring_inv (delKey id kr).
Proof.
  intros [Ha Hk Hi]. constructor; simpl; [done|..].
  - intros i a [_ H]%lookup_delete_Some. by eapply Hk.
  - intros i j a [_ H1]%lookup_delete_Some [_ H2]%lookup_delete_Some. by eapply Hi.
Qed.

(** Storing a new entry under an id. *)
Lemma inv_insert id e kr :
  ring_inv kr -> let '(addr, kr') := alloc e kr in ring_inv (setKey id addr kr').
Proof.
  intros [Ha Hk Hi]. constructor; simpl.
  - intros a. destruct (decide (a = nextAddr kr)) as [->|Hne].
    + rewrite lookup_insert_eq. split; [lia|by eexists].
    + rewrite lookup_insert_ne, Ha by done. lia.
  - intros i a [[_ <-]|[_ H]]%lookup_insert_Some; [lia|]. apply Hk in H. lia.
  - intros i j a [[<- <-]|[? H1]]%lookup_insert_Some [[<- H2]|[? H2]]%lookup_insert_Some; try done.
    + apply Hk in H2. lia.
    + subst. apply Hk in H1. lia.
    + by eapply Hi.
Qed.

(** Moving a pointer to a new id. *)
Lemma inv_move id oldID addr kr :
  ring_inv kr -> keys kr !! id = Some addr -> id <> oldID ->
  ring_inv (delKey id (setKey oldID addr kr)).
Proof.
  intros [Ha Hk Hi] Hid Hne. constructor; simpl; [done|..].
  - intros i a [_ [[_ <-]|[_ H]]%lookup_insert_Some]%lookup_delete_Some; by eapply Hk.
  - intros i j a [? [[<- <-]|[? H1]]%lookup_insert_Some]%lookup_delete_Some
      [? [[<- H2]|[? H2]]%lookup_insert_Some]%lookup_delete_Some; subst; try done.
    + exfalso. eauto.
    + exfalso. eauto.
    + by eapply Hi.
Qed.

(** ** Runs *)

Inductive key_op :=
  | KGenerate (rnd : Z -> result (list byte)) (now : Time) (id : string) (keyLen ttl : Z)
  | KStore (now : Time) (id : string) (key : list byte) (ttl : Z)
  | KRevoke (id : string)
  | KDelete (id : string)
  | KRotate (rnd1 rnd2 : Z -> result (list byte)) (now : Time) (id : string) (keyLen ttl : Z)
  | KCleanup (now : Time).

Definition key_step (kr : Keyring) (op : key_op) : Keyring :=
  match op with
  | KGenerate rnd now id n ttl => snd (Generate rnd now id n ttl kr)
  | KStore now id key ttl => snd (Store now id key ttl kr)
  | KRevoke id => snd (Keyring_Revoke id kr)
  | KDelete id => Keyring_Delete id kr
  | KRotate r1 r2 now id n ttl => snd (Rotate r1 r2 now id n ttl kr)
  | KCleanup now => snd (Cleanup now kr)
  end.

Definition prevID (id : string) (suffix : list byte) : string :=
  (id +:+ ".prev." +:+ string_of_bytes (hexEncode suffix))%string.

Lemma length_append (a b : string) :
  String.length (a +:+ b)%string = (String.length a + String.length b)%nat.
Proof. induction a as [|c a IH]; [done|]. simpl. by rewrite IH. Qed.

Lemma prevID_ne id suffix : id <> prevID id suffix.
Proof.
  intros E. apply (f_equal String.length) in E. unfold prevID in E.
  rewrite length_append in E. simpl in E. lia.
Qed.

Lemma inv_step kr op : ring_inv kr -> ring_inv (key_step kr op).
Proof.
  intros H. destruct op; cbn [key_step].
  - unfold Generate. destruct (String.eqb id ""); [done|]. cbv zeta.
    destruct (rnd _) as [raw|]; [|done]. by apply inv_insert.
  - unfold Store. destruct (_ || _); [done|]. by apply inv_insert.
  - unfold Keyring_Revoke. destruct (keys kr !! id); [|done]. by apply inv_revokeAddr.
  - by apply inv_delKey.
  - unfold Rotate, randomBytes. destruct (rnd1 4) as [suffix|]; [|done]. cbv zeta. fold (prevID id suffix).
    set (kr1 := match keys kr !! id with Some _ => _ | None => _ end).
    assert (ring_inv kr1) as H1.
    { unfold kr1. destruct (keys kr !! id) as [old|] eqn:E; [|done].
      apply inv_move; [by apply inv_revokeAddr|done|apply prevID_ne]. }
    destruct (rnd2 _) as [raw|]; [|done]. by apply inv_insert.
  - destruct H as [Ha Hk Hi]. constructor; simpl; [done|..].
    + intros i a [Hi' _]%map_lookup_filter_Some. by eapply Hk.
    + intros i j a [H1 _]%map_lookup_filter_Some [H2 _]%map_lookup_filter_Some. by eapply Hi.
Qed.

Lemma inv_run ops kr : ring_inv kr -> ring_inv (foldl key_step kr ops).
Proof. revert kr. induction ops as [|op ops IH]; intros kr H; [done|]. apply IH. by apply inv_step. Qed.

(** ** Revocation is final *)

(** [addr] is the address of a revoked entry. *)
Definition revokedAt (kr : Keyring) (addr : nat) : Prop :=
  exists e, entries kr !! addr = Some e /\ Revoked e = true.

Lemma revokedAt_alloc kr addr e id :
  ring_inv kr -> revokedAt kr addr -> let '(a, kr') := alloc e kr in revokedAt (setKey id a kr') addr.
Proof.
  intros H (e0 & He & Hr). exists e0. split; [|done]. simpl.
  assert (addr < nextAddr kr)%nat by (apply (inv_alloc _ H); by eexists).
  by rewrite lookup_insert_ne by lia.
Qed.

Lemma revokedAt_revoke kr addr a : revokedAt kr addr -> revokedAt (revokeAddr a kr) addr.
Proof.
  intros (e & He & Hr). destruct (decide (a = addr)) as [->|Hne].
  - exists (revokeEntry e). simpl. by rewrite lookup_alter_eq, He.
  - exists e. simpl. by rewrite lookup_alter_ne.
Qed.

Lemma revokedAt_step kr op addr : ring_inv kr -> revokedAt kr addr -> revokedAt (key_step kr op) addr.
Proof.
  intros Hi H. destruct op; cbn [key_step]; try done.
  - unfold Generate. destruct (String.eqb id ""); [done|]. cbv zeta.
    destruct (rnd _) as [raw|]; [|done]. by apply revokedAt_alloc.
  - unfold Store. destruct (_ || _); [done|]. by apply revokedAt_alloc.
  - unfold Keyring_Revoke. destruct (keys kr !! id); [|done]. by apply revokedAt_revoke.
  - pose proof (inv_step kr (KRotate rnd1 (fun _ => Err EOF) now id keyLen ttl) Hi) as Hi1.
    cbn [key_step] in Hi1. unfold Rotate, randomBytes in *. destruct (rnd1 4) as [suffix|]; [|done].
    cbv zeta in *. set (kr1 := match keys kr !! id with Some _ => _ | None => _ end) in *.
    assert (revokedAt kr1 addr) as H1.
    { unfold kr1. destruct (keys kr !! id); [|done]. by apply (revokedAt_revoke kr addr n). }
    destruct (rnd2 _) as [raw|]; [|done]. by apply revokedAt_alloc.
Qed.

Lemma revokedAt_run ops kr addr :
  ring_inv kr -> revokedAt kr addr -> revokedAt (foldl key_step kr ops) addr.
Proof.
  revert kr. induction ops as [|op ops IH]; intros kr Hi H; [done|].
  apply IH; [by apply inv_step|by apply revokedAt_step].
Qed.

Lemma Lookup_Ok now id kr addr e :
  Lookup now id kr = Ok (addr, e) <->
  keys kr !! id = Some addr /\ entries kr !! addr = Some e /\ Revoked e = false /\ isExpired now e = false.
Proof.
  unfold Lookup, entryOf. destruct (keys kr !! id) as [a|] eqn:Ek; simpl; [|naive_solver].
  destruct (entries kr !! a) as [e0|] eqn:Ee; simpl; [|naive_solver].
  destruct (Revoked e0) eqn:Er; [naive_solver congruence|].
  destruct (isExpired now e0) eqn:Ex; naive_solver congruence.
Qed.

(** ** Properties *)

(** Revocation is final: once an entry of the ring is revoked, directly or
    by rotation, no later sequence of operations makes [Lookup] return it
    again, under any id and at any time. *)
Theorem revoked_forever (ops ops' : list key_op) (addr : nat) (now : Time) (id : string) (e : KeyEntry) :
  revokedAt (foldl key_step New ops) addr ->
  Lookup now id (foldl key_step (foldl key_step New ops) ops') <> Ok (addr, e).
Proof.
  intros H E. apply Lookup_Ok in E as (_ & He & Hr & _).
  destruct (revokedAt_run ops' _ addr (inv_run ops New inv_New) H) as (e' & He' & Hr').
  simplify_eq. congruence.
Qed.

Lemma revoked_forever_witness :
  Lookup zeroTime "k" (foldl key_step (foldl key_step New
    [KStore zeroTime "k" [z2b 1] 0; KRevoke "k"]) [KCleanup zeroTime])
  <> Ok (0%nat, newEntry "k" [z2b 1] zeroTime 0).
Proof.
  apply (revoked_forever [KStore zeroTime "k" [z2b 1] 0; KRevoke "k"] [KCleanup zeroTime]).
  eexists. split; [vm_compute; reflexivity|reflexivity].
Defined.

(** Rotation: when the random source works, [Rotate] puts a new key under
    the id, revokes the old entry for everyone who holds it and keeps it under
    the derived id, and no other id is affected; the ring's invariant holds
    afterwards. *)
Theorem rotate_spec (kr : Keyring) (rnd1 rnd2 : Z -> result (list byte)) (now now' : Time)
    (id : string) (keyLen ttl : Z) (suffix raw : list byte) :
  ring_inv kr -> rnd1 4 = Ok suffix -> rnd2 (if keyLen <=? 0 then 32 else keyLen) = Ok raw ->
  let '(r, kr') := Rotate rnd1 rnd2 now id keyLen ttl kr in
  r = Ok (nextAddr kr) /\ ring_inv kr' /\
  entryOf id kr' = Some (nextAddr kr, newEntry id raw now ttl) /\
  (forall old, keys kr !! id = Some old -> revokedAt kr' old /\ keys kr' !! prevID id suffix = Some old) /\
  (forall id', id' <> id -> id' <> prevID id suffix -> Lookup now' id' kr' = Lookup now' id' kr).
Proof.
  intros Hi H1 H2. pose proof (inv_step kr (KRotate rnd1 rnd2 now id keyLen ttl) Hi) as Hi'.
  cbn [key_step] in Hi'. unfold Rotate, randomBytes in *. rewrite H1 in *. cbv zeta in *. rewrite H2 in *.
  fold (prevID id suffix) in *. pose proof (prevID_ne id suffix) as Hne.
  destruct (keys kr !! id) as [old|] eqn:Ek; cbn [alloc snd] in *.
  - assert (old < nextAddr kr)%nat as Hold by exact (inv_keys _ Hi _ _ Ek).
    split; [done|]. split; [done|]. split.
    { unfold entryOf. simpl. rewrite lookup_insert_eq. simpl. by rewrite lookup_insert_eq. }
    split.
    + intros old' [= <-]. split.
      * apply (inv_alloc _ Hi) in Hold as Hold'. destruct Hold' as [e He]. exists (revokeEntry e).
        simpl. rewrite lookup_insert_ne by lia. by rewrite lookup_alter_eq, He.
      * simpl. rewrite lookup_insert_ne, lookup_delete_ne by done. by rewrite lookup_insert_eq.
    + intros id' Hid Hprev. unfold Lookup, entryOf. simpl.
      rewrite lookup_insert_ne, lookup_delete_ne, lookup_insert_ne by done.
      destruct (keys kr !! id') as [a|] eqn:Ea; simpl; [|done].
      assert (a < nextAddr kr)%nat by exact (inv_keys _ Hi _ _ Ea).
      assert (a <> old) by (intros ->; apply Hid; exact (inv_inj _ Hi _ _ _ Ea Ek)).
      by rewrite lookup_insert_ne, lookup_alter_ne by (done || lia).
  - split; [done|]. split; [done|]. split.
    { unfold entryOf. simpl. rewrite lookup_insert_eq. simpl. by rewrite lookup_insert_eq. }
    split; [done|]. intros id' Hid Hprev. unfold Lookup, entryOf. simpl.
    rewrite lookup_insert_ne by done. destruct (keys kr !! id') as [a|] eqn:Ea; simpl; [|done].
    assert (a < nextAddr kr)%nat by exact (inv_keys _ Hi _ _ Ea). by rewrite lookup_insert_ne by lia.
Qed.

(** A ring with one key. *)
Definition oneKey : Keyring := snd (Store zeroTime "k" [z2b 1] 0 New).

Lemma oneKey_inv : ring_inv oneKey.
Proof. apply (inv_step New (KStore zeroTime "k" [z2b 1] 0)), inv_New. Qed.

Lemma rotate_spec_witness :
  entryOf "k" (snd (Rotate (fun n => Ok [z2b 9]) (fun n => Ok [z2b 2]) zeroTime "k" 16 0 oneKey)) =
  Some (1%nat, newEntry "k" [z2b 2] zeroTime 0).
Proof.
  apply (rotate_spec oneKey (fun _ => Ok [z2b 9]) (fun _ => Ok [z2b 2]) zeroTime zeroTime "k" 16 0
    [z2b 9] [z2b 2] oneKey_inv eq_refl eq_refl).
Defined.

(** A rotation whose random source fails loses the key: the operation
    reports the error, but the old key is already revoked and moved away, and
    nothing is stored under the id. *)
Theorem rotate_failure_loses_key (kr : Keyring) (rnd1 rnd2 : Z -> result (list byte)) (now now' : Time)
    (id : string) (keyLen ttl : Z) (suffix : list byte) (err : error) (old : nat) :
  ring_inv kr -> keys kr !! id = Some old ->
  rnd1 4 = Ok suffix -> rnd2 (if keyLen <=? 0 then 32 else keyLen) = Err err ->
  let '(r, kr') := Rotate rnd1 rnd2 now id keyLen ttl kr in
  r = Err (Wrapf "generate random key: %w" err []) /\ revokedAt kr' old /\
  Lookup now' id kr' = Err (Errorf "key %q not found" [ArgStr id]).
Proof.
  intros Hi Ek H1 H2. unfold Rotate, randomBytes. rewrite H1. cbv zeta. rewrite Ek, H2.
  split; [done|]. split.
  - destruct (proj2 (inv_alloc _ Hi old) (inv_keys _ Hi _ _ Ek)) as [e He].
    exists (revokeEntry e). simpl. by rewrite lookup_alter_eq, He.
  - unfold Lookup, entryOf. simpl. by rewrite lookup_delete_eq.
Qed.

Lemma rotate_failure_loses_key_witness :
  Lookup zeroTime "k" (snd (Rotate (fun _ => Ok [z2b 9]) (fun _ => Err EOF) zeroTime "k" 16 0 oneKey)) =
  Err (Errorf "key %q not found" [ArgStr "k"]).
Proof.
  apply (rotate_failure_loses_key oneKey (fun _ => Ok [z2b 9]) (fun _ => Err EOF) zeroTime zeroTime
    "k" 16 0 [z2b 9] EOF 0%nat oneKey_inv eq_refl eq_refl eq_refl).
Defined.

(** [Cleanup] removes the dead keys only: what [Lookup] finds at that time is
    unchanged, what is left is live, and the count is the difference. *)
Lemma Cleanup_spec kr now id addr e :
  ring_inv kr ->
  let '(removed, kr') := Cleanup now kr in
  (Lookup now id kr' = Ok (addr, e) <-> Lookup now id kr = Ok (addr, e)) /\
  (forall i a, keys kr' !! i = Some a -> live now kr' a = true) /\
  removed + Z.of_nat (size (keys kr')) = Z.of_nat (size (keys kr)).
Proof.
  intros Hi. unfold Cleanup. split; [|split].
  - rewrite !Lookup_Ok. simpl. rewrite map_lookup_filter_Some. simpl. split; [naive_solver|].
    intros (Hk & He & Hr & Hx). split_and!; try done. unfold live. rewrite He, Hr, Hx. done.
  - intros i a [_ Ha]%map_lookup_filter_Some. simpl in Ha. unfold live in *. simpl in *.
    destruct (entries kr !! a) as [e0|]; [|done]. by destruct (_ && _).
  - simpl. rewrite <-Nat2Z.inj_add. f_equal.
    rewrite <-map_size_disj_union by apply map_disjoint_filter_complement.
    by rewrite map_filter_union_complement.
Qed.
