(* ===== verification/AuditLog.v ===== *)
(** * The audit log: src/services/audit/audit.go

    The [Logger] interface as a type class and [FileLogger], which appends one
    JSON line per entry to a writer.  The theorem says that the lines of the
    file are the entries, whatever text they carry. *)

From S2P Require Import Prelude Time Utf8 Json.
Local Open Scope string_scope.
Local Open Scope list_scope.
Local Open Scope Z_scope.

Record Entry := MkLogEntry {
  eTimestamp : string;
  eRequestID : string;
  eSource : string;
  eTarget : string;
  eAction : string;
  eDecision : string;
  eResult : string
}.

(** [audit.Logger]; the loggers have a state [L], and read the clock. *)
Class Logger (L : Type) := Log : Time -> Entry -> M L unit.

Definition str (s : string) : json := JStr (bytes_of_string s).

Definition entryJSON (e : Entry) : json :=
  JObj [(text "timestamp", str (eTimestamp e)); (text "request_id", str (eRequestID e));
        (text "source", str (eSource e)); (text "target", str (eTarget e));
        (text "action", str (eAction e)); (text "decision", str (eDecision e));
        (text "result", str (eResult e))].

(** The entry with the time of logging, if it has none. *)
Definition stamped (now : Time) (entry : Entry) : Entry :=
  if String.eqb (eTimestamp entry) ""
  then MkLogEntry (string_of_bytes (FormatRFC3339Nano (UTC now))) (eRequestID entry) (eSource entry)
         (eTarget entry) (eAction entry) (eDecision entry) (eResult entry)
  else entry.

(** [json.Marshal] does not fail on a struct of strings. *)
Definition FileLogger_Log {W} `{Writer W} (now : Time) (entry : Entry) : M W unit :=
  let entry := stamped now entry in
  let data := print (entryJSON entry) in
  wrapf "write audit entry: %w" (WriteAll (data ++ [z2b 10])).

#[global] Instance FileLogger {W} `{Writer W} : Logger W := FileLogger_Log.

(** ** The lines of the log *)

(** The parts of a text before each newline, and what follows the last. *)
Fixpoint lines (cur bs : list byte) : list (list byte) :=
  match bs with
  | [] => [cur]
  | b :: r => if b2z b =? 10 then cur :: lines [] r else lines (cur ++ [b]) r
  end.

Definition noNewline (bs : list byte) : Prop := Forall (fun b => b2z b <> 10) bs.

Lemma lines_app a : forall cur bs,
  noNewline a -> lines cur (a ++ z2b 10 :: bs) = (cur ++ a) :: lines [] bs.
Proof.
  induction a as [|x a IH]; intros cur bs Ha; [by rewrite app_nil_r|].
  apply Forall_cons in Ha as [Hx Ha]. cbn [app lines]. rewrite (proj2 (Z.eqb_neq _ _) Hx).
  by rewrite IH, <-app_assoc.
Qed.

Lemma escape_noNewline b : b2z b < 0x80 -> noNewline (escape b).
Proof.
  intros Hb. apply (bool_decide_unpack _).
  destruct b; try reflexivity; exfalso; vm_compute in Hb; discriminate.
Qed.

Lemma quoteBody_noNewline bs : forall copy skip,
  Forall (fun b => 0x80 <= b2z b) (take copy bs) -> noNewline (quoteBody copy skip bs).
Proof.
  induction bs as [|b r IH]; intros copy skip Hc; [by apply Forall_nil_2|]. cbn [quoteBody].
  destruct copy as [|k]; [|cbn [take] in Hc; apply Forall_cons in Hc as [Hb Hc];
                           apply Forall_cons; split; [lia|by apply IH]].
  destruct skip as [|k]; [|by apply IH].
  destruct (Z.ltb_spec (b2z b) 0x80) as [Hb|Hb].
  { apply Forall_app. split; [by apply escape_noNewline|by apply IH]. }
  destruct (decodeRune (b :: r)) as [[x n]|] eqn:Hd.
  2: { apply Forall_app. split; [by apply (bool_decide_unpack _)|by apply IH]. }
  destruct (_ || _) eqn:Hx.
  - apply Forall_app. split; [|by apply IH]. apply (bool_decide_unpack _).
    apply orb_true_iff in Hx as [Hx%Z.eqb_eq|Hx%Z.eqb_eq]; subst x; reflexivity.
  - apply Forall_cons. split; [lia|]. apply IH. by eapply decodeRune_width.
Qed.

Lemma quote_noNewline s : noNewline (quote s).
Proof.
  unfold quote. apply Forall_cons. split; [by vm_compute|]. apply Forall_app.
  split; [by apply quoteBody_noNewline, Forall_nil_2|by apply Forall_singleton].
Qed.

Lemma print_entry_noNewline e : noNewline (print (entryJSON e)).
Proof.
  cbn [print entryJSON map commaSep fst snd str].
  repeat first
    [ apply quote_noNewline
    | apply Forall_app; split
    | apply Forall_cons; split; [by vm_compute|]
    | apply Forall_nil_2 ].
Qed.

(** Text without a newline joins the current line. *)
Lemma lines_prefix a : forall cur bs, noNewline a -> lines cur (a ++ bs) = lines (cur ++ a) bs.
Proof.
  induction a as [|x a IH]; intros cur bs Ha; [by rewrite app_nil_r|].
  apply Forall_cons in Ha as [Hx Ha]. cbn [app lines]. rewrite (proj2 (Z.eqb_neq _ _) Hx).
  by rewrite IH, <-app_assoc.
Qed.

(** ** Reading an entry back *)

Definition member (kv : string * string) : list byte * json := (text (fst kv), str (snd kv)).

(** The string a JSON reader gets: bytes that are not UTF-8 are U+FFFD. *)
Definition readable (s : string) : string := string_of_bytes (replaced 0 (bytes_of_string s)).

Lemma parseValue_string fuel depth s k :
  (0 < fuel)%nat -> parseValue fuel depth (z2b 34 :: quoteBody 0 0 s ++ z2b 34 :: k) = Some (JStr (replaced 0 s), k).
Proof.
  intros Hf. destruct fuel; [lia|]. cbn [parseValue]. rewrite skipWs_id by done. change (isC (z2b 34) 34) with true. cbv iota.
  by rewrite (unquote_quote (length s)).
Qed.

(** The members of an object of strings with UTF-8 keys. *)
Lemma parseMembers_strings fuel : forall (l : list (string * string)) depth k,
  l <> [] -> (length l < fuel)%nat -> Forall (fun kv => validUTF8 (text (fst kv)) = true) l ->
  parseMembers fuel depth (membersText (map member l) ++ z2b 125 :: k) =
    Some (map (fun kv => member (fst kv, readable (snd kv))) l, k).
Proof.
  induction fuel as [|fuel IH]; intros l depth k Hl Hn Hk; [lia|]. destruct l as [|[key v] l]; [done|].
  apply Forall_cons in Hk as [Hkey Hk]. cbn [length fst] in *.
  assert (exists tail, membersText (map member ((key, v) :: l)) ++ z2b 125 :: k =
    z2b 34 :: quoteBody 0 0 (text key) ++ z2b 34 :: z2b 58 :: z2b 34 :: quoteBody 0 0 (text v) ++ z2b 34 :: tail /\
    tail = match l with [] => z2b 125 :: k | _ => z2b 44 :: membersText (map member l) ++ z2b 125 :: k end) as (tail & -> & Et).
  { destruct l as [|kv l]; unfold membersText; cbn [map fst snd member]; [cbn [commaSep]|rewrite commaSep_cons];
      (eexists; split; [|reflexivity]); rewrite <-!app_assoc, quote_app; cbn [app print str]; rewrite <-?app_assoc, quote_app; done. }
  cbn [parseMembers]. rewrite skipWs_id by done. change (isC (z2b 34) 34) with true. cbv iota.
  rewrite unquote_text by done. cbn [mbind option_bind]. rewrite skipWs_id by done.
  change (isC (z2b 58) 58) with true. cbv iota. rewrite parseValue_string by lia. cbn [mbind option_bind]. rewrite Et.
  assert (forall ms, (text key, JStr (replaced 0 (text v))) :: ms = member (key, readable v) :: ms) as Hm.
  { intros ms. unfold member, readable, str. cbn [fst snd]. by rewrite String.list_byte_of_string_of_list_byte. }
  destruct l as [|kv l]; [rewrite skipWs_id by done; by rewrite Hm|].
  rewrite skipWs_id by done. change (isC (z2b 44) 44) with true. cbv iota.
  rewrite IH by (done || (cbn [length] in *; lia)). cbn [mbind option_bind]. by rewrite Hm.
Qed.

Definition readableEntry (e : Entry) : Entry :=
  MkLogEntry (readable (eTimestamp e)) (readable (eRequestID e)) (readable (eSource e)) (readable (eTarget e))
    (readable (eAction e)) (readable (eDecision e)) (readable (eResult e)).

Definition entryMembers (e : Entry) : list (string * string) :=
  [("timestamp", eTimestamp e); ("request_id", eRequestID e); ("source", eSource e); ("target", eTarget e);
   ("action", eAction e); ("decision", eDecision e); ("result", eResult e)].

Lemma entry_read e : parseJSON (print (entryJSON e)) = Some (entryJSON (readableEntry e)).
Proof.
  change (entryJSON e) with (JObj (map member (entryMembers e))). unfold parseJSON.
  assert (4 <= length (print (JObj (map member (entryMembers e)))))%nat as Hlen.
  { assert (exists r, print (JObj (map member (entryMembers e))) = z2b 123 :: quote (text "timestamp") ++ r) as [r ->]
      by (eexists; cbn [print map entryMembers commaSep fst member]; rewrite <-!app_assoc; reflexivity).
    cbn [length]. rewrite length_app. change (length (quote (text "timestamp"))) with 11%nat. lia. }
  set (fuel := (2 * length _ + 2)%nat). assert (exists n, fuel = S n /\ (7 < n)%nat) as (n & -> & Hn) by (exists (fuel - 1)%nat; lia).
  cbn [print parseValue]. rewrite skipWs_id by done. change (isC (z2b 123) 34) with false. change (isC (z2b 123) 123) with true.
  change (maxNestingDepth <=? 0) with false. cbv iota. fold (membersText (map member (entryMembers e))).
  assert (exists r, membersText (map member (entryMembers e)) ++ [z2b 125] = z2b 34 :: r) as [r Er] by (eexists; reflexivity).
  rewrite Er, skipWs_id by done. change (isC (z2b 34) 125) with false. cbv iota. rewrite <-Er.
  rewrite parseMembers_strings; [done|done|done|]. repeat (apply Forall_cons_2; [done|]). apply Forall_nil_2.
Qed.

Definition entry_ok (e : Entry) : Prop :=
  Forall (fun s => validUTF8 (bytes_of_string s) = true)
    [eTimestamp e; eRequestID e; eSource e; eTarget e; eAction e; eDecision e; eResult e].

Lemma readable_valid s : validUTF8 (bytes_of_string s) = true -> readable s = s.
Proof. intros H. unfold readable. rewrite replaced_valid by done. apply String.string_of_list_byte_of_string. Qed.

Lemma readable_ok e : entry_ok e -> readableEntry e = e.
Proof.
  unfold entry_ok. intros He. repeat (apply Forall_cons in He as [? He]). unfold readableEntry.
  rewrite !readable_valid by done. by destruct e.
Qed.

(** ** Properties *)

(** A file; [faults] has, for each write to come, [Some n] if it fails.  A write
    that fails has written some of its bytes, at most [n] and not all. *)
Record file := MkFile { contents : list byte; faults : list (option nat) }.

Definition errNoSpace : error := ErrorNew "no space left on device".

#[global] Instance file_Writer : Writer file := fun p f =>
  match faults f with
  | Some n :: fs => (Some errNoSpace, MkFile (contents f ++ take (Nat.min n (length p - 1)) p) fs)
  | None :: fs => (None, MkFile (contents f ++ p) fs)
  | [] => (None, MkFile (contents f ++ p) [])
  end.

(** Entries logged one after the other, whatever becomes of them. *)
Fixpoint logEach (es : list (Time * Entry)) (f : file) : list (result unit) * file :=
  match es with
  | [] => ([], f)
  | (now, e) :: es' =>
      let '(r, f) := Log now e f in
      let '(rs, f) := logEach es' f in (r :: rs, f)
  end.

Definition entryText (te : Time * Entry) : list byte := print (entryJSON (stamped te.1 te.2)).

(** The texts of the entries whose logging succeeded. *)
Definition logged (es : list (Time * Entry)) (rs : list (result unit)) : list (list byte) :=
  omap (fun x => match x.2 with Ok _ => Some (entryText x.1) | Err _ => None end) (zip es rs).

(** No write fails halfway. *)
Definition untorn (fs : list (option nat)) : Prop := Forall (fun x => x = None \/ x = Some 0%nat) fs.

Lemma Log_file now e (f : file) :
  exists r fs, (untorn (faults f) -> untorn fs) /\
    ((Log now e f = (Ok r, MkFile (contents f ++ entryText (now, e) ++ [z2b 10]) fs)) \/
     exists err n, Log now e f = (Err err, MkFile (contents f ++ take n (entryText (now, e))) fs) /\ (untorn (faults f) -> n = 0%nat)).
Proof.
  exists tt. unfold Log, FileLogger, FileLogger_Log, WriteAll, Write, file_Writer, wrapf, entryText. cbn [fst snd]. cbv zeta.
  set (t := print _). destruct (faults f) as [|[n|] fs]; cbn [wrapfa mbind M_bind].
  - exists []. split; [done|by left].
  - exists fs. split; [intros H; by inversion H|]. right. eexists _, (Nat.min n (length t)). split.
    + unfold wrapfa. rewrite length_app. cbn [length]. do 3 f_equal. replace (length t + 1 - 1)%nat with (length t) by lia.
      by rewrite take_app_le by lia.
    + intros H. inversion H as [|? ? [?|[= ->]]]; [done|]. lia.
  - exists fs. split; [intros H; by inversion H|by left].
Qed.

Lemma logEach_lines es : forall f cur,
  let '(rs, f') := logEach es f in
  length rs = length es /\ exists bs torn rest, contents f' = contents f ++ bs /\ length torn = length (logged es rs) /\
    lines cur bs = zip_with app torn (logged es rs) ++ [rest] /\
    (untorn (faults f) -> cur = [] -> Forall (eq []) torn /\ rest = []).
Proof.
  induction es as [|[now e] es IH]; intros f cur; cbn [logEach].
  { split; [done|]. exists [], [], cur. rewrite app_nil_r. by split_and!. }
  destruct (Log_file now e f) as (u & fs & Hfs & [->|(err & n & -> & Hn)]).
  - specialize (IH (MkFile (contents f ++ entryText (now, e) ++ [z2b 10]) fs) []).
    destruct (logEach es _) as [rs f']. destruct IH as (Hl & bs & torn & rest & Hc & Ht & Hlines & Hu). cbn [contents faults] in *.
    split; [cbn [length]; by rewrite Hl|]. exists ((entryText (now, e) ++ [z2b 10]) ++ bs), (cur :: torn), rest.
    change (logged ((now, e) :: es) (Ok u :: rs)) with (entryText (now, e) :: logged es rs). split_and!; [by rewrite Hc, <-!app_assoc|cbn [length]; by rewrite Ht| |].
    + rewrite <-app_assoc. cbn [app]. rewrite lines_app by apply print_entry_noNewline. by rewrite Hlines.
    + intros H ->. destruct (Hu (Hfs H) eq_refl) as [H1 H2]. split; [by apply Forall_cons_2|done].
  - specialize (IH (MkFile (contents f ++ take n (entryText (now, e))) fs) (cur ++ take n (entryText (now, e)))).
    destruct (logEach es _) as [rs f']. destruct IH as (Hl & bs & torn & rest & Hc & Ht & Hlines & Hu). cbn [contents faults] in *.
    split; [cbn [length]; by rewrite Hl|]. exists (take n (entryText (now, e)) ++ bs), torn, rest.
    split_and!; [by rewrite Hc, <-app_assoc|done| |].
    + rewrite lines_prefix by (apply Forall_take, print_entry_noNewline). done.
    + intros H ->. apply Hu; [by apply Hfs|]. by rewrite (Hn H).
Qed.

(** C38: The audit log is one entry per line: after any sequence of entries is
    logged to a file whose writes may fail, the lines of the file end, in
    order, with the JSON texts of exactly the entries whose logging returned
    nil, whatever newlines, quotes or control characters the entries carry.
    What a line has in front is what writes that failed halfway left; if none
    did, the lines are those texts and nothing else.  Every text parses, to
    the entry with U+FFFD for each byte that is not UTF-8: to the entry itself
    if its strings are UTF-8. *)
Theorem audit_one_line_each (es : list (Time * Entry)) (fs : list (option nat)) :
  let '(rs, f) := logEach es (MkFile [] fs) in
  length rs = length es /\
  (exists torn rest, length torn = length (logged es rs) /\
     lines [] (contents f) = zip_with app torn (logged es rs) ++ [rest] /\
     (untorn fs -> lines [] (contents f) = logged es rs ++ [[]])) /\
  Forall (fun te => let e := stamped te.1 te.2 in
    parseJSON (entryText te) = Some (entryJSON (readableEntry e)) /\ (entry_ok e -> readableEntry e = e)) es.
Proof.
  pose proof (logEach_lines es (MkFile [] fs) []) as H. destruct (logEach es _) as [rs f].
  destruct H as (Hl & bs & torn & rest & Hc & Ht & Hlines & Hu). cbn [contents faults app] in *. subst bs.
  split; [done|]. split.
  - exists torn, rest. split_and!; [done..|]. intros H. destruct (Hu H eq_refl) as [H1 ->]. rewrite Hlines. f_equal.
    clear Hlines Hu. revert torn Ht H1. induction (logged es rs) as [|t ts IH]; intros [|x torn] Ht H1; try done.
    apply Forall_cons in H1 as [<- H1]. cbn [zip_with app]. f_equal. apply IH; [by injection Ht|done].
  - apply Forall_forall. intros te _. split; [apply entry_read|apply readable_ok].
Qed.

(** Three entries, of which the second meets a full disk after ten bytes. *)
Lemma audit_one_line_each_witness :
  let e := MkLogEntry "t" "r" "s" "d" "act" "allowed" "ok" in
  let es := [(zeroTime, e); (zeroTime, e); (zeroTime, e)] in
  let f := snd (logEach es (MkFile [] [None; Some 10%nat; None])) in
  length (lines [] (contents f)) = 3%nat /\ parseJSON (entryText (zeroTime, e)) = Some (entryJSON e).
Proof.
  intros e es f. pose proof (audit_one_line_each es [None; Some 10%nat; None]) as H.
  split; [vm_compute; reflexivity|].
  destruct (logEach es (MkFile [] [None; Some 10%nat; None])) as [rs f']. destruct H as (_ & _ & H).
  apply Forall_cons in H as [[H1 H2] _]. rewrite H1, H2; [reflexivity|repeat constructor].
Defined.
