(* ===== verification/Policy.v ===== *)
(** * The policy engine: src/services/policy/policy.go

    Rules by action, their evaluation on every branch with the audit record it
    leaves, and the default rule set.  The audit logger is any implementation
    of the [Logger] interface, or absent. *)

From S2P Require Import Prelude Time Utf8 Fmt Message AuditLog.
Local Open Scope string_scope.
Local Open Scope list_scope.
Local Open Scope Z_scope.

(** [type ActionClass int] and [type Verdict int] *)
Definition ActionSafe : Z := 0.
Definition ActionControlled : Z := 1.
Definition ActionRestricted : Z := 2.

Definition VerdictAllow : Z := 0.
Definition VerdictDeny : Z := 1.
Definition VerdictConfirm : Z := 2.

Record Rule := MkRule {
  rAction : string;
  rClass : Z;
  rVerdict : Z;
  rCapability : string;
  rDescription : string
}.

Record Request := MkRequest {
  qSource : string;
  qAction : string;
  qCapability : string;
  qRequestID : string
}.

Record Result := MkResult {
  Allowed : bool;
  Verdict : Z;
  Reason : string;
  pRequestID : string;
  pTimestamp : Time
}.

(** [defaultDeny] and the rules; the logger is a state of its own. *)
Record Engine := MkEngine { rules : gmap string Rule; defaultDeny : bool }.

Definition NewEngine (deny : bool) : Engine := MkEngine ∅ deny.

Definition AddRule (rule : Rule) : M Engine unit := fun e =>
  if String.eqb (rAction rule) "" then (Err (ErrorNew "rule action is required"), e)
  else (Ok tt, MkEngine (<[rAction rule := rule]> (rules e)) (defaultDeny e)).

Definition RemoveRule (action : string) (e : Engine) : Engine :=
  MkEngine (delete action (rules e)) (defaultDeny e).

Definition SetDefaultDeny (deny : bool) (e : Engine) : Engine := MkEngine (rules e) deny.

(** Go's map order is arbitrary. *)
Definition ListRules (e : Engine) : list Rule := (map_to_list (rules e)).*2.

Section Evaluate.
Context `{UnicodeTable} {L : Type} `{Logger L}.

(** The decision, before it is logged. *)
Definition decideRequest (now : Time) (req : Request) (e : Engine) : Result :=
  let result a v r := MkResult a v r (qRequestID req) (UTC now) in
  match rules e !! qAction req with
  | None =>
      if defaultDeny e
      then result false VerdictDeny (Sprintf "no rule for action %q, default deny" [ArgStr (qAction req)])
      else result true VerdictAllow "no rule, default allow"
  | Some rule =>
      if rVerdict rule =? VerdictAllow then
        if negb (String.eqb (rCapability rule) "") && negb (String.eqb (rCapability rule) (qCapability req))
        then result false VerdictDeny (Sprintf "capability mismatch: need %q, have %q"
                                         [ArgStr (rCapability rule); ArgStr (qCapability req)])
        else result true VerdictAllow "allowed by rule"
      else if rVerdict rule =? VerdictDeny
      then result false VerdictDeny (Sprintf "denied by rule: %s" [ArgStr (rDescription rule)])
      else if rVerdict rule =? VerdictConfirm
      then result false VerdictConfirm "requires operator confirmation"
      else result false 0 ""
  end.

(** [audit] is nil or a logger; an error of the logger is dropped. *)
Definition Evaluate (now : Time) (req : Request) (e : Engine) (audit : option L) : Result * option L :=
  let result := decideRequest now req e in
  match audit with
  | None => (result, None)
  | Some l =>
      let decision := if Allowed result then "allow" else "deny" in
      let entry := MkLogEntry "" (qRequestID req) (qSource req) "" (qAction req) decision (Reason result) in
      (result, Some (snd (Log now entry l)))
  end.

Definition EvaluateMessage (now : Time) (msg : Message) (e : Engine) (audit : option L) : Result * option L :=
  Evaluate now (MkRequest (Source msg) (MType msg) (Capability msg) (RequestID msg)) e audit.

End Evaluate.

(** ** The default rules *)

Definition safeActions : list string :=
  ["ui.cursor.move"; "ui.scroll"; "ui.select"; "ui.focus"; "sensor:read"; "device:read"; "status:read"].

Definition controlledActions : list string :=
  ["device:write"; "actuator:write"; "motor:move"; "iot:publish"; "config:write"].

Definition restrictedActions : list string :=
  ["system:reboot"; "system:shutdown"; "firmware:update"; "security:modify"; "policy:modify"].

(** [for _, a := range actions { _ = e.AddRule(mk a) }] *)
Definition addAll (mk : string -> Rule) (actions : list string) (e : Engine) : Engine :=
  foldl (fun e a => snd (AddRule (mk a) e)) e actions.

Definition LoadSafeDefaults (e : Engine) : Engine :=
  let e := addAll (fun a => MkRule a ActionSafe VerdictAllow "" "") safeActions e in
  let e := addAll (fun a => MkRule a ActionControlled VerdictAllow "device:write" "") controlledActions e in
  addAll (fun a => MkRule a ActionRestricted VerdictConfirm "" "restricted system operation") restrictedActions e.

(** ** Properties *)

Lemma addAll_lookup mk actions : forall e a,
  (forall x, rAction (mk x) = x) -> Forall (fun x => x <> "") actions ->
  rules (addAll mk actions e) !! a = if decide (a ∈ actions) then Some (mk a) else rules e !! a.
Proof.
  intros e a Hmk. revert e. unfold addAll.
  induction actions as [|x actions IH]; intros e Hne; cbn [foldl]; [by rewrite decide_False by set_solver|].
  apply Forall_cons in Hne as [Hx Hne]. rewrite IH by done. unfold AddRule. rewrite Hmk.
  destruct (String.eqb_spec x ""); [done|]. cbn [snd rules].
  destruct (decide (a ∈ actions)) as [Ha|Ha]; [by rewrite decide_True by set_solver|].
  destruct (decide (a = x)) as [->|Hax].
  - by rewrite lookup_insert_eq, decide_True by set_solver.
  - rewrite lookup_insert_ne by done. by rewrite decide_False by set_solver.
Qed.

Lemma defaults_lookup e a :
  rules (LoadSafeDefaults e) !! a =
  if decide (a ∈ restrictedActions)
  then Some (MkRule a ActionRestricted VerdictConfirm "" "restricted system operation")
  else if decide (a ∈ controlledActions)
  then Some (MkRule a ActionControlled VerdictAllow "device:write" "")
  else if decide (a ∈ safeActions) then Some (MkRule a ActionSafe VerdictAllow "" "")
  else rules e !! a.
Proof.
  unfold LoadSafeDefaults. cbv zeta.
  rewrite !addAll_lookup by (done || (apply (bool_decide_unpack _); reflexivity)). done.
Qed.

Lemma defaultDeny_addAll mk actions : forall e, defaultDeny (addAll mk actions e) = defaultDeny e.
Proof.
  unfold addAll. induction actions as [|x actions IH]; intros e; [done|]. cbn [foldl]. rewrite IH.
  unfold AddRule. by destruct (String.eqb _ _).
Qed.

(** C37: A request is allowed exactly when its action has no rule and the engine
    does not deny by default, or its rule allows and asks for no capability or
    for the one the request has; and with a logger every evaluation leaves one
    record, whose decision says allow exactly when the result does. *)
Theorem evaluate_spec `{UnicodeTable} {L} `{Logger L} (now : Time) (req : Request) (e : Engine) (l : L) :
  let '(r, audit) := Evaluate now req e (Some l) in
  (Allowed r = true <->
   match rules e !! qAction req with
   | None => defaultDeny e = false
   | Some rule => rVerdict rule = VerdictAllow /\
                  (rCapability rule = "" \/ rCapability rule = qCapability req)
   end) /\
  (Allowed r = true -> Verdict r = VerdictAllow) /\
  exists entry, audit = Some (snd (Log now entry l)) /\ eRequestID entry = qRequestID req /\
    eSource entry = qSource req /\ eAction entry = qAction req /\ eResult entry = Reason r /\
    (eDecision entry = "allow" <-> Allowed r = true).
Proof.
  cbn [Evaluate]. split; [|split].
  - unfold decideRequest. destruct (rules e !! qAction req) as [rule|]; cbv zeta.
    2: { destruct (defaultDeny e); done. }
    destruct (Z.eqb_spec (rVerdict rule) VerdictAllow) as [->|Hv].
    2: { destruct (rVerdict rule =? VerdictDeny), (rVerdict rule =? VerdictConfirm); split; try done;
         by intros [? _]. }
    destruct (String.eqb_spec (rCapability rule) "") as [->|Hc]; simpl; [split; [by intros; split; [|left]|done]|].
    destruct (String.eqb_spec (rCapability rule) (qCapability req)) as [->|Hq]; simpl.
    + split; [by intros; split; [|right]|done].
    + split; [done|]. intros [_ [?|?]]; done.
  - unfold decideRequest. cbv zeta. repeat case_match; done.
  - eexists. split; [done|]. cbn [eRequestID eSource eAction eResult eDecision]. split_and!; try done.
    by destruct (Allowed _).
Qed.

(** The default rules fail closed: an engine that denies by default and
    loads them allows the safe actions, the controlled actions under the
    capability device:write, and nothing else; restricted actions always wait
    for an operator. *)
Theorem safe_defaults_spec `{UnicodeTable} (now : Time) (req : Request) :
  let r := decideRequest now req (LoadSafeDefaults (NewEngine true)) in
  (Allowed r = true <->
   qAction req ∈ safeActions \/ (qAction req ∈ controlledActions /\ qCapability req = "device:write")) /\
  (qAction req ∈ restrictedActions -> Verdict r = VerdictConfirm).
Proof.
  intros r. assert (defaultDeny (LoadSafeDefaults (NewEngine true)) = true) as Hd
    by (unfold LoadSafeDefaults; cbv zeta; by rewrite !defaultDeny_addAll).
  unfold r, decideRequest. rewrite defaults_lookup, Hd. cbv zeta.
  assert (forall a, a ∈ restrictedActions -> (a ∉ safeActions) /\ (a ∉ controlledActions)) as Hr.
  { apply Forall_forall. apply (bool_decide_unpack _). by vm_compute. }
  assert (forall a, a ∈ controlledActions -> (a ∉ safeActions)) as Hcs.
  { apply Forall_forall. apply (bool_decide_unpack _). by vm_compute. }
  destruct (decide (qAction req ∈ restrictedActions)) as [H1|H1].
  { simpl. destruct (Hr _ H1). split; [|done]. split; [done|]. by intros [?|[? _]]. }
  split; [|done]. destruct (decide (qAction req ∈ controlledActions)) as [H2|H2]; cbn [rVerdict rCapability].
  - specialize (Hcs _ H2).
    destruct (String.eqb_spec "device:write" (qCapability req)) as [E|E]; simpl.
    + split; [intros _; right; split; [done|by symmetry]|done].
    + split; [done|]. intros [?|[_ E']]; [done|by symmetry in E'].
  - destruct (decide (qAction req ∈ safeActions)) as [H3|H3]; simpl.
    + split; [by intros; left|done].
    + split; [done|]. by intros [?|[? _]].
Qed.
