(* ===== verification/Broker.v ===== *)
(** * The broker: src/services/broker/broker.go

    Subscribers, routes by message type, and the two ways of sending to many:
    along the routes in priority order, and to everyone.  The endpoints of the
    subscribers live in a network state [N] and are named by handles. *)

From S2P Require Import Prelude Time Utf8 Fmt Message AuditLog Heap.
From Stdlib Require Import Sorting.Sorted.
Local Open Scope string_scope.
Local Open Scope list_scope.
Local Open Scope Z_scope.

(** [core.Endpoint] as the broker uses it: sending and closing by handle. *)
Class Network (N : Type) := {
  net_send : nat -> Message -> N -> option error * N;
  net_close : nat -> N -> N
}.

(** The endpoint may be nil. *)
Record Subscriber := MkSubscriber {
  sServiceID : string;
  sCapabilities : list string;
  sEndpoint : option nat;
  sPriority : Z
}.

Record Broker := MkBroker {
  subscribers : gmap string Subscriber;
  routes : gmap string (list string)
}.

Definition NewBroker : Broker := MkBroker ∅ ∅.

Record RouteResult := MkRouteResult { rrServiceID : string; rrErr : option error }.

Definition Subscribe (sub : option Subscriber) : M Broker unit := fun b =>
  let invalid := ErrorNew "invalid subscriber: service_id and endpoint required" in
  match sub with
  | None => (Err invalid, b)
  | Some s =>
      if String.eqb (sServiceID s) "" then (Err invalid, b)
      else match sEndpoint s with
           | None => (Err invalid, b)
           | Some _ => (Ok tt, MkBroker (<[sServiceID s := s]> (subscribers b)) (routes b))
           end
  end.

(** [append(existing, t)] for every target not seen yet. *)
Fixpoint addTargets (existing targets : list string) : list string :=
  match targets with
  | [] => existing
  | t :: targets' =>
      if decide (t ∈ existing) then addTargets existing targets'
      else addTargets (existing ++ [t]) targets'
  end.

Definition routesOf (msgType : MessageType) (b : Broker) : list string := default [] (routes b !! msgType).

Definition AddRoute (msgType : MessageType) (targets : list string) (b : Broker) : Broker :=
  MkBroker (subscribers b) (<[msgType := addTargets (routesOf msgType b) targets]> (routes b)).

(** [append(targets[:i], targets[i+1:]...)] at the first match. *)
Fixpoint removeTarget (target : string) (targets : list string) : list string :=
  match targets with
  | [] => []
  | t :: targets' => if String.eqb t target then targets' else t :: removeTarget target targets'
  end.

Definition RemoveRoute (msgType : MessageType) (target : string) (b : Broker) : Broker :=
  if decide (target ∈ routesOf msgType b)
  then MkBroker (subscribers b) (<[msgType := removeTarget target (routesOf msgType b)]> (routes b))
  else b.

(** The inner loop of [sortByPriority]: the element at [j] moves down. *)
Fixpoint sink (j : nat) (subs : list Subscriber) : list Subscriber :=
  match j with
  | O => subs
  | S j' => if Less sPriority subs j j' then sink j' (Swap j j' subs) else subs
  end.

(** The outer loop: [i] runs up to [len(subs)]. *)
Definition sortByPriority (subs : list Subscriber) : list Subscriber :=
  foldl (fun l i => sink i l) subs (seq 1 (length subs - 1)).

(** The subscribers of the targets of a type, in the order of the routes. *)
Definition targetsOf (msgType : MessageType) (b : Broker) : list Subscriber :=
  omap (fun t => subscribers b !! t) (routesOf msgType b).

(** Go's map order is arbitrary. *)
Definition Subscribers (b : Broker) : list string := (map_to_list (subscribers b)).*1.

(** [delete(b.subscribers, serviceID)] *)
Definition dropSubscriber (serviceID : string) (b : Broker) : Broker :=
  MkBroker (delete serviceID (subscribers b)) (routes b).

Section Sending.
Context `{UnicodeTable} {L : Type} `{Logger L} {N : Type} `{Network N}.

Definition Unsubscribe (serviceID : string) (b : Broker) (n : N) : Broker * N :=
  match subscribers b !! serviceID with
  | Some sub =>
      (dropSubscriber serviceID b,
       match sEndpoint sub with Some h => net_close h n | None => n end)
  | None => (b, n)
  end.

(** [sub.Endpoint.Send(msg)]; [Subscribe] lets no nil endpoint in. *)
Definition sendTo (sub : Subscriber) (msg : Message) (n : N) : option error * N :=
  match sEndpoint sub with
  | Some h => net_send h msg n
  | None => (Some (ErrorNew "runtime error: invalid memory address or nil pointer dereference"), n)
  end.

Definition routeEntry (msg : Message) (sub : Subscriber) (err : option error) : Entry :=
  MkLogEntry "" (RequestID msg) (Source msg) (sServiceID sub) (MType msg)
    (match err with None => "delivered" | Some _ => "failed" end)
    (match err with None => "ok" | Some e => Error e end).

(** The loop of [Route]; every record of the log has a reading of the clock of
    its own. *)
Fixpoint deliverAll (clock : nat -> Time) (msg : Message) (subs : list Subscriber) (audit : option L) (n : N)
  : list RouteResult * option L * N :=
  match subs with
  | [] => ([], audit, n)
  | sub :: subs' =>
      let '(err, n) := sendTo sub msg n in
      let audit := match audit with
                   | Some l => Some (snd (Log (clock 0%nat) (routeEntry msg sub err) l))
                   | None => None
                   end in
      let '(results, audit, n) := deliverAll (fun i => clock (S i)) msg subs' audit n in
      (MkRouteResult (sServiceID sub) err :: results, audit, n)
  end.

Definition Route (clock : nat -> Time) (msg : Message) (b : Broker) (audit : option L) (n : N)
  : list RouteResult * option L * N :=
  match targetsOf (MType msg) b with
  | [] => ([], audit, n)
  | subs => deliverAll clock msg (sortByPriority subs) audit n
  end.

(** [subs] is the order in which the map of subscribers is traversed. *)
Fixpoint sendEach (msg : Message) (subs : list Subscriber) (n : N) : list RouteResult * N :=
  match subs with
  | [] => ([], n)
  | sub :: subs' =>
      let '(err, n) := sendTo sub msg n in
      let '(results, n) := sendEach msg subs' n in (MkRouteResult (sServiceID sub) err :: results, n)
  end.

Definition Fanout (order : list Subscriber) (msg : Message) (n : N) : list RouteResult * N :=
  sendEach msg order n.

End Sending.

(** ** Sorting *)

(** Insertion into a list in reverse order: past the elements of lower
    priority, before equal ones. *)
Fixpoint insR (r : list Subscriber) (x : Subscriber) : list Subscriber :=
  match r with
  | [] => [x]
  | y :: r' => if sPriority x <? sPriority y then y :: insR r' x else x :: r
  end.

Lemma lookup_second {A} (p : list A) y x rest : (p ++ y :: x :: rest) !! S (length p) = Some x.
Proof. rewrite lookup_app_r by lia. by replace (S (length p) - length p)%nat with 1%nat by lia. Qed.

Lemma Less_adjacent p y x rest :
  Less sPriority (p ++ y :: x :: rest) (S (length p)) (length p) = (sPriority x <? sPriority y).
Proof. unfold Less. by rewrite lookup_second, list_lookup_middle by done. Qed.

Lemma Swap_adjacent {A} p (y x : A) rest :
  Swap (S (length p)) (length p) (p ++ y :: x :: rest) = p ++ x :: y :: rest.
Proof.
  unfold Swap. rewrite lookup_second, list_lookup_middle by done.
  rewrite insert_app_r_alt by lia. rewrite Nat.sub_diag. simpl.
  rewrite insert_app_r_alt by lia. by replace (S (length p) - length p)%nat with 1%nat by lia.
Qed.

Lemma sink_insR r : forall x rest,
  sink (length r) (reverse r ++ x :: rest) = reverse (insR r x) ++ rest.
Proof.
  induction r as [|y r IH]; intros x rest; [done|]. cbn [length sink insR].
  rewrite reverse_cons, <-app_assoc. cbn [app].
  rewrite <-(length_reverse r) at 1 2. rewrite Less_adjacent. destruct (_ <? _).
  - rewrite <-(length_reverse r) at 2. rewrite <-(length_reverse r) at 2.
    rewrite Swap_adjacent. rewrite IH. by rewrite reverse_cons, <-app_assoc.
  - rewrite !reverse_cons, <-!app_assoc. done.
Qed.

Lemma length_insR r x : length (insR r x) = S (length r).
Proof. induction r as [|y r IH]; [done|]. simpl. destruct (_ <? _); simpl; [by rewrite IH|done]. Qed.

Lemma sort_insR suf : forall r,
  foldl (fun l i => sink i l) (reverse r ++ suf) (seq (length r) (length suf)) =
  reverse (foldl insR r suf).
Proof.
  induction suf as [|x suf IH]; intros r; cbn [length seq foldl]; [by rewrite app_nil_r|].
  rewrite sink_insR. rewrite <-(length_insR r x). apply IH.
Qed.

Lemma sortByPriority_insR subs : sortByPriority subs = reverse (foldl insR [] subs).
Proof.
  destruct subs as [|a subs]; [done|]. unfold sortByPriority. cbn [length foldl].
  rewrite Nat.sub_succ, Nat.sub_0_r. apply (sort_insR subs [a]).
Qed.

Lemma insR_perm r x : insR r x ≡ₚ x :: r.
Proof.
  induction r as [|y r IH]; [done|]. simpl. destruct (_ <? _); [|done].
  rewrite IH. apply Permutation_swap.
Qed.

(** Elements of one priority keep their order. *)
Lemma insR_stable k r x :
  filter (fun s => sPriority s = k) (insR r x) = filter (fun s => sPriority s = k) (x :: r).
Proof.
  induction r as [|y r IH]; [done|]. cbn [insR]. destruct (Z.ltb_spec (sPriority x) (sPriority y)); [|done].
  rewrite filter_cons, IH, !filter_cons.
  destruct (decide (sPriority x = k)), (decide (sPriority y = k)); try done. lia.
Qed.

Lemma foldl_insR_spec suf : forall r,
  foldl insR r suf ≡ₚ reverse suf ++ r /\
  (forall k, filter (fun s => sPriority s = k) (foldl insR r suf) =
             filter (fun s => sPriority s = k) (reverse suf ++ r)).
Proof.
  induction suf as [|x suf IH]; intros r; [done|]. cbn [foldl]. destruct (IH (insR r x)) as [Hp Hs].
  rewrite reverse_cons, <-app_assoc. cbn [app]. split; [by rewrite Hp, insR_perm|].
  intros k. by rewrite Hs, !filter_app, insR_stable.
Qed.

(** The reversed order. *)
Abbreviation descending := (StronglySorted (fun x y => sPriority y <= sPriority x)).

Lemma insR_sorted r x : descending r -> descending (insR r x).
Proof.
  induction 1 as [|y r Hr IH Hy]; [by repeat constructor|]. simpl.
  destruct (Z.ltb_spec (sPriority x) (sPriority y)).
  - constructor; [done|]. rewrite insR_perm. constructor; [lia|done].
  - constructor; [by constructor|]. constructor; [done|]. eapply Forall_impl; [exact Hy|]. simpl. lia.
Qed.

Lemma foldl_insR_sorted suf : forall r, descending r -> descending (foldl insR r suf).
Proof. induction suf as [|x suf IH]; intros r Hr; [done|]. apply IH. by apply insR_sorted. Qed.

Lemma StronglySorted_reverse (l : list Subscriber) :
  descending l -> StronglySorted (fun x y => sPriority x <= sPriority y) (reverse l).
Proof.
  induction 1 as [|y l Hl IH Hy]; [constructor|]. rewrite reverse_cons.
  apply StronglySorted_app_2; [|done|by repeat constructor].
  intros x z Hx Hz. apply list_elem_of_singleton in Hz as ->.
  rewrite Forall_forall in Hy. apply Hy. by rewrite elem_of_reverse in Hx.
Qed.

(** [sortByPriority] sorts, keeps the elements and is stable. *)
Lemma sortByPriority_spec subs :
  StronglySorted (fun x y => sPriority x <= sPriority y) (sortByPriority subs) /\
  sortByPriority subs ≡ₚ subs /\
  forall k, filter (fun s => sPriority s = k) (sortByPriority subs) =
            filter (fun s => sPriority s = k) subs.
Proof.
  rewrite sortByPriority_insR. destruct (foldl_insR_spec subs []) as [Hp Hs]. rewrite app_nil_r in *.
  split_and!.
  - apply StronglySorted_reverse, foldl_insR_sorted. constructor.
  - by rewrite reverse_Permutation, Hp, reverse_Permutation.
  - intros k. rewrite <-(reverse_involutive subs) at 2.
    assert (forall l, filter (fun s => sPriority s = k) (reverse l) =
                      reverse (filter (fun s => sPriority s = k) l)) as Hr.
    { induction l as [|y l IH]; [done|]. rewrite reverse_cons, filter_app, IH, !filter_cons.
      destruct (decide (sPriority y = k)); [by rewrite reverse_cons|]. by rewrite filter_nil, app_nil_r. }
    rewrite (Hr (foldl _ _ _)), (Hr (reverse subs)). by rewrite Hs.
Qed.

(** ** Routes *)

(** The targets of every type are pairwise different. *)
Definition routes_ok (b : Broker) : Prop := forall t, NoDup (routesOf t b).

Lemma addTargets_spec targets : forall existing,
  NoDup existing -> NoDup (addTargets existing targets) /\
  forall x, x ∈ addTargets existing targets <-> x ∈ existing \/ x ∈ targets.
Proof.
  induction targets as [|t targets IH]; intros existing Hn; cbn [addTargets].
  { split; [done|]. intros x. set_solver. }
  destruct (decide (t ∈ existing)) as [Ht|Ht].
  - destruct (IH existing Hn) as [H1 H2]. split; [done|]. intros x. rewrite H2. set_solver.
  - destruct (IH (existing ++ [t])) as [H1 H2].
    { apply NoDup_app. split_and!; [done| |by apply NoDup_singleton]. set_solver. }
    split; [done|]. intros x. rewrite H2. set_solver.
Qed.

Lemma removeTarget_spec target targets :
  NoDup targets -> NoDup (removeTarget target targets) /\
  forall x, x ∈ removeTarget target targets <-> x ∈ targets /\ x <> target.
Proof.
  induction 1 as [|t targets Hn Hnd [IH1 IH2]]; cbn [removeTarget]; [split; [constructor|set_solver]|].
  destruct (String.eqb_spec t target) as [->|Hne].
  - split; [done|]. intros x. set_solver.
  - split; [constructor; [|done]|intros x; set_solver]. rewrite IH2. tauto.
Qed.

Lemma routesOf_insert t l b subs t' :
  routesOf t' (MkBroker subs (<[t := l]> (routes b))) = if decide (t' = t) then l else routesOf t' b.
Proof.
  unfold routesOf. cbn [routes]. destruct (decide (t' = t)) as [->|Hne].
  - by rewrite lookup_insert_eq.
  - by rewrite lookup_insert_ne.
Qed.

Lemma AddRoute_spec t targets b :
  routes_ok b -> routes_ok (AddRoute t targets b) /\
  forall t' x, x ∈ routesOf t' (AddRoute t targets b) <->
    x ∈ routesOf t' b \/ (t' = t /\ x ∈ targets).
Proof.
  intros Hb. destruct (addTargets_spec targets (routesOf t b) (Hb t)) as [H1 H2].
  split; intros t'; unfold AddRoute; [|intros x]; rewrite routesOf_insert;
    destruct (decide (t' = t)) as [->|Hne]; try done.
  - rewrite H2. tauto.
  - tauto.
Qed.

Lemma RemoveRoute_spec t target b :
  routes_ok b -> routes_ok (RemoveRoute t target b) /\
  forall t' x, x ∈ routesOf t' (RemoveRoute t target b) <->
    x ∈ routesOf t' b /\ ~ (t' = t /\ x = target).
Proof.
  intros Hb. unfold RemoveRoute. destruct (decide (target ∈ routesOf t b)) as [Hin|Hin].
  - destruct (removeTarget_spec target (routesOf t b) (Hb t)) as [H1 H2].
    split; intros t'; [|intros x]; rewrite routesOf_insert;
      destruct (decide (t' = t)) as [->|Hne]; try done.
    + rewrite H2. tauto.
    + tauto.
  - split; [done|]. intros t' x. split; [|tauto]. intros Hx. split; [done|]. intros [-> ->]. done.
Qed.

Inductive route_op :=
  | RSubscribe (sub : option Subscriber)
  | RUnsubscribe (serviceID : string)
  | RAddRoute (msgType : MessageType) (targets : list string)
  | RRemoveRoute (msgType : MessageType) (target : string).

Definition route_step (b : Broker) (op : route_op) : Broker :=
  match op with
  | RSubscribe sub => snd (Subscribe sub b)
  | RUnsubscribe id => dropSubscriber id b
  | RAddRoute t targets => AddRoute t targets b
  | RRemoveRoute t target => RemoveRoute t target b
  end.

(** What the operations keep: routes without duplicates, and subscribers stored
    under their own id with an endpoint. *)
Record broker_inv (b : Broker) : Prop := {
  bi_routes : routes_ok b;
  bi_subs id s : subscribers b !! id = Some s -> sServiceID s = id /\ is_Some (sEndpoint s)
}.

Lemma broker_inv_step b op : broker_inv b -> broker_inv (route_step b op).
Proof.
  intros [Hr Hs]. destruct op as [sub|id|t targets|t target]; cbn [route_step].
  - unfold Subscribe. destruct sub as [s|]; [|done]. destruct (String.eqb _ _); [done|].
    destruct (sEndpoint s) as [h|] eqn:E; [|done]. constructor; [done|]. simpl.
    intros id s' [[<- <-]|[_ H]]%lookup_insert_Some; [by rewrite E|by apply Hs].
  - constructor; [done|]. simpl. intros id' s [_ H]%lookup_delete_Some. by apply Hs.
  - constructor; [by apply AddRoute_spec|done].
  - constructor; [by apply RemoveRoute_spec|]. unfold RemoveRoute. by case_decide.
Qed.

(** The broker part of [Unsubscribe]. *)
Lemma Unsubscribe_fst {N} `{Network N} id b (n : N) : fst (Unsubscribe id b n) = dropSubscriber id b.
Proof.
  unfold Unsubscribe, dropSubscriber. destruct (subscribers b !! id) as [s|] eqn:E; [done|].
  rewrite delete_id by done. by destruct b.
Qed.

Lemma broker_inv_run ops : broker_inv (foldl route_step NewBroker ops).
Proof.
  induction ops as [|op ops IH] using rev_ind; [|rewrite foldl_app; by apply broker_inv_step].
  constructor; [intros t; constructor|]. simpl. intros id s. by rewrite lookup_empty.
Qed.

Lemma targetsOf_ids b t :
  broker_inv b -> NoDup (sServiceID <$> targetsOf t b) /\
  forall s, s ∈ targetsOf t b <-> sServiceID s ∈ routesOf t b /\ subscribers b !! sServiceID s = Some s.
Proof.
  intros [Hr Hs]. unfold targetsOf.
  assert (forall l, sServiceID <$> omap (fun t => subscribers b !! t) l ⊆+ l) as Hsub.
  { induction l as [|x l IH]; [done|]. simpl. destruct (subscribers b !! x) as [s|] eqn:E; simpl.
    - rewrite (proj1 (Hs _ _ E)). by apply submseteq_skip.
    - by apply submseteq_cons. }
  split.
  - destruct (submseteq_Permutation _ _ (Hsub (routesOf t b))) as [k Hk].
    pose proof (Hr t) as Hn. rewrite Hk in Hn. by apply NoDup_app in Hn as [Hn _].
  - intros s. rewrite list_elem_of_omap. split.
    + intros (x & Hx & E). destruct (Hs _ _ E) as [<- _]. done.
    + intros [Hx E]. by exists (sServiceID s).
Qed.

(** ** Properties *)

Section Delivery.
Context `{UnicodeTable} {L : Type} `{Logger L} {N : Type} `{Network N}.

(** The log after one record per attempt, each with the next reading of the
    clock. *)
Definition logRoute (clock : nat -> Time) (msg : Message) (subs : list Subscriber) (results : list RouteResult)
    (l : L) : L :=
  foldl (fun l x => snd (Log (fst x) (routeEntry msg (fst (snd x)) (rrErr (snd (snd x)))) l)) l
    (zip (clock <$> seq 0 (length subs)) (zip subs results)).

Lemma deliverAll_spec msg subs : forall clock (l : L) (n : N),
  deliverAll clock msg subs (Some l) n =
  let '(results, n') := sendEach msg subs n in (results, Some (logRoute clock msg subs results l), n').
Proof.
  induction subs as [|s subs IH]; intros clock l n; [done|]. cbn [deliverAll sendEach].
  destruct (sendTo s msg n) as [err n']. rewrite IH. destruct (sendEach msg subs n') as [results n''].
  unfold logRoute. cbn [length seq]. by rewrite <-fmap_S_seq, fmap_cons, <-list_fmap_compose.
Qed.

Lemma sendEach_ids msg subs : forall n : N,
  rrServiceID <$> fst (sendEach msg subs n) = sServiceID <$> subs.
Proof.
  induction subs as [|s subs IH]; intros n; [done|]. cbn [sendEach].
  destruct (sendTo s msg n) as [err n']. specialize (IH n').
  destruct (sendEach msg subs n') as [results n'']. cbn [fst] in *. by rewrite !fmap_cons, IH.
Qed.

(** C35: Routing: on a broker that went through any sequence of (un)subscriptions
    and route changes, a message is sent once to each subscribed target of its
    type and to nobody else, in order of priority and within a priority in the
    order of the routes; the result list and the audit log have one entry per
    attempt in that order, each audit entry with its own reading of the clock;
    a failed attempt does not stop the others. *)
Theorem route_spec (ops : list route_op) (clock : nat -> Time) (msg : Message) (l : L) (n : N) :
  let b := foldl route_step NewBroker ops in
  exists order,
    NoDup (sServiceID <$> order) /\
    (forall s, (s ∈ order) <-> (sServiceID s ∈ routesOf (MType msg) b) /\
                               (subscribers b !! sServiceID s = Some s)) /\
    StronglySorted (fun x y => sPriority x <= sPriority y) order /\
    (forall k, filter (fun s => sPriority s = k) order =
               filter (fun s => sPriority s = k) (targetsOf (MType msg) b)) /\
    let '(results, n') := sendEach msg order n in
    Route clock msg b (Some l) n = (results, Some (logRoute clock msg order results l), n') /\
    rrServiceID <$> results = sServiceID <$> order.
Proof.
  intros b. exists (sortByPriority (targetsOf (MType msg) b)).
  destruct (sortByPriority_spec (targetsOf (MType msg) b)) as (Hs & Hp & Hst).
  destruct (targetsOf_ids b (MType msg) (broker_inv_run ops)) as [Hn Hin].
  split; [by rewrite Hp|]. split; [intros s; by rewrite Hp|]. split; [done|]. split; [done|].
  pose proof (sendEach_ids msg (sortByPriority (targetsOf (MType msg) b)) n) as Hids.
  unfold Route. destruct (targetsOf (MType msg) b) as [|s subs]; [done|].
  rewrite deliverAll_spec. by destruct (sendEach msg _ n) as [results n'].
Qed.

End Delivery.
