(* ===== verification/ServiceRegistry.v ===== *)
(** * Service registry and health: src/services/registry/registry.go,
      src/services/health/health.go

    The table of services with lookup by id and by capability, and the liveness
    of peers from their heartbeats.  Where the code ranges over a map, the
    order of the result is arbitrary in Go; the definitions fix one order and
    the theorems do not depend on it. *)

From S2P Require Import Prelude Time Message.
Local Open Scope Z_scope.

Module Registry.

Record ServiceInfo := MkInfo {
  ServiceID : string;
  Capabilities : list string;
  Versions : list Z;
  MessageTypes : list MessageType;
  Priority : Z
}.

Record Registry := MkRegistry { services : gmap string ServiceInfo }.

Definition NewRegistry : Registry := MkRegistry ∅.

Definition Register (info : ServiceInfo) : M Registry unit := fun r =>
  if String.eqb (ServiceID info) "" then (Err (ErrorNew "service_id is required"), r)
  else (Ok tt, MkRegistry (<[ServiceID info := info]> (services r))).

Definition Deregister (serviceID : string) (r : Registry) : Registry :=
  MkRegistry (delete serviceID (services r)).

Definition Lookup (serviceID : string) (r : Registry) : result ServiceInfo :=
  match services r !! serviceID with
  | Some info => Ok info
  | None => Err (Errorf "service %q not found" [ArgStr serviceID])
  end.

Definition List (r : Registry) : list ServiceInfo := (map_to_list (services r)).*2.

(** The inner loop stops at the first match. *)
Definition FindByCapability (cap : string) (r : Registry) : list ServiceInfo :=
  filter (fun info => cap ∈ Capabilities info) (List r).

(** Services are stored under their own, nonempty id. *)
Definition registry_inv (r : Registry) : Prop :=
  forall id info, services r !! id = Some info -> ServiceID info = id /\ id <> ""%string.

Inductive reg_op := RegRegister (info : ServiceInfo) | RegDeregister (serviceID : string).

Definition reg_step (r : Registry) (op : reg_op) : Registry :=
  match op with
  | RegRegister info => snd (Register info r)
  | RegDeregister id => Deregister id r
  end.

Lemma registry_inv_run ops : registry_inv (foldl reg_step NewRegistry ops).
Proof.
  induction ops as [|op ops IH] using rev_ind; [by intros ? ?; simpl; rewrite lookup_empty|].
  rewrite foldl_app. cbn [foldl]. generalize dependent (foldl reg_step NewRegistry ops). intros r IH.
  destruct op as [info|id]; cbn [reg_step].
  - unfold Register. destruct (String.eqb_spec (ServiceID info) ""); [done|].
    intros id' i. simpl. intros [[<- <-]|[_ H]]%lookup_insert_Some; [done|by apply IH].
  - intros id' i. simpl. intros [_ H]%lookup_delete_Some. by apply IH.
Qed.

Lemma List_spec r info : registry_inv r ->
  NoDup (ServiceID <$> List r) /\ (info ∈ List r <-> Lookup (ServiceID info) r = Ok info).
Proof.
  intros Hr. unfold List, Lookup. split.
  - assert (ServiceID <$> (map_to_list (services r)).*2 = (map_to_list (services r)).*1) as ->.
    { rewrite <-list_fmap_compose. apply list_fmap_ext. intros k [id i] Hk. simpl.
      apply (Hr id i). apply elem_of_map_to_list. by apply list_elem_of_lookup_2 in Hk. }
    apply NoDup_fst_map_to_list.
  - rewrite list_elem_of_fmap. split.
    + intros ([id i] & -> & Hin%elem_of_map_to_list). simpl. destruct (Hr id i Hin) as [E _].
      rewrite <-E in Hin. by rewrite Hin.
    + destruct (services r !! ServiceID info) as [i|] eqn:E; [|done]. intros [= ->].
      exists (ServiceID info, info). split; [done|]. by apply elem_of_map_to_list.
Qed.

(** The registry answers by what is registered: after any sequence of
    operations, [Lookup] gives the latest registration of an id that was not
    deregistered since, [FindByCapability] lists exactly the registered services
    that declare the capability, each once, and no service has an empty id. *)
Theorem registry_spec (ops : list reg_op) (cap : string) (info : ServiceInfo) :
  let r := foldl reg_step NewRegistry ops in
  (info ∈ FindByCapability cap r <->
     Lookup (ServiceID info) r = Ok info /\ cap ∈ Capabilities info) /\
  NoDup (ServiceID <$> FindByCapability cap r) /\
  (forall op id, Lookup id (reg_step r op) =
     match op with
     | RegRegister i => if decide (id = ServiceID i /\ id <> ""%string) then Ok i else Lookup id r
     | RegDeregister d => if decide (id = d)
                          then Err (Errorf "service %q not found" [ArgStr id]) else Lookup id r
     end).
Proof.
  intros r. pose proof (registry_inv_run ops) as Hr. fold r in Hr.
  destruct (List_spec r info Hr) as [Hn Hl]. split; [|split].
  - unfold FindByCapability. rewrite list_elem_of_filter, Hl. tauto.
  - unfold FindByCapability. clear Hl. induction (List r) as [|i l IH]; [constructor|].
    rewrite fmap_cons in Hn. apply NoDup_cons in Hn as [Hi Hn]. rewrite filter_cons.
    case_decide; [|by apply IH]. rewrite fmap_cons. constructor; [|by apply IH].
    intros (j & E & [_ Hj]%list_elem_of_filter)%list_elem_of_fmap. apply Hi.
    apply list_elem_of_fmap. by exists j.
  - intros op id. destruct op as [i|d]; cbn [reg_step].
    + unfold Register. destruct (String.eqb_spec (ServiceID i) "") as [E|E].
      * rewrite decide_False; [done|]. intros [-> ?]. done.
      * cbn [snd]. unfold Lookup. cbn [services]. destruct (decide (id = ServiceID i)) as [->|Hne].
        -- rewrite lookup_insert_eq. by rewrite decide_True.
        -- rewrite lookup_insert_ne by done. by rewrite decide_False by tauto.
    + unfold Deregister, Lookup. cbn [services]. destruct (decide (id = d)) as [->|Hne].
      * by rewrite lookup_delete_eq.
      * by rewrite lookup_delete_ne.
Qed.

End Registry.

Module Health.

Record PeerStatus := MkPeerStatus { ServiceID : string; Status : string; LastSeen : Time }.

Record Service := MkService { peers : gmap string PeerStatus; interval : Z; timeout : Z }.

Definition NewService (interval timeout : Z) : Service :=
  let interval := if interval =? 0 then 5 * Second else interval in
  let timeout := if timeout =? 0 then 15 * Second else timeout in
  MkService ∅ interval timeout.

Definition RecordHeartbeat (now : Time) (serviceID status : string) (s : Service) : Service :=
  MkService (<[serviceID := MkPeerStatus serviceID status now]> (peers s)) (interval s) (timeout s).

Definition IsAlive (now : Time) (serviceID : string) (s : Service) : bool :=
  match peers s !! serviceID with
  | None => false
  | Some peer => Sub now (LastSeen peer) <=? timeout s
  end.

Definition AllPeers (s : Service) : list PeerStatus := (map_to_list (peers s)).*2.

Definition LivePeers (now : Time) (s : Service) : list PeerStatus :=
  filter (fun p => (Sub now (LastSeen p) <=? timeout s) = true) (AllPeers s).

Definition Interval (s : Service) : Z := interval s.

(** The service after a list of heartbeats (time, id, status). *)
Definition beats (s : Service) (l : list (Time * string * string)) : Service :=
  foldl (fun s b => let '(now, id, status) := b in RecordHeartbeat now id status s) s l.

(** The last heartbeat of an id. *)
Fixpoint lastBeat (id : string) (l : list (Time * string * string)) : option PeerStatus :=
  match l with
  | [] => None
  | (now, i, status) :: l' =>
      match lastBeat id l' with
      | Some p => Some p
      | None => if decide (i = id) then Some (MkPeerStatus i status now) else None
      end
  end.

Lemma beats_peers l : forall s id,
  peers (beats s l) !! id = match lastBeat id l with Some p => Some p | None => peers s !! id end /\
  timeout (beats s l) = timeout s.
Proof.
  induction l as [|[[now i] status] l IH]; intros s id; [done|]. cbn [lastBeat].
  change (beats s ((now, i, status) :: l)) with (beats (RecordHeartbeat now i status s) l).
  destruct (IH (RecordHeartbeat now i status s) id) as [-> ->]. split; [|done].
  destruct (lastBeat id l); [done|]. simpl. destruct (decide (i = id)) as [->|Hne].
  - by rewrite lookup_insert_eq.
  - by rewrite lookup_insert_ne.
Qed.

(** Liveness follows the last heartbeat: a peer is alive exactly when its
    latest heartbeat is at most the timeout ago. *)
Lemma liveness_spec interval timeout0 l now id :
  let s := NewService interval timeout0 in
  IsAlive now id (beats s l) =
  match lastBeat id l with
  | Some p => Sub now (LastSeen p) <=? timeout s
  | None => false
  end.
Proof.
  intros s. unfold IsAlive. destruct (beats_peers l s id) as [-> ->].
  destruct (lastBeat id l); [done|]. simpl. by rewrite lookup_empty.
Qed.

End Health.
