(* ===== verification/Events.v ===== *)
(** * The payloads of messages: src/core/events.go, and the handshake structs
      of src/cmd/eipc-server/main.go and src/cmd/eipc-client/main.go

    Each struct with its JSON form, as an instance of the codec interface and
    of its law.  [hex.DecodeString] is here too, as the handshake sends its
    nonce and its response in hexadecimal. *)

From Stdlib Require Import SpecFloat.
From S2P Require Import Prelude Time Float64 Utf8 Json Frame Message Codec FloatText Fmt.
Local Open Scope string_scope.
Local Open Scope list_scope.
Local Open Scope Z_scope.

(** ** Values of the other Go types the payloads have *)

Definition storeFloat {T} (set : float64 -> T -> T) (j : json) (v : T) : result T :=
  match j with
  | JNum t => match parseFloat t with Some f => Ok (set f v) | None => Err errUnmarshalType end
  | JNull => Ok v
  | _ => Err errUnmarshalType
  end.

(** [strconv.ParseInt] for a 64-bit int. *)
Definition parseInt64 (t : list byte) : option Z :=
  let '(neg, ds) := match t with c :: r => if isC c 45 then (true, r) else (false, t) | [] => (false, t) end in
  let z := if neg then - atoi ds else atoi ds in
  if forallb isDigit ds && bool_decide (ds <> []) && (- 2 ^ 63 <=? z) && (z <? 2 ^ 63) then Some z else None.

Definition storeInt {T} (set : Z -> T -> T) (j : json) (v : T) : result T :=
  match j with
  | JNum t => match parseInt64 t with Some z => Ok (set z v) | None => Err errUnmarshalType end
  | JNull => Ok v
  | _ => Err errUnmarshalType
  end.

Definition storeBool {T} (set : bool -> T -> T) (j : json) (v : T) : result T :=
  match j with
  | JBool b => Ok (set b v)
  | JNull => Ok v
  | _ => Err errUnmarshalType
  end.

(** A []string; a null element leaves the new element empty. *)
Fixpoint stringsOf (l : list json) : result (list string) :=
  match l with
  | [] => Ok []
  | JStr s :: l' => rest ← stringsOf l'; Ok (string_of_bytes s :: rest)
  | JNull :: l' => rest ← stringsOf l'; Ok ("" :: rest)
  | _ => Err errUnmarshalType
  end.

Definition storeStrings {T} (set : list string -> T -> T) (j : json) (v : T) : result T :=
  match j with
  | JArr l => ss ← stringsOf l; Ok (set ss v)
  | JNull => Ok (set [] v)
  | _ => Err errUnmarshalType
  end.

Definition errUnsupportedValue : error := ErrorNew "json: unsupported value".

(** JSON has no infinities and no NaN. *)
Definition floatJSON (f : float64) : result json :=
  match floatText f with Some t => Ok (JNum t) | None => Err errUnsupportedValue end.

Definition intText (z : Z) : json := JNum (appendInt z 0).

Definition omitInt (key : string) (z : Z) : list (list byte * json) :=
  if z =? 0 then [] else [(text key, intText z)].

Definition strsText (l : list string) : json := JArr (strText <$> l).

(** ** core/events.go *)

Record IntentEvent := MkIntent { Intent : string; Confidence : float64; i_SessionID : string }.

Definition intentJSON (e : IntentEvent) : result json :=
  confidence ← floatJSON (Confidence e);
  Ok (JObj [(text "intent", strText (Intent e)); (text "confidence", confidence);
            (text "session_id", strText (i_SessionID e))]).

Definition zeroIntent : IntentEvent := MkIntent "" (S754_zero false) "".

Definition intentFields : list (field IntentEvent) :=
  [MkField (text "intent") (storeString (fun s e => MkIntent s (Confidence e) (i_SessionID e)));
   MkField (text "confidence") (storeFloat (fun f e => MkIntent (Intent e) f (i_SessionID e)));
   MkField (text "session_id") (storeString (fun s e => MkIntent (Intent e) (Confidence e) s))].

#[global] Instance IntentEvent_codec : Codec IntentEvent :=
  {| Marshal e := j ← intentJSON e; Ok (print j);
     Unmarshal data := unmarshalStruct intentFields zeroIntent data |}.

Record AckEvent := MkAck { a_RequestID : string; a_Status : string; a_Error : string }.

Definition ackJSON (e : AckEvent) : json :=
  JObj ([(text "request_id", strText (a_RequestID e)); (text "status", strText (a_Status e))] ++
        omitempty "error" (a_Error e)).

Definition ackFields : list (field AckEvent) :=
  [MkField (text "request_id") (storeString (fun s e => MkAck s (a_Status e) (a_Error e)));
   MkField (text "status") (storeString (fun s e => MkAck (a_RequestID e) s (a_Error e)));
   MkField (text "error") (storeString (fun s e => MkAck (a_RequestID e) (a_Status e) s))].

#[global] Instance AckEvent_codec : Codec AckEvent :=
  {| Marshal e := Ok (print (ackJSON e));
     Unmarshal data := unmarshalStruct ackFields (MkAck "" "" "") data |}.

Record PolicyResultEvent := MkPolicyResult { p_RequestID : string; Allowed : bool; Reason : string }.

Definition policyResultJSON (e : PolicyResultEvent) : json :=
  JObj ([(text "request_id", strText (p_RequestID e)); (text "allowed", JBool (Allowed e))] ++
        omitempty "reason" (Reason e)).

Definition policyResultFields : list (field PolicyResultEvent) :=
  [MkField (text "request_id") (storeString (fun s e => MkPolicyResult s (Allowed e) (Reason e)));
   MkField (text "allowed") (storeBool (fun b e => MkPolicyResult (p_RequestID e) b (Reason e)));
   MkField (text "reason") (storeString (fun s e => MkPolicyResult (p_RequestID e) (Allowed e) s))].

#[global] Instance PolicyResultEvent_codec : Codec PolicyResultEvent :=
  {| Marshal e := Ok (print (policyResultJSON e));
     Unmarshal data := unmarshalStruct policyResultFields (MkPolicyResult "" false "") data |}.

Record HeartbeatEvent := MkHeartbeat { hb_Service : string; hb_Status : string }.

Definition heartbeatJSON (e : HeartbeatEvent) : json :=
  JObj [(text "service", strText (hb_Service e)); (text "status", strText (hb_Status e))].

Definition heartbeatFields : list (field HeartbeatEvent) :=
  [MkField (text "service") (storeString (fun s e => MkHeartbeat s (hb_Status e)));
   MkField (text "status") (storeString (fun s e => MkHeartbeat (hb_Service e) s))].

#[global] Instance HeartbeatEvent_codec : Codec HeartbeatEvent :=
  {| Marshal e := Ok (print (heartbeatJSON e));
     Unmarshal data := unmarshalStruct heartbeatFields (MkHeartbeat "" "") data |}.

Record ChatRequestEvent := MkChatRequest {
  cq_SessionID : string; UserPrompt : string; cq_Model : string; cq_MaxTokens : Z }.

Definition chatRequestJSON (e : ChatRequestEvent) : json :=
  JObj ([(text "session_id", strText (cq_SessionID e)); (text "user_prompt", strText (UserPrompt e))] ++
        omitempty "model" (cq_Model e) ++ omitInt "max_tokens" (cq_MaxTokens e)).

Definition chatRequestFields : list (field ChatRequestEvent) :=
  [MkField (text "session_id") (storeString (fun s e => MkChatRequest s (UserPrompt e) (cq_Model e) (cq_MaxTokens e)));
   MkField (text "user_prompt") (storeString (fun s e => MkChatRequest (cq_SessionID e) s (cq_Model e) (cq_MaxTokens e)));
   MkField (text "model") (storeString (fun s e => MkChatRequest (cq_SessionID e) (UserPrompt e) s (cq_MaxTokens e)));
   MkField (text "max_tokens") (storeInt (fun n e => MkChatRequest (cq_SessionID e) (UserPrompt e) (cq_Model e) n))].

#[global] Instance ChatRequestEvent_codec : Codec ChatRequestEvent :=
  {| Marshal e := Ok (print (chatRequestJSON e));
     Unmarshal data := unmarshalStruct chatRequestFields (MkChatRequest "" "" "" 0) data |}.

Record ChatResponseEvent := MkChatResponse {
  cr_SessionID : string; cr_Response : string; cr_Model : string; cr_TokensUsed : Z }.

Definition chatResponseJSON (e : ChatResponseEvent) : json :=
  JObj ([(text "session_id", strText (cr_SessionID e)); (text "response", strText (cr_Response e))] ++
        omitempty "model" (cr_Model e) ++ omitInt "tokens_used" (cr_TokensUsed e)).

Definition chatResponseFields : list (field ChatResponseEvent) :=
  [MkField (text "session_id") (storeString (fun s e => MkChatResponse s (cr_Response e) (cr_Model e) (cr_TokensUsed e)));
   MkField (text "response") (storeString (fun s e => MkChatResponse (cr_SessionID e) s (cr_Model e) (cr_TokensUsed e)));
   MkField (text "model") (storeString (fun s e => MkChatResponse (cr_SessionID e) (cr_Response e) s (cr_TokensUsed e)));
   MkField (text "tokens_used") (storeInt (fun n e => MkChatResponse (cr_SessionID e) (cr_Response e) (cr_Model e) n))].

#[global] Instance ChatResponseEvent_codec : Codec ChatResponseEvent :=
  {| Marshal e := Ok (print (chatResponseJSON e));
     Unmarshal data := unmarshalStruct chatResponseFields (MkChatResponse "" "" "" 0) data |}.

Record CompleteRequestEvent := MkCompleteRequest {
  pq_SessionID : string; pq_Prompt : string; pq_Model : string; pq_MaxTokens : Z }.

Definition completeRequestJSON (e : CompleteRequestEvent) : json :=
  JObj ([(text "session_id", strText (pq_SessionID e)); (text "prompt", strText (pq_Prompt e))] ++
        omitempty "model" (pq_Model e) ++ omitInt "max_tokens" (pq_MaxTokens e)).

Definition completeRequestFields : list (field CompleteRequestEvent) :=
  [MkField (text "session_id") (storeString (fun s e => MkCompleteRequest s (pq_Prompt e) (pq_Model e) (pq_MaxTokens e)));
   MkField (text "prompt") (storeString (fun s e => MkCompleteRequest (pq_SessionID e) s (pq_Model e) (pq_MaxTokens e)));
   MkField (text "model") (storeString (fun s e => MkCompleteRequest (pq_SessionID e) (pq_Prompt e) s (pq_MaxTokens e)));
   MkField (text "max_tokens") (storeInt (fun n e => MkCompleteRequest (pq_SessionID e) (pq_Prompt e) (pq_Model e) n))].

#[global] Instance CompleteRequestEvent_codec : Codec CompleteRequestEvent :=
  {| Marshal e := Ok (print (completeRequestJSON e));
     Unmarshal data := unmarshalStruct completeRequestFields (MkCompleteRequest "" "" "" 0) data |}.

Record CompleteResponseEvent := MkCompleteResponse {
  pr_SessionID : string; Completion : string; pr_Model : string; pr_TokensUsed : Z }.

Definition completeResponseJSON (e : CompleteResponseEvent) : json :=
  JObj ([(text "session_id", strText (pr_SessionID e)); (text "completion", strText (Completion e))] ++
        omitempty "model" (pr_Model e) ++ omitInt "tokens_used" (pr_TokensUsed e)).

Definition completeResponseFields : list (field CompleteResponseEvent) :=
  [MkField (text "session_id") (storeString (fun s e => MkCompleteResponse s (Completion e) (pr_Model e) (pr_TokensUsed e)));
   MkField (text "completion") (storeString (fun s e => MkCompleteResponse (pr_SessionID e) s (pr_Model e) (pr_TokensUsed e)));
   MkField (text "model") (storeString (fun s e => MkCompleteResponse (pr_SessionID e) (Completion e) s (pr_TokensUsed e)));
   MkField (text "tokens_used") (storeInt (fun n e => MkCompleteResponse (pr_SessionID e) (Completion e) (pr_Model e) n))].

#[global] Instance CompleteResponseEvent_codec : Codec CompleteResponseEvent :=
  {| Marshal e := Ok (print (completeResponseJSON e));
     Unmarshal data := unmarshalStruct completeResponseFields (MkCompleteResponse "" "" "" 0) data |}.

(** ** The structs of the handshake *)

Record authRequest := MkAuthRequest { ar_ServiceID : string }.

Definition authRequestJSON (r : authRequest) : json := JObj [(text "service_id", strText (ar_ServiceID r))].

Definition authRequestFields : list (field authRequest) :=
  [MkField (text "service_id") (storeString (fun s _ => MkAuthRequest s))].

#[global] Instance authRequest_codec : Codec authRequest :=
  {| Marshal r := Ok (print (authRequestJSON r));
     Unmarshal data := unmarshalStruct authRequestFields (MkAuthRequest "") data |}.

(** The server writes a [challengeMessage], the client reads it into a struct
    with an error besides. *)
Record challengeMessage := MkChallengeMessage { cm_Status : string; cm_Nonce : string; cm_Error : string }.

Definition challengeMessageJSON (m : challengeMessage) : json :=
  JObj [(text "status", strText (cm_Status m)); (text "nonce", strText (cm_Nonce m))].

Definition challengeMessageFields : list (field challengeMessage) :=
  [MkField (text "status") (storeString (fun s m => MkChallengeMessage s (cm_Nonce m) (cm_Error m)));
   MkField (text "nonce") (storeString (fun s m => MkChallengeMessage (cm_Status m) s (cm_Error m)));
   MkField (text "error") (storeString (fun s m => MkChallengeMessage (cm_Status m) (cm_Nonce m) s))].

#[global] Instance challengeMessage_codec : Codec challengeMessage :=
  {| Marshal m := Ok (print (challengeMessageJSON m));
     Unmarshal data := unmarshalStruct challengeMessageFields (MkChallengeMessage "" "" "") data |}.

Record challengeResponse := MkChallengeResponse { ch_Service : string; ch_Response : string }.

Definition challengeResponseJSON (r : challengeResponse) : json :=
  JObj [(text "service_id", strText (ch_Service r)); (text "response", strText (ch_Response r))].

Definition challengeResponseFields : list (field challengeResponse) :=
  [MkField (text "service_id") (storeString (fun s r => MkChallengeResponse s (ch_Response r)));
   MkField (text "response") (storeString (fun s r => MkChallengeResponse (ch_Service r) s))].

#[global] Instance challengeResponse_codec : Codec challengeResponse :=
  {| Marshal r := Ok (print (challengeResponseJSON r));
     Unmarshal data := unmarshalStruct challengeResponseFields (MkChallengeResponse "" "") data |}.

(** The struct of a refusal, written by the server only. *)
Record authResponse := MkAuthResponse { rs_Status : string; rs_Error : string }.

Definition authResponseJSON (r : authResponse) : json :=
  JObj ([(text "status", strText (rs_Status r))] ++ omitempty "error" (rs_Error r)).

(** The server writes the first three members of an [authResult]; the client
    reads one, and reads refusals into it as well. *)
Record authResult := MkAuthResult {
  rt_Status : string; rt_SessionToken : string; rt_Capabilities : list string; rt_Error : string }.

Definition authResultJSON (r : authResult) : json :=
  JObj [(text "status", strText (rt_Status r)); (text "session_token", strText (rt_SessionToken r));
        (text "capabilities", strsText (rt_Capabilities r))].

Definition authResultFields : list (field authResult) :=
  [MkField (text "status") (storeString (fun s r => MkAuthResult s (rt_SessionToken r) (rt_Capabilities r) (rt_Error r)));
   MkField (text "session_token") (storeString (fun s r => MkAuthResult (rt_Status r) s (rt_Capabilities r) (rt_Error r)));
   MkField (text "capabilities") (storeStrings (fun l r => MkAuthResult (rt_Status r) (rt_SessionToken r) l (rt_Error r)));
   MkField (text "error") (storeString (fun s r => MkAuthResult (rt_Status r) (rt_SessionToken r) (rt_Capabilities r) s))].

#[global] Instance authResult_codec : Codec authResult :=
  {| Marshal r := Ok (print (authResultJSON r));
     Unmarshal data := unmarshalStruct authResultFields (MkAuthResult "" "" [] "") data |}.

(** ** Hexadecimal decoding *)

Definition ErrLength : error := ErrorNew "encoding/hex: odd length hex string".
Definition errInvalidByte : error := ErrorNew "encoding/hex: invalid byte".

(** [hex.DecodeString] *)
Fixpoint hexDecode (s : list byte) : result (list byte) :=
  match s with
  | [] => Ok []
  | [a] => match hexVal a with Some _ => Err ErrLength | None => Err errInvalidByte end
  | a :: b :: r =>
      match hexVal a, hexVal b with
      | Some x, Some y => rest ← hexDecode r; Ok (z2b (x * 16 + y) :: rest)
      | _, _ => Err errInvalidByte
      end
  end.

Lemma hexVal_hexLower n : 0 <= n < 16 -> hexVal (hexLower n) = Some n.
Proof.
  intros Hn. assert (n ∈ seqZ 0 16) as Hin by (apply elem_of_seqZ; lia). clear Hn.
  revert n Hin. apply Forall_forall. by repeat constructor.
Qed.

Lemma hexDecode_hexEncode bs : hexDecode (hexEncode bs) = Ok bs.
Proof.
  induction bs as [|b bs IH]; [done|].
  change (hexEncode (b :: bs)) with (hexDigits 2 (b2z b) ++ hexEncode bs).
  pose proof (b2z_range b). cbn [hexDigits app].
  assert (0 <= b2z b / 16 < 16) by (split; [apply Z.div_pos|apply Z.div_lt_upper_bound]; lia).
  rewrite Z.mod_small by done. cbn [hexDecode].
  rewrite !hexVal_hexLower by (done || apply Z.mod_pos_bound; lia). rewrite IH. simpl. do 2 f_equal.
  rewrite <-(z2b_b2z b) at 3. f_equal. pose proof (Z_div_mod_eq_full (b2z b) 16). lia.
Qed.

(** ** The codec law of the payloads *)

(** Members with UTF-8 keys and canonical values. *)
Definition membersOk (ms : list (list byte * json)) : bool :=
  forallb (fun kv => validUTF8 (fst kv) && canonical (snd kv)) ms.

Lemma unmarshalStruct_print {T} (fields : list (field T)) zero ms v :
  membersOk ms = true -> jdepth (JObj ms) <= maxNestingDepth ->
  storeMembers fields ms zero = Ok v -> unmarshalStruct fields zero (print (JObj ms)) = Ok v.
Proof. intros Hc Hd Hs. unfold unmarshalStruct. by rewrite parseJSON_print. Qed.

Lemma membersOk_app l k : membersOk (l ++ k) = membersOk l && membersOk k.
Proof. apply forallb_app. Qed.

Lemma membersOk_cons key j l :
  validUTF8 (text key) = true -> canonical j = true -> membersOk ((text key, j) :: l) = membersOk l.
Proof. intros Hk Hj. cbn [membersOk forallb fst snd]. by rewrite Hk, Hj. Qed.

Lemma canonical_str s : validString s = true -> canonical (strText s) = true.
Proof. done. Qed.

Lemma membersOk_omitempty key s :
  validUTF8 (text key) = true -> validString s = true -> membersOk (omitempty key s) = true.
Proof.
  intros Hk Hs. unfold omitempty. destruct (String.eqb s ""); [done|].
  by rewrite membersOk_cons.
Qed.

Lemma int_text z :
  in_i64 z -> parseNumber (appendInt z 0) = Some (appendInt z 0, []) /\ parseInt64 (appendInt z 0) = Some z.
Proof.
  intros Hz. destruct (decide (0 <= z)) as [H0|H0].
  - assert (in_u64 z) as (Hp & Hd & Ha)%uint_text by (unfold in_u64, in_i64 in *; lia). split; [done|].
    unfold parseInt64. destruct (appendInt z 0) as [|c r] eqn:E; [done|].
    assert (isC c 45 = false) as ->.
    { cbn [forallb] in Hd. apply andb_true_iff in Hd as [Hd _]. unfold isDigit in Hd. breflect. apply isC_false. lia. }
    rewrite Hd, Ha, bool_decide_eq_true_2 by done. unfold in_i64 in Hz. by zbool.
  - assert (in_u64 (- z)) as (Hp & Hd & Ha)%uint_text by (unfold in_u64, in_i64 in *; lia).
    assert (appendInt z 0 = z2b 45 :: appendInt (- z) 0) as ->.
    { unfold appendInt. rewrite Z.abs_opp. by zbool. }
    split; [unfold parseNumber in *|]; destruct (appendInt (- z) 0) as [|c r] eqn:E; try done.
    + assert (isC c 45 = false) as Hc.
      { cbn [forallb] in Hd. apply andb_true_iff in Hd as [Hd _]. unfold isDigit in Hd. breflect. apply isC_false. lia. }
      rewrite Hc in Hp. change (isC (z2b 45) 45) with true. cbv iota. revert Hp.
      destruct (parseInt (c :: r)) as [[i r1]|]; cbn; [|done]. destruct (parseFrac r1) as [[f r2]|]; cbn; [|done].
      destruct (parseExp r2) as [[x r3]|]; cbn; [|done]. intros [= -> ->]. done.
    + unfold parseInt64. change (isC (z2b 45) 45) with true. cbv iota.
      rewrite Hd, Ha, Z.opp_involutive, bool_decide_eq_true_2 by done.
      unfold in_i64 in Hz. by zbool.
Qed.

Lemma canonical_int z : in_i64 z -> canonical (intText z) = true.
Proof. intros Hz. cbn [canonical intText]. apply bool_decide_eq_true, int_text, Hz. Qed.

Lemma storeInt_int {T} (set : Z -> T -> T) v z : in_i64 z -> storeInt set (intText z) v = Ok (set z v).
Proof. intros [_ Hz]%int_text. cbn [storeInt intText]. by rewrite Hz. Qed.

Lemma membersOk_omitInt key z :
  validUTF8 (text key) = true -> in_i64 z -> membersOk (omitInt key z) = true.
Proof.
  intros Hk Hz. unfold omitInt. destruct (z =? 0); [done|]. by rewrite membersOk_cons by auto using canonical_int.
Qed.

Lemma canonical_strs l : Forall (fun s => validString s = true) l -> canonical (strsText l) = true.
Proof. intros Hl. cbn [canonical strsText]. induction Hl; [done|]. simpl. apply andb_true_iff. by split. Qed.

Lemma jdepth_strs l : jdepth (strsText l) = 1.
Proof.
  cbn [jdepth strsText]. assert (foldr Z.max 0 (map jdepth (strText <$> l)) = 0) as ->; [|done].
  induction l as [|s l IH]; [done|]. rewrite fmap_cons. cbn [map foldr jdepth strText]. by rewrite IH.
Qed.

Lemma stringsOf_strs l : stringsOf (strText <$> l) = Ok l.
Proof.
  induction l as [|s l IH]; [done|]. rewrite fmap_cons. cbn [stringsOf strText]. rewrite IH. simpl.
  by rewrite String.string_of_list_byte_of_string.
Qed.

Lemma storeStrings_strs {T} (set : list string -> T -> T) v l :
  storeStrings set (strsText l) v = Ok (set l v).
Proof. cbn [storeStrings strsText]. by rewrite stringsOf_strs. Qed.

(** A number is written as a canonical JSON number, and is read back. *)
Lemma floatJSON_ok f :
  finite64 f -> exists t, floatJSON f = Ok (JNum t) /\ canonical (JNum t) = true /\ parseFloat t = Some f.
Proof.
  intros (t & Ht & Hp & Hf)%float_roundtrip. exists t. unfold floatJSON. rewrite Ht. split_and!; [done| |done].
  by apply bool_decide_eq_true.
Qed.

Lemma storeFloat_num {T} (set : float64 -> T -> T) v t f :
  parseFloat t = Some f -> storeFloat set (JNum t) v = Ok (set f v).
Proof. intros H. cbn [storeFloat]. by rewrite H. Qed.

Create HintDb events.
#[export] Hint Resolve canonical_str canonical_int canonical_strs
  membersOk_omitempty membersOk_omitInt : events.

(** Events are read back: the members are canonical, the object is shallow,
    and the members are stored one after the other. *)
Ltac store_one :=
  erewrite storeMembers_cons;
    [|reflexivity
     |cbn [store]; first [apply storeString_str | apply storeStrings_strs | apply storeInt_int; by auto
                         | apply storeFloat_num; eassumption | reflexivity]].

Ltac event_members :=
  repeat first
    [ rewrite membersOk_cons; [|reflexivity|by auto with events]
    | rewrite membersOk_app; apply andb_true_iff; split
    | by auto with events
    | reflexivity ].

Ltac event_depth :=
  unfold omitempty, omitInt; repeat case_match; cbn [jdepth app map foldr snd]; rewrite ?jdepth_strs; by compute.

Ltac event_store :=
  unfold omitempty, omitInt;
  repeat match goal with
  | |- context [String.eqb ?s ""] => destruct (String.eqb_spec s "") as [?|?]
  | |- context [?z =? 0] => destruct (Z.eqb_spec z 0) as [?|?]
  end; cbn [app]; repeat store_one; simpl in *; subst; reflexivity.

Ltac event_law :=
  apply unmarshalStruct_print; [event_members|event_depth|event_store].

#[global] Program Instance IntentEvent_law : CodecLaw IntentEvent :=
  {| marshals e := validString (Intent e) = true /\ finite64 (Confidence e) /\ validString (i_SessionID e) = true |}.
Next Obligation.
  intros [i c s] (? & (t & Ht & ? & ?)%floatJSON_ok & ?). cbn [Intent Confidence i_SessionID] in *.
  eexists. cbn [Marshal IntentEvent_codec]. unfold intentJSON. cbn [Confidence]. rewrite Ht. split; [done|]. event_law.
Qed.

#[global] Program Instance AckEvent_law : CodecLaw AckEvent :=
  {| marshals e := validString (a_RequestID e) = true /\ validString (a_Status e) = true /\ validString (a_Error e) = true |}.
Next Obligation. intros [r s e] (? & ? & ?). eexists. split; [done|]. event_law. Qed.

#[global] Program Instance PolicyResultEvent_law : CodecLaw PolicyResultEvent :=
  {| marshals e := validString (p_RequestID e) = true /\ validString (Reason e) = true |}.
Next Obligation. intros [r a s] (? & ?). eexists. split; [done|]. event_law. Qed.

#[global] Program Instance HeartbeatEvent_law : CodecLaw HeartbeatEvent :=
  {| marshals e := validString (hb_Service e) = true /\ validString (hb_Status e) = true |}.
Next Obligation. intros [s t] (? & ?). eexists. split; [done|]. event_law. Qed.

#[global] Program Instance ChatRequestEvent_law : CodecLaw ChatRequestEvent :=
  {| marshals e := validString (cq_SessionID e) = true /\ validString (UserPrompt e) = true /\
                   validString (cq_Model e) = true /\ in_i64 (cq_MaxTokens e) |}.
Next Obligation. intros [s p m n] (? & ? & ? & ?). eexists. split; [done|]. event_law. Qed.

#[global] Program Instance ChatResponseEvent_law : CodecLaw ChatResponseEvent :=
  {| marshals e := validString (cr_SessionID e) = true /\ validString (cr_Response e) = true /\
                   validString (cr_Model e) = true /\ in_i64 (cr_TokensUsed e) |}.
Next Obligation. intros [s p m n] (? & ? & ? & ?). eexists. split; [done|]. event_law. Qed.

#[global] Program Instance CompleteRequestEvent_law : CodecLaw CompleteRequestEvent :=
  {| marshals e := validString (pq_SessionID e) = true /\ validString (pq_Prompt e) = true /\
                   validString (pq_Model e) = true /\ in_i64 (pq_MaxTokens e) |}.
Next Obligation. intros [s p m n] (? & ? & ? & ?). eexists. split; [done|]. event_law. Qed.

#[global] Program Instance CompleteResponseEvent_law : CodecLaw CompleteResponseEvent :=
  {| marshals e := validString (pr_SessionID e) = true /\ validString (Completion e) = true /\
                   validString (pr_Model e) = true /\ in_i64 (pr_TokensUsed e) |}.
Next Obligation. intros [s p m n] (? & ? & ? & ?). eexists. split; [done|]. event_law. Qed.

#[global] Program Instance authRequest_law : CodecLaw authRequest :=
  {| marshals r := validString (ar_ServiceID r) = true |}.
Next Obligation. intros [s] ?. eexists. split; [done|]. event_law. Qed.

#[global] Program Instance challengeMessage_law : CodecLaw challengeMessage :=
  {| marshals m := validString (cm_Status m) = true /\ validString (cm_Nonce m) = true /\ cm_Error m = "" |}.
Next Obligation. intros [s n e] (? & ? & ?). eexists. split; [done|]. event_law. Qed.

#[global] Program Instance challengeResponse_law : CodecLaw challengeResponse :=
  {| marshals r := validString (ch_Service r) = true /\ validString (ch_Response r) = true |}.
Next Obligation. intros [s r] (? & ?). eexists. split; [done|]. event_law. Qed.

#[global] Program Instance authResult_law : CodecLaw authResult :=
  {| marshals r := validString (rt_Status r) = true /\ validString (rt_SessionToken r) = true /\
                   Forall (fun s => validString s = true) (rt_Capabilities r) /\ rt_Error r = "" |}.
Next Obligation. intros [s t l e] (? & ? & ? & ?). eexists. split; [done|]. event_law. Qed.

(** ** Sizes *)

Lemma length_escape b : (length (escape b) <= 6)%nat.
Proof. by destruct b; vm_compute; repeat constructor. Qed.

Lemma length_quoteBody bs : forall copy skip, (length (quoteBody copy skip bs) <= 6 * length bs)%nat.
Proof.
  induction bs as [|b r IH]; intros copy skip; [done|]. cbn [quoteBody length].
  destruct copy as [|k]; [|cbn [length]; specialize (IH k 0%nat); lia].
  destruct skip as [|k]; [|specialize (IH 0%nat k); lia].
  destruct (b2z b <? 0x80).
  { rewrite length_app. pose proof (length_escape b). specialize (IH 0%nat 0%nat). lia. }
  destruct (decodeRune (b :: r)) as [[x n]|].
  - destruct (_ || _).
    + rewrite length_app. specialize (IH 0%nat (n - 1)%nat). simpl. lia.
    + cbn [length]. specialize (IH (n - 1)%nat 0%nat). lia.
  - rewrite length_app. specialize (IH 0%nat 0%nat). simpl. lia.
Qed.

Lemma zlen_quote s : zlen (quote s) <= 6 * zlen s + 2.
Proof.
  unfold zlen, quote. cbn [length]. rewrite length_app. cbn [length]. pose proof (length_quoteBody s 0 0). lia.
Qed.

(** How much a member of an object adds to its text. *)
Definition memberSize (kv : list byte * json) : Z := 6 * zlen (fst kv) + 4 + zlen (print (snd kv)).

Definition membersSize (ms : list (list byte * json)) : Z := foldr Z.add 0 (map memberSize ms).

Lemma zlen_object ms : zlen (print (JObj ms)) <= 2 + membersSize ms.
Proof.
  cbn [print]. unfold zlen at 1. cbn [length]. rewrite length_app. cbn [length].
  assert (Z.of_nat (length (commaSep (map (fun kv => quote (fst kv) ++ z2b 58 :: print (snd kv)) ms))) <=
    membersSize ms); [|lia].
  induction ms as [|kv ms IH]; [done|]. unfold membersSize in *. cbn [map foldr].
  assert (Z.of_nat (length (quote (fst kv) ++ z2b 58 :: print (snd kv))) <= memberSize kv - 1).
  { unfold memberSize. rewrite length_app. cbn [length]. pose proof (zlen_quote (fst kv)). unfold zlen in *. lia. }
  destruct ms as [|kv0 ms]; [cbn [map foldr commaSep]; lia|].
  cbn [map]. rewrite commaSep_cons, length_app. cbn [map] in IH. cbn [length]. lia.
Qed.

Lemma memberSize_str k s : memberSize (text k, strText s) <= 6 * slen k + 6 * slen s + 6.
Proof.
  unfold memberSize. cbn [fst snd print strText]. pose proof (zlen_quote (bytes_of_string s)).
  rewrite !zlen_bytes_of_string in *. lia.
Qed.

Lemma memberSize_int k z : memberSize (text k, JNum (appendInt z 0)) <= 6 * slen k + 26.
Proof.
  unfold memberSize. cbn [fst snd print]. pose proof (length_appendInt z 0). rewrite zlen_bytes_of_string. unfold zlen. lia.
Qed.

Lemma length_trimZeros l : (length (trimZeros l) <= length l)%nat.
Proof. induction l as [|b l IH]; [done|]. cbn [trimZeros]. destruct (b2z b =? 48); cbn [length]; lia. Qed.

(** A formatted time is short, whatever the time. *)
Lemma length_Format t : (length (FormatRFC3339Nano t) <= 200)%nat.
Proof.
  assert (forall n, length (appendNano n) <= 10)%nat as Hn.
  { intros n. unfold appendNano. destruct (n =? 0); [simpl; lia|]. cbn [length]. rewrite length_reverse.
    pose proof (length_trimZeros (reverse (decimals 9 n))) as Ht. rewrite length_reverse, length_decimals in Ht. lia. }
  unfold FormatRFC3339Nano. destruct (civil _) as [[y m] d]. cbv zeta.
  assert (forall x, length (appendInt x 2) <= 22)%nat as H2 by (intros x; pose proof (length_appendInt x 2); lia).
  assert (forall x, length (appendInt x 4) <= 22)%nat as H4 by (intros x; pose proof (length_appendInt x 4); lia).
  destruct (offset t =? 0); rewrite !length_app; cbn [length];
    repeat match goal with
    | |- context [length (appendInt ?x 4)] => pose proof (H4 x); generalize dependent (length (appendInt x 4)); intros
    | |- context [length (appendInt ?x 2)] => pose proof (H2 x); generalize dependent (length (appendInt x 2)); intros
    | |- context [length (appendNano ?x)] => pose proof (Hn x); generalize dependent (length (appendNano x)); intros
    end; lia.
Qed.

Lemma membersSize_cons kv ms : membersSize (kv :: ms) = memberSize kv + membersSize ms.
Proof. done. Qed.

Lemma membersSize_app l k : membersSize (l ++ k) = membersSize l + membersSize k.
Proof. induction l as [|kv l IH]; [done|]. cbn [app]. rewrite !membersSize_cons. lia. Qed.

Lemma membersSize_omitempty k s : membersSize (omitempty k s) <= 6 * slen k + 6 * slen s + 6.
Proof.
  unfold omitempty. destruct (String.eqb s ""); [unfold membersSize, slen; simpl; lia|].
  rewrite membersSize_cons. pose proof (memberSize_str k s). unfold membersSize. simpl. lia.
Qed.

(** The size of a header, from the sizes of its strings. *)
Lemma header_size h :
  zlen (print (headerJSON h)) <=
  6 * (slen (hServiceID h) + slen (hSessionID h) + slen (hRequestID h) + slen (hTimestamp h) +
       slen (hCapability h) + slen (hRoute h)) + 800.
Proof.
  unfold headerJSON. etrans; [apply zlen_object|]. rewrite !membersSize_app, !membersSize_cons.
  pose proof (memberSize_str "service_id" (hServiceID h)). pose proof (memberSize_str "session_id" (hSessionID h)).
  pose proof (memberSize_str "request_id" (hRequestID h)). pose proof (memberSize_int "sequence" (hSequence h)).
  pose proof (memberSize_str "timestamp" (hTimestamp h)). pose proof (memberSize_int "priority" (hPriority h)).
  pose proof (membersSize_omitempty "capability" (hCapability h)). pose proof (membersSize_omitempty "route" (hRoute h)).
  pose proof (memberSize_int "payload_format" (hPayloadFormat h)). change (membersSize []) with 0.
  cbn [slen String.length] in *. unfold uintText, slen in *. simpl String.length in *. lia.
Qed.

(** ** ASCII text is UTF-8 *)

Definition asciiText (bs : list byte) : Prop := Forall (fun b => b2z b < 128) bs.

Lemma asciiText_valid bs : asciiText bs -> validUTF8 bs = true.
Proof.
  unfold validUTF8. induction 1 as [|b bs Hb Hbs IH]; [done|]. cbn [validFrom]. by rewrite decodeRune_ascii.
Qed.

Lemma asciiText_decimals n : forall x, asciiText (decimals n x).
Proof.
  induction n as [|n IH]; intros x; [by apply Forall_nil_2|]. cbn [decimals]. apply Forall_app. split; [apply IH|].
  apply Forall_singleton. pose proof (Z.mod_pos_bound x 10 ltac:(done)). rewrite b2z_digit by lia. lia.
Qed.

Lemma asciiText_appendInt x w : asciiText (appendInt x w).
Proof.
  unfold appendInt. apply Forall_app. split; [|apply asciiText_decimals].
  destruct (x <? 0); [by apply Forall_singleton; vm_compute|by apply Forall_nil_2].
Qed.

Lemma asciiText_trimZeros l : asciiText l -> asciiText (trimZeros l).
Proof. induction 1 as [|b l Hb Hl IH]; [by apply Forall_nil_2|]. cbn [trimZeros]. destruct (b2z b =? 48); [done|]. by apply Forall_cons_2. Qed.

Lemma asciiText_Format t : asciiText (FormatRFC3339Nano t).
Proof.
  assert (forall n, asciiText (appendNano n)) as Hn.
  { intros n. unfold appendNano. destruct (n =? 0); [by apply Forall_nil_2|]. apply Forall_cons_2; [by vm_compute|].
    apply Forall_reverse, asciiText_trimZeros, Forall_reverse, asciiText_decimals. }
  unfold FormatRFC3339Nano. destruct (civil _) as [[y m] d]. cbv zeta.
  repeat first [apply asciiText_appendInt | apply Hn | apply Forall_app; split | apply Forall_singleton; by vm_compute | case_match].
Qed.

Lemma asciiText_hexEncode bs : asciiText (hexEncode bs).
Proof.
  induction bs as [|b bs IH]; [by apply Forall_nil_2|].
  change (hexEncode (b :: bs)) with (hexDigits 2 (b2z b) ++ hexEncode bs). apply Forall_app. split; [|done].
  assert (forall n, 0 <= n < 16 -> b2z (hexLower n) < 128) as Hh.
  { intros n Hn. assert (n ∈ seqZ 0 16) as Hin by (apply elem_of_seqZ; lia). clear Hn.
    revert n Hin. apply Forall_forall. by repeat constructor. }
  cbn [hexDigits app]. repeat (apply Forall_cons_2; [apply Hh, Z.mod_pos_bound; lia|]). by apply Forall_nil_2.
Qed.

Lemma validString_bytes bs : asciiText bs -> validString (string_of_bytes bs) = true.
Proof. intros H. unfold validString. rewrite String.list_byte_of_string_of_list_byte. by apply asciiText_valid. Qed.
