(* ===== verification/CMem.v ===== *)
(** * The memory of the C SDK

    What the models of src/sdk/c share: arrays of bytes with bounds, the status
    codes of eipc_types.h, and the idiom [buf[pos++] = x].  The result of an
    access outside an array is [None], undefined behaviour; a theorem that a
    function returns [Some] is its memory safety. *)

From S2P Require Import Prelude.
Local Open Scope Z_scope.

(** ** Definitions *)

Inductive eipc_status_t :=
| EIPC_OK | EIPC_ERR_NOMEM | EIPC_ERR_INVALID | EIPC_ERR_IO | EIPC_ERR_TIMEOUT | EIPC_ERR_AUTH
| EIPC_ERR_CAPABILITY | EIPC_ERR_INTEGRITY | EIPC_ERR_REPLAY | EIPC_ERR_BACKPRESSURE
| EIPC_ERR_CONNECT | EIPC_ERR_PROTOCOL | EIPC_ERR_FRAME_TOO_LARGE | EIPC_ERR_BAD_MAGIC
| EIPC_ERR_BAD_VERSION | EIPC_ERR_NOT_FOUND | EIPC_ERR_BUFFER.

#[global] Instance eipc_status_t_eq_dec : EqDecision eipc_status_t.
Proof. solve_decision. Defined.

(** [b[i]] as a value and as a target. *)
Definition load (i : nat) (b : list byte) : option byte := b !! i.

Definition store (i : nat) (x : byte) (b : list byte) : option (list byte) :=
  if decide (i < length b)%nat then Some (<[i := x]> b) else None.

(** [memcpy(dst + off, src, n)] and [memset(dst + off, v, n)] *)
Definition memcpy (off : nat) (src : list byte) (n : nat) (dst : list byte) : option (list byte) :=
  if decide (off + n <= length dst /\ n <= length src)%nat
  then Some (splice off (take n src) dst) else None.

Definition memset (off : nat) (v : byte) (n : nat) (dst : list byte) : option (list byte) :=
  memcpy off (replicate n v) n dst.

(** [((uint32_t)b[i] << 24) | ... | b[i+3]] and its 16-bit version. *)
Definition load32 (i : nat) (b : list byte) : option Z :=
  b0 ← load i b; b1 ← load (i + 1) b; b2 ← load (i + 2) b; b3 ← load (i + 3) b;
  Some (Z.lor (Z.lor (Z.lor (Z.shiftl (b2z b0) 24) (Z.shiftl (b2z b1) 16))
                     (Z.shiftl (b2z b2) 8)) (b2z b3)).

Definition load16 (i : nat) (b : list byte) : option Z :=
  b0 ← load i b; b1 ← load (i + 1) b; Some (Z.lor (Z.shiftl (b2z b0) 8) (b2z b1)).

(** The bytes [(uint8_t)(z >> 24)], ..., [(uint8_t)z] that stores of a 32-bit
    value write, and the 16-bit version. *)
Definition bytes32 (z : Z) : list byte :=
  [z2b (Z.shiftr z 24); z2b (Z.shiftr z 16); z2b (Z.shiftr z 8); z2b z].

Definition bytes16 (z : Z) : list byte := [z2b (Z.shiftr z 8); z2b z].

(** A buffer with the write position [pos]. *)
Record cursor := MkCursor { cu_buf : list byte; cu_pos : nat }.

(** [buf[pos++] = x] *)
Definition push (x : byte) (c : cursor) : option cursor :=
  b ← store (cu_pos c) x (cu_buf c); Some (MkCursor b (cu_pos c + 1)).

Fixpoint pushAll (xs : list byte) (c : cursor) : option cursor :=
  match xs with
  | [] => Some c
  | x :: xs' => c ← push x c; pushAll xs' c
  end.

(** [if (n > 0) { memcpy(buf + pos, src, n); pos += n; }] *)
Definition pushCopy (src : list byte) (n : nat) (c : cursor) : option cursor :=
  if (0 <? n)%nat
  then b ← memcpy (cu_pos c) src n (cu_buf c); Some (MkCursor b (cu_pos c + n))
  else Some c.

(** The C string at the front of an array: the bytes before the first NUL;
    without a NUL, reading it runs out of the array. *)
Fixpoint cstr (b : list byte) : option (list byte) :=
  match b with
  | [] => None
  | x :: b' => if b2z x =? 0 then Some [] else s ← cstr b'; Some (x :: s)
  end.

(** ** Lemmas *)

Lemma bytes32_be z : bytes32 z = be_put 4 z.
Proof. unfold bytes32. cbn [be_put]. change (8 * Z.of_nat 0) with 0. by rewrite Z.shiftr_0_r. Qed.

Lemma bytes16_be z : bytes16 z = be_put 2 z.
Proof. unfold bytes16. cbn [be_put]. change (8 * Z.of_nat 0) with 0. by rewrite Z.shiftr_0_r. Qed.

Lemma splice_nil o b : splice o [] b = b.
Proof. unfold splice. cbn [length app]. rewrite Nat.add_0_r. apply take_drop. Qed.

Lemma splice_app o xs ys b :
  (o + length xs <= length b)%nat ->
  splice (o + length xs) ys (splice o xs b) = splice o (xs ++ ys) b.
Proof.
  intros Hb. unfold splice at 1 2 3. rewrite (app_assoc (take o b)).
  rewrite take_app_length' by (rewrite length_app, length_take; lia).
  rewrite drop_app_ge by (rewrite length_app, length_take; lia).
  rewrite length_app, length_take, drop_drop, length_app, <-!app_assoc.
  do 3 f_equal. f_equal. lia.
Qed.

Lemma splice_front xs ys b :
  (length xs <= length b)%nat -> splice (length xs) ys (splice 0 xs b) = splice 0 (xs ++ ys) b.
Proof. apply (splice_app 0). Qed.

Lemma insert_splice o x b : (o < length b)%nat -> <[o := x]> b = splice o [x] b.
Proof.
  intros Ho. unfold splice. rewrite insert_take_drop by done. cbn [length app]. by rewrite Nat.add_1_r.
Qed.

Lemma store_ok o x b : (o < length b)%nat -> store o x b = Some (splice o [x] b).
Proof. intros Ho. unfold store. rewrite decide_True by done. by rewrite insert_splice. Qed.

Lemma memcpy_ok o src n b :
  (o + n <= length b)%nat -> (n <= length src)%nat -> memcpy o src n b = Some (splice o (take n src) b).
Proof. intros. unfold memcpy. by rewrite decide_True. Qed.

Lemma memset_ok o v n b :
  (o + n <= length b)%nat -> memset o v n b = Some (splice o (replicate n v) b).
Proof.
  intros. unfold memset. rewrite memcpy_ok by (rewrite ?length_replicate; lia).
  by rewrite take_ge by (rewrite length_replicate; lia).
Qed.

(** A cursor that started at [o] in [b] and has written [xs]. *)
Definition wrote (o : nat) (xs b : list byte) : cursor := MkCursor (splice o xs b) (o + length xs).

Lemma push_ok x o xs b :
  (o + length xs < length b)%nat -> push x (wrote o xs b) = Some (wrote o (xs ++ [x]) b).
Proof.
  intros Hb. unfold push, wrote. cbn [cu_pos cu_buf].
  rewrite store_ok by (rewrite length_splice; lia). cbn [mbind option_bind].
  rewrite splice_app, length_app by lia. cbn [length]. do 2 f_equal. lia.
Qed.

Lemma pushAll_ok ys o xs b :
  (o + length xs + length ys <= length b)%nat ->
  pushAll ys (wrote o xs b) = Some (wrote o (xs ++ ys) b).
Proof.
  revert xs. induction ys as [|y ys IH]; intros xs Hb; cbn [pushAll length] in *; [by rewrite app_nil_r|].
  rewrite push_ok by lia. cbn [mbind option_bind].
  rewrite IH by (rewrite length_app; cbn [length]; lia). by rewrite <-app_assoc.
Qed.

Lemma pushCopy_ok src n o xs b :
  (o + length xs + n <= length b)%nat -> (n <= length src)%nat ->
  pushCopy src n (wrote o xs b) = Some (wrote o (xs ++ take n src) b).
Proof.
  intros Hb Hs. unfold pushCopy. destruct (Nat.ltb_spec 0 n) as [Hn|Hn].
  - unfold wrote. cbn [cu_pos cu_buf]. rewrite memcpy_ok by (rewrite ?length_splice; lia).
    cbn [mbind option_bind]. rewrite splice_app by lia.
    rewrite length_app, length_take. do 2 f_equal. lia.
  - replace n with 0%nat by lia. by rewrite take_0, app_nil_r.
Qed.

Lemma wrote_nil b : MkCursor b 0 = wrote 0 [] b.
Proof. unfold wrote. by rewrite splice_nil. Qed.

Lemma load32_ok i b : (i + 4 <= length b)%nat -> load32 i b = Some (be_get (slice i (i + 4) b)).
Proof.
  intros Hi. unfold load32, load.
  destruct (drop i b) as [|b0 [|b1 [|b2 [|b3 l]]]] eqn:E;
    try (apply (f_equal length) in E; rewrite length_drop in E; cbn [length] in E; lia).
  assert (forall j, b !! (i + j)%nat = drop i b !! j) as Hd by (intros; by rewrite lookup_drop).
  rewrite <-(Nat.add_0_r i) at 1. rewrite !Hd, E. cbn. unfold slice. rewrite E.
  replace (i + 4 - i)%nat with 4%nat by lia. cbn [take]. by rewrite shiftInt_be.
Qed.

Lemma load16_ok i b : (i + 2 <= length b)%nat -> load16 i b = Some (be_get (slice i (i + 2) b)).
Proof.
  intros Hi. unfold load16, load.
  destruct (drop i b) as [|b0 [|b1 l]] eqn:E;
    try (apply (f_equal length) in E; rewrite length_drop in E; cbn [length] in E; lia).
  assert (forall j, b !! (i + j)%nat = drop i b !! j) as Hd by (intros; by rewrite lookup_drop).
  rewrite <-(Nat.add_0_r i) at 1. rewrite !Hd, E. cbn. unfold slice. rewrite E.
  replace (i + 2 - i)%nat with 2%nat by lia. cbn [take]. by rewrite shiftShort_be.
Qed.
