(* ===== verification/CSha256.v ===== *)
(** * SHA-256 and HMAC of the C SDK: src/sdk/c/src/eipc_sha256.c, eipc_hmac.c

    The streaming hash with its one-block buffer and the HMAC built on it, and
    the proof that they compute the functions of [Sha256], which the Go side
    uses. *)

From S2P Require Import Prelude Sha256 Integrity CMem.
Local Open Scope Z_scope.

(** ** eipc_sha256.c *)

Definition ROTR (x n : Z) : Z := Z.lor (Z.shiftr x n) (Z.shiftl x (32 - n) mod 2 ^ 32).
Definition CH (x y z : Z) : Z := Z.lxor (Z.land x y) (Z.land (Z.lxor x (2 ^ 32 - 1)) z).
Definition MAJ (x y z : Z) : Z := Z.lxor (Z.lxor (Z.land x y) (Z.land x z)) (Z.land y z).
Definition EP0 (x : Z) : Z := Z.lxor (Z.lxor (ROTR x 2) (ROTR x 13)) (ROTR x 22).
Definition EP1 (x : Z) : Z := Z.lxor (Z.lxor (ROTR x 6) (ROTR x 11)) (ROTR x 25).
Definition SIG0 (x : Z) : Z := Z.lxor (Z.lxor (ROTR x 7) (ROTR x 18)) (Z.shiftr x 3).
Definition SIG1 (x : Z) : Z := Z.lxor (Z.lxor (ROTR x 17) (ROTR x 19)) (Z.shiftr x 10).

Record sha256_ctx := MkCtx {
  cx_state : digest;          (* uint32_t state[8] *)
  cx_block : list byte;       (* uint8_t block[64] *)
  total_bits : Z;
  block_len : nat
}.

(** The loop [for (i = 16; i < 64; i++) w[i] = ...]: [n] rounds of it on the
    words computed so far. *)
Fixpoint expand (n : nat) (w : list Z) : list Z :=
  match n with
  | O => w
  | S n' =>
      let i := length w in
      expand n' (w ++ [add32 (add32 (add32 (SIG1 (nth (i - 2) w 0)) (nth (i - 7) w 0))
                                    (SIG0 (nth (i - 15) w 0))) (nth (i - 16) w 0)])
  end.

(** One round of the main loop on the variables [a] to [h]. *)
Definition sha256_round (v : digest) (kw : Z * Z) : digest :=
  let '(MkDigest a b c d e f g h) := v in
  let t1 := add32 (add32 (add32 (add32 h (EP1 e)) (CH e f g)) kw.1) kw.2 in
  let t2 := add32 (EP0 a) (MAJ a b c) in
  MkDigest (add32 t1 t2) a b c (add32 d t1) e f g.

Definition sha256_transform (ctx : sha256_ctx) : option sha256_ctx :=
  w ← mapM (fun i => load32 (i * 4) (cx_block ctx)) (seq 0 16);
  let w := expand 48 w in
  let s := cx_state ctx in
  let v := fold_left sha256_round (zip K256 w) s in
  Some (MkCtx (MkDigest (add32 (dA s) (dA v)) (add32 (dB s) (dB v)) (add32 (dC s) (dC v))
                 (add32 (dD s) (dD v)) (add32 (dE s) (dE v)) (add32 (dF s) (dF v))
                 (add32 (dG s) (dG v)) (add32 (dH s) (dH v)))
              (cx_block ctx) (total_bits ctx) (block_len ctx)).

(** The block is left as it was on the stack. *)
Definition sha256_init (stack : list byte) : sha256_ctx := MkCtx H256 stack 0 0.

Definition sha256_push (x : byte) (ctx : sha256_ctx) : option sha256_ctx :=
  c ← push x (MkCursor (cx_block ctx) (block_len ctx));
  Some (MkCtx (cx_state ctx) (cu_buf c) (total_bits ctx) (cu_pos c)).

Fixpoint sha256_update (data : list byte) (ctx : sha256_ctx) : option sha256_ctx :=
  match data with
  | [] => Some ctx
  | x :: data' =>
      ctx ← sha256_push x ctx;
      ctx ← (if (block_len ctx =? 64)%nat
             then ctx ← sha256_transform ctx;
                  Some (MkCtx (cx_state ctx) (cx_block ctx) (u64 (total_bits ctx + 512)) 0)
             else Some ctx);
      sha256_update data' ctx
  end.

(** [while (ctx->block_len < limit) ctx->block[ctx->block_len++] = 0x00;] *)
Definition zeroFill (limit : nat) (c : cursor) : option cursor :=
  pushAll (replicate (limit - cu_pos c) (z2b 0)) c.

(** The second half of [sha256_final]: the bit count, the last block and the
    output of the state. *)
Definition sha256_output (bits : Z) (ctx : sha256_ctx) : option (list byte) :=
  c ← pushAll [z2b (Z.shiftr bits 56); z2b (Z.shiftr bits 48); z2b (Z.shiftr bits 40);
               z2b (Z.shiftr bits 32); z2b (Z.shiftr bits 24); z2b (Z.shiftr bits 16);
               z2b (Z.shiftr bits 8); z2b bits] (MkCursor (cx_block ctx) 56);
  ctx ← sha256_transform (MkCtx (cx_state ctx) (cu_buf c) (total_bits ctx) (block_len ctx));
  let s := cx_state ctx in
  Some (bytes32 (dA s) ++ bytes32 (dB s) ++ bytes32 (dC s) ++ bytes32 (dD s) ++
        bytes32 (dE s) ++ bytes32 (dF s) ++ bytes32 (dG s) ++ bytes32 (dH s)).

Definition sha256_final (ctx : sha256_ctx) : option (list byte) :=
  let orig_len := block_len ctx in
  let bits := u64 (total_bits ctx + u64 (Z.of_nat orig_len * 8)) in
  c ← push (z2b 0x80) (MkCursor (cx_block ctx) orig_len);
  ctx ← (if (orig_len <? 56)%nat
         then c ← zeroFill 56 c; Some (MkCtx (cx_state ctx) (cu_buf c) (total_bits ctx) (cu_pos c))
         else c ← zeroFill 64 c;
              ctx ← sha256_transform (MkCtx (cx_state ctx) (cu_buf c) (total_bits ctx) (cu_pos c));
              b ← memset 0 (z2b 0) 56 (cx_block ctx);
              Some (MkCtx (cx_state ctx) b (total_bits ctx) (block_len ctx)));
  sha256_output bits ctx.

(** [stack] is what the uninitialised [ctx.block] holds. *)
Definition eipc_sha256 (stack data : list byte) : option (list byte) :=
  ctx ← sha256_update data (sha256_init stack);
  sha256_final ctx.

(** ** eipc_hmac.c *)

(** The stack arrays of a call before they are written, and whether [malloc]
    succeeds. *)
Record hmac_env := MkHmacEnv {
  env_ctx : list byte;      (* the hash context's block *)
  env_ipad : list byte; env_opad : list byte;
  env_inner_buf : list byte; env_outer : list byte;
  env_heap : option (list byte)
}.

Definition HMAC_BLOCK_SIZE : nat := 64.
Definition HMAC_HASH_SIZE : nat := 32.

(** [sizeof(inner_buf)] *)
Definition INNER_BUF_SIZE : Z := 64 + 65536.

(** [for (i = 0; i < HMAC_BLOCK_SIZE; i++) pad[i] = k[i] ^ x;] *)
Definition padLoop (x : Z) (k pad : list byte) : option (list byte) :=
  c ← pushAll (xorPad x (take HMAC_BLOCK_SIZE k)) (MkCursor pad 0); Some (cu_buf c).

(** The two [memcpy]s and the hash of [pad || data] in the buffer [buf]. *)
Definition hashPadded (env : hmac_env) (buf pad data : list byte) (n : nat) : option (list byte) :=
  b ← memcpy 0 pad HMAC_BLOCK_SIZE buf;
  b ← memcpy HMAC_BLOCK_SIZE data n b;
  eipc_sha256 (env_ctx env) (take (HMAC_BLOCK_SIZE + n) b).

Definition eipc_hmac_sign (env : hmac_env) (key data : list byte) : option (list byte) :=
  let k := replicate HMAC_BLOCK_SIZE (z2b 0) in
  k ← (if (HMAC_BLOCK_SIZE <? length key)%nat
       then h ← eipc_sha256 (env_ctx env) key; memcpy 0 h HMAC_HASH_SIZE k
       else memcpy 0 key (length key) k);
  ipad ← padLoop 0x36 k (env_ipad env);
  opad ← padLoop 0x5c k (env_opad env);
  inner ← (if zlen data <=? INNER_BUF_SIZE - Z.of_nat HMAC_BLOCK_SIZE
           then h ← hashPadded env (env_inner_buf env) ipad data (length data); Some (Some h)
           else match env_heap env with
                | Some buf => h ← hashPadded env buf ipad data (length data); Some (Some h)
                | None => Some None
                end);
  match inner with
  | None => Some (replicate 32 (z2b 0))
  | Some inner_hash => hashPadded env (env_outer env) opad inner_hash HMAC_HASH_SIZE
  end.

(** [for (i = 0; i < 32; i++) diff |= computed[i] ^ mac[i];] *)
Fixpoint diffLoop (n i : nat) (computed mac : list byte) (diff : Z) : option Z :=
  match n with
  | O => Some diff
  | S n' =>
      x ← load i computed; y ← load i mac;
      diffLoop n' (i + 1) computed mac (Z.lor diff (Z.lxor (b2z x) (b2z y)))
  end.

Definition eipc_hmac_verify (env : hmac_env) (key data mac : list byte) : option bool :=
  computed ← eipc_hmac_sign env key data;
  diff ← diffLoop 32 0 computed mac 0;
  Some (diff =? 0).

(** ** The compression function *)

Lemma add32_assoc x y z : add32 (add32 x y) z = add32 x (add32 y z).
Proof. unfold add32. rewrite Zplus_mod_idemp_l, Zplus_mod_idemp_r. f_equal. lia. Qed.

Lemma sha256_round_eq v kw : sha256_round v kw = round v kw.
Proof.
  destruct v. unfold sha256_round, round.
  assert (forall x y z, MAJ x y z = Maj x y z) as HM by (intros; unfold MAJ, Maj; apply Z.lxor_assoc).
  assert (forall x, EP0 x = bigSigma0 x) as H0 by (intros; unfold EP0, bigSigma0; apply Z.lxor_assoc).
  assert (forall x, EP1 x = bigSigma1 x) as H1 by (intros; unfold EP1, bigSigma1; apply Z.lxor_assoc).
  rewrite HM, H0, H1. rewrite (add32_assoc (add32 dH (bigSigma1 dE))). done.
Qed.

Lemma expand_eq n l : (16 <= length l)%nat -> expand n (rev l) = rev (schedule n l).
Proof.
  revert l. induction n as [|n IH]; intros l Hl; [done|]. cbn [expand schedule].
  assert (forall x, SIG0 x = smallSigma0 x) as H0 by (intros; unfold SIG0, smallSigma0; apply Z.lxor_assoc).
  assert (forall x, SIG1 x = smallSigma1 x) as H1 by (intros; unfold SIG1, smallSigma1; apply Z.lxor_assoc).
  rewrite length_rev, !rev_nth by lia. rewrite H0, H1.
  replace (length l - S (length l - 2))%nat with 1%nat by lia.
  replace (length l - S (length l - 7))%nat with 6%nat by lia.
  replace (length l - S (length l - 15))%nat with 14%nat by lia.
  replace (length l - S (length l - 16))%nat with 15%nat by lia.
  rewrite add32_assoc.
  change (rev l ++ [?x]) with (rev (x :: l)). apply IH. cbn [length]. lia.
Qed.

Lemma chunks_slices n c l : chunks n c l = (fun i => slice (i * n) (i * n + n) l) <$> seq 0 c.
Proof.
  revert l. induction c as [|c IH]; intros l; [done|]. cbn [chunks seq]. rewrite fmap_cons.
  f_equal.
  - unfold slice. cbn. by rewrite Nat.sub_0_r.
  - rewrite IH, <-seq_shift, <-list_fmap_compose. apply list_fmap_ext. intros _ i _. unfold slice. cbn.
    rewrite drop_drop. f_equal; lia.
Qed.

Lemma mapM_load32 b js :
  (forall j, j ∈ js -> j * 4 + 4 <= length b)%nat ->
  mapM (fun i => load32 (i * 4) b) js = Some ((fun i => be_get (slice (i * 4) (i * 4 + 4) b)) <$> js).
Proof.
  induction js as [|j js IH]; intros Hj; [done|]. cbn [mapM].
  rewrite load32_ok by (apply Hj; left). cbn [mbind option_bind].
  rewrite IH by (intros; apply Hj; by right). done.
Qed.

(** The transform of a full block is the reference's block step. *)
Lemma transform_ok s b t n :
  length b = 64%nat -> sha256_transform (MkCtx s b t n) = Some (MkCtx (block s b) b t n).
Proof.
  intros Hb. unfold sha256_transform. cbn [cx_block cx_state total_bits block_len].
  rewrite mapM_load32 by (intros j Hj%elem_of_seq; lia). cbn [mbind option_bind].
  unfold block. rewrite chunks_slices, <-list_fmap_compose.
  set (w := _ <$> seq 0 16). change (_ ∘ _ <$> seq 0 16) with w.
  rewrite <-(expand_eq 48 (rev w)) by (by rewrite length_rev). rewrite rev_involutive.
  assert (forall l v, fold_left sha256_round l v = fold_left round l v) as ->; [|done].
  induction l as [|kw l IH]; intros v; [done|]. cbn [fold_left]. by rewrite sha256_round_eq.
Qed.

(** ** The streaming interface *)

(** The context after hashing the bytes [data]: [blocks] are done, the rest is
    at the front of the block buffer. *)
Definition absorbed (data : list byte) (ctx : sha256_ctx) : Prop :=
  exists blocks rest,
    data = concat blocks ++ rest /\ Forall (fun b => length b = 64%nat) blocks /\
    (length rest < 64)%nat /\ length (cx_block ctx) = 64%nat /\
    cx_state ctx = fold_left block blocks H256 /\ total_bits ctx = u64 (512 * zlen blocks) /\
    MkCursor (cx_block ctx) (block_len ctx) = wrote 0 rest (cx_block ctx).

Lemma length_concat_blocks (bs : list (list byte)) :
  Forall (fun b => length b = 64%nat) bs -> length (concat bs) = (64 * length bs)%nat.
Proof. induction 1 as [|b bs Hb _ IH]; [done|]. cbn [concat length]. rewrite length_app, Hb, IH. lia. Qed.

Lemma chunks_concat (bs : list (list byte)) :
  Forall (fun b => length b = 64%nat) bs ->
  chunks 64 (length (concat bs) / 64) (concat bs) = bs.
Proof.
  intros H. rewrite length_concat_blocks by done. rewrite Nat.mul_comm, Nat.div_mul by lia.
  induction H as [|b bs Hb _ IH]; [done|]. cbn [concat length chunks].
  rewrite take_app_length', drop_app_length' by done. by rewrite IH.
Qed.

Lemma splice_whole xs b : length xs = length b -> splice 0 xs b = xs.
Proof. intros H. unfold splice. by rewrite take_0, drop_ge, app_nil_r by lia. Qed.

Lemma wrote_splice xs b :
  (length xs <= length b)%nat -> wrote 0 xs (splice 0 xs b) = wrote 0 xs b.
Proof.
  intros H. unfold wrote. f_equal. unfold splice. rewrite !take_0. cbn [app]. f_equal.
  by rewrite drop_app_length' by lia.
Qed.

Lemma init_absorbed stack : length stack = 64%nat -> absorbed [] (sha256_init stack).
Proof.
  intros Hs. exists [], []. unfold sha256_init. cbn [cx_block cx_state total_bits block_len].
  rewrite wrote_nil. split_and!; try done. cbn. lia.
Qed.

Lemma u64_add_512 n : u64 (u64 (512 * n) + 512) = u64 (512 * (n + 1)).
Proof. unfold u64. rewrite Zplus_mod_idemp_l. f_equal. lia. Qed.

Lemma update_absorbed data xs ctx :
  absorbed xs ctx -> exists ctx', sha256_update data ctx = Some ctx' /\ absorbed (xs ++ data) ctx'.
Proof.
  revert xs ctx. induction data as [|x data IH]; intros xs ctx Ha.
  { exists ctx. by rewrite app_nil_r. }
  replace (xs ++ x :: data) with ((xs ++ [x]) ++ data) by (by rewrite <-app_assoc).
  destruct Ha as (bs & rest & -> & Hbs & Hrest & Hlen & Hst & Hbits & Hcur).
  cbn [sha256_update]. unfold sha256_push. rewrite Hcur, push_ok by lia. cbn [mbind option_bind].
  unfold wrote. cbn [cu_buf cu_pos block_len]. rewrite length_app. cbn [length Nat.add].
  assert (length (splice 0 (rest ++ [x]) (cx_block ctx)) = 64%nat) as Hl.
  { rewrite length_splice; [done|]. rewrite length_app. cbn. lia. }
  destruct (Nat.eqb_spec (length rest + 1) 64) as [E|E].
  - rewrite transform_ok by done. cbn [mbind option_bind cx_state cx_block total_bits].
    rewrite splice_whole by (rewrite length_app; cbn; lia).
    apply IH. exists (bs ++ [rest ++ [x]]), []. rewrite concat_app. cbn [concat cx_block cx_state total_bits block_len].
    rewrite !app_nil_r, <-app_assoc, fold_left_app, <-Hst, Hbits, zlen_app, u64_add_512, wrote_nil.
    assert (length (rest ++ [x]) = 64%nat) as Hx by (rewrite length_app; cbn; lia).
    split_and!; try done; [|cbn; lia]. apply Forall_app. by rewrite Forall_singleton.
  - cbn [mbind option_bind]. apply IH. exists bs, (rest ++ [x]).
    cbn [cx_block cx_state total_bits block_len].
    rewrite wrote_splice by (rewrite length_app; cbn; lia). rewrite app_assoc.
    split_and!; try done; [rewrite length_app; cbn; lia|].
    unfold wrote. rewrite length_app. done.
Qed.

Lemma padding_short blocks rest :
  Forall (fun b => length b = 64%nat) blocks -> (length rest < 56)%nat ->
  padding (concat blocks ++ rest) =
  concat (blocks ++ [rest ++ [z2b 0x80] ++ replicate (55 - length rest) (z2b 0) ++
                     be_put 8 (8 * zlen (concat blocks ++ rest))]).
Proof.
  intros Hb Hr. unfold padding. rewrite concat_app. cbn [concat]. rewrite app_nil_r, <-app_assoc.
  do 4 f_equal. rewrite zlen_app. unfold zlen. rewrite length_concat_blocks by done.
  replace (55 - (Z.of_nat (64 * length blocks) + Z.of_nat (length rest)))
    with (55 - Z.of_nat (length rest) + (- Z.of_nat (length blocks)) * 64) by lia.
  rewrite Z_mod_plus_full, Z.mod_small by lia. f_equal. lia.
Qed.

Lemma padding_long blocks rest :
  Forall (fun b => length b = 64%nat) blocks -> (56 <= length rest < 64)%nat ->
  padding (concat blocks ++ rest) =
  concat (blocks ++ [rest ++ [z2b 0x80] ++ replicate (63 - length rest) (z2b 0);
                     replicate 56 (z2b 0) ++ be_put 8 (8 * zlen (concat blocks ++ rest))]).
Proof.
  intros Hb Hr. unfold padding. rewrite concat_app. cbn [concat]. rewrite app_nil_r, <-!app_assoc.
  do 3 f_equal. rewrite (app_assoc (replicate _ _) (replicate _ _)), <-replicate_add.
  do 2 f_equal. rewrite zlen_app. unfold zlen. rewrite length_concat_blocks by done.
  replace (55 - (Z.of_nat (64 * length blocks) + Z.of_nat (length rest)))
    with (119 - Z.of_nat (length rest) + (- Z.of_nat (length blocks) - 1) * 64) by lia.
  rewrite Z_mod_plus_full, Z.mod_small by lia. lia.
Qed.

Lemma length_field z :
  [z2b (Z.shiftr z 56); z2b (Z.shiftr z 48); z2b (Z.shiftr z 40); z2b (Z.shiftr z 32);
   z2b (Z.shiftr z 24); z2b (Z.shiftr z 16); z2b (Z.shiftr z 8); z2b z] = be_put 8 z.
Proof. cbn [be_put]. change (8 * Z.of_nat 0) with 0. by rewrite Z.shiftr_0_r. Qed.

Lemma bit_count (blocks : list (list byte)) rest :
  Forall (fun b => length b = 64%nat) blocks ->
  be_put 8 (u64 (u64 (512 * zlen blocks) + u64 (Z.of_nat (length rest) * 8))) =
  be_put 8 (8 * zlen (concat blocks ++ rest)).
Proof.
  intros Hb. rewrite <-(be_put_mod 8 (8 * _)). f_equal. unfold u64.
  rewrite <-Zplus_mod. change (2 ^ (8 * Z.of_nat 8)) with (2 ^ 64). f_equal.
  rewrite zlen_app. unfold zlen. rewrite length_concat_blocks by done. lia.
Qed.

(** The reference hash of a message whose padding is a list of blocks. *)
Lemma sha256_blocks msg (blocks : list (list byte)) :
  padding msg = concat blocks -> Forall (fun b => length b = 64%nat) blocks ->
  sha256 msg = digestBytes (fold_left block blocks H256).
Proof. intros Hp Hb. unfold sha256. by rewrite Hp, chunks_concat. Qed.

Lemma output_ok bits s xs b t n :
  length xs = 56%nat -> length b = 64%nat ->
  sha256_output bits (MkCtx s (splice 0 xs b) t n) = Some (digestBytes (block s (xs ++ be_put 8 bits))).
Proof.
  intros Hx Hb. unfold sha256_output. cbn [cx_block cx_state].
  replace (MkCursor (splice 0 xs b) 56) with (wrote 0 xs b) by (unfold wrote; by rewrite Hx).
  rewrite length_field, pushAll_ok by (rewrite length_be_put; lia). cbn [mbind option_bind].
  unfold wrote. cbn [cu_buf]. rewrite splice_whole by (rewrite length_app, length_be_put; lia).
  rewrite transform_ok by (rewrite length_app, length_be_put; lia).
  cbn [mbind option_bind cx_state]. by rewrite !bytes32_be.
Qed.

(** The first half of [sha256_final] fills up to [limit]. *)
Lemma zeroFill_ok limit xs b :
  (length xs <= limit <= length b)%nat ->
  zeroFill limit (wrote 0 xs b) = Some (wrote 0 (xs ++ replicate (limit - length xs) (z2b 0)) b).
Proof. intros H. unfold zeroFill. apply pushAll_ok. rewrite length_replicate. cbn [wrote cu_pos]. lia. Qed.

Lemma final_ok data ctx : absorbed data ctx -> sha256_final ctx = Some (sha256 data).
Proof.
  intros (bs & rest & -> & Hbs & Hrest & Hlen & Hst & Hbits & Hcur).
  unfold sha256_final. rewrite Hcur. injection Hcur as _ ->. rewrite push_ok by lia.
  cbn [mbind option_bind]. rewrite Hbits. set (bits := u64 _).
  assert (be_put 8 bits = be_put 8 (8 * zlen (concat bs ++ rest))) as Hbc by by apply bit_count.
  set (xs := rest ++ [z2b 0x80]).
  assert (length xs = length rest + 1)%nat as Hxs by (unfold xs; by rewrite length_app).
  destruct (Nat.ltb_spec (length rest) 56) as [Hr|Hr]; rewrite zeroFill_ok by lia;
    cbn [mbind option_bind]; unfold wrote; cbn [cu_buf cu_pos].
  - rewrite output_ok by (rewrite ?length_app, ?length_replicate; lia).
    f_equal. symmetry. rewrite (sha256_blocks _ _ (padding_short bs rest Hbs Hr)).
    + rewrite fold_left_app, <-Hst, Hbc, Hxs. unfold xs. rewrite <-!app_assoc. cbn [fold_left].
      by replace (56 - (length rest + 1))%nat with (55 - length rest)%nat by lia.
    + apply Forall_app. split; [done|]. apply Forall_singleton.
      rewrite !length_app, length_replicate, length_be_put. cbn [length]. lia.
  - rewrite splice_whole by (rewrite length_app, length_replicate; lia).
    rewrite transform_ok by (rewrite length_app, length_replicate; lia).
    cbn [mbind option_bind cx_block cx_state].
    rewrite memset_ok by (rewrite length_app, length_replicate; lia). cbn [mbind option_bind cx_block cx_state].
    rewrite output_ok by (rewrite ?length_app, ?length_replicate; lia).
    f_equal. symmetry. rewrite (sha256_blocks _ _ (padding_long bs rest Hbs (conj Hr Hrest))).
    + rewrite fold_left_app, <-Hst, Hbc, Hxs. unfold xs. rewrite <-!app_assoc. cbn [fold_left].
      by replace (64 - (length rest + 1))%nat with (63 - length rest)%nat by lia.
    + apply Forall_app. split; [done|]. apply Forall_cons. split.
      * rewrite !length_app, length_replicate. cbn [length]. lia.
      * apply Forall_singleton. by rewrite length_app, length_replicate, length_be_put.
Qed.

Lemma eipc_sha256_ok stack data :
  length stack = 64%nat -> eipc_sha256 stack data = Some (sha256 data).
Proof.
  intros Hs. unfold eipc_sha256.
  destruct (update_absorbed data [] _ (init_absorbed stack Hs)) as (ctx & -> & Ha).
  by apply final_ok.
Qed.

(** ** HMAC *)

(** The arrays have their declared sizes, and [malloc] returns what it is asked
    for when it returns anything. *)
Definition env_ok (env : hmac_env) (data : list byte) : Prop :=
  length (env_ctx env) = 64%nat /\ length (env_ipad env) = 64%nat /\ length (env_opad env) = 64%nat /\
  zlen (env_inner_buf env) = INNER_BUF_SIZE /\ length (env_outer env) = 96%nat /\
  forall buf, env_heap env = Some buf -> length buf = (64 + length data)%nat.

Lemma hashPadded_ok env buf pad data n :
  length (env_ctx env) = 64%nat -> length pad = 64%nat -> (n <= length data)%nat ->
  (64 + n <= length buf)%nat -> hashPadded env buf pad data n = Some (sha256 (pad ++ take n data)).
Proof.
  intros He Hp Hn Hb. unfold hashPadded, HMAC_BLOCK_SIZE.
  rewrite memcpy_ok by lia. cbn [mbind option_bind].
  rewrite memcpy_ok by (rewrite ?length_splice; rewrite ?length_take; lia). cbn [mbind option_bind].
  rewrite (take_ge pad) by lia. change 64%nat with (0 + 64)%nat at 2. rewrite <-Hp, splice_app by lia.
  rewrite eipc_sha256_ok by done.
  unfold splice. rewrite take_0. cbn [app].
  rewrite take_app_length' by (rewrite length_app, length_take; lia). done.
Qed.

Lemma padLoop_ok x k pad :
  length k = 64%nat -> length pad = 64%nat -> padLoop x k pad = Some (xorPad x k).
Proof.
  intros Hk Hp. unfold padLoop, HMAC_BLOCK_SIZE. rewrite take_ge by lia.
  assert (length (xorPad x k) = 64%nat) as Hl by (unfold xorPad; by rewrite length_fmap).
  rewrite wrote_nil, pushAll_ok by (cbn [length]; lia). cbn [mbind option_bind].
  unfold wrote. cbn [cu_buf app]. by rewrite splice_whole by lia.
Qed.

Lemma key_block src :
  (length src <= 64)%nat ->
  memcpy 0 src (length src) (replicate 64 (z2b 0)) = Some (src ++ replicate (64 - length src) (z2b 0)).
Proof.
  intros H. rewrite memcpy_ok by (rewrite ?length_replicate; lia).
  rewrite take_ge by lia. unfold splice. rewrite take_0. cbn [app].
  by rewrite drop_replicate.
Qed.

Lemma eipc_hmac_sign_ok env key data :
  env_ok env data ->
  eipc_hmac_sign env key data =
  Some (if (zlen data <=? 65536) || bool_decide (is_Some (env_heap env))
        then hmacSHA256 key data else replicate 32 (z2b 0)).
Proof.
  intros (He & Hi & Ho & Hn & Hu & Hh). unfold eipc_hmac_sign.
  set (k := (if (BlockSize <? length key)%nat then sha256 key else key)).
  assert (length k <= 64)%nat as Hk.
  { unfold k, BlockSize. destruct (Nat.ltb_spec 64 (length key)); [rewrite length_sha256|]; lia. }
  assert ((if (HMAC_BLOCK_SIZE <? length key)%nat
           then h ← eipc_sha256 (env_ctx env) key; memcpy 0 h HMAC_HASH_SIZE (replicate HMAC_BLOCK_SIZE (z2b 0))
           else memcpy 0 key (length key) (replicate HMAC_BLOCK_SIZE (z2b 0))) =
          Some (k ++ replicate (64 - length k) (z2b 0))) as ->.
  { rewrite <-(key_block k) by done. unfold k, BlockSize, HMAC_BLOCK_SIZE.
    destruct (64 <? length key)%nat; [|done]. rewrite eipc_sha256_ok by done. done. }
  cbn [mbind option_bind]. set (kb := k ++ _).
  assert (length kb = 64%nat) as Hkb by (unfold kb; rewrite length_app, length_replicate; lia).
  rewrite !padLoop_ok by done. cbn [mbind option_bind].
  assert (forall x, length (xorPad x kb) = 64%nat) as Hx by (intros; unfold xorPad; by rewrite length_fmap).
  assert (hashPadded env (env_outer env) (xorPad 0x5c kb) (sha256 (xorPad 0x36 kb ++ data)) HMAC_HASH_SIZE =
          Some (hmacSHA256 key data)) as Hout.
  { rewrite hashPadded_ok by (rewrite ?length_sha256, ?Hx; unfold HMAC_HASH_SIZE; lia).
    by rewrite take_ge by (rewrite length_sha256; done). }
  change (INNER_BUF_SIZE - Z.of_nat HMAC_BLOCK_SIZE) with 65536.
  destruct (Z.leb_spec (zlen data) 65536) as [Hd|Hd]; cbn [orb].
  - rewrite hashPadded_ok; rewrite ?Hx; try lia; try done.
    + cbn [mbind option_bind]. by rewrite take_ge by lia.
    + unfold zlen, INNER_BUF_SIZE in *. lia.
  - destruct (env_heap env) as [buf|] eqn:Eh; [|done]. rewrite bool_decide_eq_true_2 by done.
    rewrite hashPadded_ok; rewrite ?Hx; try lia; try done.
    + cbn [mbind option_bind]. by rewrite take_ge by lia.
    + rewrite (Hh buf); [lia|done].
Qed.

Lemma diffLoop_ok n i a b d :
  (i + n <= length a)%nat -> (i + n <= length b)%nat ->
  exists d', diffLoop n i a b d = Some d' /\
    (d' = 0 <-> d = 0 /\ take n (drop i a) = take n (drop i b)).
Proof.
  revert i d. induction n as [|n IH]; intros i d Ha Hb; cbn [diffLoop].
  { exists d. rewrite !take_0. naive_solver. }
  destruct (lookup_lt_is_Some_2 a i) as [x Ex]; [lia|].
  destruct (lookup_lt_is_Some_2 b i) as [y Ey]; [lia|].
  unfold load. rewrite Ex, Ey. cbn [mbind option_bind].
  destruct (IH (i + 1)%nat (Z.lor d (Z.lxor (b2z x) (b2z y)))) as (d' & -> & Hd); [lia|lia|].
  exists d'. split; [done|]. rewrite Hd, Z.lor_eq_0_iff, Z.lxor_eq_0_iff.
  rewrite (drop_S a x i Ex), (drop_S b y i Ey). cbn [take]. rewrite Nat.add_1_r.
  split.
  - intros [[Hz ->%b2z_inj] Ht]. by rewrite Ht.
  - intros [Hz Heq]. injection Heq as Hx Ht. subst. by rewrite Ht.
Qed.

Lemma eipc_hmac_verify_ok env key data mac computed :
  length mac = 32%nat -> length computed = 32%nat -> eipc_hmac_sign env key data = Some computed ->
  eipc_hmac_verify env key data mac = Some (bool_decide (computed = mac)).
Proof.
  intros Hm Hc Hs. unfold eipc_hmac_verify. rewrite Hs. cbn [mbind option_bind].
  destruct (diffLoop_ok 32 0 computed mac 0) as (d & -> & Hd); [lia|lia|].
  cbn [mbind option_bind]. f_equal. rewrite !drop_0, !take_ge in Hd by lia.
  apply Bool.eq_iff_eq_true. rewrite Z.eqb_eq, bool_decide_eq_true, Hd. naive_solver.
Qed.

(** C18: The C SDK signs and verifies as the Go side does: on data of up to 64
    KiB, or when [malloc] succeeds, and whatever the stack holds before the
    call, the C functions touch no memory outside their arrays and return the
    MAC and the verdict of package integrity. *)
Theorem c_hmac_is_go (env : hmac_env) (key data mac : list byte) :
  env_ok env data -> length mac = 32%nat -> zlen data <= 65536 \/ is_Some (env_heap env) ->
  eipc_hmac_sign env key data = Some (Sign key data) /\
  eipc_hmac_verify env key data mac = Some (Verify key data mac).
Proof.
  intros Hok Hm Hmem.
  assert (eipc_hmac_sign env key data = Some (Sign key data)) as Hs.
  { rewrite eipc_hmac_sign_ok by done. destruct Hmem as [H|H].
    - by rewrite (proj2 (Z.leb_le _ _) H).
    - rewrite (bool_decide_eq_true_2 _ H), orb_true_r. done. }
  split; [done|]. by rewrite (eipc_hmac_verify_ok env key data mac (Sign key data)) by done.
Qed.

Definition zeroEnv : hmac_env :=
  MkHmacEnv (replicate 64 (z2b 0)) (replicate 64 (z2b 0)) (replicate 64 (z2b 0))
    (replicate (Z.to_nat INNER_BUF_SIZE) (z2b 0)) (replicate 96 (z2b 0)) None.

Lemma zeroEnv_ok data : env_ok zeroEnv data.
Proof.
  assert (zlen (env_inner_buf zeroEnv) = INNER_BUF_SIZE) as H; [|split_and!; [done|done|done|exact H|done|done]].
  unfold zlen. cbn [zeroEnv env_inner_buf]. rewrite length_replicate. by apply Z2Nat.id.
Qed.

Lemma c_hmac_is_go_witness :
  eipc_hmac_verify zeroEnv [] [] (replicate 32 (z2b 0)) = Some (Verify [] [] (replicate 32 (z2b 0))).
Proof.
  apply (c_hmac_is_go zeroEnv [] [] (replicate 32 (z2b 0))); [apply zeroEnv_ok|reflexivity|].
  left. discriminate.
Defined.

(** When [malloc] fails, data over 64 KiB is signed with zeros, and verifies
    with them under every key. *)
Lemma hmac_without_memory env key data :
  env_ok env data -> 65536 < zlen data -> env_heap env = None ->
  eipc_hmac_verify env key data (replicate 32 (z2b 0)) = Some true.
Proof.
  intros Hok Hd Hh. rewrite (eipc_hmac_verify_ok _ _ _ _ (replicate 32 (z2b 0))); [done|done|done|].
  rewrite eipc_hmac_sign_ok by done. rewrite Hh, (proj2 (Z.leb_gt _ _) Hd). done.
Qed.
