(* ===== verification/CFrame.v ===== *)
(** * Frames of the C SDK: src/sdk/c/src/eipc_frame.c

    The C encoder and decoder on fixed arrays, and the proof that they speak
    the wire format of [Frame]. *)

From S2P Require Import Prelude Frame Sha256 Integrity Transport CMem.
Local Open Scope Z_scope.

(** ** Data: eipc_types.h *)

Definition EIPC_MAGIC : Z := 0x45495043.
Definition EIPC_PROTOCOL_VER : Z := 1.
Definition EIPC_MAC_SIZE : Z := 32.
Definition EIPC_MAX_FRAME : Z := Z.shiftl 1 20.
Definition EIPC_MAX_PAYLOAD : Z := 4096.
Definition EIPC_MAX_HEADER : Z := 1024.
Definition EIPC_FLAG_HMAC : byte := z2b (Z.shiftl 1 0).
Definition EIPC_FRAME_FIXED_SIZE : Z := 16.
Definition EIPC_FRAME_BUF_SIZE : Z :=
  EIPC_FRAME_FIXED_SIZE + EIPC_MAX_HEADER + EIPC_MAX_PAYLOAD + EIPC_MAC_SIZE.

Record eipc_frame_t := MkCFrame {
  c_version : Z;
  c_msg_type : byte;
  c_flags : byte;
  c_header : list byte;
  c_header_len : Z;
  c_payload : list byte;
  c_payload_len : Z;
  c_mac : list byte
}.

(** [memset(frame, 0, sizeof( *frame))] *)
Definition zeros (n : Z) : list byte := replicate (Z.to_nat n) (z2b 0).

Definition zeroCFrame : eipc_frame_t :=
  MkCFrame 0 (z2b 0) (z2b 0) (zeros EIPC_MAX_HEADER) 0 (zeros EIPC_MAX_PAYLOAD) 0 (zeros EIPC_MAC_SIZE).

(** ** eipc_frame.c *)

(** The stores of the sixteen bytes of the preamble. *)
Definition pushPreamble (frame : eipc_frame_t) (c : cursor) : option cursor :=
  pushAll (bytes32 EIPC_MAGIC ++ bytes16 (c_version frame) ++ [c_msg_type frame] ++ [c_flags frame] ++
           bytes32 (c_header_len frame) ++ bytes32 (c_payload_len frame)) c.

Definition lengthsExceed (frame : eipc_frame_t) : bool :=
  (EIPC_MAX_HEADER <? c_header_len frame) || (EIPC_MAX_PAYLOAD <? c_payload_len frame).

(** A pointer argument is [None] when it is null; the function returns its
    status with what [buf] and [out_len] point to afterwards. *)
Definition eipc_frame_encode (frame : option eipc_frame_t) (buf : option (list byte)) (buf_size : Z)
    (out_len : option Z) : option (eipc_status_t * option (list byte) * option Z) :=
  match frame, buf, out_len with
  | Some frame, Some b, Some _ =>
      if lengthsExceed frame then Some (EIPC_ERR_FRAME_TOO_LARGE, buf, out_len)
      else
        let total := u32 (u32 (EIPC_FRAME_FIXED_SIZE + c_header_len frame) + c_payload_len frame) in
        let total := if hasFlag (c_flags frame) EIPC_FLAG_HMAC then u64 (total + EIPC_MAC_SIZE) else total in
        if (buf_size <? total) || (EIPC_MAX_FRAME <? total)
        then Some (EIPC_ERR_FRAME_TOO_LARGE, buf, out_len)
        else
          c ← pushPreamble frame (MkCursor b 0);
          c ← pushCopy (c_header frame) (Z.to_nat (c_header_len frame)) c;
          c ← pushCopy (c_payload frame) (Z.to_nat (c_payload_len frame)) c;
          c ← (if hasFlag (c_flags frame) EIPC_FLAG_HMAC
               then b ← memcpy (cu_pos c) (c_mac frame) (Z.to_nat EIPC_MAC_SIZE) (cu_buf c);
                    Some (MkCursor b (cu_pos c + Z.to_nat EIPC_MAC_SIZE))
               else Some c);
          Some (EIPC_OK, Some (cu_buf c), Some (Z.of_nat (cu_pos c)))
  | _, _, _ => Some (EIPC_ERR_INVALID, buf, out_len)
  end.

(** [if (len > 0) { if (pos + len > buf_len) return EIPC_ERR_PROTOCOL;
    memcpy(field, buf + pos, len); pos += len; }]; the inner [None] is the
    early return. *)
Definition copyPart (field : list byte) (len : Z) (pos : nat) (b : list byte) (buf_len : Z) :
    option (option (list byte * nat)) :=
  if 0 <? len then
    if buf_len <? Z.of_nat pos + len then Some None
    else f ← memcpy 0 (drop pos b) (Z.to_nat len) field; Some (Some (f, (pos + Z.to_nat len)%nat))
  else Some (Some (field, pos)).

(** The second half of [eipc_frame_decode]: header, payload and MAC, into the
    frame whose fixed fields are set. *)
Definition decodeBody (frame : eipc_frame_t) (b : list byte) (buf_len : Z) :
    option (eipc_status_t * option eipc_frame_t) :=
  let '(MkCFrame version msg_type flags header0 header_len payload0 payload_len mac0) := frame in
  r ← copyPart header0 header_len (Z.to_nat EIPC_FRAME_FIXED_SIZE) b buf_len;
  match r with
  | None => Some (EIPC_ERR_PROTOCOL, Some frame)
  | Some (header, pos) =>
      let frame := MkCFrame version msg_type flags header header_len payload0 payload_len mac0 in
      r ← copyPart payload0 payload_len pos b buf_len;
      match r with
      | None => Some (EIPC_ERR_PROTOCOL, Some frame)
      | Some (payload, pos) =>
          let frame := MkCFrame version msg_type flags header header_len payload payload_len mac0 in
          if hasFlag flags EIPC_FLAG_HMAC then
            if buf_len <? Z.of_nat pos + EIPC_MAC_SIZE then Some (EIPC_ERR_PROTOCOL, Some frame)
            else
              mac ← memcpy 0 (drop pos b) (Z.to_nat EIPC_MAC_SIZE) mac0;
              Some (EIPC_OK, Some (MkCFrame version msg_type flags header header_len
                                     payload payload_len mac))
          else Some (EIPC_OK, Some frame)
      end
  end.

Definition eipc_frame_decode (buf : option (list byte)) (buf_len : Z) (frame : option eipc_frame_t) :
    option (eipc_status_t * option eipc_frame_t) :=
  match buf, frame with
  | Some b, Some frame =>
      if buf_len <? EIPC_FRAME_FIXED_SIZE then Some (EIPC_ERR_PROTOCOL, Some frame)
      else
        let frame := zeroCFrame in
        magic ← load32 0 b;
        if negb (magic =? EIPC_MAGIC) then Some (EIPC_ERR_BAD_MAGIC, Some frame)
        else
          version ← load16 4 b;
          let frame := MkCFrame version (c_msg_type frame) (c_flags frame) (c_header frame)
                         (c_header_len frame) (c_payload frame) (c_payload_len frame) (c_mac frame) in
          if negb (version =? EIPC_PROTOCOL_VER) then Some (EIPC_ERR_BAD_VERSION, Some frame)
          else
            msg_type ← load 6 b; flags ← load 7 b;
            header_len ← load32 8 b; payload_len ← load32 12 b;
            let frame := MkCFrame version msg_type flags (c_header frame) header_len
                           (c_payload frame) payload_len (c_mac frame) in
            if EIPC_MAX_HEADER <? header_len then Some (EIPC_ERR_FRAME_TOO_LARGE, Some frame)
            else if EIPC_MAX_PAYLOAD <? payload_len then Some (EIPC_ERR_FRAME_TOO_LARGE, Some frame)
            else decodeBody frame b buf_len
  | _, _ => Some (EIPC_ERR_INVALID, frame)
  end.

(** The number of bytes written, and the buffer. *)
Definition eipc_frame_signable_bytes (frame : option eipc_frame_t) (buf : option (list byte))
    (buf_size : Z) : option (Z * option (list byte)) :=
  match frame, buf with
  | Some frame, Some b =>
      if lengthsExceed frame then Some (0, buf)
      else
        let total := u32 (u32 (EIPC_FRAME_FIXED_SIZE + c_header_len frame) + c_payload_len frame) in
        if buf_size <? total then Some (0, buf)
        else
          c ← pushPreamble frame (MkCursor b 0);
          c ← pushCopy (c_header frame) (Z.to_nat (c_header_len frame)) c;
          c ← pushCopy (c_payload frame) (Z.to_nat (c_payload_len frame)) c;
          Some (Z.of_nat (cu_pos c), Some (cu_buf c))
  | _, _ => Some (0, buf)
  end.

(** ** The frames the two sides exchange *)

(** The well-typed C frames, and the protocol frame such a frame stands for. *)
Definition cframe_ok (c : eipc_frame_t) : Prop :=
  in_u16 (c_version c) /\ in_u32 (c_header_len c) /\ in_u32 (c_payload_len c) /\
  zlen (c_header c) = EIPC_MAX_HEADER /\ zlen (c_payload c) = EIPC_MAX_PAYLOAD /\
  zlen (c_mac c) = EIPC_MAC_SIZE.

Definition goFrame (c : eipc_frame_t) : Frame :=
  MkFrame (c_version c) (c_msg_type c) (c_flags c)
    (take (Z.to_nat (c_header_len c)) (c_header c)) (take (Z.to_nat (c_payload_len c)) (c_payload c))
    (if hasFlag (c_flags c) FlagHMAC then c_mac c else []).

(** A protocol frame as the C decoder leaves it in a zeroed struct. *)
Definition pad (n : Z) (l : list byte) : list byte := l ++ zeros (n - zlen l).

Definition cFrame (f : Frame) : eipc_frame_t :=
  MkCFrame (Version f) (MsgType f) (Flags f) (pad EIPC_MAX_HEADER (Header f)) (zlen (Header f))
    (pad EIPC_MAX_PAYLOAD (Payload f)) (zlen (Payload f)) (pad EIPC_MAC_SIZE (MAC f)).

(** The frames that fit a C struct. *)
Definition c_sized (f : Frame) : Prop :=
  zlen (Header f) <= EIPC_MAX_HEADER /\ zlen (Payload f) <= EIPC_MAX_PAYLOAD.

#[global] Instance c_sized_dec f : Decision (c_sized f).
Proof. unfold c_sized. apply _. Defined.

Lemma goFrame_lengths c :
  cframe_ok c -> lengthsExceed c = false ->
  zlen (Header (goFrame c)) = c_header_len c /\ zlen (Payload (goFrame c)) = c_payload_len c /\
  length (MAC (goFrame c)) = (if hasFlag (c_flags c) FlagHMAC then MACSize else 0%nat) /\
  tooLarge (goFrame c) = false /\ c_header_len c <= 1024 /\ c_payload_len c <= 4096.
Proof.
  intros (Hv & [Hh0 _] & [Hp0 _] & Hh & Hp & Hm) [H1 H2]%orb_false_iff.
  unfold EIPC_MAX_HEADER, EIPC_MAX_PAYLOAD, EIPC_MAC_SIZE in *. breflect.
  assert (zlen (Header (goFrame c)) = c_header_len c) as E1.
  { unfold zlen in *. cbn [goFrame Header]. rewrite length_take. lia. }
  assert (zlen (Payload (goFrame c)) = c_payload_len c) as E2.
  { unfold zlen in *. cbn [goFrame Payload]. rewrite length_take. lia. }
  split_and!; [done|done| | |done|done].
  - unfold zlen in *. cbn [goFrame MAC]. destruct (hasFlag _ _); [unfold MACSize; lia|done].
  - unfold tooLarge, MaxFrameSize. rewrite E1, E2. change (Z.shiftl 1 20) with 1048576. zbool. lia.
Qed.

(** The preamble the C code stores is the protocol's. *)
Lemma preamble_bytes c :
  cframe_ok c -> lengthsExceed c = false ->
  bytes32 EIPC_MAGIC ++ bytes16 (c_version c) ++ [c_msg_type c] ++ [c_flags c] ++
  bytes32 (c_header_len c) ++ bytes32 (c_payload_len c) = preamble (goFrame c).
Proof.
  intros Hc Hl. destruct (goFrame_lengths c Hc Hl) as (E1 & E2 & _ & _ & ? & ?).
  destruct Hc as (_ & [? _] & [? _] & _).
  unfold preamble. rewrite E1, E2, !bytes32_be, bytes16_be. unfold u32. rewrite !Z.mod_small by lia. done.
Qed.

(** The stores of preamble, header and payload. *)
Lemma push_signable c b :
  cframe_ok c -> lengthsExceed c = false ->
  16 + c_header_len c + c_payload_len c <= zlen b ->
  (cu ← pushPreamble c (MkCursor b 0);
   cu ← pushCopy (c_header c) (Z.to_nat (c_header_len c)) cu;
   pushCopy (c_payload c) (Z.to_nat (c_payload_len c)) cu) =
  Some (wrote 0 (SignableBytes (goFrame c)) b).
Proof.
  intros Hc Hl Hb. pose proof (goFrame_lengths c Hc Hl) as (E1 & E2 & _ & Ht & H1 & H2).
  pose proof Hc as (_ & [H3 _] & [H4 _] & Hh & Hp & _).
  unfold EIPC_MAX_HEADER, EIPC_MAX_PAYLOAD, zlen in *.
  unfold pushPreamble. rewrite preamble_bytes by done.
  rewrite wrote_nil, pushAll_ok by (rewrite length_preamble; unfold FrameFixedSize; cbn [length]; lia).
  cbn [mbind option_bind app].
  rewrite pushCopy_ok by (rewrite ?length_preamble; unfold FrameFixedSize; lia). cbn [mbind option_bind].
  rewrite pushCopy_ok by (rewrite ?length_app, ?length_preamble, ?length_take; unfold FrameFixedSize; lia).
  unfold SignableBytes. rewrite Ht. by rewrite <-app_assoc.
Qed.

Lemma zlen_signable f : tooLarge f = false -> zlen (SignableBytes f) = 16 + zlen (Header f) + zlen (Payload f).
Proof.
  intros Ht. unfold SignableBytes. rewrite Ht, !zlen_app. unfold zlen at 1. rewrite length_preamble.
  unfold FrameFixedSize. lia.
Qed.

Lemma wire_goFrame c :
  cframe_ok c -> lengthsExceed c = false ->
  wire (goFrame c) = SignableBytes (goFrame c) ++ (if hasFlag (c_flags c) FlagHMAC then c_mac c else []).
Proof.
  intros Hc Hl. destruct (goFrame_lengths c Hc Hl) as (_ & _ & Hm & Ht & _).
  unfold wire, SignableBytes. rewrite Ht, <-!app_assoc. do 3 f_equal.
  cbn [goFrame MAC Flags] in *. destruct (hasFlag _ _); [|done]. by rewrite Hm.
Qed.

Lemma zlen_wire_goFrame c :
  cframe_ok c -> lengthsExceed c = false ->
  zlen (wire (goFrame c)) = 16 + c_header_len c + c_payload_len c +
    (if hasFlag (c_flags c) FlagHMAC then 32 else 0).
Proof.
  intros Hc Hl. destruct (goFrame_lengths c Hc Hl) as (E1 & E2 & _ & Ht & _).
  rewrite wire_goFrame, zlen_app, zlen_signable, E1, E2 by done.
  destruct Hc as (_ & _ & _ & _ & _ & Hm). destruct (hasFlag _ _); [by rewrite Hm|done].
Qed.

Lemma encode_ok c b buf_size n :
  cframe_ok c -> buf_size <= zlen b ->
  eipc_frame_encode (Some c) (Some b) buf_size (Some n) =
  Some (if lengthsExceed c || (buf_size <? zlen (wire (goFrame c)))
        then (EIPC_ERR_FRAME_TOO_LARGE, Some b, Some n)
        else (EIPC_OK, Some (splice 0 (wire (goFrame c)) b), Some (zlen (wire (goFrame c))))).
Proof.
  intros Hc Hb. unfold eipc_frame_encode. destruct (lengthsExceed c) eqn:Hl; [done|]. cbn [orb].
  pose proof (goFrame_lengths c Hc Hl) as (E1 & E2 & _ & Ht & H1 & H2).
  pose proof Hc as (_ & [H3 _] & [H4 _] & _ & _ & Hm).
  pose proof (zlen_wire_goFrame c Hc Hl) as Hw.
  change (hasFlag (c_flags c) EIPC_FLAG_HMAC) with (hasFlag (c_flags c) FlagHMAC).
  set (total := if hasFlag _ _ then _ else _).
  assert (total = zlen (wire (goFrame c))) as ->.
  { unfold total, u32, u64, EIPC_FRAME_FIXED_SIZE, EIPC_MAC_SIZE. rewrite Hw.
    rewrite !(Z.mod_small _ (2 ^ 32)) by (rewrite ?Z.mod_small; lia).
    destruct (hasFlag _ _); [rewrite Z.mod_small|]; lia. }
  assert ((EIPC_MAX_FRAME <? zlen (wire (goFrame c))) = false) as ->.
  { apply Z.ltb_ge. rewrite Hw. change EIPC_MAX_FRAME with 1048576. destruct (hasFlag _ _); lia. }
  rewrite orb_false_r. destruct (Z.ltb_spec buf_size (zlen (wire (goFrame c)))) as [|Hfit]; [done|].
  pose proof (push_signable c b Hc Hl) as Hp. rewrite wire_goFrame in * by done.
  destruct (pushPreamble c (MkCursor b 0)) as [c1|]; cbn [mbind option_bind] in *;
    [|discriminate Hp; destruct (hasFlag _ _); lia].
  destruct (pushCopy _ _ c1) as [c2|]; cbn [mbind option_bind] in *;
    [|discriminate Hp; destruct (hasFlag _ _); lia].
  rewrite Hp by (destruct (hasFlag _ _); lia). cbn [mbind option_bind].
  unfold zlen, EIPC_MAC_SIZE in *. rewrite length_app in *.
  destruct (hasFlag _ _); cbn [cu_buf cu_pos wrote mbind option_bind].
  - rewrite memcpy_ok by (rewrite ?length_splice; lia). cbn [mbind option_bind cu_buf cu_pos].
    rewrite take_ge by lia. rewrite splice_app by lia. do 3 f_equal. lia.
  - rewrite app_nil_r. do 3 f_equal. cbn [length]. lia.
Qed.

Lemma signable_ok c b buf_size :
  cframe_ok c -> lengthsExceed c = false -> zlen (SignableBytes (goFrame c)) <= buf_size <= zlen b ->
  eipc_frame_signable_bytes (Some c) (Some b) buf_size =
  Some (zlen (SignableBytes (goFrame c)), Some (splice 0 (SignableBytes (goFrame c)) b)).
Proof.
  intros Hc Hl Hb. unfold eipc_frame_signable_bytes. rewrite Hl.
  pose proof (goFrame_lengths c Hc Hl) as (E1 & E2 & _ & Ht & H1 & H2).
  pose proof Hc as (_ & [H3 _] & [H4 _] & _).
  pose proof (zlen_signable _ Ht) as Hs. rewrite E1, E2 in Hs.
  unfold u32, EIPC_FRAME_FIXED_SIZE. rewrite !(Z.mod_small _ (2 ^ 32)) by (rewrite ?Z.mod_small; lia).
  rewrite (proj2 (Z.ltb_ge _ _)) by lia.
  pose proof (push_signable c b Hc Hl) as Hp.
  destruct (pushPreamble c (MkCursor b 0)) as [c1|]; cbn [mbind option_bind] in *; [|discriminate Hp; lia].
  destruct (pushCopy _ _ c1) as [c2|]; cbn [mbind option_bind] in *; [|discriminate Hp; lia].
  by rewrite Hp by lia.
Qed.

(** ** The decoder *)

Lemma zlen_zeros n : 0 <= n -> zlen (zeros n) = n.
Proof. intros. unfold zlen, zeros. rewrite length_replicate. lia. Qed.

Lemma copy_zeros n (src : list byte) len :
  (len <= length src)%nat -> Z.of_nat len <= n ->
  memcpy 0 src len (zeros n) = Some (pad n (take len src)).
Proof.
  intros Hs Hn. rewrite memcpy_ok by (unfold zeros; rewrite ?length_replicate; lia).
  unfold splice, pad, zeros. rewrite take_0. cbn [app]. rewrite drop_replicate.
  do 3 f_equal. unfold zlen. rewrite length_take. lia.
Qed.

Lemma pad_nil n : pad n [] = zeros n.
Proof. unfold pad. cbn [app zlen length]. f_equal. unfold zlen. cbn [length]. lia. Qed.

(** One part of the body, in a buffer whose unread rest is [rest]. *)
Lemma copyPart_ok n len (front rest : list byte) :
  0 <= len <= n ->
  copyPart (zeros n) len (length front) (front ++ rest) (zlen (front ++ rest)) =
  Some (if zlen rest <? len then None
        else Some (pad n (take (Z.to_nat len) rest), (length front + Z.to_nat len)%nat)).
Proof.
  intros Hl. unfold copyPart. rewrite zlen_app, drop_app_length. unfold zlen.
  destruct (Z.ltb_spec 0 len) as [H0|H0].
  - destruct (Z.ltb_spec (Z.of_nat (length front) + Z.of_nat (length rest)) (Z.of_nat (length front) + len)).
    + by rewrite (proj2 (Z.ltb_lt _ _)) by lia.
    + rewrite (proj2 (Z.ltb_ge _ _)) by lia. rewrite copy_zeros by lia. done.
  - replace len with 0 by lia. rewrite (proj2 (Z.ltb_ge _ _)) by lia.
    rewrite take_0, pad_nil. do 3 f_equal. lia.
Qed.

(** The same part in the Go decoder. *)
Lemma readPart_split s len (rest : list byte) :
  0 <= len ->
  exists e k, readPart s len rest =
    if zlen rest <? len then (Err (Wrapf s e []), k)
    else (Ok (take (Z.to_nat len) rest), drop (Z.to_nat len) rest).
Proof.
  intros Hl. destruct (Z.ltb_spec (zlen rest) len) as [H|H].
  - unfold readPart. pose proof (zlen_nonneg rest). rewrite (proj2 (Z.ltb_lt _ _)) by lia. unfold wrapfa.
    rewrite ReadFull_bytes_short by (unfold zlen in *; lia). eauto.
  - exists EOF, []. assert (zlen (take (Z.to_nat len) rest) = len) as Hz.
    { unfold zlen in *. rewrite length_take. lia. }
    rewrite <-(take_drop (Z.to_nat len) rest) at 1. rewrite <-Hz at 1. apply readPart_ok.
Qed.

(** What the C decoder's outcome has to be, given the Go decoder's. *)
Definition agrees (r : result Frame) (st : eipc_status_t) (c : eipc_frame_t) : Prop :=
  match r with
  | Ok f => if decide (c_sized f) then st = EIPC_OK /\ c = cFrame f else st = EIPC_ERR_FRAME_TOO_LARGE
  | Err e => st <> EIPC_OK /\ (st = EIPC_ERR_BAD_MAGIC <-> e = ErrBadMagic) /\
             (st = EIPC_ERR_BAD_VERSION <-> e = ErrBadVersion)
  end.

(** The loads of the preamble. *)
Lemma load_preamble (pre rest : list byte) :
  length pre = FrameFixedSize ->
  load32 0 (pre ++ rest) = Some (be_get (slice 0 4 pre)) /\
  load16 4 (pre ++ rest) = Some (be_get (slice 4 6 pre)) /\
  load 6 (pre ++ rest) = Some (byteAt 6 pre) /\ load 7 (pre ++ rest) = Some (byteAt 7 pre) /\
  load32 8 (pre ++ rest) = Some (be_get (slice 8 12 pre)) /\
  load32 12 (pre ++ rest) = Some (be_get (slice 12 16 pre)).
Proof.
  intros Hl. do 16 (destruct pre as [|? pre]; [done|]). destruct pre; [|done].
  rewrite !load32_ok, load16_ok by (rewrite length_app; cbn [length]; lia). done.
Qed.

(** The bodies: after the preamble, both decoders read header, payload and MAC. *)
Definition goBody (version : Z) (msg_type flags : byte) (h p : Z) : M (list byte) Frame :=
  header ← readPart "read header: %w" h;
  payload ← readPart "read payload: %w" p;
  mac ← (if hasFlag flags FlagHMAC then wrapf "read mac: %w" (ReadFull MACSize) else mret []);
  mret (MkFrame version msg_type flags header payload mac).

Lemma goBody_ok version msg_type flags h p (rest : list byte) :
  0 <= h -> 0 <= p ->
  let rest1 := drop (Z.to_nat h) rest in
  let rest2 := drop (Z.to_nat p) rest1 in
  let short := (zlen rest <? h) || (zlen rest1 <? p) || (hasFlag flags FlagHMAC && (zlen rest2 <? 32)) in
  exists s e, fst (goBody version msg_type flags h p rest) =
    if short then Err (Wrapf s e [])
    else Ok (MkFrame version msg_type flags (take (Z.to_nat h) rest) (take (Z.to_nat p) rest1)
               (if hasFlag flags FlagHMAC then take 32 rest2 else [])).
Proof.
  intros Hh Hp rest1 rest2. unfold goBody, mbind, M_bind.
  destruct (readPart_split "read header: %w" h rest Hh) as (e1 & k1 & ->).
  destruct (zlen rest <? h); cbn [orb fst]; [eauto|]. fold rest1.
  destruct (readPart_split "read payload: %w" p rest1 Hp) as (e2 & k2 & ->).
  destruct (zlen rest1 <? p); cbn [orb fst]; [eauto|]. fold rest2.
  destruct (hasFlag flags FlagHMAC); cbn [andb]; [|by exists ""%string, EOF].
  unfold wrapfa. destruct (Z.ltb_spec (zlen rest2) 32) as [H|H].
  - rewrite ReadFull_bytes_short by (unfold zlen, MACSize in *; lia). eauto.
  - exists ""%string, EOF. rewrite <-(take_drop 32 rest2) at 1.
    rewrite ReadFull_bytes_ok; [done|]. unfold zlen, MACSize in *. rewrite length_take. lia.
Qed.

Lemma copyPart_next n len (front rest : list byte) m :
  0 <= len <= n -> (m <= length rest)%nat ->
  copyPart (zeros n) len (length front + m) (front ++ rest) (zlen (front ++ rest)) =
  Some (if zlen (drop m rest) <? len then None
        else Some (pad n (take (Z.to_nat len) (drop m rest)), (length front + m + Z.to_nat len)%nat)).
Proof.
  intros Hl Hm. rewrite <-(take_drop m rest) at 1 2. rewrite app_assoc.
  replace (length front + m)%nat with (length (front ++ take m rest)) by (rewrite length_app, length_take; lia).
  by rewrite copyPart_ok.
Qed.

Lemma Decode_split (pre rest : list byte) :
  length pre = FrameFixedSize ->
  fst (Decode (pre ++ rest)) =
  if negb (be_get (slice 0 4 pre) =? MagicBytes) then Err ErrBadMagic
  else if negb (be_get (slice 4 6 pre) =? ProtocolVersion) then Err ErrBadVersion
  else if MaxFrameSize <? be_get (slice 8 12 pre) + be_get (slice 12 16 pre) then Err ErrFrameTooLarge
  else fst (goBody (be_get (slice 4 6 pre)) (byteAt 6 pre) (byteAt 7 pre)
              (be_get (slice 8 12 pre)) (be_get (slice 12 16 pre)) rest).
Proof.
  intros Hl. unfold Decode, goBody. unfold mbind at 1, M_bind at 1, wrapfa at 1.
  rewrite ReadFull_bytes_ok by done. by repeat case_match.
Qed.

(** The C body, in closed form. *)
Lemma decodeBody_ok version msg_type flags h p (pre rest : list byte) :
  length pre = FrameFixedSize -> 0 <= h <= EIPC_MAX_HEADER -> 0 <= p <= EIPC_MAX_PAYLOAD ->
  let rest1 := drop (Z.to_nat h) rest in
  let rest2 := drop (Z.to_nat p) rest1 in
  let short := (zlen rest <? h) || (zlen rest1 <? p) || (hasFlag flags FlagHMAC && (zlen rest2 <? 32)) in
  exists c, decodeBody (MkCFrame version msg_type flags (zeros EIPC_MAX_HEADER) h (zeros EIPC_MAX_PAYLOAD) p
                 (zeros EIPC_MAC_SIZE)) (pre ++ rest) (zlen (pre ++ rest)) =
    if short then Some (EIPC_ERR_PROTOCOL, Some c)
    else Some (EIPC_OK, Some (MkCFrame version msg_type flags
           (pad EIPC_MAX_HEADER (take (Z.to_nat h) rest)) h (pad EIPC_MAX_PAYLOAD (take (Z.to_nat p) rest1)) p
           (pad EIPC_MAC_SIZE (if hasFlag flags FlagHMAC then take 32 rest2 else [])))).
Proof.
  intros Hl Hh Hp rest1 rest2. unfold decodeBody.
  change (Z.to_nat EIPC_FRAME_FIXED_SIZE) with FrameFixedSize. rewrite <-Hl.
  rewrite copyPart_ok by done. cbn [mbind option_bind].
  destruct (Z.ltb_spec (zlen rest) h) as [H1|H1]; cbn [orb]; [eauto|].
  rewrite copyPart_next by (unfold zlen in *; lia). cbn [mbind option_bind]. fold rest1.
  destruct (Z.ltb_spec (zlen rest1) p) as [H2|H2]; cbn [orb]; [eauto|].
  change EIPC_FLAG_HMAC with FlagHMAC. destruct (hasFlag flags FlagHMAC); cbn [andb].
  - set (pos := (length pre + Z.to_nat h + Z.to_nat p)%nat).
    assert (drop pos (pre ++ rest) = rest2) as Hd.
    { unfold pos, rest2, rest1. rewrite drop_drop, drop_app_ge by lia. f_equal. lia. }
    assert (zlen (pre ++ rest) = Z.of_nat pos + zlen rest2) as Hz.
    { rewrite zlen_app. unfold pos, rest2, rest1, zlen in *. rewrite !length_drop in *. lia. }
    rewrite Hd, Hz. unfold EIPC_MAC_SIZE. destruct (Z.ltb_spec (zlen rest2) 32) as [H3|H3].
    + rewrite (proj2 (Z.ltb_lt _ _)) by lia. eauto.
    + rewrite (proj2 (Z.ltb_ge _ _)) by lia. exists zeroCFrame.
      by rewrite copy_zeros by (unfold zlen in *; lia).
  - exists zeroCFrame. by rewrite pad_nil.
Qed.

Lemma decode_agrees_long (pre rest : list byte) fr :
  length pre = FrameFixedSize ->
  exists st c, eipc_frame_decode (Some (pre ++ rest)) (zlen (pre ++ rest)) (Some fr) = Some (st, Some c) /\
    agrees (fst (Decode (pre ++ rest))) st c.
Proof.
  intros Hl. destruct (load_preamble pre rest Hl) as (L1 & L2 & L3 & L4 & L5 & L6).
  rewrite Decode_split by done. unfold eipc_frame_decode.
  rewrite (proj2 (Z.ltb_ge _ _)) by (rewrite zlen_app; unfold zlen, EIPC_FRAME_FIXED_SIZE, FrameFixedSize in *; lia).
  rewrite L1, L2, L3, L4, L5, L6. cbn [mbind option_bind].
  change (be_get (slice 0 4 pre) =? EIPC_MAGIC) with (be_get (slice 0 4 pre) =? MagicBytes).
  change (be_get (slice 4 6 pre) =? EIPC_PROTOCOL_VER) with (be_get (slice 4 6 pre) =? ProtocolVersion).
  destruct (_ =? MagicBytes); cbn [negb]; [|eexists _, _; split; [done|]; split_and!; naive_solver].
  destruct (_ =? ProtocolVersion); cbn [negb]; [|eexists _, _; split; [done|]; split_and!; naive_solver].
  pose proof (be_get_range (slice 8 12 pre)) as [Hh _]. pose proof (be_get_range (slice 12 16 pre)) as [Hp _].
  set (h := be_get (slice 8 12 pre)) in *. set (p := be_get (slice 12 16 pre)) in *.
  set (ver := be_get (slice 4 6 pre)). set (ty := byteAt 6 pre). set (fl := byteAt 7 pre).
  destruct (goBody_ok ver ty fl h p rest Hh Hp) as (s & e & Hgo).
  assert (forall c, EIPC_MAX_HEADER < h \/ EIPC_MAX_PAYLOAD < p ->
    agrees (if MaxFrameSize <? h + p then Err ErrFrameTooLarge else fst (goBody ver ty fl h p rest))
      EIPC_ERR_FRAME_TOO_LARGE c) as Hbig.
  { intros c Hx. destruct (MaxFrameSize <? h + p); [by split_and!|]. rewrite Hgo.
    destruct (_ || _ || _) eqn:Es; [by split_and!|]. apply orb_false_iff in Es as [Es _].
    apply orb_false_iff in Es as [Es1 Es2]. breflect. unfold agrees. rewrite decide_False; [done|].
    unfold c_sized. cbn [Header Payload]. unfold zlen in *. rewrite !length_take, !length_drop in *. lia. }
  destruct (Z.ltb_spec EIPC_MAX_HEADER h) as [Hhx|Hhx]; [eexists _, _; split; [done|]; by apply Hbig; left|].
  destruct (Z.ltb_spec EIPC_MAX_PAYLOAD p) as [Hpx|Hpx]; [eexists _, _; split; [done|]; by apply Hbig; right|].
  clear Hbig. unfold EIPC_MAX_HEADER, EIPC_MAX_PAYLOAD in *. rewrite (proj2 (Z.ltb_ge MaxFrameSize _)) by (change MaxFrameSize with 1048576; lia).
  rewrite Hgo. clear Hgo. cbn [zeroCFrame c_header c_payload c_mac].
  destruct (decodeBody_ok ver ty fl h p pre rest Hl (conj Hh Hhx) (conj Hp Hpx)) as (c & ->).
  destruct (_ || _ || _) eqn:Es; [by eexists _, _; split|]. eexists _, _. split; [done|].
  apply orb_false_iff in Es as [Es _]. apply orb_false_iff in Es as [Es1 Es2]. breflect.
  assert (zlen (take (Z.to_nat h) rest) = h) as E1 by (unfold zlen in *; rewrite length_take; lia).
  assert (zlen (take (Z.to_nat p) (drop (Z.to_nat h) rest)) = p) as E2
    by (unfold zlen in *; rewrite length_take; lia).
  unfold agrees. rewrite decide_True by (unfold c_sized, EIPC_MAX_HEADER, EIPC_MAX_PAYLOAD; cbn [Header Payload]; lia).
  split; [done|]. unfold cFrame. cbn [Header Payload MAC Version MsgType Flags]. by rewrite E1, E2.
Qed.


Lemma decode_agrees (buf : list byte) (frame : eipc_frame_t) :
  exists st c, eipc_frame_decode (Some buf) (zlen buf) (Some frame) = Some (st, Some c) /\
    agrees (fst (Decode buf)) st c.
Proof.
  destruct (decide (FrameFixedSize <= length buf)%nat) as [Hl|Hl].
  - rewrite <-(take_drop FrameFixedSize buf). apply decode_agrees_long.
    rewrite length_take. unfold FrameFixedSize in *. lia.
  - exists EIPC_ERR_PROTOCOL, frame. unfold eipc_frame_decode.
    rewrite (proj2 (Z.ltb_lt _ _)) by (unfold zlen, EIPC_FRAME_FIXED_SIZE, FrameFixedSize in *; lia).
    split; [done|]. unfold Decode, mbind, M_bind, wrapfa at 1.
    rewrite ReadFull_bytes_short by lia. by split_and!.
Qed.

(** C17: The C decoder agrees with the Go decoder but for the size of what it
    takes: on any byte string it reads no byte outside the buffer and writes
    none outside the struct; where Go decodes a frame with at most 1024 bytes of
    header and 4096 of payload, C returns it; where Go decodes a larger one, C
    refuses it as too large; and where Go refuses, C refuses, with the same
    verdict on magic and version. *)
Theorem c_decode_agrees (buf : list byte) (frame : eipc_frame_t) :
  exists st c, eipc_frame_decode (Some buf) (zlen buf) (Some frame) = Some (st, Some c) /\
    agrees (fst (Decode buf)) st c.
Proof. apply decode_agrees. Qed.

Lemma goFrame_wf c :
  cframe_ok c -> lengthsExceed c = false -> c_version c = EIPC_PROTOCOL_VER -> wf_frame (goFrame c).
Proof.
  intros Hc Hl Hv. destruct (goFrame_lengths c Hc Hl) as (_ & _ & Hm & Ht & _). by split_and!.
Qed.

(** The C encoder writes the wire format and stays inside its buffer: it
    either refuses, leaving the buffer alone, exactly when the frame's lengths
    exceed its arrays or the encoding exceeds [buf_size], or writes the
    protocol's encoding of the frame at the front of the buffer and nothing
    behind it, which the Go decoder turns into that frame. *)
Theorem c_encode_is_wire (c : eipc_frame_t) (b : list byte) (buf_size n : Z) :
  cframe_ok c -> buf_size <= zlen b ->
  let f := goFrame c in
  if lengthsExceed c || (buf_size <? zlen (wire f))
  then eipc_frame_encode (Some c) (Some b) buf_size (Some n) =
       Some (EIPC_ERR_FRAME_TOO_LARGE, Some b, Some n)
  else exists b', eipc_frame_encode (Some c) (Some b) buf_size (Some n) =
         Some (EIPC_OK, Some b', Some (zlen (wire f))) /\
       take (length (wire f)) b' = wire f /\
       drop (length (wire f)) b' = drop (length (wire f)) b /\
       (c_version c = EIPC_PROTOCOL_VER -> Decode (take (length (wire f)) b') = (Ok f, [])).
Proof.
  intros Hc Hb f. rewrite encode_ok by done. fold f.
  destruct (lengthsExceed c) eqn:Hl; cbn [orb]; [done|].
  destruct (Z.ltb_spec buf_size (zlen (wire f))) as [|Hf]; [done|].
  exists (splice 0 (wire f) b). split; [done|]. unfold splice. rewrite take_0. cbn [app Nat.add].
  rewrite take_app_length, drop_app_length. split_and!; [done|done|]. intros Hv.
  rewrite <-(app_nil_r (wire f)). apply Decode_wire. by apply goFrame_wf.
Qed.

Definition sampleCFrame : eipc_frame_t :=
  MkCFrame 1 (z2b 104) EIPC_FLAG_HMAC (zeros 1024) 2 (zeros 4096) 1 (zeros 32).

Lemma sampleCFrame_ok : cframe_ok sampleCFrame.
Proof. unfold cframe_ok, in_u16, in_u32. cbn [sampleCFrame c_version c_header c_header_len c_payload c_payload_len c_mac].
  rewrite !zlen_zeros by lia. by split_and!. Qed.

Lemma c_encode_is_wire_witness :
  exists b', eipc_frame_encode (Some sampleCFrame) (Some (zeros 64)) 64 (Some 0) =
    Some (EIPC_OK, Some b', Some 51) /\ Decode (take 51 b') = (Ok (goFrame sampleCFrame), []).
Proof.
  destruct (c_encode_is_wire sampleCFrame (zeros 64) 64 0 sampleCFrame_ok) as (b' & He & _ & _ & Hd).
  - by rewrite zlen_zeros by lia.
  - exists b'. split; [exact He|]. by apply Hd.
Defined.
