(* ===== verification/CTransport.v ===== *)
(** * The socket transport of the C SDK: src/sdk/c/src/eipc_transport.c

    [send_all] and [recv_all] over a socket that may transfer any part of what
    it is given, the length-prefixed frames on them, and the proof that C and
    Go peers understand each other's streams. *)

From S2P Require Import Prelude Frame Sha256 Integrity Transport CMem CFrame.
Local Open Scope Z_scope.

(** ** Definitions *)

(** [send] and [recv] of the operating system: the number of bytes taken, the
    bytes delivered; zero, a negative number or no bytes report an error or the
    end of the stream. *)
Class Socket (S : Type) := {
  sock_send : list byte -> S -> Z * S;
  sock_recv : nat -> S -> list byte * S
}.

(** The loop of [send_all]; every round sends at least a byte, so [length data]
    rounds are enough. *)
Fixpoint sendLoop {S} `{Socket S} (fuel : nat) (data : list byte) (s : S) : bool * S :=
  match data, fuel with
  | [], _ => (true, s)
  | _, O => (false, s)
  | _, Datatypes.S fuel' =>
      let '(n, s) := sock_send data s in
      if n <=? 0 then (false, s) else sendLoop fuel' (drop (Z.to_nat n) data) s
  end.

Definition send_all {S} `{Socket S} (data : list byte) (s : S) : bool * S :=
  sendLoop (length data) data s.

(** The loop of [recv_all], [want] bytes short of its goal. *)
Fixpoint recvLoop {S} `{Socket S} (fuel want : nat) (acc : list byte) (s : S) : option (list byte) * S :=
  match want, fuel with
  | O, _ => (Some acc, s)
  | _, O => (None, s)
  | _, Datatypes.S fuel' =>
      let '(bs, s) := sock_recv want s in
      if (length bs =? 0)%nat then (None, s) else recvLoop fuel' (want - length bs) (acc ++ bs) s
  end.

Definition recv_all {S} `{Socket S} (len : nat) (s : S) : option (list byte) * S := recvLoop len len [] s.

(** [encoded] is what the stack array holds before the call. *)
Definition eipc_transport_send_frame {S} `{Socket S} (encoded : list byte) (frame : option eipc_frame_t)
    (s : S) : option (eipc_status_t * S) :=
  match frame with
  | None => Some (EIPC_ERR_INVALID, s)
  | Some _ =>
      r ← eipc_frame_encode frame (Some encoded) EIPC_FRAME_BUF_SIZE (Some 0);
      match r with
      | (EIPC_OK, Some encoded, Some encoded_len) =>
          let total := u32 encoded_len in
          let '(ok, s) := send_all (bytes32 total) s in
          if ok then
            let '(ok, s) := send_all (take (Z.to_nat encoded_len) encoded) s in
            Some (if ok then EIPC_OK else EIPC_ERR_IO, s)
          else Some (EIPC_ERR_IO, s)
      | (rc, _, _) => Some (rc, s)
      end
  end.

(** [heap] says whether [malloc] succeeds. *)
Definition eipc_transport_recv_frame {S} `{Socket S} (heap : bool) (frame : option eipc_frame_t) (s : S) :
    option (eipc_status_t * option eipc_frame_t * S) :=
  match frame with
  | None => Some (EIPC_ERR_INVALID, frame, s)
  | Some _ =>
      match recv_all 4 s with
      | (None, s) => Some (EIPC_ERR_IO, frame, s)
      | (Some len_prefix, s) =>
          frame_len ← load32 0 len_prefix;
          if EIPC_MAX_FRAME <? frame_len then Some (EIPC_ERR_FRAME_TOO_LARGE, frame, s)
          else if negb heap then Some (EIPC_ERR_NOMEM, frame, s)
          else match recv_all (Z.to_nat frame_len) s with
               | (None, s) => Some (EIPC_ERR_IO, frame, s)
               | (Some buf, s) =>
                   r ← eipc_frame_decode (Some buf) frame_len frame;
                   Some (r.1, r.2, s)
               end
      end
  end.

(** ** What a connected socket promises *)

Class StreamSocket (S : Type) `{Socket S} := {
  sent : S -> list byte;
  incoming : S -> list byte;
  send_part data s : data <> [] ->
    exists n s', sock_send data s = (n, s') /\ 1 <= n <= zlen data /\
      sent s' = sent s ++ take (Z.to_nat n) data /\ incoming s' = incoming s;
  recv_part n s : (0 < n)%nat -> incoming s <> [] ->
    exists bs s', sock_recv n s = (bs, s') /\ (1 <= length bs <= n)%nat /\
      incoming s = bs ++ incoming s' /\ sent s' = sent s
}.

Section Sockets.
Context {S : Type} `{StreamSocket S}.

Lemma sendLoop_ok fuel data (s : S) :
  (length data <= fuel)%nat ->
  exists s', sendLoop fuel data s = (true, s') /\ sent s' = sent s ++ data /\ incoming s' = incoming s.
Proof.
  revert data s. induction fuel as [|fuel IH]; intros [|x data] s Hf; cbn [sendLoop length] in *;
    try (exists s; by rewrite app_nil_r); [lia|].
  destruct (send_part (x :: data) s) as (n & s1 & -> & Hn & Hs & Hi); [done|].
  rewrite (proj2 (Z.leb_gt _ _)) by lia.
  destruct (IH (drop (Z.to_nat n) (x :: data)) s1) as (s2 & -> & Hs2 & Hi2).
  { rewrite length_drop. cbn [length]. lia. }
  exists s2. split; [done|]. by rewrite Hs2, Hs, <-app_assoc, take_drop, Hi2, Hi.
Qed.

Lemma send_all_ok data (s : S) :
  exists s', send_all data s = (true, s') /\ sent s' = sent s ++ data /\ incoming s' = incoming s.
Proof. by apply sendLoop_ok. Qed.

Lemma recvLoop_ok fuel bs k acc (s : S) :
  (length bs <= fuel)%nat -> incoming s = bs ++ k ->
  exists s', recvLoop fuel (length bs) acc s = (Some (acc ++ bs), s') /\ incoming s' = k /\ sent s' = sent s.
Proof.
  revert bs acc s. induction fuel as [|fuel IH]; intros [|x bs] acc s Hf Hi; cbn [recvLoop length] in *;
    try (exists s; by rewrite app_nil_r); [lia|].
  destruct (recv_part (Datatypes.S (length bs)) s) as (got & s1 & -> & Hg & Hs & Hsent); [lia|by rewrite Hi|].
  destruct (Nat.eqb_spec (length got) 0) as [?|_]; [lia|].
  assert (x :: bs = got ++ drop (length got) (x :: bs)) as Hsplit.
  { rewrite <-(take_drop (length got) (x :: bs)) at 1. f_equal.
    rewrite <-(take_app_le (x :: bs) k) by (cbn [length]; lia). rewrite <-Hi, Hs. apply take_app_length. }
  destruct (IH (drop (length got) (x :: bs)) (acc ++ got) s1) as (s2 & Hr & Hk & Hs2).
  - rewrite length_drop. cbn [length]. lia.
  - rewrite Hs, Hsplit, <-app_assoc in Hi. by apply (inj (app got)) in Hi.
  - exists s2. rewrite length_drop in Hr. cbn [length] in Hr. rewrite Hr, <-app_assoc, <-Hsplit.
    by rewrite Hk, Hs2, Hsent.
Qed.

Lemma recv_all_ok bs k (s : S) :
  incoming s = bs ++ k ->
  exists s', recv_all (length bs) s = (Some bs, s') /\ incoming s' = k /\ sent s' = sent s.
Proof. intros Hi. by apply (recvLoop_ok (length bs) bs k []). Qed.
End Sockets.

(** ** Frames on the wire *)

Section Frames.
Context {S : Type} `{StreamSocket S}.

Lemma send_frame_ok encoded c (s : S) :
  zlen encoded = EIPC_FRAME_BUF_SIZE -> cframe_ok c -> lengthsExceed c = false ->
  exists s', eipc_transport_send_frame encoded (Some c) s = Some (EIPC_OK, s') /\
    sent s' = sent s ++ envelope (goFrame c) /\ incoming s' = incoming s.
Proof.
  intros He Hc Hl. unfold eipc_transport_send_frame. rewrite encode_ok by (done || lia).
  pose proof (zlen_wire_goFrame c Hc Hl) as Hw. destruct (goFrame_lengths c Hc Hl) as (_ & _ & _ & _ & H1 & H2).
  rewrite Hl. cbn [orb]. rewrite (proj2 (Z.ltb_ge _ _)).
  2:{ rewrite Hw. change EIPC_FRAME_BUF_SIZE with 5168. destruct (hasFlag _ _); lia. }
  cbn [mbind option_bind]. rewrite bytes32_be.
  destruct (send_all_ok (be_put 4 (u32 (zlen (wire (goFrame c))))) s) as (s1 & -> & Hs1 & Hi1).
  assert (take (Z.to_nat (zlen (wire (goFrame c)))) (splice 0 (wire (goFrame c)) encoded) = wire (goFrame c)) as ->.
  { unfold zlen, splice. rewrite Nat2Z.id, take_0. cbn [app]. apply take_app_length. }
  destruct (send_all_ok (wire (goFrame c)) s1) as (s2 & -> & Hs2 & Hi2).
  exists s2. split; [done|]. rewrite Hs2, Hs1, Hi2, Hi1. unfold envelope. by rewrite app_assoc.
Qed.

Lemma goFrame_cFrame f : wf_frame f -> c_sized f -> goFrame (cFrame f) = f.
Proof.
  intros (Hv & _ & Hm) [Hh Hp]. unfold goFrame, cFrame, pad. destruct f as [v t fl h p m].
  cbn [c_version c_msg_type c_flags c_header c_header_len c_payload c_payload_len c_mac
       Version MsgType Flags Header Payload MAC] in *.
  unfold zlen. rewrite !Nat2Z.id, !take_app_length. f_equal.
  destruct (hasFlag fl FlagHMAC); [|symmetry; by apply nil_length_inv].
  unfold EIPC_MAC_SIZE, zeros. rewrite Hm. apply app_nil_r.
Qed.

Lemma goFrame_streamable c :
  cframe_ok c -> lengthsExceed c = false -> c_version c = EIPC_PROTOCOL_VER -> streamable (goFrame c).
Proof.
  intros Hc Hl Hv. split; [by apply goFrame_wf|]. rewrite zlen_wire_goFrame by done.
  destruct (goFrame_lengths c Hc Hl) as (_ & _ & _ & _ & ? & ?). change MaxFrameSize with 1048576.
  destruct (hasFlag _ _); lia.
Qed.

Lemma recv_frame_ok fr f k (s : S) :
  streamable f -> c_sized f -> incoming s = envelope f ++ k ->
  exists s', eipc_transport_recv_frame true (Some fr) s = Some (EIPC_OK, Some (cFrame f), s') /\
    incoming s' = k /\ sent s' = sent s.
Proof.
  intros [Hf Hz] Hsz Hi. unfold eipc_transport_recv_frame. unfold envelope in Hi. rewrite <-app_assoc in Hi.
  destruct (recv_all_ok _ _ s Hi) as (s1 & Hr & Hi1 & Hs1). rewrite length_be_put in Hr. rewrite Hr.
  rewrite load32_ok by (by rewrite length_be_put). cbn [mbind option_bind].
  assert (slice 0 (0 + 4) (be_put 4 (u32 (zlen (wire f)))) = be_put 4 (u32 (zlen (wire f)))) as -> by done.
  pose proof (zlen_nonneg (wire f)). change MaxFrameSize with 1048576 in Hz.
  rewrite be_get_len by lia. rewrite (proj2 (Z.ltb_ge _ _)) by (change EIPC_MAX_FRAME with 1048576; lia).
  cbn [negb]. destruct (recv_all_ok _ _ s1 Hi1) as (s2 & Hr2 & Hi2 & Hs2).
  unfold zlen at 1. rewrite Nat2Z.id, Hr2.
  destruct (decode_agrees (wire f) fr) as (st & c & -> & Ha).
  rewrite <-(app_nil_r (wire f)), Decode_wire in Ha by done. cbn [fst agrees] in Ha.
  rewrite decide_True in Ha by done. destruct Ha as [-> ->]. cbn [mbind option_bind fst snd].
  exists s2. by rewrite Hs2.
Qed.
End Frames.

(** C and Go peers interoperate: over any stream socket, whatever parts of
    the data each system call transfers, a frame the C side sends is the frame
    the Go side receives, and a frame the Go side sends is, when it fits the C
    struct, the frame the C side receives; both take exactly its bytes off the
    stream. *)
Theorem c_go_interop {S R} `{StreamSocket S} `{StreamReader R} (s : S) (encoded : list byte)
    (c fr : eipc_frame_t) (f : Frame) :
  zlen encoded = EIPC_FRAME_BUF_SIZE -> cframe_ok c -> lengthsExceed c = false ->
  c_version c = EIPC_PROTOCOL_VER -> streamable f -> c_sized f ->
  (exists s' new, eipc_transport_send_frame encoded (Some c) s = Some (EIPC_OK, s') /\
     sent s' = sent s ++ new /\
     forall (r : R) k, content r = new ++ k ->
       exists r', Receive r = (Ok (goFrame c), r') /\ content r' = k) /\
  (forall k, incoming s = in_flight (snd (Send f (MkPipe []))) ++ k ->
     exists s' c', eipc_transport_recv_frame true (Some fr) s = Some (EIPC_OK, Some c', s') /\
       goFrame c' = f /\ incoming s' = k).
Proof.
  intros He Hc Hl Hv Hf Hsz. split.
  - destruct (send_frame_ok encoded c s He Hc Hl) as (s' & Hs & Hsent & _).
    exists s', (envelope (goFrame c)). split_and!; [done|done|]. intros r k Hr.
    destruct (Receive_tracks r) as (r' & -> & Hr'). rewrite Hr in Hr' |- *.
    rewrite Receive_streamable in Hr' |- * by by apply goFrame_streamable. eauto.
  - intros k Hi. rewrite Send_pipe in Hi by apply Hf. cbn [snd in_flight app] in Hi.
    destruct (recv_frame_ok fr f k s Hf Hsz Hi) as (s' & Hr & Hk & _).
    exists s', (cFrame f). split_and!; [done| |done]. apply goFrame_cFrame; [apply Hf|done].
Qed.

(** A socket that moves one byte per call. *)
Record slowSocket := MkSlow { slow_out : list byte; slow_in : list byte }.

#[global] Instance slow_Socket : Socket slowSocket :=
  {| sock_send data s :=
       match data with
       | [] => (0, s)
       | x :: _ => (1, MkSlow (slow_out s ++ [x]) (slow_in s))
       end;
     sock_recv n s :=
       match slow_in s with
       | [] => ([], s)
       | x :: l => ([x], MkSlow (slow_out s) l)
       end |}.

#[global] Program Instance slow_StreamSocket : StreamSocket slowSocket :=
  {| sent := slow_out; incoming := slow_in |}.
Next Obligation.
  intros [|x data] s Hd; [done|]. eexists _, _. split; [done|]. rewrite zlen_cons.
  pose proof (zlen_nonneg data). split_and!; [lia|lia|done|done].
Qed.
Next Obligation.
  intros n [o [|x l]] Hn Hi; [done|]. eexists _, _. split; [done|]. cbn. split_and!; [lia|lia|done|done].
Qed.

Lemma c_go_interop_witness :
  exists s' c', eipc_transport_recv_frame true (Some zeroCFrame)
      (MkSlow [] (in_flight (snd (Send sampleFrame (MkPipe []))) ++ [])) = Some (EIPC_OK, Some c', s') /\
    goFrame c' = sampleFrame /\ incoming s' = [].
Proof.
  refine (proj2 (c_go_interop (R := bytesReader) _ (zeros EIPC_FRAME_BUF_SIZE) sampleCFrame zeroCFrame sampleFrame
    _ sampleCFrame_ok _ _ _ _) [] _).
  - rewrite zlen_zeros; [reflexivity|discriminate].
  - reflexivity.
  - reflexivity.
  - repeat split; vm_compute; discriminate || reflexivity.
  - split; vm_compute; discriminate.
  - reflexivity.
Defined.
