(* ===== verification/CJson.v ===== *)
(** * JSON of the C SDK: src/sdk/c/src/eipc_json.c

    The string-scanning reader and the [snprintf] writer, with the header and
    tool-request conversions built on them; the proofs that headers of plain
    strings cross the language border in both directions, and the cases where
    the code goes wrong.  A C string is the list of its bytes before the NUL.
    The conversions of intents, with their floats, are in [CIntent]. *)

From S2P Require Import Prelude Time Utf8 Json Message Codec CMem.
Local Open Scope string_scope.
Local Open Scope list_scope.
Local Open Scope Z_scope.

(** ** libc *)

(** [strstr]: the text from the first occurrence on. *)
Definition startsWith (p l : list byte) : bool := bool_decide (take (length p) l = p).

Fixpoint strstr (p l : list byte) : option (list byte) :=
  if startsWith p l then Some l
  else match l with
       | [] => None
       | _ :: l' => strstr p l'
       end.

(** [snprintf] into [size] bytes of a text that is [t] in full: the result and
    the string in the buffer. *)
Definition snprintf (size : Z) (t : list byte) : Z * list byte := (zlen t, take (Z.to_nat (size - 1)) t).

Definition isspace (c : byte) : bool := isC c 32 || ((9 <=? b2z c) && (b2z c <=? 13)).

Fixpoint skipWhile (p : byte -> bool) (l : list byte) : list byte :=
  match l with
  | c :: l' => if p c then skipWhile p l' else l
  | [] => []
  end.

(** [strtoull(s, NULL, 10)] *)
Definition strtoull (s : list byte) : Z :=
  let s := skipWhile isspace s in
  let '(neg, s) := match s with
                   | c :: s' => if isC c 45 then (true, s') else if isC c 43 then (false, s') else (false, s)
                   | [] => (false, s)
                   end in
  let v := atoi (digitRun s) in
  if 2 ^ 64 <=? v then 2 ^ 64 - 1 else if neg : bool then u64 (- v) else v.

(** Conversion to [int]. *)
Definition toInt (z : Z) : Z := (z + 2 ^ 31) mod 2 ^ 32 - 2 ^ 31.

(** ** The reader *)

Definition dq : byte := z2b 34.
Definition quoted (s : list byte) : list byte := dq :: s ++ [dq].

(** [snprintf(pattern, sizeof(pattern), ...)] with the key between quotes. *)
Definition keyPattern (key : string) : list byte := snd (snprintf 128 (quoted (text key))).

Definition isSep (c : byte) : bool := isC c 32 || isC c 58 || isC c 9 || isC c 10.

(** The text between [start] and [end]. *)
Fixpoint scanString (l : list byte) : list byte :=
  match l with
  | [] => []
  | c :: l' =>
      if isC c 34 then []
      else if isC c 92
      then match l' with
           | d :: l'' => c :: d :: scanString l''
           | [] => [c]
           end
      else c :: scanString l'
  end.

(** The return value and the string in [out]. *)
Definition json_find_string (json : list byte) (key : string) (out_size : Z) : Z * list byte :=
  let pattern := keyPattern key in
  match strstr pattern json with
  | None => (-1, [])
  | Some start =>
      match skipWhile isSep (drop (length pattern) start) with
      | c :: start => if isC c 34 then (0, take (Z.to_nat (out_size - 1)) (scanString start)) else (-1, [])
      | [] => (-1, [])
      end
  end.

Definition json_find_uint64 (json : list byte) (key : string) : Z * Z :=
  let pattern := keyPattern key in
  match strstr pattern json with
  | None => (-1, 0)
  | Some start =>
      let start := skipWhile isSep (drop (length pattern) start) in
      (0, strtoull match start with
                   | c :: start' => if isC c 34 then start' else start
                   | [] => start
                   end)
  end.

Definition json_find_int (json : list byte) (key : string) : Z * Z :=
  let '(r, val) := json_find_uint64 json key in
  if r <? 0 then (-1, 0) else (0, toInt val).

(** ** The writer *)

(** The loop of [json_escape], with [di] bytes written. *)
Fixpoint escapeLoop (src : list byte) (di dst_size : Z) : list byte :=
  match src with
  | [] => []
  | c :: src' =>
      if dst_size - 1 <=? di then []
      else
        let pair x := if dst_size <=? di + 2 then [] else z2b 92 :: x :: escapeLoop src' (di + 2) dst_size in
        if isC c 34 || isC c 92 then pair c
        else if isC c 10 then pair (z2b 110)
        else if isC c 13 then pair (z2b 114)
        else if isC c 9 then pair (z2b 116)
        else c :: escapeLoop src' (di + 1) dst_size
  end.

Definition json_escape (src : list byte) (dst_size : Z) : list byte :=
  if dst_size =? 0 then [] else escapeLoop src 0 dst_size.

Definition strMember (key : string) (v : list byte) : list byte := quoted (text key) ++ z2b 58 :: quoted v.
Definition numMember (key : string) (n : Z) : list byte := quoted (text key) ++ z2b 58 :: appendInt n 0.
Definition object (members : list (list byte)) : list byte := z2b 123 :: commaSep members ++ [z2b 125].

(** [n = snprintf(buf, buf_size, ...); if (n < 0 || n >= buf_size) return err;
    *out_len = n; return EIPC_OK;] *)
Definition emit (err : eipc_status_t) (buf_size : Z) (t : list byte) : eipc_status_t * list byte :=
  let '(n, buf) := snprintf buf_size t in
  if buf_size <=? n then (err, buf) else (EIPC_OK, buf).

(** ** The structs of eipc_types.h and their conversions

    A [char] array is the C string in it.  The argument [null] of a function
    says whether one of its pointer arguments is null. *)

Record eipc_header_t := MkCHeader {
  ch_service_id : list byte; ch_session_id : list byte; ch_request_id : list byte;
  ch_sequence : Z; ch_timestamp : list byte; ch_priority : Z; ch_capability : list byte;
  ch_route : list byte; ch_payload_format : Z
}.

Definition headerText (hdr : eipc_header_t) : list byte :=
  object [strMember "service_id" (ch_service_id hdr); strMember "session_id" (ch_session_id hdr);
          strMember "request_id" (ch_request_id hdr); numMember "sequence" (ch_sequence hdr);
          strMember "timestamp" (ch_timestamp hdr); numMember "priority" (ch_priority hdr);
          strMember "capability" (ch_capability hdr); numMember "payload_format" (ch_payload_format hdr)].

Definition eipc_header_to_json (null : bool) (hdr : eipc_header_t) (buf_size : Z) : eipc_status_t * list byte :=
  if null then (EIPC_ERR_INVALID, []) else emit EIPC_ERR_BUFFER buf_size (headerText hdr).

Definition EIPC_SERVICE_ID_MAX : Z := 64.
Definition EIPC_SESSION_ID_MAX : Z := 64.
Definition EIPC_REQUEST_ID_MAX : Z := 64.
Definition EIPC_CAPABILITY_MAX : Z := 64.
Definition EIPC_TIMESTAMP_MAX : Z := 40.
Definition EIPC_ROUTE_MAX : Z := 64.

(** A field that is stored only when the number was found; the struct is zero
    before. *)
Definition storeFound (conv : Z -> Z) (found : Z * Z) : Z :=
  let '(r, val) := found in if r =? 0 then conv val else 0.

Definition eipc_header_from_json (null : bool) (json : list byte) (hdr : eipc_header_t) :
    eipc_status_t * eipc_header_t :=
  if null then (EIPC_ERR_INVALID, hdr)
  else (EIPC_OK, MkCHeader
    (snd (json_find_string json "service_id" EIPC_SERVICE_ID_MAX))
    (snd (json_find_string json "session_id" EIPC_SESSION_ID_MAX))
    (snd (json_find_string json "request_id" EIPC_REQUEST_ID_MAX))
    (storeFound (fun v => v) (json_find_uint64 json "sequence"))
    (snd (json_find_string json "timestamp" EIPC_TIMESTAMP_MAX))
    (storeFound (fun v => v mod 2 ^ 8) (json_find_int json "priority"))
    (snd (json_find_string json "capability" EIPC_CAPABILITY_MAX))
    [] (storeFound (fun v => v mod 2 ^ 8) (json_find_int json "payload_format"))).

Record eipc_chat_request_t := MkChatRequest {
  cr_session_id : list byte; cr_user_prompt : list byte; cr_model : list byte; cr_max_tokens : Z
}.

Definition eipc_chat_request_to_json (null : bool) (req : eipc_chat_request_t) (buf_size : Z) :
    eipc_status_t * list byte :=
  if null then (EIPC_ERR_INVALID, [])
  else emit EIPC_ERR_FRAME_TOO_LARGE buf_size
    (object [strMember "session_id" (cr_session_id req); strMember "user_prompt" (cr_user_prompt req);
             strMember "model" (cr_model req); numMember "max_tokens" (cr_max_tokens req)]).

Definition eipc_chat_request_from_json (null : bool) (json : list byte) (req : eipc_chat_request_t) :
    eipc_status_t * eipc_chat_request_t :=
  if null then (EIPC_ERR_INVALID, req)
  else (EIPC_OK, MkChatRequest
    (snd (json_find_string json "session_id" EIPC_SESSION_ID_MAX))
    (snd (json_find_string json "user_prompt" 4096))
    (snd (json_find_string json "model" 64))
    (storeFound (fun v => v) (json_find_int json "max_tokens"))).

Record eipc_chat_response_t := MkChatResponse {
  cp_session_id : list byte; cp_response : list byte; cp_model : list byte; cp_tokens_used : Z
}.

Definition eipc_chat_response_to_json (null : bool) (resp : eipc_chat_response_t) (buf_size : Z) :
    eipc_status_t * list byte :=
  if null then (EIPC_ERR_INVALID, [])
  else emit EIPC_ERR_FRAME_TOO_LARGE buf_size
    (object [strMember "session_id" (cp_session_id resp); strMember "response" (cp_response resp);
             strMember "model" (cp_model resp); numMember "tokens_used" (cp_tokens_used resp)]).

Definition eipc_chat_response_from_json (null : bool) (json : list byte) (resp : eipc_chat_response_t) :
    eipc_status_t * eipc_chat_response_t :=
  if null then (EIPC_ERR_INVALID, resp)
  else (EIPC_OK, MkChatResponse
    (snd (json_find_string json "session_id" EIPC_SESSION_ID_MAX))
    (snd (json_find_string json "response" 4096))
    (snd (json_find_string json "model" 64))
    (storeFound (fun v => v) (json_find_int json "tokens_used"))).

Record eipc_ack_t := MkAck { ak_request_id : list byte; ak_status : list byte; ak_error : list byte }.

Definition eipc_ack_to_json (null : bool) (ack : eipc_ack_t) (buf_size : Z) : eipc_status_t * list byte :=
  if null then (EIPC_ERR_INVALID, [])
  else emit EIPC_ERR_BUFFER buf_size
    (object [strMember "request_id" (ak_request_id ack); strMember "status" (ak_status ack);
             strMember "error" (json_escape (ak_error ack) 512)]).

Definition eipc_ack_from_json (null : bool) (json : list byte) (ack : eipc_ack_t) :
    eipc_status_t * eipc_ack_t :=
  if null then (EIPC_ERR_INVALID, ack)
  else (EIPC_OK, MkAck
    (snd (json_find_string json "request_id" EIPC_REQUEST_ID_MAX))
    (snd (json_find_string json "status" 32))
    (snd (json_find_string json "error" 256))).

Record eipc_heartbeat_t := MkHeartbeat { hb_service : list byte; hb_status : list byte }.

Definition eipc_heartbeat_to_json (null : bool) (hb : eipc_heartbeat_t) (buf_size : Z) :
    eipc_status_t * list byte :=
  if null then (EIPC_ERR_INVALID, [])
  else emit EIPC_ERR_BUFFER buf_size
    (object [strMember "service" (hb_service hb); strMember "status" (hb_status hb)]).

Record eipc_kv_t := MkKV { kv_key : list byte; kv_value : list byte }.

Record eipc_tool_request_t := MkToolRequest {
  tr_tool : list byte; tr_args : list eipc_kv_t; tr_arg_count : Z; tr_permission : list byte
}.

Definition EIPC_MAX_TOOL_ARGS : Z := 16.

(** [sizeof(args_json)] *)
Definition ARGS_JSON_SIZE : Z := 2048.

(** [snprintf] at the cursor with [room] bytes: up to [room - 1] characters and
    a NUL are stored, nothing when there is no room. *)
Definition snprintfAt (room : Z) (t : list byte) (c : cursor) : option cursor :=
  if room =? 0 then Some c
  else
    let out := snd (snprintf room t) ++ [z2b 0] in
    b ← memcpy (cu_pos c) out (length out) (cu_buf c);
    Some (MkCursor b (cu_pos c)).

Definition argText (a : eipc_kv_t) : list byte :=
  quoted (json_escape (kv_key a) 128) ++ z2b 58 :: quoted (json_escape (kv_value a) 256).

(** The loop over the arguments; the inner [None] is the return of
    [EIPC_ERR_BUFFER]. *)
Fixpoint argsLoop (i : nat) (args : list eipc_kv_t) (c : cursor) : option (option cursor) :=
  match args with
  | [] => Some (Some c)
  | a :: args' =>
      c ← (if (0 <? i)%nat then push (z2b 44) c else Some c);
      let room := u64 (ARGS_JSON_SIZE - Z.of_nat (cu_pos c)) in
      c ← snprintfAt room (argText a) c;
      if room <=? zlen (argText a) then Some None
      else argsLoop (i + 1) args' (MkCursor (cu_buf c) (cu_pos c + length (argText a)))
  end.

Definition argsOf (req : eipc_tool_request_t) : list eipc_kv_t :=
  take (Z.to_nat (Z.min (tr_arg_count req) EIPC_MAX_TOOL_ARGS)) (tr_args req).

(** [stack] is what [args_json] holds before. *)
Definition eipc_tool_request_to_json (null : bool) (stack : list byte) (req : eipc_tool_request_t)
    (buf_size : Z) : option (eipc_status_t * list byte) :=
  if null then Some (EIPC_ERR_INVALID, [])
  else
    c ← push (z2b 123) (MkCursor stack 0);
    r ← argsLoop 0 (argsOf req) c;
    match r with
    | None => Some (EIPC_ERR_BUFFER, [])
    | Some c =>
        c ← push (z2b 125) c;
        b ← CMem.store (cu_pos c) (z2b 0) (cu_buf c);
        args_json ← cstr b;
        Some (emit EIPC_ERR_BUFFER buf_size
          (object [strMember "tool" (tr_tool req); quoted (text "args") ++ z2b 58 :: args_json;
                   strMember "permission" (tr_permission req)]))
    end.

(** ** The buffer of the tool arguments *)

(** What the loop writes for [args] from index [i] on. *)
Definition argsFrom (i : nat) (args : list eipc_kv_t) : list byte :=
  match args with
  | [] => []
  | _ => (if (0 <? i)%nat then [z2b 44] else []) ++ commaSep (argText <$> args)
  end.

Lemma argsFrom_cons i a args :
  argsFrom i (a :: args) = (if (0 <? i)%nat then [z2b 44] else []) ++ argText a ++ argsFrom (i + 1) args.
Proof.
  unfold argsFrom. f_equal. destruct args as [|a' args]; cbn [fmap list_fmap].
  - by rewrite app_nil_r.
  - rewrite Nat.add_1_r. done.
Qed.

Lemma wrote_more xs zs b :
  (length (xs ++ zs) <= length b)%nat ->
  MkCursor (splice 0 (xs ++ zs) b) (length xs) = wrote 0 xs (splice 0 (xs ++ zs) b).
Proof.
  intros Hl. unfold wrote. f_equal. unfold splice. rewrite !take_0. cbn [app Nat.add].
  rewrite <-app_assoc. f_equal. by rewrite drop_app_length.
Qed.

Lemma snprintfAt_fits t xs b :
  (length xs + length t < length b)%nat ->
  exists b', length b' = length b /\
    snprintfAt (zlen b - zlen xs) t (wrote 0 xs b) = Some (MkCursor b' (length xs)) /\
    MkCursor b' (length xs + length t) = wrote 0 (xs ++ t) b'.
Proof.
  intros Hl. exists (splice 0 ((xs ++ t) ++ [z2b 0]) b).
  assert (length ((xs ++ t) ++ [z2b 0]) <= length b)%nat as Hl'.
  { rewrite !length_app. cbn [length]. lia. }
  split_and!.
  - by rewrite length_splice.
  - unfold snprintfAt. rewrite (proj2 (Z.eqb_neq _ _)) by (unfold zlen; lia).
    unfold snprintf. cbn [snd]. rewrite (take_ge t) by (unfold zlen; lia).
    rewrite memcpy_ok; cbn [wrote cu_pos cu_buf Nat.add].
    + rewrite take_ge, (splice_app 0 xs) by lia. cbn [mbind option_bind]. by rewrite <-app_assoc.
    + rewrite length_splice, length_app by (cbn; lia). cbn [length]. lia.
    + lia.
  - rewrite <-wrote_more by done. rewrite length_app. done.
Qed.

Lemma snprintfAt_overflow t xs b :
  (length xs <= length b)%nat -> exists c, snprintfAt (zlen b - zlen xs) t (wrote 0 xs b) = Some c.
Proof.
  intros Hl. unfold snprintfAt. destruct (Z.eqb_spec (zlen b - zlen xs) 0) as [|Hr]; [eauto|].
  unfold zlen in *. unfold snprintf. cbn [snd]. rewrite memcpy_ok; [eauto| |lia].
  cbn [wrote cu_pos cu_buf Nat.add]. rewrite length_splice, length_app, length_take by (cbn; lia).
  cbn [length]. lia.
Qed.

Lemma argsLoop_ok args : forall i xs b,
  zlen b = ARGS_JSON_SIZE -> zlen xs < ARGS_JSON_SIZE ->
  exists b', zlen b' = ARGS_JSON_SIZE /\
    argsLoop i args (wrote 0 xs b) =
    Some (if zlen (xs ++ argsFrom i args) <? ARGS_JSON_SIZE
          then Some (wrote 0 (xs ++ argsFrom i args) b') else None).
Proof.
  unfold ARGS_JSON_SIZE. induction args as [|a args IH]; intros i xs b Hb Hx; cbn [argsLoop].
  { exists b. cbn [argsFrom]. rewrite app_nil_r. by rewrite (proj2 (Z.ltb_lt _ _)) by lia. }
  rewrite argsFrom_cons. set (sep := if (0 <? i)%nat then [z2b 44] else []).
  assert ((if (0 <? i)%nat then push (z2b 44) (wrote 0 xs b) else Some (wrote 0 xs b)) =
          Some (wrote 0 (xs ++ sep) b)) as ->.
  { unfold sep. destruct (0 <? i)%nat; [|by rewrite app_nil_r]. apply push_ok. unfold zlen in *. lia. }
  assert (zlen (xs ++ sep) <= 2048) as Hs.
  { rewrite zlen_app. unfold sep. destruct (0 <? i)%nat; unfold zlen in *; cbn [length]; lia. }
  cbn [mbind option_bind]. set (ys := xs ++ sep) in *. cbn [wrote cu_pos Nat.add].
  replace (u64 (ARGS_JSON_SIZE - Z.of_nat (length ys))) with (zlen b - zlen ys).
  2:{ unfold u64, ARGS_JSON_SIZE. fold (zlen ys). pose proof (zlen_nonneg ys). rewrite Z.mod_small; lia. }
  rewrite (app_assoc xs sep). fold ys. rewrite !app_assoc.
  destruct (Z.leb_spec (zlen b - zlen ys) (zlen (argText a))) as [Hf|Hf].
  - destruct (snprintfAt_overflow (argText a) ys b) as (c & ->); [unfold zlen in *; lia|].
    exists b. cbn [mbind option_bind]. split; [done|].
    rewrite (proj2 (Z.ltb_ge _ _)); [done|]. rewrite !zlen_app. pose proof (zlen_nonneg (argsFrom (i + 1) args)). lia.
  - destruct (snprintfAt_fits (argText a) ys b) as (b1 & Hb1 & -> & Hc); [unfold zlen in *; lia|].
    cbn [mbind option_bind cu_buf cu_pos]. rewrite Hc. apply IH.
    + unfold zlen in *. lia.
    + rewrite zlen_app. lia.
Qed.

Definition nonul (s : list byte) : Prop := Forall (fun c => b2z c <> 0) s.

Lemma cstr_app s l : nonul s -> cstr (s ++ z2b 0 :: l) = Some s.
Proof.
  induction 1 as [|c s Hc _ IH]; [done|]. cbn [app cstr].
  rewrite (proj2 (Z.eqb_neq _ _)) by done. by rewrite IH.
Qed.

Lemma escapeLoop_nonul src : forall di size, nonul src -> nonul (escapeLoop src di size).
Proof.
  induction src as [|c src IH]; intros di size Hs; cbn [escapeLoop]; [constructor|].
  apply Forall_cons in Hs as [Hc Hs].
  assert (forall x, b2z x <> 0 ->
    nonul (if size <=? di + 2 then [] else z2b 92 :: x :: escapeLoop src (di + 2) size)) as Hp.
  { intros x Hx. destruct (_ <=? _); [constructor|].
    apply Forall_cons. split; [done|]. apply Forall_cons. split; [done|]. by apply IH. }
  destruct (size - 1 <=? di); [constructor|]. destruct (isC c 34 || isC c 92); [by apply Hp|].
  destruct (isC c 10); [by apply Hp|]. destruct (isC c 13); [by apply Hp|].
  destruct (isC c 9); [by apply Hp|]. apply Forall_cons. split; [done|]. by apply IH.
Qed.

Lemma quoted_nonul s : nonul s -> nonul (quoted s).
Proof. intros Hs. apply Forall_cons. split; [done|]. apply Forall_app. split; [done|]. by apply Forall_singleton. Qed.

Definition kv_ok (a : eipc_kv_t) : Prop := nonul (kv_key a) /\ nonul (kv_value a).

Lemma argText_nonul a : kv_ok a -> nonul (argText a).
Proof.
  intros [Hk Hv]. apply Forall_app. split; [by apply quoted_nonul, escapeLoop_nonul|].
  apply Forall_cons. split; [done|]. by apply quoted_nonul, escapeLoop_nonul.
Qed.

Lemma argsFrom_nonul args : forall i, Forall kv_ok args -> nonul (argsFrom i args).
Proof.
  induction args as [|a args IH]; intros i Ha; [constructor|]. apply Forall_cons in Ha as [Ha Hr].
  rewrite argsFrom_cons. apply Forall_app. split; [by destruct (0 <? i)%nat; [apply Forall_singleton|constructor]|].
  apply Forall_app. split; [by apply argText_nonul|by apply IH].
Qed.

Lemma argsFrom_0 args : argsFrom 0 args = commaSep (argText <$> args).
Proof. by destruct args. Qed.

Lemma tool_request_text stack req buf_size :
  zlen stack = ARGS_JSON_SIZE -> Forall kv_ok (argsOf req) ->
  let args := object (argText <$> argsOf req) in
  eipc_tool_request_to_json false stack req buf_size =
  if zlen args =? ARGS_JSON_SIZE then None
  else if ARGS_JSON_SIZE <? zlen args then Some (EIPC_ERR_BUFFER, [])
  else Some (emit EIPC_ERR_BUFFER buf_size
    (object [strMember "tool" (tr_tool req); quoted (text "args") ++ z2b 58 :: args;
             strMember "permission" (tr_permission req)])).
Proof.
  intros Hs Ha args. unfold eipc_tool_request_to_json.
  rewrite wrote_nil, push_ok by (unfold zlen, ARGS_JSON_SIZE in *; cbn [length]; lia).
  cbn [mbind option_bind app].
  destruct (argsLoop_ok (argsOf req) 0 [z2b 123] stack) as (b & Hb & ->); [done|done|].
  cbn [mbind option_bind]. rewrite argsFrom_0. set (members := commaSep _) in *.
  set (xs := [z2b 123] ++ members) in *.
  assert (args = xs ++ [z2b 125]) as Hargs by done. clearbody args. subst args.
  assert (zlen (xs ++ [z2b 125]) = zlen xs + 1) as -> by (by rewrite zlen_app).
  unfold ARGS_JSON_SIZE in *. destruct (Z.ltb_spec (zlen xs) 2048) as [Hx|Hx].
  - rewrite push_ok by (unfold zlen in *; lia). cbn [mbind option_bind wrote cu_pos cu_buf Nat.add].
    destruct (Z.eqb_spec (zlen xs + 1) 2048) as [He|He].
    + unfold CMem.store. rewrite decide_False; [done|]. unfold zlen in *.
      rewrite length_splice by (rewrite length_app; cbn [length]; lia). rewrite length_app. cbn [length]. lia.
    + rewrite (proj2 (Z.ltb_ge _ _)) by lia. unfold zlen in *.
      rewrite store_ok by (rewrite length_splice; rewrite length_app; cbn [length]; lia).
      cbn [mbind option_bind].
      rewrite splice_front by (rewrite length_app; cbn [length]; lia).
      unfold splice at 1. rewrite take_0, <-(app_assoc _ [z2b 0]). cbn [app]. rewrite cstr_app; [done|].
      apply Forall_cons. split; [done|]. apply Forall_app. split; [|by apply Forall_singleton].
      unfold members. rewrite <-argsFrom_0. by apply argsFrom_nonul.
  - rewrite (proj2 (Z.eqb_neq _ _)) by lia. by rewrite (proj2 (Z.ltb_lt _ _)) by lia.
Qed.

(** C26: [eipc_tool_request_to_json] overflows its stack buffer by one byte for
    exactly one length: when the rendered arguments, the braces included, take
    exactly the 2048 bytes of [args_json], the terminating NUL is written behind
    it.  Longer ones are refused, and for shorter ones the function is safe and
    prints the request with its arguments as a JSON object. *)
Theorem tool_request_overflow (stack : list byte) (req : eipc_tool_request_t) (buf_size : Z) :
  zlen stack = ARGS_JSON_SIZE -> Forall kv_ok (argsOf req) ->
  let args := object (argText <$> argsOf req) in
  eipc_tool_request_to_json false stack req buf_size =
  if zlen args =? ARGS_JSON_SIZE then None
  else if ARGS_JSON_SIZE <? zlen args then Some (EIPC_ERR_BUFFER, [])
  else Some (emit EIPC_ERR_BUFFER buf_size
    (object [strMember "tool" (tr_tool req); quoted (text "args") ++ z2b 58 :: args;
             strMember "permission" (tr_permission req)])).
Proof. apply tool_request_text. Qed.

(** Seven arguments, with keys of 63 and values of up to 255 characters. *)
Definition overflowingRequest : eipc_tool_request_t :=
  MkToolRequest [] (replicate 6 (MkKV (replicate 63 (z2b 107)) (replicate 255 (z2b 118))) ++
                    [MkKV (replicate 63 (z2b 107)) (replicate 34 (z2b 118))]) 7 [].

Lemma tool_request_overflow_witness :
  eipc_tool_request_to_json false (replicate 2048 (z2b 0)) overflowingRequest 4096 = None.
Proof.
  rewrite (tool_request_overflow (replicate 2048 (z2b 0)) overflowingRequest 4096).
  - vm_compute. reflexivity.
  - vm_compute. reflexivity.
  - repeat constructor; vm_compute; discriminate.
Defined.

Lemma emit_fits err size t : zlen t < size -> emit err size t = (EIPC_OK, t).
Proof.
  intros Hz. unfold emit, snprintf. rewrite (proj2 (Z.leb_gt _ _)) by done. f_equal. apply take_ge. unfold zlen in Hz. lia.
Qed.

(** ** Searching for a key *)

Definition noquote (s : list byte) : Prop := Forall (fun c => isC c 34 = false) s.

(** A key as the structs have them: no quote in it, a small letter in front. *)
Definition keylike (key : list byte) : Prop :=
  noquote key /\ exists c l, key = c :: l /\ 97 <= b2z c <= 122.

Lemma startsWith_app p l : startsWith p (p ++ l) = true.
Proof. unfold startsWith. apply bool_decide_eq_true. apply take_app_length. Qed.

Lemma startsWith_true p l : startsWith p l = true -> exists k, l = p ++ k.
Proof.
  unfold startsWith. intros H%bool_decide_eq_true. exists (drop (length p) l).
  rewrite <-H at 1. by rewrite take_drop.
Qed.

Lemma strstr_hit p l : strstr p (p ++ l) = Some (p ++ l).
Proof. pose proof (startsWith_app p l) as H. destruct (p ++ l); cbn [strstr]; by rewrite H. Qed.

Lemma strstr_skip1 p c l : startsWith p (c :: l) = false -> strstr p (c :: l) = strstr p l.
Proof. intros H. cbn [strstr]. by rewrite H. Qed.

Lemma strstr_skip key s l : noquote s -> strstr (quoted key) (s ++ l) = strstr (quoted key) l.
Proof.
  induction 1 as [|c s Hc _ IH]; [done|]. cbn [app]. rewrite strstr_skip1; [done|].
  apply not_true_is_false. intros (k & Hk)%startsWith_true. unfold quoted in Hk.
  injection Hk as -> _. done.
Qed.

Lemma noquote_split x y k l :
  noquote x -> noquote y -> x ++ dq :: k = y ++ dq :: l -> x = y.
Proof.
  intros Hx. revert y. induction Hx as [|c x Hc _ IH]; intros y Hy; destruct Hy as [|d y Hd Hy]; cbn [app].
  - done.
  - intros [= <- _]. done.
  - intros [= -> _]. done.
  - intros [= -> H]. f_equal. by apply IH.
Qed.

(** A quoted string other than the key, in front of a separator. *)
Lemma strstr_other key s c l :
  keylike key -> noquote s -> s <> key -> (b2z c < 97 \/ 122 < b2z c) -> isC c 34 = false ->
  strstr (quoted key) (quoted s ++ c :: l) = strstr (quoted key) l.
Proof.
  intros [Hk (k0 & ks & -> & Hk0)] Hs Hne Hc Hcq. unfold quoted at 2. cbn [app]. rewrite <-app_assoc. cbn [app].
  rewrite strstr_skip1.
  2:{ apply not_true_is_false. intros (k & H)%startsWith_true. unfold quoted in H. cbn [app] in H.
      injection H as H. rewrite <-app_assoc in H. cbn [app] in H. apply Hne.
      by apply (noquote_split s (k0 :: ks) (c :: l) k). }
  rewrite strstr_skip by done. rewrite strstr_skip1.
  2:{ apply not_true_is_false. intros (k & H)%startsWith_true. unfold quoted in H. cbn [app] in H.
      injection H as H _. subst. lia. }
  change (c :: l) with ([c] ++ l). apply strstr_skip. by apply Forall_singleton.
Qed.

(** ** Objects *)

(** A string, an unsigned number, or a value printed as it stands. *)
Inductive cval := CStr (s : list byte) | CNum (n : Z) | CLit (t : list byte).

Definition valText (v : cval) : list byte :=
  match v with CStr s => quoted s | CNum n => appendInt n 0 | CLit t => t end.

Definition member (m : list byte * cval) : list byte :=
  quoted (fst m) ++ z2b 58 :: valText (snd m).

(** A member that a search for [key] passes over. *)
Definition passes (key : list byte) (m : list byte * cval) : Prop :=
  noquote (fst m) /\ fst m <> key /\
  match snd m with CStr s => noquote s /\ s <> key | CNum n => in_u64 n | CLit t => noquote t end.

Definition closer (c : byte) : Prop := c = z2b 44 \/ c = z2b 125.

Lemma digits_noquote l : forallb isDigit l = true -> noquote l.
Proof.
  induction l as [|d l IH]; [constructor|]. cbn [forallb]. intros [Hd Hl]%andb_true_iff.
  apply Forall_cons. split; [|by apply IH]. unfold isDigit in Hd. breflect. apply isC_false. lia.
Qed.

Lemma closer_facts c : closer c -> (b2z c < 97 \/ 122 < b2z c) /\ isC c 34 = false /\ isDigit c = false.
Proof. intros [-> | ->]; (split; [|done]); vm_compute; auto. Qed.

Lemma strstr_member key m c l :
  keylike key -> passes key m -> closer c ->
  strstr (quoted key) (member m ++ c :: l) = strstr (quoted key) l.
Proof.
  intros Hk (Hm & Hne & Hv) (Hc & Hcq & _)%closer_facts. unfold member. rewrite <-app_assoc. cbn [app].
  rewrite strstr_other by (done || (vm_compute; auto)). destruct (snd m) as [s|n|t]; cbn [valText].
  - destruct Hv as [Hs Hs']. by apply strstr_other.
  - destruct (uint_text n Hv) as (_ & Hd & _).
    change (c :: l) with ([c] ++ l). rewrite app_assoc. apply strstr_skip.
    apply Forall_app. split; [by apply digits_noquote|by apply Forall_singleton].
  - change (c :: l) with ([c] ++ l). rewrite app_assoc. apply strstr_skip.
    apply Forall_app. split; [done|by apply Forall_singleton].
Qed.

(** What follows a member: a comma and the others, or the closing brace. *)
Definition tailText (ms : list (list byte * cval)) : list byte :=
  match ms with
  | [] => [z2b 125]
  | _ => z2b 44 :: commaSep (member <$> ms) ++ [z2b 125]
  end.

Lemma tailText_closer ms : exists c l, tailText ms = c :: l /\ closer c.
Proof. destruct ms as [|m ms]; eexists _, _; (split; [done|]); [by right|by left]. Qed.

Lemma commaSep_tail m ms : commaSep (member <$> m :: ms) ++ [z2b 125] = member m ++ tailText ms.
Proof.
  destruct ms as [|m' ms]; [done|]. unfold tailText. rewrite !fmap_cons.
  rewrite commaSep_cons. by rewrite <-app_assoc.
Qed.

Definition searched (key : list byte) (ms : list (list byte * cval)) : option (list byte) :=
  strstr (quoted key) (object (member <$> ms)).

Lemma search_found key ms1 v ms2 :
  keylike key -> Forall (passes key) ms1 ->
  searched key (ms1 ++ (key, v) :: ms2) = Some (member (key, v) ++ tailText ms2).
Proof.
  intros Hk Hms. unfold searched, object.
  change (z2b 123 :: ?l) with ([z2b 123] ++ l). rewrite strstr_skip by (by apply Forall_singleton).
  induction Hms as [|m ms1 Hm _ IH]; cbn [app].
  - rewrite commaSep_tail. unfold member. cbn [fst]. rewrite <-app_assoc. apply strstr_hit.
  - rewrite commaSep_tail. destruct ms1 as [|m' ms1]; cbn [app tailText] in *.
    + rewrite strstr_member by (done || by left). exact IH.
    + rewrite strstr_member by (done || by left). exact IH.
Qed.

Lemma search_none key ms :
  keylike key -> Forall (passes key) ms -> searched key ms = None.
Proof.
  intros Hk Hms. unfold searched, object.
  change (z2b 123 :: ?l) with ([z2b 123] ++ l). rewrite strstr_skip by (by apply Forall_singleton).
  assert (strstr (quoted key) [z2b 125] = None) as Hend.
  { change [z2b 125] with ([z2b 125] ++ []). rewrite strstr_skip by (by apply Forall_singleton).
    cbn [strstr]. unfold startsWith. by rewrite take_nil. }
  induction Hms as [|m ms Hm _ IH]; [exact Hend|]. rewrite commaSep_tail.
  destruct ms as [|m' ms]; cbn [tailText].
  - rewrite strstr_member by (done || by right). cbn [strstr]. unfold startsWith. by rewrite take_nil.
  - rewrite strstr_member by (done || by left). exact IH.
Qed.

(** Strings that need no escape in the C reader's eyes. *)
Definition simple (s : list byte) : Prop := Forall (fun c => isC c 34 = false /\ isC c 92 = false) s.

Lemma simple_noquote s : simple s -> noquote s.
Proof. intros H. eapply Forall_impl; [exact H|]. by intros c [? _]. Qed.

Lemma scanString_simple s l : simple s -> scanString (s ++ dq :: l) = s.
Proof.
  induction 1 as [|c s [H1 H2] _ IH]; [done|]. cbn [app scanString]. rewrite H1, H2. by rewrite IH.
Qed.

Lemma keyPattern_ok key : (length (text key) <= 125)%nat -> keyPattern key = quoted (text key).
Proof.
  intros H. unfold keyPattern, snprintf. cbn [snd]. apply take_ge. unfold quoted. cbn [length].
  rewrite length_app. cbn [length]. lia.
Qed.

Lemma after_key key v l : drop (length (quoted (text key))) (member (text key, v) ++ l) =
  z2b 58 :: valText v ++ l.
Proof. unfold member. cbn [fst snd]. by rewrite <-app_assoc, drop_app_length. Qed.

Lemma uint_cons n : in_u64 n -> exists d ds, appendInt n 0 = d :: ds /\ isDigit d = true /\ forallb isDigit ds = true.
Proof.
  intros Hn. destruct (uint_text n Hn) as (Hp & Hd & _). destruct (appendInt n 0) as [|d ds]; [done|].
  cbn [forallb] in Hd. apply andb_true_iff in Hd. naive_solver.
Qed.

Lemma digit_facts d : isDigit d = true ->
  isSep d = false /\ isspace d = false /\ isC d 34 = false /\ isC d 45 = false /\ isC d 43 = false.
Proof.
  unfold isDigit, isSep, isspace. intros H. breflect.
  assert (forall n, n < 48 \/ 57 < n -> isC d n = false) as HC by (intros; apply isC_false; lia).
  rewrite !HC by lia. split_and!; try done. zbool. lia.
Qed.

Lemma digitRun_closer ds c l : forallb isDigit ds = true -> isDigit c = false -> digitRun (ds ++ c :: l) = ds.
Proof.
  intros Hd Hc. induction ds as [|d ds IH]; cbn [app digitRun forallb] in *; [by rewrite Hc|].
  apply andb_true_iff in Hd as [-> Hd]. by rewrite IH.
Qed.

Section Find.
Context (key : string) (ms1 ms2 : list (list byte * cval)).
Context (Hlen : (length (text key) <= 125)%nat) (Hkey : keylike (text key)) (Hms : Forall (passes (text key)) ms1).

Lemma find_string_ok s size :
  simple s -> zlen s < size ->
  json_find_string (object (member <$> ms1 ++ (text key, CStr s) :: ms2)) key size = (0, s).
Proof.
  intros Hs Hz. unfold json_find_string. rewrite keyPattern_ok by done.
  change (strstr (quoted (text key)) (object (member <$> ?ms))) with (searched (text key) ms).
  rewrite search_found, after_key by done. cbn [valText]. unfold quoted. cbn [app skipWhile].
  change (isSep (z2b 58)) with true. change (isSep dq) with false. cbv iota.
  change (isC dq 34) with true. cbv iota. rewrite <-app_assoc. cbn [app]. rewrite scanString_simple by done.
  f_equal. apply take_ge. unfold zlen in *. lia.
Qed.

Lemma find_uint64_ok n :
  in_u64 n -> json_find_uint64 (object (member <$> ms1 ++ (text key, CNum n) :: ms2)) key = (0, n).
Proof.
  intros Hn. unfold json_find_uint64. rewrite keyPattern_ok by done.
  change (strstr (quoted (text key)) (object (member <$> ?ms))) with (searched (text key) ms).
  rewrite search_found, after_key by done. cbn [valText]. destruct (uint_text n Hn) as (_ & _ & Ha).
  destruct (uint_cons n Hn) as (d & ds & E & Hd & Hds). rewrite E in *.
  destruct (tailText_closer ms2) as (c & l & -> & (_ & _ & Hc)%closer_facts).
  destruct (digit_facts d Hd) as (F1 & F2 & F3 & F4 & F5).
  cbn [app skipWhile]. change (isSep (z2b 58)) with true. cbv iota. rewrite F1, F3.
  unfold strtoull. cbn [skipWhile]. rewrite F2, F4, F5.
  change (d :: ds ++ c :: l) with ((d :: ds) ++ c :: l).
  rewrite digitRun_closer by (done || (cbn [forallb]; by rewrite Hd)). rewrite Ha.
  rewrite (proj2 (Z.leb_gt _ _)) by apply Hn. done.
Qed.

Lemma find_int_ok n :
  0 <= n < 2 ^ 31 -> json_find_int (object (member <$> ms1 ++ (text key, CNum n) :: ms2)) key = (0, n).
Proof.
  intros Hn. unfold json_find_int. rewrite find_uint64_ok by (unfold in_u64; lia).
  unfold toInt. change (0 <? 0) with false. cbv iota. rewrite Z.mod_small by lia. f_equal. lia.
Qed.

Lemma find_string_missing size : snd (json_find_string (object (member <$> ms1)) key size) = [].
Proof.
  unfold json_find_string. rewrite keyPattern_ok by done.
  change (strstr (quoted (text key)) (object (member <$> ?ms))) with (searched (text key) ms).
  by rewrite search_none.
Qed.
End Find.

(** The same by position. *)
Lemma find_string_at ms i key s size :
  (length (text key) <= 125)%nat -> keylike (text key) ->
  ms !! i = Some (text key, CStr s) -> Forall (passes (text key)) (take i ms) ->
  simple s -> zlen s < size -> json_find_string (object (member <$> ms)) key size = (0, s).
Proof. intros Hl Hk Hi Hp. rewrite <-(take_drop_middle ms i _ Hi). by apply find_string_ok. Qed.

Lemma find_uint64_at ms i key n :
  (length (text key) <= 125)%nat -> keylike (text key) ->
  ms !! i = Some (text key, CNum n) -> Forall (passes (text key)) (take i ms) ->
  in_u64 n -> json_find_uint64 (object (member <$> ms)) key = (0, n).
Proof. intros Hl Hk Hi Hp. rewrite <-(take_drop_middle ms i _ Hi). by apply find_uint64_ok. Qed.

Lemma find_int_at ms i key n :
  (length (text key) <= 125)%nat -> keylike (text key) ->
  ms !! i = Some (text key, CNum n) -> Forall (passes (text key)) (take i ms) ->
  0 <= n < 2 ^ 31 -> json_find_int (object (member <$> ms)) key = (0, n).
Proof. intros Hl Hk Hi Hp. rewrite <-(take_drop_middle ms i _ Hi). by apply find_int_ok. Qed.

(** ** Headers *)

Definition headerKeys : list (list byte) :=
  [text "service_id"; text "session_id"; text "request_id"; text "sequence"; text "timestamp";
   text "priority"; text "capability"; text "payload_format"].

(** A string that survives the C reader in a field of [size] characters. *)
Definition field_ok (size : Z) (s : list byte) : Prop := simple s /\ zlen s < size /\ s ∉ headerKeys.

Definition optMember (key : string) (s : option (list byte)) : list (list byte * cval) :=
  match s with Some s => [(text key, CStr s)] | None => [] end.

(** The members of a header's text; Go leaves out an empty capability and
    route, C prints no route. *)
Definition headerMembers (h : eipc_header_t) (cap route : option (list byte)) : list (list byte * cval) :=
  [(text "service_id", CStr (ch_service_id h)); (text "session_id", CStr (ch_session_id h));
   (text "request_id", CStr (ch_request_id h)); (text "sequence", CNum (ch_sequence h));
   (text "timestamp", CStr (ch_timestamp h)); (text "priority", CNum (ch_priority h))] ++
  optMember "capability" cap ++ optMember "route" route ++ [(text "payload_format", CNum (ch_payload_format h))].

Definition cheader_ok (h : eipc_header_t) : Prop :=
  field_ok EIPC_SERVICE_ID_MAX (ch_service_id h) /\ field_ok EIPC_SESSION_ID_MAX (ch_session_id h) /\
  field_ok EIPC_REQUEST_ID_MAX (ch_request_id h) /\ field_ok EIPC_TIMESTAMP_MAX (ch_timestamp h) /\
  field_ok EIPC_CAPABILITY_MAX (ch_capability h) /\
  in_u64 (ch_sequence h) /\ in_u8 (ch_priority h) /\ in_u8 (ch_payload_format h).

Lemma passes_str key k s size :
  key ∈ headerKeys -> noquote k -> k <> key -> field_ok size s -> passes key (k, CStr s).
Proof.
  intros Hk Hn Hne (Hs & _ & Hin). split; [done|]. split; [done|]. split; [by apply simple_noquote|].
  by intros ->.
Qed.

Lemma passes_num key k n : noquote k -> k <> key -> in_u64 n -> passes key (k, CNum n).
Proof. by intros. Qed.

Lemma headerKeys_keylike key : key ∈ headerKeys -> keylike key.
Proof.
  unfold headerKeys. rewrite !elem_of_cons, elem_of_nil.
  intros H. destruct_or! H; subst; try done;
    (split; [repeat constructor|]; eexists _, _; split; [reflexivity|]; vm_compute; split; discriminate).
Qed.

Lemma headerKeys_short key : key ∈ headerKeys -> (length key <= 125)%nat.
Proof.
  unfold headerKeys. rewrite !elem_of_cons, elem_of_nil.
  intros H. destruct_or! H; subst; cbn [length bytes_of_string] ; cbn; lia || done.
Qed.

Lemma header_string ms i key s size :
  text key ∈ headerKeys -> ms !! i = Some (text key, CStr s) -> Forall (passes (text key)) (take i ms) ->
  field_ok size s -> snd (json_find_string (object (member <$> ms)) key size) = s.
Proof.
  intros Hk Hi Hp (Hs & Hz & _).
  by rewrite (find_string_at ms i key s size (headerKeys_short _ Hk) (headerKeys_keylike _ Hk) Hi Hp Hs Hz).
Qed.

Lemma header_int ms i key n :
  text key ∈ headerKeys -> ms !! i = Some (text key, CNum n) -> Forall (passes (text key)) (take i ms) ->
  in_u8 n -> storeFound (fun v => v mod 2 ^ 8) (json_find_int (object (member <$> ms)) key) = n.
Proof.
  intros Hk Hi Hp Hn. unfold in_u8 in Hn.
  rewrite (find_int_at ms i key n (headerKeys_short _ Hk) (headerKeys_keylike _ Hk) Hi Hp) by lia.
  unfold storeFound. change (0 =? 0) with true. cbv iota. apply Z.mod_small. lia.
Qed.

Ltac in_keys := apply (bool_decide_unpack _); vm_compute; exact I.

(** Every member in front of the one that is searched is passed over. *)
Ltac passing :=
  try match goal with |- context [take _ ?m] => is_var m; unfold m end;
  cbn [headerMembers optMember take app]; repeat (apply Forall_cons; split); try apply Forall_nil_2;
  first [ eapply passes_str; [in_keys|repeat constructor|discriminate|eassumption]
        | apply passes_num; [repeat constructor|discriminate|unfold in_u64, in_u8 in *; lia] ].

Lemma from_members h cap route h0 :
  cheader_ok h -> default [] cap = ch_capability h -> (forall r, route = Some r -> field_ok EIPC_ROUTE_MAX r) ->
  eipc_header_from_json false (object (member <$> headerMembers h cap route)) h0 =
  (EIPC_OK, MkCHeader (ch_service_id h) (ch_session_id h) (ch_request_id h) (ch_sequence h) (ch_timestamp h)
     (ch_priority h) (ch_capability h) [] (ch_payload_format h)).
Proof.
  intros (H1 & H2 & H3 & H4 & H5 & H6 & H7 & H8) Hcap Hroute.
  assert (in_u64 (ch_priority h) /\ in_u64 (ch_payload_format h)) as [H9 H10] by (unfold in_u64, in_u8 in *; lia).
  assert (match cap with Some c => field_ok EIPC_CAPABILITY_MAX c | None => True end) as Hc.
  { destruct cap; [|done]. simpl in Hcap. by rewrite Hcap. }
  assert (match route with Some r => field_ok EIPC_ROUTE_MAX r | None => True end) as Hr.
  { destruct route; [|done]. by apply Hroute. }
  unfold eipc_header_from_json. set (ms := headerMembers h cap route).
  rewrite (header_string ms 0 "service_id" (ch_service_id h)) by (done || in_keys || passing).
  rewrite (header_string ms 1 "session_id" (ch_session_id h)) by (done || in_keys || passing).
  rewrite (header_string ms 2 "request_id" (ch_request_id h)) by (done || in_keys || passing).
  rewrite (find_uint64_at ms 3 "sequence" (ch_sequence h))
    by (done || (apply headerKeys_short; in_keys) || (apply headerKeys_keylike; in_keys) || passing).
  rewrite (header_string ms 4 "timestamp" (ch_timestamp h)) by (done || in_keys || passing).
  rewrite (header_int ms 5 "priority" (ch_priority h)) by (done || in_keys || passing).
  assert (snd (json_find_string (object (member <$> ms)) "capability" EIPC_CAPABILITY_MAX) = ch_capability h) as ->.
  { destruct cap as [c|]; simpl in Hcap; rewrite <-Hcap.
    - by rewrite (header_string ms 6 "capability" c) by (done || in_keys || passing).
    - apply find_string_missing; [apply headerKeys_short; in_keys|apply headerKeys_keylike; in_keys|].
      unfold ms, headerMembers. destruct route; cbn [optMember app]; passing. }
  assert (storeFound (fun v => v mod 2 ^ 8) (json_find_int (object (member <$> ms)) "payload_format") = ch_payload_format h) as ->.
  { destruct cap, route; [apply (header_int ms 8)|apply (header_int ms 7)|apply (header_int ms 7)|apply (header_int ms 6)];
      done || in_keys || passing. }
  done.
Qed.

(** ** Headers across the language border *)

(** Strings both sides print as they are. *)
Definition plainByte (c : byte) : bool :=
  (32 <=? b2z c) && (b2z c <? 128) && negb (isC c 34) && negb (isC c 92) &&
  negb (isC c 60) && negb (isC c 62) && negb (isC c 38).

Definition plain (s : list byte) : Prop := forallb plainByte s = true.

Lemma escape_plain c : plainByte c = true -> b2z c < 128 /\ escape c = [c].
Proof.
  unfold plainByte, escape, isC. intros H. breflect. split; [lia|].
  repeat (rewrite (proj2 (Z.eqb_neq _ _)) by lia). rewrite (proj2 (Z.ltb_ge _ _)) by lia. done.
Qed.

Lemma quote_plain s : plain s -> quote s = quoted s.
Proof.
  intros Hs. unfold quote, quoted. f_equal. f_equal. unfold plain in Hs.
  induction s as [|c s IH]; [done|]. cbn [forallb] in Hs. apply andb_true_iff in Hs as [Hc Hs].
  destruct (escape_plain c Hc) as [Hlt He]. cbn [quoteBody].
  rewrite (proj2 (Z.ltb_lt _ _)) by lia. rewrite He, (IH Hs). done.
Qed.

Lemma escapeLoop_plain s : forall di size, plain s -> di + zlen s < size -> escapeLoop s di size = s.
Proof.
  unfold plain. induction s as [|c s IH]; intros di size Hs Hl; [done|]. rewrite zlen_cons in Hl. pose proof (zlen_nonneg s).
  cbn [forallb] in Hs. apply andb_true_iff in Hs as [Hc Hs]. cbn [escapeLoop]. rewrite (proj2 (Z.leb_gt _ _)) by lia.
  unfold plainByte, isC in *. breflect. repeat rewrite (proj2 (Z.eqb_neq (b2z c) _)) by lia. cbn [orb].
  f_equal. apply IH; [done|lia].
Qed.

Lemma json_escape_plain s size : plain s -> zlen s < size -> json_escape s size = s.
Proof.
  intros Hs Hl. unfold json_escape. pose proof (zlen_nonneg s). rewrite (proj2 (Z.eqb_neq _ _)) by lia.
  by apply escapeLoop_plain.
Qed.

Lemma plain_valid s : plain s -> validUTF8 s = true.
Proof.
  unfold plain, validUTF8. induction s as [|c s IH]; [done|]. cbn [forallb]. intros [Hc Hs]%andb_true_iff.
  destruct (escape_plain c Hc) as [Hlt _]. pose proof (b2z_range c). cbn [validFrom]. unfold decodeRune.
  rewrite (proj2 (Z.ltb_lt _ _)) by lia. by apply IH.
Qed.

Lemma plain_app a b : plain a -> plain b -> plain (a ++ b).
Proof. unfold plain. rewrite forallb_app. by intros -> ->. Qed.

Lemma plain_simple s : plain s -> simple s.
Proof.
  unfold plain, simple. intros H. apply Forall_forall. intros c Hc.
  rewrite forallb_forall in H. apply list_elem_of_In, H in Hc. unfold plainByte in Hc.
  rewrite !andb_true_iff, !negb_true_iff in Hc. tauto.
Qed.

Lemma plain_digits ds : forallb isDigit ds = true -> plain ds.
Proof.
  unfold plain. rewrite !forallb_forall. intros H c Hc. specialize (H c Hc). unfold isDigit in H. breflect.
  unfold plainByte, isC. repeat (rewrite (proj2 (Z.eqb_neq _ _)) by lia). zbool. done.
Qed.

Lemma plain_nonul s : plain s -> nonul s.
Proof.
  unfold plain, nonul. intros H. apply Forall_forall. intros c Hc. rewrite forallb_forall in H.
  apply list_elem_of_In, H in Hc. unfold plainByte in Hc. breflect. lia.
Qed.

Definition plainMember (m : list byte * cval) : Prop :=
  plain m.1 /\ match m.2 with CStr s => plain s | CNum n => in_u64 n | CLit t => plain t end.

Lemma object_nonul ms : Forall plainMember ms -> nonul (object (member <$> ms)).
Proof.
  intros Hms. unfold object. apply Forall_cons. split; [done|]. apply Forall_app. split; [|by apply Forall_singleton].
  induction Hms as [|m ms [Hk Hv] _ IH]; [constructor|].
  assert (nonul (member m)) as Hm.
  { apply Forall_app. split; [by apply quoted_nonul, plain_nonul|]. apply Forall_cons. split; [done|].
    destruct m.2; [by apply quoted_nonul, plain_nonul| |by apply plain_nonul].
    by apply plain_nonul, plain_digits, (proj2 (uint_text _ Hv)). }
  rewrite fmap_cons. destruct ms as [|m' ms]; [done|]. rewrite fmap_cons in *. rewrite commaSep_cons.
  apply Forall_app. split; [done|]. apply Forall_cons. by split.
Qed.

Lemma print_obj ms : print (JObj ms) = object (map (fun kv => quote (fst kv) ++ z2b 58 :: print (snd kv)) ms).
Proof. done. Qed.

Lemma str_member key s :
  plain (text key) -> plain s -> quote (text key) ++ z2b 58 :: print (JStr s) = member (text key, CStr s).
Proof. intros Hk Hs. unfold member. cbn [fst snd print]. by rewrite !quote_plain. Qed.

Lemma num_member key n :
  plain (text key) -> quote (text key) ++ z2b 58 :: print (uintText n) = member (text key, CNum n).
Proof. intros Hk. unfold member. cbn [fst snd print uintText]. by rewrite !quote_plain. Qed.

(** A Go header as a C struct, which has room for the same fields. *)
Definition cHeaderOf (h : MessageHeader) : eipc_header_t :=
  MkCHeader (text (hServiceID h)) (text (hSessionID h)) (text (hRequestID h)) (hSequence h)
    (text (hTimestamp h)) (hPriority h) (text (hCapability h)) [] (hPayloadFormat h).

(** The headers both sides can exchange: plain strings that fit the C arrays and
    are not the names of header fields. *)
Definition portable (h : MessageHeader) : Prop :=
  cheader_ok (cHeaderOf h) /\ field_ok EIPC_ROUTE_MAX (text (hRoute h)) /\
  plain (text (hServiceID h)) /\ plain (text (hSessionID h)) /\ plain (text (hRequestID h)) /\
  plain (text (hTimestamp h)) /\ plain (text (hCapability h)) /\ plain (text (hRoute h)).

Definition nonempty (s : string) : option (list byte) := if String.eqb s "" then None else Some (text s).

Lemma nonempty_cap h : default [] (nonempty (hCapability h)) = ch_capability (cHeaderOf h).
Proof. unfold nonempty. cbn [cHeaderOf ch_capability]. by destruct (String.eqb_spec (hCapability h) "") as [->|]. Qed.

Lemma nonempty_route h : field_ok EIPC_ROUTE_MAX (text (hRoute h)) ->
  forall r, nonempty (hRoute h) = Some r -> field_ok EIPC_ROUTE_MAX r.
Proof. intros Hr r. unfold nonempty. destruct (String.eqb _ _); [done|]. by intros [= <-]. Qed.

Lemma go_header_text h :
  portable h ->
  print (headerJSON h) =
  object (member <$> headerMembers (cHeaderOf h) (nonempty (hCapability h)) (nonempty (hRoute h))).
Proof.
  intros (_ & _ & H1 & H2 & H3 & H4 & H5 & H6). unfold headerJSON. rewrite print_obj. f_equal.
  unfold headerMembers, nonempty, omitempty, cHeaderOf.
  destruct (String.eqb (hCapability h) ""), (String.eqb (hRoute h) ""); cbn [app map optMember fmap list_fmap fst snd];
    unfold strText; rewrite !str_member, !num_member by done; done.
Qed.

(** The C text of a header is the JSON of its members, the capability always
    among them. *)
Definition cHeaderJSON (h : MessageHeader) : json :=
  JObj [(text "service_id", strText (hServiceID h)); (text "session_id", strText (hSessionID h));
        (text "request_id", strText (hRequestID h)); (text "sequence", uintText (hSequence h));
        (text "timestamp", strText (hTimestamp h)); (text "priority", uintText (hPriority h));
        (text "capability", strText (hCapability h)); (text "payload_format", uintText (hPayloadFormat h))].

Lemma c_header_text h : portable h -> headerText (cHeaderOf h) = print (cHeaderJSON h).
Proof.
  intros (_ & _ & H1 & H2 & H3 & H4 & H5 & H6). unfold cHeaderJSON. rewrite print_obj. unfold headerText.
  f_equal. cbn [map fst snd]. unfold strText. by rewrite !str_member, !num_member by done.
Qed.

Lemma unmarshal_c_header h :
  portable h ->
  Unmarshal (print (cHeaderJSON h)) =
  Ok (MkHeader (hServiceID h) (hSessionID h) (hRequestID h) (hSequence h) (hTimestamp h) (hPriority h)
        (hCapability h) "" (hPayloadFormat h)).
Proof.
  intros ((_ & _ & _ & _ & _ & Hseq & Hpr & Hpf) & _ & H1 & H2 & H3 & H4 & H5 & _).
  cbn [cHeaderOf ch_sequence ch_priority ch_payload_format] in *.
  cbn [Unmarshal JSONCodec]. unfold unmarshalStruct. rewrite parseJSON_print; [| |vm_compute; discriminate].
  - assert (hSequence h < 2 ^ 64) by apply Hseq. assert (hPriority h < 2 ^ 8) by apply Hpr.
    assert (hPayloadFormat h < 2 ^ 8) by apply Hpf.
    unfold cHeaderJSON, zeroHeader. by repeat store_member.
  - cbn [canonical cHeaderJSON forallb fst snd strText].
    rewrite !plain_valid, !canonical_uint by (done || by apply in_u8_u64). done.
Qed.

Lemma zlen_uint n : zlen (appendInt n 0) <= 22.
Proof. pose proof (length_appendInt n 0). unfold zlen. lia. Qed.

Lemma header_text_short h : cheader_ok h -> zlen (headerText h) < 1024.
Proof.
  intros ((_ & H1 & _) & (_ & H2 & _) & (_ & H3 & _) & (_ & H4 & _) & (_ & H5 & _) & _).
  pose proof (zlen_uint (ch_sequence h)). pose proof (zlen_uint (ch_priority h)).
  pose proof (zlen_uint (ch_payload_format h)).
  unfold headerText, object, strMember, numMember, quoted. cbn [commaSep].
  unfold EIPC_SERVICE_ID_MAX, EIPC_SESSION_ID_MAX, EIPC_REQUEST_ID_MAX, EIPC_TIMESTAMP_MAX, EIPC_CAPABILITY_MAX in *.
  repeat (rewrite zlen_cons || rewrite zlen_app). 
  repeat match goal with |- context [zlen (text ?s)] => let n := eval vm_compute in (zlen (text s)) in change (zlen (text s)) with n end.
  change (zlen (@nil byte)) with 0. lia.
Qed.

(** C20: Headers cross the language border in both directions: a header printed
    by Go is read back field by field by the C scanner, and printed by C, is
    decoded by Go to the same header; only the route is lost, which C neither
    prints nor reads. The strings of the header are plain ASCII without quotes,
    backslashes, [<], [>] and [&], shorter than the C arrays, and not names of
    header fields; the numbers fit their types. *)
Theorem header_crosses (h : MessageHeader) (h0 : eipc_header_t) :
  portable h ->
  (exists bs, Marshal h = Ok bs /\ eipc_header_from_json false bs h0 = (EIPC_OK, cHeaderOf h)) /\
  (exists bs, eipc_header_to_json false (cHeaderOf h) 1024 = (EIPC_OK, bs) /\
     Unmarshal bs = Ok (MkHeader (hServiceID h) (hSessionID h) (hRequestID h) (hSequence h) (hTimestamp h)
                          (hPriority h) (hCapability h) "" (hPayloadFormat h))).
Proof.
  intros Hp. pose proof Hp as (Hc & Hr & _). split.
  - exists (print (headerJSON h)). split; [done|]. rewrite go_header_text by done.
    by rewrite (from_members _ _ _ _ Hc (nonempty_cap h) (nonempty_route h Hr)).
  - exists (headerText (cHeaderOf h)). rewrite <-(unmarshal_c_header h Hp), <-c_header_text by done.
    split; [|done]. apply emit_fits, header_text_short, Hc.
Qed.

Definition samplePortable : MessageHeader :=
  MkHeader "nia.min" "s-1" "req-7" 42 "2026-01-02T03:04:05Z" 1 "ui:control" "" 0.

#[global] Instance portable_dec h : Decision (portable h).
Proof. unfold portable, cheader_ok, field_ok, simple, plain, in_u64, in_u8. apply _. Defined.

Lemma header_crosses_witness :
  exists bs, Marshal samplePortable = Ok bs /\
    eipc_header_from_json false bs (cHeaderOf samplePortable) = (EIPC_OK, cHeaderOf samplePortable).
Proof.
  apply (header_crosses samplePortable (cHeaderOf samplePortable)).
  apply (bool_decide_unpack _). vm_compute. exact I.
Defined.

(** The condition on field names is needed: the scanner takes the first quoted
    occurrence of a key, a value included.  The C reader loses the sequence
    number of a service that is called "sequence". *)
Lemma value_taken_for_key (h0 : eipc_header_t) :
  let h := MkHeader "sequence" "" "" 42 "" 0 "" "" 0 in
  ch_sequence (snd (eipc_header_from_json false (print (headerJSON h)) h0)) = 0.
Proof. vm_compute. reflexivity. Qed.

(** Without escaping, a quote in a C string changes the text's structure: a
    service name can put a capability into the header that the struct does not
    have, and the C reader finds it first. *)
Lemma unescaped_header_injects (h0 : eipc_header_t) :
  let sid := text "x" ++ [dq] ++ z2b 44 :: quoted (text "capability") ++ z2b 58 :: [dq] ++ text "ai:chat" in
  let h := MkCHeader sid [] [] 1 [] 0 [] [] 0 in
  ch_capability (snd (eipc_header_from_json false (headerText h) h0)) = text "ai:chat".
Proof. vm_compute. reflexivity. Qed.
