(* ===== verification/EventMaps.v ===== *)
(** * The payloads with maps: FeatureStreamEvent, ToolRequestEvent and AuditEvent
      of src/core/events.go

    An [interface{}] with the dynamic types that [json.Unmarshal] puts into it:
    nil, bool, float64, string, slices and maps of such values.  A
    [map[string]interface{}] is the list of its entries in the order of their
    keys, which is the order [json.Marshal] writes them in.  The structs are
    instances of the codec interface and of its law, and what is read is
    written and read back, numbers as the float64 values they are.  The tool
    requests of the C SDK are read as the requests they are. *)

From Stdlib Require Import SpecFloat.
From S2P Require Import Prelude Time Float64 Utf8 Json JsonValid Frame Message Codec FloatText Fmt Events CMem CJson.
Local Open Scope string_scope.
Local Open Scope list_scope.
Local Open Scope Z_scope.

(** ** Values and maps *)

Inductive value :=
  | VNil
  | VBool (b : bool)
  | VNum (f : float64)
  | VStr (s : list byte)
  | VSlice (l : list value)
  | VMap (m : list (list byte * value)).

Definition goMap : Type := list (list byte * value).

(** [strings.Compare] below zero. *)
Fixpoint bytesLess (a b : list byte) : bool :=
  match a, b with
  | [], [] => false
  | [], _ :: _ => true
  | _ :: _, [] => false
  | x :: a', y :: b' => (b2z x <? b2z y) || ((b2z x =? b2z y) && bytesLess a' b')
  end.

Fixpoint mapSet (k : list byte) (v : value) (m : goMap) : goMap :=
  match m with
  | [] => [(k, v)]
  | (k', v') :: m' =>
      if bytesLess k k' then (k, v) :: m
      else if bytesLess k' k then (k', v') :: mapSet k v m'
      else (k, v) :: m'
  end.

Fixpoint mapGet (k : list byte) (m : goMap) : option value :=
  match m with
  | [] => None
  | (k', v) :: m' => if bool_decide (k' = k) then Some v else mapGet k m'
  end.

(** The entries of an object, put into a map one after the other. *)
Definition setAll (decode : json -> result value) : goMap -> list (list byte * json) -> result goMap :=
  fix go m ms :=
    match ms with
    | [] => Ok m
    | (k, j) :: ms' => v ← decode j; go (mapSet k v m) ms'
    end.

Definition eachOf {A B} (f : A -> result B) : list A -> result (list B) :=
  fix go l :=
    match l with
    | [] => Ok []
    | x :: l' => y ← f x; ys ← go l'; Ok (y :: ys)
    end.

(** The value that is read into an [interface{}]. *)
Fixpoint valueOf (j : json) : result value :=
  match j with
  | JNull => Ok VNil
  | JBool b => Ok (VBool b)
  | JNum t => match parseFloat t with Some f => Ok (VNum f) | None => Err errUnmarshalType end
  | JStr s => Ok (VStr s)
  | JArr l => vs ← eachOf valueOf l; Ok (VSlice vs)
  | JObj ms => m ← setAll valueOf [] ms; Ok (VMap m)
  end.

(** What is written for an [interface{}]. *)
Fixpoint valueJSON (v : value) : result json :=
  match v with
  | VNil => Ok JNull
  | VBool b => Ok (JBool b)
  | VNum f => floatJSON f
  | VStr s => Ok (JStr s)
  | VSlice l => js ← eachOf valueJSON l; Ok (JArr js)
  | VMap m => ms ← eachOf (fun kv => j ← valueJSON (snd kv); Ok (fst kv, j)) m; Ok (JObj ms)
  end.

(** A field that is a map: an object is put into the map that is there, null
    makes it nil. *)
Definition storeMap {T} (get : T -> option goMap) (set : option goMap -> T -> T) (j : json) (v : T) : result T :=
  match j with
  | JObj ms => m ← setAll valueOf (default [] (get v)) ms; Ok (set (Some m) v)
  | JNull => Ok (set None v)
  | _ => Err errUnmarshalType
  end.

Definition mapJSON (m : option goMap) : result json :=
  match m with None => Ok JNull | Some m => valueJSON (VMap m) end.

(** [omitempty] for a map: nil and empty ones are left out. *)
Definition omitMap (key : string) (m : option goMap) : result (list (list byte * json)) :=
  match m with
  | None | Some [] => Ok []
  | Some _ => j ← mapJSON m; Ok [(text key, j)]
  end.

(** ** The events *)

Record FeatureStreamEvent := MkFeatureStream { Features : option goMap }.

Definition featureStreamJSON (e : FeatureStreamEvent) : result json :=
  features ← mapJSON (Features e); Ok (JObj [(text "features", features)]).

Definition featureStreamFields : list (field FeatureStreamEvent) :=
  [MkField (text "features") (storeMap Features (fun m _ => MkFeatureStream m))].

#[global] Instance FeatureStreamEvent_codec : Codec FeatureStreamEvent :=
  {| Marshal e := j ← featureStreamJSON e; Ok (print j);
     Unmarshal data := unmarshalStruct featureStreamFields (MkFeatureStream None) data |}.

Record ToolRequestEvent := MkToolRequestEvent {
  Tool : string; Args : option goMap; Permission : string; AuditID : string }.

Definition toolRequestJSON (e : ToolRequestEvent) : result json :=
  args ← mapJSON (Args e);
  Ok (JObj ([(text "tool", strText (Tool e)); (text "args", args)] ++
            omitempty "permission" (Permission e) ++ omitempty "audit_id" (AuditID e))).

Definition toolRequestFields : list (field ToolRequestEvent) :=
  [MkField (text "tool") (storeString (fun s e => MkToolRequestEvent s (Args e) (Permission e) (AuditID e)));
   MkField (text "args") (storeMap Args (fun m e => MkToolRequestEvent (Tool e) m (Permission e) (AuditID e)));
   MkField (text "permission") (storeString (fun s e => MkToolRequestEvent (Tool e) (Args e) s (AuditID e)));
   MkField (text "audit_id") (storeString (fun s e => MkToolRequestEvent (Tool e) (Args e) (Permission e) s))].

Definition zeroToolRequest : ToolRequestEvent := MkToolRequestEvent "" None "" "".

#[global] Instance ToolRequestEvent_codec : Codec ToolRequestEvent :=
  {| Marshal e := j ← toolRequestJSON e; Ok (print j);
     Unmarshal data := unmarshalStruct toolRequestFields zeroToolRequest data |}.

Record AuditEvent := MkAuditEvent {
  ae_RequestID : string; Actor : string; ae_Action : string; ae_Target : string; ae_Decision : string;
  ae_Result : string; ae_Payload : option goMap }.

Definition auditEventJSON (e : AuditEvent) : result json :=
  payload ← omitMap "payload" (ae_Payload e);
  Ok (JObj ([(text "request_id", strText (ae_RequestID e)); (text "actor", strText (Actor e));
             (text "action", strText (ae_Action e)); (text "target", strText (ae_Target e));
             (text "decision", strText (ae_Decision e)); (text "result", strText (ae_Result e))] ++ payload)).

Definition auditEventFields : list (field AuditEvent) :=
  let field name set := MkField (text name) (storeString set) in
  [field "request_id" (fun s e => MkAuditEvent s (Actor e) (ae_Action e) (ae_Target e) (ae_Decision e) (ae_Result e) (ae_Payload e));
   field "actor" (fun s e => MkAuditEvent (ae_RequestID e) s (ae_Action e) (ae_Target e) (ae_Decision e) (ae_Result e) (ae_Payload e));
   field "action" (fun s e => MkAuditEvent (ae_RequestID e) (Actor e) s (ae_Target e) (ae_Decision e) (ae_Result e) (ae_Payload e));
   field "target" (fun s e => MkAuditEvent (ae_RequestID e) (Actor e) (ae_Action e) s (ae_Decision e) (ae_Result e) (ae_Payload e));
   field "decision" (fun s e => MkAuditEvent (ae_RequestID e) (Actor e) (ae_Action e) (ae_Target e) s (ae_Result e) (ae_Payload e));
   field "result" (fun s e => MkAuditEvent (ae_RequestID e) (Actor e) (ae_Action e) (ae_Target e) (ae_Decision e) s (ae_Payload e));
   MkField (text "payload") (storeMap ae_Payload
     (fun m e => MkAuditEvent (ae_RequestID e) (Actor e) (ae_Action e) (ae_Target e) (ae_Decision e) (ae_Result e) m))].

#[global] Instance AuditEvent_codec : Codec AuditEvent :=
  {| Marshal e := j ← auditEventJSON e; Ok (print j);
     Unmarshal data := unmarshalStruct auditEventFields (MkAuditEvent "" "" "" "" "" "" None) data |}.

(** ** The order of the keys *)

Lemma bytesLess_irrefl a : bytesLess a a = false.
Proof. induction a as [|x a IH]; [done|]. cbn [bytesLess]. by rewrite Z.ltb_irrefl, Z.eqb_refl, IH. Qed.

Lemma bytesLess_trans a : forall b c, bytesLess a b = true -> bytesLess b c = true -> bytesLess a c = true.
Proof.
  induction a as [|x a IH]; intros [|y b] [|z c]; cbn [bytesLess]; try done.
  rewrite !orb_true_iff, !andb_true_iff, !Z.ltb_lt, !Z.eqb_eq.
  intros [Hx|[Hx Ha]] [Hy|[Hy Hb]]; [left; lia..|]. right. split; [lia|]. by eapply IH.
Qed.

Lemma bytesLess_asym a b : bytesLess a b = true -> bytesLess b a = false.
Proof.
  intros H. destruct (bytesLess b a) eqn:E; [|done].
  pose proof (bytesLess_trans a b a H E) as Ha. by rewrite bytesLess_irrefl in Ha.
Qed.

Lemma bytesLess_total a : forall b, bytesLess a b = false -> bytesLess b a = false -> a = b.
Proof.
  induction a as [|x a IH]; intros [|y b]; cbn [bytesLess]; try done.
  rewrite !orb_false_iff, !andb_false_iff, !Z.ltb_ge, !Z.eqb_neq. intros [H1 H2] [H3 H4].
  assert (b2z x = b2z y) as E by lia. f_equal; [by apply b2z_inj|]. by apply IH; [destruct H2|destruct H4].
Qed.

(** Keys in strictly increasing order, behind [lo]. *)
Fixpoint ordered (lo : option (list byte)) (m : goMap) : bool :=
  match m with
  | [] => true
  | (k, _) :: m' => match lo with None => true | Some l => bytesLess l k end && ordered (Some k) m'
  end.

Lemma ordered_weaken l k m : bytesLess l k = true -> ordered (Some k) m = true -> ordered (Some l) m = true.
Proof.
  intros Hl. destruct m as [|[k' v] m]; [done|]. cbn [ordered]. rewrite !andb_true_iff.
  intros [Hk Hm]. split; [|done]. by eapply bytesLess_trans.
Qed.

Lemma mapSet_ordered k v m : forall lo,
  match lo with None => true | Some l => bytesLess l k end = true -> ordered lo m = true -> ordered lo (mapSet k v m) = true.
Proof.
  induction m as [|[k' v'] m IH]; intros lo Hlo; cbn [mapSet]; [intros _; cbn [ordered]; by rewrite Hlo|].
  cbn [ordered]. rewrite andb_true_iff. intros [Hk' Hm]. destruct (bytesLess k k') eqn:E1.
  - cbn [ordered]. by rewrite Hlo, E1, Hm.
  - destruct (bytesLess k' k) eqn:E2; cbn [ordered].
    + rewrite Hk'. by apply IH.
    + rewrite Hlo. by rewrite (bytesLess_total k k' E1 E2).
Qed.

(** An entry behind all others goes to the end. *)
Lemma mapSet_last k v m : forall lo, ordered lo (m ++ [(k, v)]) = true -> mapSet k v m = m ++ [(k, v)].
Proof.
  induction m as [|[k' v'] m IH]; intros lo; [done|]. cbn [mapSet app ordered]. rewrite andb_true_iff. intros [_ Hm].
  assert (bytesLess k' k = true) as Hk.
  { clear IH. revert k' Hm. induction m as [|[k2 v2] m IH2]; intros k' Hm; cbn [app ordered] in Hm.
    - by apply andb_true_iff in Hm as [? _].
    - apply andb_true_iff in Hm as [H1 H2]. by eapply bytesLess_trans, IH2. }
  rewrite Hk, (bytesLess_asym _ _ Hk). f_equal. by eapply IH.
Qed.

Lemma mapGet_set k v m k' : mapGet k' (mapSet k v m) = if bool_decide (k = k') then Some v else mapGet k' m.
Proof.
  induction m as [|[k2 v2] m IH]; cbn [mapSet mapGet]; [done|].
  destruct (bytesLess k k2) eqn:E1; [done|]. destruct (bytesLess k2 k) eqn:E2; cbn [mapGet].
  - rewrite IH. destruct (decide (k2 = k')) as [<-|Hk]; [|by rewrite (bool_decide_eq_false_2 (k2 = k'))].
    rewrite (bool_decide_eq_true_2 (k2 = k2)) by done. rewrite bool_decide_eq_false_2; [done|].
    intros ->. by rewrite bytesLess_irrefl in E2.
  - rewrite (bytesLess_total k k2 E1 E2). by destruct (bool_decide (k2 = k')).
Qed.

(** ** The values that are written and read *)

(** Values at nesting depth [d]: finite numbers, UTF-8 strings, maps in order. *)
Fixpoint valueOk (d : Z) (v : value) : Prop :=
  match v with
  | VNil | VBool _ => d <= maxNestingDepth
  | VNum f => d <= maxNestingDepth /\ finite64 f
  | VStr s => d <= maxNestingDepth /\ validUTF8 s = true
  | VSlice l => d < maxNestingDepth /\ foldr (fun v P => valueOk (d + 1) v /\ P) True l
  | VMap m => d < maxNestingDepth /\ ordered None m = true /\
              foldr (fun kv P => (validUTF8 (fst kv) = true /\ valueOk (d + 1) (snd kv)) /\ P) True m
  end.

Definition entryOk (d : Z) (kv : list byte * value) : Prop := validUTF8 (fst kv) = true /\ valueOk d (snd kv).

(** Maps at nesting depth [d]. *)
Definition mapOk (d : Z) (m : goMap) : Prop := ordered None m = true /\ Forall (entryOk (d + 1)) m.

Lemma foldr_Forall {A} (P : A -> Prop) l : foldr (fun x Q => P x /\ Q) True l <-> Forall P l.
Proof. induction l as [|x l IH]; [by split|]. cbn [foldr]. rewrite Forall_cons, IH. done. Qed.

Lemma valueOk_slice d l : valueOk d (VSlice l) <-> d < maxNestingDepth /\ Forall (valueOk (d + 1)) l.
Proof. cbn [valueOk]. by rewrite foldr_Forall. Qed.

Lemma valueOk_map d m : valueOk d (VMap m) <-> d < maxNestingDepth /\ mapOk d m.
Proof. cbn [valueOk]. by rewrite (foldr_Forall (entryOk (d + 1))). Qed.

(** Induction over nested JSON and over nested values. *)
Lemma json_nested (P : json -> Prop) :
  P JNull -> (forall b, P (JBool b)) -> (forall t, P (JNum t)) -> (forall s, P (JStr s)) ->
  (forall l, Forall P l -> P (JArr l)) -> (forall m, Forall (fun kv => P (snd kv)) m -> P (JObj m)) ->
  forall j, P j.
Proof.
  intros H1 H2 H3 H4 H5 H6. fix IH 1. intros [|b|t|s|l|m]; [done|by apply H2|by apply H3|by apply H4| |].
  - apply H5. induction l; constructor; [apply IH|done].
  - apply H6. induction m as [|[k j] m IHm]; constructor; [apply IH|done].
Qed.

Lemma value_nested (P : value -> Prop) :
  P VNil -> (forall b, P (VBool b)) -> (forall f, P (VNum f)) -> (forall s, P (VStr s)) ->
  (forall l, Forall P l -> P (VSlice l)) -> (forall m, Forall (fun kv => P (snd kv)) m -> P (VMap m)) ->
  forall v, P v.
Proof.
  intros H1 H2 H3 H4 H5 H6. fix IH 1. intros [|b|f|s|l|m]; [done|by apply H2|by apply H3|by apply H4| |].
  - apply H5. induction l; constructor; [apply IH|done].
  - apply H6. induction m as [|[k v] m IHm]; constructor; [apply IH|done].
Qed.

(** A value that is written and read back, at depth [d]. *)
Definition written (d : Z) (v : value) : Prop :=
  exists j, valueJSON v = Ok j /\ wellFormed d j /\ valueOf j = Ok v.

Lemma written_slice d l :
  Forall (written d) l ->
  exists js, eachOf valueJSON l = Ok js /\ Forall (wellFormed d) js /\ eachOf valueOf js = Ok l.
Proof.
  induction 1 as [|v l (j & H1 & H2 & H3) _ (js & E1 & E2 & E3)]; [by exists []|]. exists (j :: js).
  cbn [eachOf]. rewrite H1. cbn [mbind result_bind]. rewrite E1. split; [done|]. split; [by apply Forall_cons|].
  rewrite H3. cbn [mbind result_bind]. by rewrite E3.
Qed.

Lemma ordered_prefix l r : forall lo, ordered lo (l ++ r) = true -> ordered lo l = true.
Proof.
  induction l as [|[k v] l IH]; [done|]. intros lo. cbn [app ordered]. rewrite !andb_true_iff. intros [? ?]. split; [done|]. by apply IH.
Qed.

Lemma written_map d m : forall m0,
  Forall (fun kv => validUTF8 (fst kv) = true /\ written d (snd kv)) m -> ordered None (m0 ++ m) = true ->
  exists ms, eachOf (fun kv => j ← valueJSON (snd kv); Ok (fst kv, j)) m = Ok ms /\
    Forall (fun kv => validUTF8 (fst kv) = true /\ wellFormed d (snd kv)) ms /\ setAll valueOf m0 ms = Ok (m0 ++ m).
Proof.
  induction m as [|[k v] m IH]; intros m0 Hm Ho; [exists []; rewrite app_nil_r; by split_and!; [|apply Forall_nil_2|]|].
  apply Forall_cons in Hm as [[Hk (j & H1 & H2 & H3)] Hm]. cbn [fst snd] in *.
  assert (ordered None ((m0 ++ [(k, v)]) ++ m) = true) as Ho' by (by rewrite <-app_assoc).
  destruct (IH _ Hm Ho') as (ms & E1 & E2 & E3). exists ((k, j) :: ms). cbn [eachOf fst snd]. rewrite H1. cbn [mbind result_bind].
  rewrite E1. split; [done|]. split; [by apply Forall_cons|]. cbn [setAll]. rewrite H3. cbn [mbind result_bind].
  rewrite (mapSet_last k v m0 None) by by eapply ordered_prefix. by rewrite E3, <-app_assoc.
Qed.

(** What holds finite numbers and valid strings is written and read back. *)
Lemma value_written v : forall d, valueOk d v -> written d v.
Proof.
  induction v as [|b|f|s|l IH|m IH] using value_nested; intros d; unfold written.
  - intros H. exists JNull. split_and!; [done|by apply wellFormed_leaf|done].
  - intros H. exists (JBool b). split_and!; [done|by apply wellFormed_leaf|done].
  - intros [H (t & H1 & H2 & H3)%floatJSON_ok]. exists (JNum t). cbn [valueJSON valueOf]. rewrite H3.
    split_and!; [done|by apply wellFormed_leaf|done].
  - intros [H Hs]. exists (JStr s). split_and!; [done|by apply wellFormed_leaf|done].
  - intros [Hd Hl]%valueOk_slice. destruct (written_slice (d + 1) l) as (js & E1 & E2 & E3).
    { rewrite Forall_forall in *. intros v Hv. by apply IH, Hl. }
    exists (JArr js). cbn [valueJSON valueOf]. rewrite E1, E3. split_and!; [done|by apply wellFormed_arr|done].
  - intros [Hd [Ho Hm]]%valueOk_map. destruct (written_map (d + 1) m []) as (ms & E1 & E2 & E3); [|done|].
    { rewrite Forall_forall in *. intros kv Hin. split; [by apply Hm|]. by apply IH, Hm. }
    exists (JObj ms). cbn [valueJSON valueOf]. rewrite E1, E3. split_and!; [done|by apply wellFormed_obj|done].
Qed.

Lemma mapSet_Forall (P : list byte * value -> Prop) k v m : P (k, v) -> Forall P m -> Forall P (mapSet k v m).
Proof.
  intros Hk. induction 1 as [|[k' v'] m Hk' Hm IH]; cbn [mapSet]; [by apply Forall_singleton|].
  destruct (bytesLess k k'); [by repeat apply Forall_cons_2|]. by destruct (bytesLess k' k); apply Forall_cons_2.
Qed.

Lemma mapSet_ok d k v m : mapOk d m -> entryOk (d + 1) (k, v) -> mapOk d (mapSet k v m).
Proof. intros [Ho Hm] Hk. split; [by apply mapSet_ordered|by apply mapSet_Forall]. Qed.

Lemma setAll_ok d ms : forall m m',
  Forall (fun kv => forall v, wellFormed (d + 1) (snd kv) -> valueOf (snd kv) = Ok v -> valueOk (d + 1) v) ms ->
  Forall (fun kv => validUTF8 (fst kv) = true /\ wellFormed (d + 1) (snd kv)) ms ->
  mapOk d m -> setAll valueOf m ms = Ok m' -> mapOk d m'.
Proof.
  induction ms as [|[k j] ms IH]; intros m m' Hv Hw Hm; cbn [setAll]; [by intros [= <-]|].
  apply Forall_cons in Hv as [Hj Hv]. apply Forall_cons in Hw as [[Hk Hwj] Hw]. cbn [fst snd] in *.
  destruct (valueOf j) as [v|] eqn:E; [|done]. cbn [mbind result_bind]. apply IH; [done..|].
  apply mapSet_ok; [done|]. split; [done|by apply Hj].
Qed.

Lemma wellFormed_members d ms :
  wellFormed d (JObj ms) -> d < maxNestingDepth /\
  Forall (fun kv => validUTF8 (fst kv) = true /\ wellFormed (d + 1) (snd kv)) ms.
Proof.
  intros [Hc Hd]. cbn [canonical jdepth] in *. pose proof (foldr_max_nonneg (map (fun kv => jdepth kv.2) ms)).
  split; [lia|]. apply members_depth in Hd. rewrite Forall_forall in *. intros kv Hin. rewrite forallb_forall in Hc.
  pose proof (Hc kv (proj1 (list_elem_of_In _ _) Hin)) as [Hk Hj]%andb_true_iff. split; [done|]. split; [done|by apply Hd].
Qed.

Lemma wellFormed_elements d l : wellFormed d (JArr l) -> d < maxNestingDepth /\ Forall (wellFormed (d + 1)) l.
Proof.
  intros [Hc Hd]. cbn [canonical jdepth] in *. pose proof (foldr_max_nonneg (map jdepth l)).
  split; [lia|]. apply elements_depth in Hd. rewrite Forall_forall in *. intros j Hin. rewrite forallb_forall in Hc.
  split; [by apply Hc, list_elem_of_In|by apply Hd].
Qed.

Lemma wellFormed_depth d j : wellFormed d j -> d <= maxNestingDepth.
Proof.
  intros [_ H]. assert (0 <= jdepth j); [|lia].
  destruct j as [| | | |l|ms]; cbn [jdepth]; try lia; [pose proof (foldr_max_nonneg (map jdepth l)); lia|].
  pose proof (foldr_max_nonneg (map (fun kv => jdepth kv.2) ms)). lia.
Qed.

(** What is read into an [interface{}] holds finite numbers, valid strings and
    maps in order, at every level. *)
Lemma valueOf_ok j : forall d v, wellFormed d j -> valueOf j = Ok v -> valueOk d v.
Proof.
  induction j as [|b|t|s|l IH|m IH] using json_nested; intros d v Hw; pose proof (wellFormed_depth d _ Hw); cbn [valueOf].
  - by intros [= <-].
  - by intros [= <-].
  - destruct (parseFloat t) as [f|] eqn:E; [|done]. intros [= <-]. split; [done|]. by eapply parseFloat_finite64.
  - intros [= <-]. split; [done|apply Hw].
  - apply wellFormed_elements in Hw as [Hd Hw]. destruct (eachOf valueOf l) as [vs|] eqn:E; [|done]. intros [= <-].
    apply valueOk_slice. split; [done|].
    revert vs E. induction IH as [|j l Hj _ IHl]; intros vs; cbn [eachOf]; [intros [= <-]; by apply Forall_nil_2|].
    apply Forall_cons in Hw as [Hwj Hw]. destruct (valueOf j) as [v|] eqn:Ev; [|done]. cbn [mbind result_bind].
    destruct (eachOf valueOf l) as [vs'|]; [|done]. intros [= <-]. apply Forall_cons. split; [by apply Hj|by apply IHl].
  - apply wellFormed_members in Hw as [Hd Hw]. destruct (setAll valueOf [] m) as [m'|] eqn:E; [|done]. intros [= <-].
    apply valueOk_map. split; [done|]. eapply (setAll_ok d); [|done| |exact E]; [|by split; [|apply Forall_nil_2]].
    eapply Forall_impl; [exact IH|]. intros ? Hi v. apply Hi.
Qed.

(** ** The codec law of the events *)

(** A map field of a struct: nil or a map at depth one. *)
Definition optMapOk (m : option goMap) : Prop := match m with None => True | Some m => mapOk 1 m end.

Definition memberOk (kv : list byte * json) : Prop := validUTF8 (fst kv) = true /\ wellFormed 1 (snd kv).

Lemma unmarshalStruct_read {T} (fields : list (field T)) zero ms v :
  Forall memberOk ms -> storeMembers fields ms zero = Ok v -> unmarshalStruct fields zero (print (JObj ms)) = Ok v.
Proof.
  intros Hm Hs. destruct (wellFormed_obj 0 ms) as [Hc Hd]; [done|done|].
  unfold unmarshalStruct. by rewrite parseJSON_print.
Qed.

Lemma memberOk_str key s : validUTF8 (text key) = true -> validString s = true -> memberOk (text key, strText s).
Proof. intros Hk Hs. split; [done|]. by apply wellFormed_leaf. Qed.

Lemma memberOk_omitempty key s :
  validUTF8 (text key) = true -> validString s = true -> Forall memberOk (omitempty key s).
Proof.
  intros Hk Hs. unfold omitempty. destruct (String.eqb s ""); [by apply Forall_nil_2|].
  by apply Forall_singleton, memberOk_str.
Qed.

(** A map is written, and read into a nil field as it is. *)
Lemma mapJSON_ok m :
  optMapOk m -> exists j, mapJSON m = Ok j /\ wellFormed 1 j /\
    forall T (get : T -> option goMap) set v, get v = None -> storeMap get set j v = Ok (set m v).
Proof.
  intros Hm. destruct m as [m|]; [|exists JNull; split_and!; [done|by apply wellFormed_leaf|done]].
  destruct (value_written (VMap m) 1) as (j & H1 & H2 & H3); [by apply valueOk_map|].
  exists j. split_and!; [done..|]. intros T get set v Hv. cbn [valueJSON] in H1.
  destruct (eachOf _ m) as [ms|]; [|done]. injection H1 as <-. cbn [valueOf storeMap] in *. rewrite Hv. cbn [default].
  destruct (setAll valueOf [] ms) as [m'|]; [|done]. by injection H3 as ->.
Qed.

Lemma memberOk_value key j : validUTF8 (text key) = true -> wellFormed 1 j -> memberOk (text key, j).
Proof. by split. Qed.

#[export] Hint Resolve memberOk_str memberOk_value memberOk_omitempty : events.

Ltac map_store_one :=
  erewrite storeMembers_cons;
    [|reflexivity|cbn [Codec.store]; first [apply storeString_str | match goal with H : forall T, _ |- _ => apply H; reflexivity end]].

Ltac map_event_law :=
  apply unmarshalStruct_read;
  [ repeat first [apply Forall_nil_2 | apply Forall_app; split | apply Forall_cons_2; [by auto with events|] | by auto with events]
  | unfold omitempty;
    repeat match goal with
    | |- context [String.eqb ?s ""] => destruct (String.eqb_spec s "") as [?|?]
    end; cbn [app]; repeat map_store_one; simpl in *; subst; done ].

#[global] Program Instance FeatureStreamEvent_law : CodecLaw FeatureStreamEvent :=
  {| marshals e := optMapOk (Features e) |}.
Next Obligation.
  intros [m] (j & Hj & ? & ?)%mapJSON_ok. cbn [Features] in *. eexists. cbn [Marshal FeatureStreamEvent_codec].
  unfold featureStreamJSON. cbn [Features]. rewrite Hj. split; [done|]. map_event_law.
Qed.

#[global] Program Instance ToolRequestEvent_law : CodecLaw ToolRequestEvent :=
  {| marshals e := validString (Tool e) = true /\ optMapOk (Args e) /\
                   validString (Permission e) = true /\ validString (AuditID e) = true |}.
Next Obligation.
  intros [t a p i] (? & (j & Hj & ? & ?)%mapJSON_ok & ? & ?). cbn [Args] in *. eexists. cbn [Marshal ToolRequestEvent_codec].
  unfold toolRequestJSON. cbn [Args]. rewrite Hj. split; [done|]. map_event_law.
Qed.

(** An empty payload map is left out, and read back as nil. *)
Definition omitted (m : option goMap) : option goMap := match m with Some [] => None | _ => m end.

Definition auditEvent_ok (e : AuditEvent) : Prop :=
  validString (ae_RequestID e) = true /\ validString (Actor e) = true /\ validString (ae_Action e) = true /\
  validString (ae_Target e) = true /\ validString (ae_Decision e) = true /\ validString (ae_Result e) = true /\
  optMapOk (ae_Payload e).

Definition withPayload (e : AuditEvent) (m : option goMap) : AuditEvent :=
  MkAuditEvent (ae_RequestID e) (Actor e) (ae_Action e) (ae_Target e) (ae_Decision e) (ae_Result e) m.

Lemma marshal_auditEvent e :
  auditEvent_ok e -> exists bs, Marshal e = Ok bs /\ Unmarshal bs = Ok (withPayload e (omitted (ae_Payload e))).
Proof.
  destruct e as [r a c t d s p]. intros (? & ? & ? & ? & ? & ? & Hp). cbn in Hp.
  destruct (mapJSON_ok p Hp) as (j & Hj & Hw & Hs).
  assert (exists ms, omitMap "payload" p = Ok ms /\ Forall memberOk ms /\
    (ms = [] /\ omitted p = None \/ ms = [(text "payload", j)] /\ omitted p = p)) as (ms & Hms & Hok & Hcase).
  { destruct p as [[|kv m]|].
    - exists []. split_and!; [done|by apply Forall_nil_2|by left].
    - exists [(text "payload", j)]. cbn [omitMap]. rewrite Hj. split_and!; [done| |by right]. by apply Forall_singleton, memberOk_value.
    - exists []. split_and!; [done|by apply Forall_nil_2|by left]. }
  eexists. cbn [Marshal Unmarshal AuditEvent_codec]. unfold auditEventJSON. cbn [ae_Payload]. rewrite Hms. split; [done|].
  cbn [ae_RequestID Actor ae_Action ae_Target ae_Decision ae_Result ae_Payload]. apply unmarshalStruct_read.
  - apply Forall_app. split; [|done]. repeat (apply Forall_cons_2; [by auto with events|]). apply Forall_nil_2.
  - destruct Hcase as [[-> ->]|[-> ->]]; cbn [app];
      repeat (map_store_one; cbn [ae_RequestID Actor ae_Action ae_Target ae_Decision ae_Result ae_Payload]); done.
Qed.

#[global] Program Instance AuditEvent_law : CodecLaw AuditEvent :=
  {| marshals e := auditEvent_ok e /\ ae_Payload e <> Some [] |}.
Next Obligation.
  intros e [He Hne]. destruct (marshal_auditEvent e He) as (bs & Hm & Hu). exists bs. split; [done|]. rewrite Hu.
  destruct e as [r a c t d s [[|kv m]|]]; done.
Qed.

(** ** What was read can be written and read again *)

Lemma unmarshalStruct_closed {T} (P : T -> Prop) (fields : list (field T)) zero data v :
  Forall (fun f => forall j v v', wellFormed 1 j -> Codec.store f j v = Ok v' -> P v -> P v') fields ->
  P zero -> unmarshalStruct fields zero data = Ok v -> P v.
Proof.
  intros Hf Hz. unfold unmarshalStruct. destruct (parseJSON data) as [j|] eqn:E; [|done].
  apply parseJSON_wellFormed in E. destruct j as [| | | | |ms]; try done; [by intros [= <-]|].
  destruct (wellFormed_members 0 ms E) as [_ Hm]. clear E. revert zero Hz.
  induction Hm as [|[key j] ms [_ Hj] _ IH]; intros zero Hz; cbn [storeMembers]; [by intros [= <-]|].
  destruct (lookupField fields key) as [f|] eqn:Ef; [|by apply IH].
  destruct (Codec.store f j zero) as [v1|] eqn:Es; [|done]. cbn [mbind result_bind]. apply IH.
  rewrite Forall_forall in Hf. by eapply (Hf f); [eapply lookupField_elem|..].
Qed.

Lemma wellFormed_string d s : wellFormed d (JStr s) -> validString (string_of_bytes s) = true.
Proof. intros [Hs _]. unfold validString. by rewrite String.list_byte_of_string_of_list_byte. Qed.

Lemma storeMap_ok {T} (get : T -> option goMap) set j (v v' : T) :
  wellFormed 1 j -> optMapOk (get v) -> storeMap get set j v = Ok v' -> exists m, v' = set m v /\ optMapOk m.
Proof.
  intros Hj Hv. unfold storeMap. destruct j as [| | | | |ms]; try done; [intros [= <-]; by exists None|].
  destruct (setAll valueOf _ ms) as [m|] eqn:E; [|done]. intros [= <-]. exists (Some m). split; [done|].
  apply wellFormed_members in Hj as [_ Hj]. eapply (setAll_ok 1); [| |  |exact E]; [|done|].
  - apply Forall_forall. intros kv _ w. apply valueOf_ok.
  - destruct (get v); [done|]. split; [done|by apply Forall_nil_2].
Qed.

Lemma parseInt64_range t z : parseInt64 t = Some z -> in_i64 z.
Proof.
  unfold parseInt64. destruct (match t with c :: r => _ | [] => _ end) as [neg ds].
  destruct (_ && _) eqn:E; [|done]. intros [= <-]. breflect. unfold in_i64. lia.
Qed.

Lemma stringsOf_valid l : forall ss,
  Forall (wellFormed 2) l -> stringsOf l = Ok ss -> Forall (fun s => validString s = true) ss.
Proof.
  induction l as [|j l IH]; intros ss Hl; cbn [stringsOf]; [intros [= <-]; by apply Forall_nil_2|].
  apply Forall_cons in Hl as [Hj Hl]. destruct j; try done; destruct (stringsOf l) as [rest|]; try done;
    intros [= <-]; (apply Forall_cons; split; [|by apply IH]); [done|by eapply wellFormed_string].
Qed.

Create HintDb closed.
#[export] Hint Resolve wellFormed_string parseFloat_finite64 parseInt64_range : closed.

(** One field of an event, by the kind of the value. *)
Ltac field_closed :=
  intros j ? ? Hj Hs Hv; cbn [Codec.store] in Hs; simpl in Hv;
  first
    [ eapply storeMap_ok in Hs as (? & -> & ?); [|done|tauto]; simpl in *; tauto
    | destruct j; cbn [storeString storeFloat storeInt storeBool storeStrings] in Hs; try discriminate Hs;
      repeat (case_match; try discriminate Hs); simplify_eq; simpl in *;
      repeat match goal with H : _ /\ _ |- _ => destruct H end; split_and?; eauto with closed ].

Ltac fields_closed :=
  intros data e; apply unmarshalStruct_closed;
  [repeat (apply Forall_cons_2; [field_closed|]); apply Forall_nil_2 | simpl; split_and?; done].

(** Whatever bytes are read as a [T], the value is written as bytes that are
    read as the same value. *)
Definition stable (T : Type) `{Codec T} : Prop :=
  forall data e, Unmarshal data = Ok e -> exists bs, Marshal e = Ok bs /\ Unmarshal bs = Ok e.

Lemma closed_stable (T : Type) `{CodecLaw T} : (forall data e, Unmarshal data = Ok e -> marshals e) -> stable T.
Proof. intros Hc data e He. by eapply unmarshal_marshal, Hc. Qed.

Lemma toolRequest_closed data (e : ToolRequestEvent) : Unmarshal data = Ok e -> marshals e.
Proof. revert data e. fields_closed. Qed.

Lemma featureStream_closed data (e : FeatureStreamEvent) : Unmarshal data = Ok e -> marshals e.
Proof. revert data e. fields_closed. Qed.

Lemma intent_closed data (e : IntentEvent) : Unmarshal data = Ok e -> marshals e.
Proof. revert data e. fields_closed. Qed.

Lemma ack_closed data (e : AckEvent) : Unmarshal data = Ok e -> marshals e.
Proof. revert data e. fields_closed. Qed.

Lemma policyResult_closed data (e : PolicyResultEvent) : Unmarshal data = Ok e -> marshals e.
Proof. revert data e. fields_closed. Qed.

Lemma heartbeat_closed data (e : HeartbeatEvent) : Unmarshal data = Ok e -> marshals e.
Proof. revert data e. fields_closed. Qed.

Lemma chatRequest_closed data (e : ChatRequestEvent) : Unmarshal data = Ok e -> marshals e.
Proof. revert data e. fields_closed. Qed.

Lemma chatResponse_closed data (e : ChatResponseEvent) : Unmarshal data = Ok e -> marshals e.
Proof. revert data e. fields_closed. Qed.

Lemma completeRequest_closed data (e : CompleteRequestEvent) : Unmarshal data = Ok e -> marshals e.
Proof. revert data e. fields_closed. Qed.

Lemma completeResponse_closed data (e : CompleteResponseEvent) : Unmarshal data = Ok e -> marshals e.
Proof. revert data e. fields_closed. Qed.

Lemma auditEvent_closed data (e : AuditEvent) : Unmarshal data = Ok e -> auditEvent_ok e.
Proof.
  apply (unmarshalStruct_closed auditEvent_ok); [|by split_and!]. unfold auditEventFields, auditEvent_ok. cbv zeta.
  repeat (apply Forall_cons_2; [field_closed|]). apply Forall_nil_2.
Qed.

Lemma uint_range t bits : forallb isDigit t && (atoi t <? 2 ^ bits) = true -> 0 <= atoi t < 2 ^ bits.
Proof. intros [Hd Hb]%andb_true_iff. apply atoi_nonneg in Hd. breflect. lia. Qed.

Lemma header_closed data (h : MessageHeader) : Unmarshal data = Ok h -> marshals h.
Proof.
  apply (unmarshalStruct_closed header_ok); [|by split_and!]. unfold headerFields, header_ok.
  repeat apply Forall_cons_2; try apply Forall_nil_2; intros [| |t|s| |] v v' Hj Hs Hv;
    cbn [Codec.store storeString storeUint] in Hs; try discriminate Hs;
    try (apply wellFormed_string in Hj; injection Hs as <-; simpl; tauto); try (injection Hs as <-; exact Hv).
  all: destruct (_ && _) eqn:E; [apply uint_range in E|discriminate Hs]; injection Hs as <-;
    unfold in_u8, in_u64 in *; cbn [hServiceID hSessionID hRequestID hSequence hTimestamp hPriority hCapability hRoute hPayloadFormat]; tauto.
Qed.

(** C23: Reading an event loses nothing that writing keeps: whatever bytes are
    accepted as an event or as a header, with any escapes, numbers in any
    notation, duplicate or unknown members, nested maps or bytes that are not
    UTF-8, the event is written as bytes that are read as the same event.
    Numbers are float64 values, rounded when they are read and written as the
    shortest decimal that reads back. An audit event is read as the same event,
    but for an empty payload map, which is left out and read back as nil. *)
Theorem events_stable :
  stable IntentEvent /\ stable FeatureStreamEvent /\ stable ToolRequestEvent /\ stable AckEvent /\
  stable PolicyResultEvent /\ stable HeartbeatEvent /\ stable ChatRequestEvent /\ stable ChatResponseEvent /\
  stable CompleteRequestEvent /\ stable CompleteResponseEvent /\ stable MessageHeader /\
  forall data (e : AuditEvent), Unmarshal data = Ok e ->
    exists bs, Marshal e = Ok bs /\ Unmarshal bs = Ok (withPayload e (omitted (ae_Payload e))).
Proof.
  split_and!; try first
    [ exact (closed_stable _ intent_closed) | exact (closed_stable _ featureStream_closed)
    | exact (closed_stable _ toolRequest_closed) | exact (closed_stable _ ack_closed)
    | exact (closed_stable _ policyResult_closed) | exact (closed_stable _ heartbeat_closed)
    | exact (closed_stable _ chatRequest_closed) | exact (closed_stable _ chatResponse_closed)
    | exact (closed_stable _ completeRequest_closed) | exact (closed_stable _ completeResponse_closed)
    | exact (closed_stable _ header_closed) ].
  intros data e He%auditEvent_closed. by apply marshal_auditEvent.
Qed.

(** ** Tool requests of the C SDK *)

(** Plain strings that fit the arrays of the structs. *)
Definition plainArg (a : eipc_kv_t) : Prop :=
  plain (kv_key a) /\ plain (kv_value a) /\ zlen (kv_key a) < 64 /\ zlen (kv_value a) < 256.

Definition plainRequest (req : eipc_tool_request_t) : Prop :=
  plain (tr_tool req) /\ plain (tr_permission req) /\ Forall plainArg (argsOf req).

Definition argEntry (a : eipc_kv_t) : list byte * json := (kv_key a, JStr (kv_value a)).

(** The value of the last argument with a key. *)
Definition lastArg (k : list byte) (args : list eipc_kv_t) : option value :=
  foldl (fun v a => if bool_decide (kv_key a = k) then Some (VStr (kv_value a)) else v) None args.

Definition argMap (args : list eipc_kv_t) : goMap :=
  foldl (fun m a => mapSet (kv_key a) (VStr (kv_value a)) m) [] args.

Definition requestJSON (req : eipc_tool_request_t) : json :=
  JObj [(text "tool", JStr (tr_tool req)); (text "args", JObj (argEntry <$> argsOf req));
        (text "permission", JStr (tr_permission req))].

Lemma argText_plain a : plainArg a -> argText a = quote (kv_key a) ++ z2b 58 :: print (JStr (kv_value a)).
Proof.
  intros (Hk & Hv & Hlk & Hlv). unfold argText. rewrite !json_escape_plain by (done || lia).
  cbn [print]. by rewrite !quote_plain.
Qed.

Lemma args_text args : Forall plainArg args -> object (argText <$> args) = print (JObj (argEntry <$> args)).
Proof.
  intros Ha. rewrite print_obj. f_equal. induction Ha as [|a args Ha _ IH]; [done|].
  rewrite !fmap_cons, argText_plain by done. cbn [map]. by rewrite IH.
Qed.

Lemma request_text req :
  plainRequest req ->
  object [strMember "tool" (tr_tool req); quoted (text "args") ++ z2b 58 :: object (argText <$> argsOf req);
          strMember "permission" (tr_permission req)] = print (requestJSON req).
Proof.
  intros (Ht & Hp & Ha). unfold requestJSON. rewrite (print_obj [_; _; _]). cbn [map fst snd]. rewrite args_text by done.
  rewrite (str_member "tool"), (str_member "permission") by done. by rewrite (quote_plain (text "args")).
Qed.

Lemma request_size tool args permission :
  zlen (object [strMember "tool" tool; quoted (text "args") ++ z2b 58 :: args; strMember "permission" permission]) =
  zlen tool + zlen args + zlen permission + 35.
Proof.
  unfold object, strMember, quoted. cbn [commaSep]. repeat first [rewrite zlen_app | rewrite zlen_cons].
  change (zlen (@nil byte)) with 0. change (zlen (text "tool")) with 4. change (zlen (text "args")) with 4.
  change (zlen (text "permission")) with 10. lia.
Qed.

Lemma setAll_args args : forall m,
  setAll valueOf m (argEntry <$> args) = Ok (foldl (fun m a => mapSet (kv_key a) (VStr (kv_value a)) m) m args).
Proof. induction args as [|a args IH]; intros m; [done|]. rewrite fmap_cons. cbn [setAll argEntry foldl]. apply IH. Qed.

Lemma argMap_lookup args k : mapGet k (argMap args) = lastArg k args.
Proof.
  unfold argMap, lastArg. change None with (mapGet k []). generalize (@nil (list byte * value)).
  induction args as [|a args IH]; intros m; [done|]. cbn [foldl]. by rewrite IH, mapGet_set.
Qed.

Lemma request_read req :
  plainRequest req ->
  Unmarshal (print (requestJSON req)) =
    Ok (MkToolRequestEvent (string_of_bytes (tr_tool req)) (Some (argMap (argsOf req))) (string_of_bytes (tr_permission req)) "").
Proof.
  intros (Ht & Hp & Ha). cbn [Unmarshal ToolRequestEvent_codec]. apply unmarshalStruct_read.
  - assert (forall d s, plain s -> d <= maxNestingDepth -> wellFormed d (JStr s)) as Hs.
    { intros d s Hs Hd. apply wellFormed_leaf; [by apply plain_valid|done..]. }
    repeat apply Forall_cons_2; [..|apply Forall_nil_2]; (split; [done|]); [by apply Hs| |by apply Hs].
    apply wellFormed_obj; [done|]. apply Forall_fmap. eapply Forall_impl; [exact Ha|].
    intros a (Hk & Hv & _). split; [by apply plain_valid|by apply Hs].
  - cbn [storeMembers]. unfold lookupField. simpl. by rewrite setAll_args.
Qed.

(** C22: Tool requests cross from C to Go: a request of plain strings whose
    arguments and text fit the buffers is rendered by [eipc_tool_request_to_json]
    without fault, and Go reads the text as the [ToolRequestEvent] with the tool
    and the permission of the request and, under every key, the value of its
    last argument with that key. *)
Theorem tool_request_crosses (stack : list byte) (req : eipc_tool_request_t) (buf_size : Z) :
  zlen stack = ARGS_JSON_SIZE -> plainRequest req ->
  zlen (object (argText <$> argsOf req)) < ARGS_JSON_SIZE ->
  zlen (tr_tool req) + zlen (object (argText <$> argsOf req)) + zlen (tr_permission req) + 35 < buf_size ->
  exists bs args, eipc_tool_request_to_json false stack req buf_size = Some (EIPC_OK, bs) /\
    Unmarshal bs = Ok (MkToolRequestEvent (string_of_bytes (tr_tool req)) (Some args) (string_of_bytes (tr_permission req)) "") /\
    forall k, mapGet k args = lastArg k (argsOf req).
Proof.
  intros Hs Hr Hlen Hsize. exists (print (requestJSON req)), (argMap (argsOf req)). split_and!.
  - rewrite tool_request_text; [|done|].
    + rewrite (proj2 (Z.eqb_neq _ _)), (proj2 (Z.ltb_ge _ _)) by lia. rewrite emit_fits by (by rewrite request_size). by rewrite request_text.
    + destruct Hr as (_ & _ & Ha). eapply Forall_impl; [exact Ha|]. intros a (Hk & Hv & _). split; by apply plain_nonul.
  - by apply request_read.
  - apply argMap_lookup.
Qed.

Definition sampleToolRequest : eipc_tool_request_t :=
  MkToolRequest (text "ui.scroll") [MkKV (text "to") (text "top"); MkKV (text "by") (text "3"); MkKV (text "to") (text "end")] 3
    (text "ui:control").

Lemma tool_request_crosses_witness :
  exists bs args, eipc_tool_request_to_json false (replicate 2048 (z2b 0)) sampleToolRequest 4096 = Some (EIPC_OK, bs) /\
    Unmarshal bs = Ok (MkToolRequestEvent "ui.scroll" (Some args) "ui:control" "") /\
    mapGet (text "to") args = Some (VStr (text "end")).
Proof.
  destruct (tool_request_crosses (replicate 2048 (z2b 0)) sampleToolRequest 4096) as (bs & args & H1 & H2 & H3).
  - vm_compute. reflexivity.
  - split; [vm_compute; reflexivity|]. split; [vm_compute; reflexivity|]. repeat constructor.
  - vm_compute. reflexivity.
  - vm_compute. reflexivity.
  - exists bs, args. split; [exact H1|]. split; [exact H2|]. rewrite H3. vm_compute. reflexivity.
Defined.
