(* ===== verification/CFloat.v ===== *)
(** * Floating point of the C SDK: what eipc_json.c uses of libc

    [printf]'s [%.2f] and [strtod] with the conversion to [float], on the
    Standard Library's model of IEEE 754 (rounding to nearest, ties to even).
    The theorems: the printed text is within half a hundredth of the value, it
    is a JSON number the Go side can store, and [strtod] reads its value. *)

From Stdlib Require Import SpecFloat.
From S2P Require Import Prelude Time Float64 Json Codec FloatText CJson.
Local Open Scope string_scope.
Local Open Scope list_scope.
Local Open Scope Z_scope.

Abbreviation float32 := spec_float.

Definition prec32 : Z := 24.
Definition emax32 : Z := 128.

(** [(float)d] *)
Definition toFloat (d : float64) : float32 :=
  match d with
  | S754_finite s m e => binary_normalize prec32 emax32 (cond_Zopp s (Z.pos m)) e s
  | _ => d
  end.

(** ** printf *)

(** [m * 2^e] in hundredths, rounded to nearest, ties to even. *)
Definition hundredths (m : positive) (e : Z) : Z :=
  if 0 <=? e then 100 * Z.pos m * 2 ^ e
  else roundEven (100 * Z.pos m) (2 ^ (- e)).

(** 310 digits hold the integer part of any double. *)
Definition decText (z : Z) : list byte := decimals (numDigits 310 z) z.

Definition hundredthsText (n : Z) : list byte := decText (n / 100) ++ z2b 46 :: decimals 2 (n mod 100).

(** [%.2f]; the sign of a NaN is not kept. *)
Definition fixed2 (f : spec_float) : list byte :=
  match f with
  | S754_nan => text "nan"
  | S754_infinity s => minus s ++ text "inf"
  | S754_zero s => minus s ++ hundredthsText 0
  | S754_finite s m e => minus s ++ hundredthsText (hundredths m e)
  end.

(** ** strtod *)

Definition lower (c : byte) : byte := if (65 <=? b2z c) && (b2z c <=? 90) then z2b (b2z c + 32) else c.

Definition startsLower (p : string) (s : list byte) : bool := startsWith (text p) (lower <$> s).

(** The value of a hexadecimal digit. *)
Definition hexVal (c : byte) : option Z :=
  let z := b2z (lower c) in
  if isDigit c then Some (z - 48) else if (97 <=? z) && (z <=? 102) then Some (z - 87) else None.

Fixpoint hexRun (s : list byte) : list Z :=
  match s with
  | c :: s' => match hexVal c with Some v => v :: hexRun s' | None => [] end
  | [] => []
  end.

Definition fromDigits (base : Z) (ds : list Z) : Z := foldl (fun n d => n * base + d) 0 ds.

(** What follows the mantissa: [c], an optional sign, and digits. *)
Definition exponent (c : Z) (s : list byte) : Z :=
  match s with
  | x :: s' =>
      if isC (lower x) c then
        match s' with
        | y :: s'' => if isC y 45 then - atoi (digitRun s'') else if isC y 43 then atoi (digitRun s'') else atoi (digitRun s')
        | [] => 0
        end
      else 0
  | [] => 0
  end.

(** The digits before and behind the point, and the rest. *)
Definition mantissa {A} (run : list byte -> list A) (s : list byte) : list A * list A * list byte :=
  let ip := run s in
  let s := drop (length ip) s in
  match s with
  | c :: s' => if isC c 46 then (ip, run s', drop (length (run s')) s') else (ip, [], s)
  | [] => (ip, [], s)
  end.

(** [strtod(s, NULL)] in the "C" locale; 0 when there is no number. *)
Definition strtod (s : list byte) : float64 :=
  let s := skipWhile isspace s in
  let '(neg, s) := match s with
                   | c :: s' => if isC c 45 then (true, s') else if isC c 43 then (false, s') else (false, s)
                   | [] => (false, s)
                   end in
  if startsLower "inf" s then S754_infinity neg
  else if startsLower "nan" s then S754_nan
  else if startsLower "0x" s then
    let '(ip, fp, r) := mantissa hexRun (drop 2 s) in
    match ip ++ fp with
    | [] => S754_zero neg
    | ds => binary_normalize prec64 emax64 (cond_Zopp neg (fromDigits 16 ds)) (exponent 112 r - 4 * zlen fp) neg
    end
  else
    let '(ip, fp, r) := mantissa digitRun s in
    match ip ++ fp with
    | [] => S754_zero false
    | ds => decimalFloat neg (atoi ds) (exponent 101 r - zlen fp)
    end.

(** ** What is printed *)

(** No other number of hundredths is nearer to the value. *)
Lemma hundredths_nearest m e :
  e < 0 -> 2 * Z.abs (100 * Z.pos m - hundredths m e * 2 ^ (- e)) <= 2 ^ (- e).
Proof.
  intros He. unfold hundredths. rewrite (proj2 (Z.leb_gt _ _)), Z.mul_comm, (Z.mul_comm (roundEven _ _)), Z.mul_comm by done.
  apply roundEven_near, Z.pow_pos_nonneg; lia.
Qed.

Lemma hundredths_nonneg m e : 0 <= hundredths m e.
Proof.
  unfold hundredths, roundEven. destruct (Z.leb_spec 0 e); [apply Z.mul_nonneg_nonneg; [lia|by apply Z.pow_nonneg]|].
  assert (0 <= 100 * Z.pos m / 2 ^ (- e)) by (apply Z.div_pos; [lia|apply Z.pow_pos_nonneg; lia]).
  destruct (_ || _); lia.
Qed.

(** A float is below 2^128. *)
Lemma float_bound m e :
  bounded prec32 emax32 m e = true -> Z.pos m < 2 ^ 24 /\ e <= 104.
Proof.
  unfold bounded, canonical_mantissa, SpecFloat.fexp, SpecFloat.emin, prec32, emax32. intros H. breflect. split; [|lia].
  rewrite digits2_log2 in *. apply Z.log2_lt_pow2; lia.
Qed.

(** The values [hundredthsText] is used for. *)
Definition printable (n : Z) : Prop := 0 <= n < 10 ^ 41.

Lemma hundredths_printable m e : bounded prec32 emax32 m e = true -> printable (hundredths m e).
Proof.
  intros [Hm He]%float_bound. split; [apply hundredths_nonneg|]. unfold hundredths, roundEven.
  destruct (Z.leb_spec 0 e).
  - assert (2 ^ e <= 2 ^ 104) by (apply Z.pow_le_mono_r; lia). assert (0 < 2 ^ e) by (apply Z.pow_pos_nonneg; lia).
    assert (Z.pos m * 2 ^ e <= 2 ^ 24 * 2 ^ 104) by (apply Z.mul_le_mono_nonneg; lia).
    change (2 ^ 24 * 2 ^ 104) with 340282366920938463463374607431768211456 in *. change (10 ^ 41) with
      100000000000000000000000000000000000000000. lia.
  - assert (0 < 2 ^ (- e)) by (apply Z.pow_pos_nonneg; lia).
    assert (100 * Z.pos m / 2 ^ (- e) <= 100 * Z.pos m) by (apply Z.div_le_upper_bound; nia).
    change (10 ^ 41) with 100000000000000000000000000000000000000000. change (2 ^ 24) with 16777216 in Hm.
    destruct (_ || _); lia.
Qed.

(** The text: an integer part without superfluous zeros, a point, two digits,
    which together are the digits of [n]. *)
Lemma hundredthsText_shape n :
  printable n ->
  exists d ds a b, hundredthsText n = d :: ds ++ z2b 46 :: [a; b] /\
    isDigit d = true /\ forallb isDigit ds = true /\ forallb isDigit [a; b] = true /\ (isC d 48 = true -> ds = []) /\
    atoi ((d :: ds) ++ [a; b]) = n.
Proof.
  intros [H0 Hn]. assert (0 <= n / 100 < 10 ^ (Z.of_nat 310 + 1)) as Hq.
  { split; [by apply Z.div_pos|]. apply Z.div_lt_upper_bound; [done|].
    assert (10 ^ 41 < 100 * 10 ^ (Z.of_nat 310 + 1)) by by vm_compute. lia. }
  destruct (decimals_lead 310 (n / 100) Hq) as (d & ds & E & Hd & Hds & Hz).
  pose proof (proj1 (numDigits_spec 310 (n / 100) Hq)) as Hlt.
  assert (0 <= n mod 100 < 10 ^ Z.of_nat 2) as Hr by (by apply Z.mod_pos_bound).
  pose proof (decimals_digits 2 (n mod 100)) as Hfd. pose proof (atoi_decimals 2 (n mod 100) Hr) as Hfa.
  pose proof (atoi_decimals (numDigits 310 (n / 100)) (n / 100) ltac:(lia)) as Hia. rewrite E in Hia.
  unfold hundredthsText, decText. rewrite E.
  change (decimals 2 (n mod 100)) with [digit (n mod 100 / 10 mod 10); digit (n mod 100 mod 10)] in *.
  eexists _, _, _, _. split_and!; [reflexivity|done..|].
  change [digit (n mod 100 / 10 mod 10); digit (n mod 100 mod 10)]
    with ([digit (n mod 100 / 10 mod 10)] ++ [digit (n mod 100 mod 10)]) in *.
  rewrite app_assoc, !atoi_snoc, Hia. rewrite (atoi_snoc [digit (n mod 100 / 10 mod 10)]) in Hfa.
  unfold atoi in Hfa at 1. cbn [foldl] in Hfa. pose proof (Z_div_mod_eq_full n 100). lia.
Qed.

Lemma minus_plain s : plain (minus s).
Proof. by destruct s. Qed.

(** The sign and the rounded hundredths of a finite float. *)
Definition signOf (f : spec_float) : bool :=
  match f with S754_zero s | S754_infinity s | S754_finite s _ _ => s | S754_nan => false end.

Definition roundedOf (f : spec_float) : Z := match f with S754_finite _ m e => hundredths m e | _ => 0 end.

Lemma fixed2_finite f :
  valid_binary prec32 emax32 f = true -> finite f = true ->
  printable (roundedOf f) /\ fixed2 f = minus (signOf f) ++ hundredthsText (roundedOf f).
Proof.
  destruct f as [s|s| |s m e]; try done; cbn [valid_binary fixed2 roundedOf]; intros Hv _.
  split; [by apply hundredths_printable|done].
Qed.

(** A finite float is printed as a JSON number that Go reads as the float64
    nearest to the rounded hundredths. *)
Lemma fixed2_number f :
  valid_binary prec32 emax32 f = true -> finite f = true ->
  canonical (JNum (fixed2 f)) = true /\ parseFloat (fixed2 f) = Some (decimalFloat (signOf f) (roundedOf f) (-2)).
Proof.
  intros Hv Hf. destruct (fixed2_finite f Hv Hf) as [Hn ->]. generalize dependent (roundedOf f). intros n Hn.
  generalize (signOf f). intros s. destruct (hundredthsText_shape n Hn) as (d & ds & a & b & -> & Hd & Hds & Hab & Hz & Ha).
  destruct (number_text s d ds [a; b] [] 0) as (P1 & P2 & P3); [cbn [forallb]; by rewrite Hd|done..|by left|].
  rewrite app_nil_r in P1, P2, P3. cbn [fracText app] in P1, P2, P3. split; [cbn [canonical]; by apply bool_decide_eq_true|].
  unfold parseFloat. rewrite P3, P2. change (d :: ds ++ [a; b]) with ((d :: ds) ++ [a; b]). rewrite Ha.
  change (0 - zlen [a; b]) with (-2). assert (finite (decimalFloat s n (-2)) = true) as ->; [|done].
  unfold decimalFloat. destruct (Z.leb_spec n 0); [done|]. apply nearest_finite; [done..|]. destruct Hn as [_ Hn].
  apply (Z.lt_trans _ (10 ^ 41)); [done|by vm_compute].
Qed.

Lemma fixed2_plain f :
  valid_binary prec32 emax32 f = true -> finite f = true -> plain (fixed2 f) /\ zlen (fixed2 f) < 400.
Proof.
  intros Hv Hf. destruct (fixed2_finite f Hv Hf) as [Hn ->]. generalize dependent (roundedOf f). intros n Hn.
  generalize (signOf f). intros s. split.
  - destruct (hundredthsText_shape n Hn) as (d & ds & a & b & -> & Hd & Hds & Hab & _).
    apply plain_app; [apply minus_plain|]. change (d :: ds ++ ?l) with ((d :: ds) ++ [z2b 46] ++ [a; b]).
    apply plain_app; [apply plain_digits; cbn [forallb]; by rewrite Hd|]. apply plain_app; [done|by apply plain_digits].
  - unfold hundredthsText, decText, zlen. rewrite !length_app. cbn [length]. rewrite !length_decimals.
    pose proof (length_numDigits 310 (n / 100)). destruct s; cbn [minus length]; lia.
Qed.

(** ** What is read back *)

Lemma startsLower_miss p s i x y :
  text p !! i = Some x -> s !! i = Some y -> lower y <> x -> startsLower p s = false.
Proof.
  intros Hx Hy Hne. apply not_true_is_false. intros (k & Hk)%startsWith_true.
  assert ((lower <$> s) !! i = Some x) as H by (rewrite Hk; by apply lookup_app_l_Some).
  rewrite list_lookup_fmap, Hy in H. by injection H.
Qed.

Lemma lower_digit d : isDigit d = true -> lower d = d.
Proof. unfold isDigit, lower. intros H. breflect. by rewrite (proj2 (Z.leb_gt _ _)) by lia. Qed.

(** Digits, a point and two digits. *)
Lemma strtod_digits s d ds a b c l :
  isDigit d = true -> forallb isDigit ds = true -> forallb isDigit [a; b] = true -> closer c ->
  strtod (minus s ++ d :: ds ++ z2b 46 :: a :: b :: c :: l) = decimalFloat s (atoi ((d :: ds) ++ [a; b])) (-2).
Proof.
  intros Hd Hds Hab Hc. destruct (digit_facts d Hd) as (_ & F2 & _ & F4 & F5).
  set (t := d :: ds ++ z2b 46 :: a :: b :: c :: l).
  assert (startsLower "inf" t = false /\ startsLower "nan" t = false) as [Hi Hn].
  { assert (forall x, 57 < b2z x -> lower d <> x) as Hx.
    { intros x Hx. rewrite lower_digit by done. intros ->. unfold isDigit in Hd. breflect. lia. }
    by split; eapply (startsLower_miss _ _ 0); (reflexivity || by apply Hx). }
  assert (startsLower "0x" t = false) as H0.
  { destruct ds as [|e ds]; eapply (startsLower_miss _ _ 1); try reflexivity; [done|].
    cbn [forallb] in Hds. apply andb_true_iff in Hds as [He _]. rewrite lower_digit by done. by intros ->. }
  assert (mantissa digitRun t = (d :: ds, [a; b], c :: l)) as Hm.
  { unfold mantissa, t. change (d :: ds ++ ?l) with ((d :: ds) ++ l).
    rewrite digitRun_closer by (done || (cbn [forallb]; by rewrite Hd)). rewrite drop_app_length.
    change (isC (z2b 46) 46) with true. cbv iota. change (a :: b :: c :: l) with ([a; b] ++ c :: l).
    rewrite digitRun_closer by (done || by apply closer_facts). by rewrite drop_app_length. }
  assert (exponent 101 (c :: l) = 0) as He by (by destruct Hc as [-> | ->]).
  unfold strtod. destruct s; cbn [minus app]; unfold t; cbn [skipWhile]; rewrite ?F2;
    change (isspace (z2b 45)) with false; cbv iota; rewrite ?F4, ?F5; change (isC (z2b 45) 45) with true; cbv iota;
    fold t; rewrite Hi, Hn, H0, Hm; cbn [app]; by rewrite He.
Qed.

(** [strtod] reads the number that was printed, up to a character that ends
    it. *)
Lemma strtod_fixed2 f c l :
  valid_binary prec32 emax32 f = true -> finite f = true -> closer c ->
  strtod (fixed2 f ++ c :: l) = decimalFloat (signOf f) (roundedOf f) (-2).
Proof.
  intros Hv Hf Hc. destruct (fixed2_finite f Hv Hf) as [Hn ->].
  destruct (hundredthsText_shape _ Hn) as (d & ds & a & b & -> & Hd & Hds & Hab & _ & <-).
  rewrite <-app_assoc. cbn [app]. rewrite <-app_assoc. cbn [app]. by apply strtod_digits.
Qed.
