(* ===== verification/CIntent.v ===== *)
(** * Intents of the C SDK: src/sdk/c/src/eipc_json.c

    The JSON of intents, which carry a [float].  The theorem: an intent that
    is printed is read back by the Go side and by the C side, its confidence
    rounded to hundredths. *)

From Stdlib Require Import SpecFloat.
From S2P Require Import Prelude Time Float64 Utf8 Json Message Codec FloatText Events CMem CFrame CJson CFloat.
Local Open Scope string_scope.
Local Open Scope list_scope.
Local Open Scope Z_scope.

Definition EIPC_INTENT_MAX : Z := 64.

Record eipc_intent_t := MkCIntent { ci_intent : list byte; ci_confidence : float32; ci_session_id : list byte }.

Definition intentText (intent : eipc_intent_t) : list byte :=
  object [strMember "intent" (json_escape (ci_intent intent) 256);
          quoted (text "confidence") ++ z2b 58 :: fixed2 (ci_confidence intent);
          strMember "session_id" (json_escape (ci_session_id intent) 128)].

Definition eipc_intent_to_json (null : bool) (intent : eipc_intent_t) (buf_size : Z) : eipc_status_t * list byte :=
  if null then (EIPC_ERR_INVALID, []) else emit EIPC_ERR_BUFFER buf_size (intentText intent).

Definition json_find_float (json : list byte) (key : string) : Z * float32 :=
  let pattern := keyPattern key in
  match strstr pattern json with
  | None => (-1, S754_zero false)
  | Some start =>
      let start := skipWhile isSep (drop (length pattern) start) in
      (0, toFloat (strtod match start with
                          | c :: start' => if isC c 34 then start' else start
                          | [] => start
                          end))
  end.

Definition eipc_intent_from_json (null : bool) (json : list byte) (intent : eipc_intent_t) :
    eipc_status_t * eipc_intent_t :=
  if null then (EIPC_ERR_INVALID, intent)
  else (EIPC_OK, MkCIntent
    (snd (json_find_string json "intent" EIPC_INTENT_MAX))
    (snd (json_find_float json "confidence"))
    (snd (json_find_string json "session_id" EIPC_SESSION_ID_MAX))).

(** ** Printing *)

(** Intents that need no escapes, with strings that fit and are not taken for
    keys, and a number for a confidence. *)
Definition intent_ok (i : eipc_intent_t) : Prop :=
  plain (ci_intent i) /\ zlen (ci_intent i) < EIPC_INTENT_MAX /\
  ci_intent i <> text "confidence" /\ ci_intent i <> text "session_id" /\
  plain (ci_session_id i) /\ zlen (ci_session_id i) < EIPC_SESSION_ID_MAX /\
  valid_binary prec32 emax32 (ci_confidence i) = true /\ finite (ci_confidence i) = true.

Definition intentMembers (i : eipc_intent_t) : list (list byte * cval) :=
  [(text "intent", CStr (ci_intent i)); (text "confidence", CLit (fixed2 (ci_confidence i)));
   (text "session_id", CStr (ci_session_id i))].

Lemma intentText_members i : intent_ok i -> intentText i = object (member <$> intentMembers i).
Proof.
  intros (H1 & H2 & _ & _ & H3 & H4 & _). unfold EIPC_INTENT_MAX, EIPC_SESSION_ID_MAX in *.
  unfold intentText. by rewrite !json_escape_plain by (done || lia).
Qed.

(** The value that reads the rounded hundredths of a confidence. *)
Definition readConfidence (f : float32) : float64 := decimalFloat (signOf f) (roundedOf f) (-2).

(** The Go event the text is read as. *)
Definition goIntent (i : eipc_intent_t) : IntentEvent :=
  MkIntent (string_of_bytes (ci_intent i)) (readConfidence (ci_confidence i)) (string_of_bytes (ci_session_id i)).

Lemma unmarshal_intentText i : intent_ok i -> Unmarshal (intentText i) = Ok (goIntent i).
Proof.
  intros Hi. rewrite intentText_members by done. destruct Hi as (P1 & _ & _ & _ & P2 & _ & Hv & Hf).
  destruct (fixed2_number _ Hv Hf) as [Hc Hp].
  assert (object (member <$> intentMembers i) =
    print (JObj [(text "intent", JStr (ci_intent i)); (text "confidence", JNum (fixed2 (ci_confidence i)));
                 (text "session_id", JStr (ci_session_id i))])) as ->.
  { rewrite print_obj. unfold intentMembers. cbn [map fst snd]. rewrite !str_member by done. done. }
  apply unmarshalStruct_print; [|done|].
  - unfold membersOk. cbn [forallb fst snd]. rewrite Hc. cbn [canonical]. by rewrite !plain_valid.
  - do 3 (erewrite storeMembers_cons; [|reflexivity|cbn [store]; first [by apply storeFloat_num | reflexivity]]). done.
Qed.

Lemma intentText_short i : intent_ok i -> zlen (intentText i) < 1000.
Proof.
  intros Hi. rewrite intentText_members by done. destruct Hi as (_ & L1 & _ & _ & _ & L2 & Hv & Hf).
  destruct (fixed2_plain _ Hv Hf) as [_ L3]. unfold EIPC_INTENT_MAX, EIPC_SESSION_ID_MAX in *.
  unfold intentMembers, object. cbn [fmap list_fmap commaSep]. unfold member. cbn [fst snd valText]. unfold quoted.
  repeat (rewrite zlen_cons || rewrite zlen_app). change (zlen (@nil byte)) with 0.
  change (zlen (text "intent")) with 6. change (zlen (text "confidence")) with 10. change (zlen (text "session_id")) with 10.
  lia.
Qed.

(** ** Reading *)

Lemma keylike_text key : forallb (fun c => negb (isC c 34)) (text key) = true ->
  match text key with c :: _ => (97 <=? b2z c) && (b2z c <=? 122) | [] => false end = true -> keylike (text key).
Proof.
  intros Hn Hc. split.
  - apply Forall_forall. intros c Hin%list_elem_of_In. rewrite forallb_forall in Hn. by apply Hn, negb_true_iff in Hin.
  - destruct (text key) as [|c l]; [done|]. exists c, l. split; [done|]. breflect. lia.
Qed.

Lemma find_float_at ms i key f :
  (length (text key) <= 125)%nat -> keylike (text key) ->
  ms !! i = Some (text key, CLit (fixed2 f)) -> Forall (passes (text key)) (take i ms) ->
  valid_binary prec32 emax32 f = true -> finite f = true ->
  json_find_float (object (member <$> ms)) key = (0, toFloat (readConfidence f)).
Proof.
  intros Hl Hk Hi Hp Hv Hf. rewrite <-(take_drop_middle ms i _ Hi).
  destruct (tailText_closer (drop (S i) ms)) as (c & l & Et & Hc).
  pose proof (strtod_fixed2 f c l Hv Hf Hc) as Hs. destruct (fixed2_finite f Hv Hf) as [Hn E].
  unfold json_find_float. rewrite keyPattern_ok by done.
  change (strstr (quoted (text key)) (object (member <$> ?ms))) with (searched (text key) ms).
  rewrite search_found, after_key by done. cbn [valText skipWhile]. change (isSep (z2b 58)) with true. cbv iota.
  rewrite Et. destruct (hundredthsText_shape _ Hn) as (d & ds & a & b & Eh & Hd & _).
  destruct (digit_facts d Hd) as (F1 & _ & F3 & _).
  assert (exists x xs, fixed2 f ++ c :: l = x :: xs /\ isSep x = false /\ isC x 34 = false) as (x & xs & Ex & X1 & X2).
  { rewrite E, Eh. destruct (signOf f); cbn [minus app]; eexists _, _; by split_and!. }
  rewrite Ex in *. cbn [skipWhile]. rewrite X1, X2. by rewrite Hs.
Qed.

(** At most 1 and at least -1. *)
Definition unitRange (f : float32) : Prop :=
  match f with
  | S754_zero _ => True
  | S754_finite _ m e => e <= 0 /\ Z.pos m <= 2 ^ (- e)
  | _ => False
  end.

Lemma hundredths_unit m e : e <= 0 -> Z.pos m <= 2 ^ (- e) -> hundredths m e <= 100.
Proof.
  intros He Hm. unfold hundredths, roundEven. destruct (Z.leb_spec 0 e) as [H|H].
  { replace e with 0 in * by lia. simpl in *. lia. }
  assert (0 < 2 ^ (- e)) as Hd by (apply Z.pow_pos_nonneg; lia). revert Hd Hm. generalize (2 ^ (- e)). intros d Hd Hm.
  pose proof (Z_div_mod_eq_full (100 * Z.pos m) d) as Hq. pose proof (Z.mod_pos_bound (100 * Z.pos m) d Hd) as Hr.
  destruct ((2 * _ <? d) || _) eqn:Et; [nia|]. rewrite orb_false_iff in Et. destruct Et as [Et _]. breflect.
  assert (100 * Z.pos m / d < 100) by nia. lia.
Qed.

(** The hundredths from -1 to 1 survive the conversion to [float]. *)
Lemma unit_stable s n :
  0 <= n <= 100 -> fixed2 (toFloat (decimalFloat s n (-2))) = minus s ++ hundredthsText n.
Proof.
  intros Hn.
  assert (forallb (fun n => forallb (fun s => bool_decide (fixed2 (toFloat (decimalFloat s n (-2))) = minus s ++ hundredthsText n))
    [true; false]) (seqZ 0 101) = true) as H by by vm_compute.
  rewrite forallb_forall in H. assert (In n (seqZ 0 101)) as Hin by (apply list_elem_of_In, elem_of_seqZ; lia).
  specialize (H n Hin). cbn [forallb] in H. rewrite !andb_true_iff, !bool_decide_eq_true in H. by destruct s; apply H.
Qed.

Lemma fixed2_stable f :
  valid_binary prec32 emax32 f = true -> unitRange f ->
  fixed2 (toFloat (readConfidence f)) = fixed2 f.
Proof.
  intros Hv Hu. assert (finite f = true) as Hf by (by destruct f).
  destruct (fixed2_finite f Hv Hf) as [Hn ->]. apply unit_stable. split; [apply Hn|].
  destruct f as [s|s| |s m e]; cbn [roundedOf]; try lia. by apply hundredths_unit; apply Hu.
Qed.

(** What a C receiver makes of the text. *)
Definition readIntent (i : eipc_intent_t) : eipc_intent_t :=
  MkCIntent (ci_intent i) (toFloat (readConfidence (ci_confidence i))) (ci_session_id i).

Lemma from_intentText i i0 :
  intent_ok i -> eipc_intent_from_json false (intentText i) i0 = (EIPC_OK, readIntent i).
Proof.
  intros Hi. rewrite intentText_members by done. destruct Hi as (P1 & L1 & N1 & N2 & P2 & L2 & Hv & Hf).
  assert (noquote (ci_intent i)) as Q1 by (by apply simple_noquote, plain_simple).
  assert (noquote (fixed2 (ci_confidence i))) as Q2 by (by apply simple_noquote, plain_simple, fixed2_plain).
  unfold eipc_intent_from_json. set (ms := intentMembers i).
  rewrite (find_string_at ms 0 "intent" (ci_intent i))
    by (done || (apply keylike_text; done) || (by apply plain_simple) || (cbn; lia)).
  rewrite (find_float_at ms 1 "confidence" (ci_confidence i))
    by (done || (apply keylike_text; done) || (cbn; lia) ||
        (repeat (apply Forall_cons; split); [|constructor]; split_and!; [repeat constructor|done..])).
  rewrite (find_string_at ms 2 "session_id" (ci_session_id i)); [done|cbn; lia|by apply keylike_text|done| |by apply plain_simple|done].
  repeat (apply Forall_cons; split); try apply Forall_nil_2; split_and!; try done; repeat constructor.
Qed.

(** C21: Intents cross: an intent with a finite confidence, whose strings are
    plain ASCII without quotes, backslashes, [<], [>] and [&] and fit their
    arrays, and whose name is not [confidence] or [session_id], is printed by
    the C side into a buffer of 1000 bytes or more as JSON that Go decodes to
    the event with the same strings and, as its confidence, the float64 nearest
    to the C confidence rounded to hundredths, and that the C side reads back to
    the same strings; a confidence from -1 to 1 comes back as a float that
    prints the same. *)
Theorem intent_crosses (i i0 : eipc_intent_t) (buf_size : Z) :
  intent_ok i -> 1000 <= buf_size ->
  eipc_intent_to_json false i buf_size = (EIPC_OK, intentText i) /\
  Unmarshal (intentText i) = Ok (goIntent i) /\
  eipc_intent_from_json false (intentText i) i0 = (EIPC_OK, readIntent i) /\
  (unitRange (ci_confidence i) -> fixed2 (ci_confidence (readIntent i)) = fixed2 (ci_confidence i)).
Proof.
  intros Hi Hb. split_and!.
  - pose proof (intentText_short i Hi) as Hs. apply emit_fits. lia.
  - by apply unmarshal_intentText.
  - by apply from_intentText.
  - destruct Hi as (_ & _ & _ & _ & _ & _ & Hv & _). by apply fixed2_stable.
Qed.

(** 0.95f, which is 15938355 / 2^24. *)
Definition sampleCIntent : eipc_intent_t := MkCIntent (text "move_left") (S754_finite false 15938355 (-24)) [].

Lemma intent_crosses_witness :
  intentText sampleCIntent = text (String.concat (String.String (Ascii.ascii_of_nat 34) EmptyString)
    ["{"; "intent"; ":"; "move_left"; ","; "confidence"; ":0.95,"; "session_id"; ":"; ""; "}"]) /\
  Unmarshal (intentText sampleCIntent) = Ok (MkIntent "move_left" (decimalFloat false 95 (-2)) "") /\
  ci_confidence (readIntent sampleCIntent) = ci_confidence sampleCIntent.
Proof.
  split; [by vm_compute|]. split; [|by vm_compute].
  refine (proj1 (proj2 (intent_crosses sampleCIntent sampleCIntent 4096 _ _))); [|done].
  split_and!; (done || by vm_compute).
Defined.

(** A confidence that is no number, or infinite, is printed as a word JSON
    does not have: the Go side refuses the payload. *)
Lemma infinite_intent_refused :
  is_ok (Unmarshal (T := IntentEvent) (intentText (MkCIntent (text "stop") (S754_infinity false) []))) = false /\
  is_ok (Unmarshal (T := IntentEvent) (intentText (MkCIntent (text "stop") S754_nan []))) = false.
Proof. by split; vm_compute. Qed.
