(* ===== verification/CSocket.v ===== *)
(** * Opening sockets in the C SDK: src/sdk/c/src/eipc_transport.c

    [parse_address], [eipc_transport_connect], [eipc_transport_listen],
    [eipc_transport_accept] and [eipc_transport_close] over the socket calls of
    the operating system.  The theorem says which address a server ends up
    bound to. *)

From S2P Require Import Prelude Time Json Codec CMem CTransport CJson.
Local Open Scope string_scope.
Local Open Scope list_scope.
Local Open Scope Z_scope.

(** ** Addresses *)

(** [strrchr(s, ':')]: what is in front of the last colon and behind it. *)
Fixpoint lastColon (s : list byte) : option (list byte * list byte) :=
  match s with
  | [] => None
  | c :: s' =>
      match lastColon s' with
      | Some (front, behind) => Some (c :: front, behind)
      | None => if isC c 58 then Some ([], s') else None
      end
  end.

(** [atoi(s)] as the C libraries compute it, by [(int)strtol(s, NULL, 10)]. *)
Definition c_atoi (s : list byte) : Z :=
  let s := skipWhile isspace s in
  let '(neg, s) := match s with
                   | c :: s' => if isC c 45 then (true, s') else if isC c 43 then (false, s') else (false, s)
                   | [] => (false, s)
                   end in
  let v := atoi (digitRun s) in
  toInt (if neg : bool then Z.max (- v) (- 2 ^ 63) else Z.min v (2 ^ 63 - 1)).

(** Host and port; [None] is the return of -1. *)
Definition parse_address (address : list byte) (host_size : Z) : option (list byte * Z) :=
  match lastColon address with
  | None => None
  | Some (front, behind) =>
      let hlen := if host_size <=? zlen front then host_size - 1 else zlen front in
      Some (take (Z.to_nat hlen) front, u16 (c_atoi behind))
  end.

(** [sizeof(host)] *)
Definition HOST_SIZE : Z := 256.

Definition INADDR_ANY : Z := 0.

(** ** The operating system *)

(** [N] is its state, [S] a socket; an IPv4 address is a 32-bit number. *)
Class Inet (N S : Type) := {
  os_socket : N -> option S * N;
  os_connect : Z -> Z -> S -> N -> option S * N;
  os_bind : Z -> Z -> S -> N -> bool * N;
  os_listen : Z -> S -> N -> bool * N;
  os_accept : S -> N -> option (S * Z * Z) * N;
  os_close : S -> N -> N;
  inet_pton : list byte -> option Z;
  inet_ntop : Z -> list byte
}.

Section Open.
Context {N S : Type} `{Inet N S}.

(** The status and [*sock], [None] being [EIPC_INVALID_SOCKET]. *)
Definition eipc_transport_connect (null : bool) (sock : option S) (address : list byte) (n : N) :
    eipc_status_t * option S * N :=
  if null then (EIPC_ERR_INVALID, sock, n)
  else match parse_address address HOST_SIZE with
  | None => (EIPC_ERR_INVALID, sock, n)
  | Some (host, port) =>
      match os_socket n with
      | (None, n) => (EIPC_ERR_CONNECT, None, n)
      | (Some sk, n) =>
          match inet_pton host with
          | None => (EIPC_ERR_CONNECT, None, os_close sk n)
          | Some addr =>
              match os_connect addr port sk n with
              | (None, n) => (EIPC_ERR_CONNECT, None, os_close sk n)
              | (Some sk, n) => (EIPC_OK, Some sk, n)
              end
          end
      end
  end.

(** [addr.sin_addr] in [eipc_transport_listen]: the struct is zeroed, and a
    host that [inet_pton] does not take leaves it so. *)
Definition bindAddress (host : list byte) : Z :=
  if bool_decide (host = bytes_of_string "0.0.0.0") || bool_decide (host = []) then INADDR_ANY
  else default INADDR_ANY (inet_pton host).

Definition eipc_transport_listen (null : bool) (sock : option S) (address : list byte) (n : N) :
    eipc_status_t * option S * N :=
  if null then (EIPC_ERR_INVALID, sock, n)
  else match parse_address address HOST_SIZE with
  | None => (EIPC_ERR_INVALID, sock, n)
  | Some (host, port) =>
      match os_socket n with
      | (None, n) => (EIPC_ERR_CONNECT, None, n)
      | (Some sk, n) =>
          match os_bind (bindAddress host) port sk n with
          | (false, n) => (EIPC_ERR_CONNECT, None, os_close sk n)
          | (true, n) =>
              match os_listen 8 sk n with
              | (false, n) => (EIPC_ERR_CONNECT, None, os_close sk n)
              | (true, n) => (EIPC_OK, Some sk, n)
              end
          end
      end
  end.

(** The status, [*client_sock] and the string in [remote_addr]. *)
Definition eipc_transport_accept (listen_sock : S) (remote_addr_size : Z) (n : N) :
    eipc_status_t * option S * list byte * N :=
  match os_accept listen_sock n with
  | (None, n) => (EIPC_ERR_CONNECT, None, [], n)
  | (Some (sk, addr, port), n) =>
      (EIPC_OK, Some sk,
       snd (snprintf remote_addr_size (inet_ntop addr ++ [z2b 58] ++ appendInt port 0)), n)
  end.

Definition eipc_transport_close (sock : option S) (n : N) : N :=
  match sock with Some sk => os_close sk n | None => n end.

End Open.

(** ** Lemmas *)

Lemma lastColon_app host port :
  Forall (fun c => isC c 58 = false) port ->
  lastColon (host ++ z2b 58 :: port) = Some (host, port).
Proof.
  intros Hp. induction host as [|c host IH]; cbn [app lastColon]; [|by rewrite IH].
  enough (lastColon port = None) as -> by done.
  induction Hp as [|d port Hd _ IH]; [done|]. cbn [lastColon]. by rewrite IH, Hd.
Qed.

(** The address "host:port" in full. *)
Definition addressText (host : list byte) (port : Z) : list byte := host ++ z2b 58 :: appendInt port 0.

Lemma c_atoi_port port : 0 <= port < 2 ^ 16 -> c_atoi (appendInt port 0) = port.
Proof.
  intros Hp. destruct (uint_text port) as (_ & Hd & Ha); [unfold in_u64; lia|].
  destruct (uint_cons port) as (d & ds & E & Hdd & Hds); [unfold in_u64; lia|]. rewrite E in *.
  destruct (digit_facts d Hdd) as (_ & F2 & _ & F4 & F5).
  unfold c_atoi. cbn [skipWhile]. rewrite F2, F4, F5.
  assert (digitRun (d :: ds) = d :: ds) as ->.
  { clear -Hd. induction (d :: ds) as [|x l IH]; [done|]. cbn [digitRun forallb] in *.
    apply andb_true_iff in Hd as [-> Hd]. by rewrite IH. }
  rewrite Ha, Z.min_l by lia. unfold toInt. rewrite Z.mod_small by lia. lia.
Qed.

Lemma parse_address_ok host port :
  zlen host < HOST_SIZE -> 0 <= port < 2 ^ 16 ->
  parse_address (addressText host port) HOST_SIZE = Some (host, port).
Proof.
  intros Hh Hp. unfold parse_address, addressText. rewrite lastColon_app.
  - rewrite (proj2 (Z.leb_gt _ _)) by done. unfold zlen. rewrite Nat2Z.id, take_ge by done.
    rewrite c_atoi_port by done. unfold u16. by rewrite Z.mod_small by lia.
  - destruct (uint_text port) as (_ & Hd & _); [unfold in_u64; lia|].
    induction (appendInt port 0) as [|d ds IH]; [constructor|]. cbn [forallb] in Hd.
    apply andb_true_iff in Hd as [H1 H2]. apply Forall_cons. split; [|by apply IH].
    unfold isDigit in H1. breflect. apply isC_false. lia.
Qed.

(** ** Properties *)

(** A C server that is told to listen on a name listens everywhere: for an
    address whose host is not a dotted IPv4 address, such as "localhost:9090",
    [eipc_transport_listen] succeeds on a socket bound to all interfaces,
    while a dotted address is bound as given. *)
Theorem listen_bind_spec {N S} `{Inet N S} (sock : option S) (host : list byte) (port : Z) (n : N) (sk : S) (n' : N) :
  zlen host < HOST_SIZE -> 0 <= port < 2 ^ 16 ->
  eipc_transport_listen false sock (addressText host port) n = (EIPC_OK, Some sk, n') ->
  exists n1 n2, os_socket n = (Some sk, n1) /\ os_listen 8 sk n2 = (true, n') /\
    (inet_pton host = None -> os_bind INADDR_ANY port sk n1 = (true, n2)) /\
    (forall addr, inet_pton host = Some addr -> host <> [] -> host <> bytes_of_string "0.0.0.0" ->
       os_bind addr port sk n1 = (true, n2)).
Proof.
  intros Hh Hp. unfold eipc_transport_listen. rewrite parse_address_ok by done.
  destruct (os_socket n) as [[sk1|] n1]; [|done].
  destruct (os_bind _ _ _ n1) as [[] n2] eqn:Eb; [|done].
  destruct (os_listen 8 sk1 n2) as [[] n3] eqn:El; [|done]. intros [= <- <-].
  exists n1, n2. split; [done|]. split; [done|]. unfold bindAddress in Eb. split.
  - intros Ho. rewrite Ho in Eb. by destruct (_ || _).
  - intros addr Ha H1 H2. rewrite Ha, !bool_decide_eq_false_2 in Eb by done. exact Eb.
Qed.

(** An operating system that opens every socket and remembers the address each
    is bound to; it knows one dotted address. *)
Module OneHost.

#[local] Instance inet : Inet (option Z) unit :=
  {| os_socket n := (Some tt, n); os_connect _ _ _ n := (Some tt, n); os_bind a _ _ _ := (true, Some a);
     os_listen _ _ n := (true, n); os_accept _ n := (Some (tt, 0x7F000001, 40000), n); os_close _ n := n;
     inet_pton h := if bool_decide (h = bytes_of_string "127.0.0.1") then Some 0x7F000001 else None;
     inet_ntop _ := bytes_of_string "127.0.0.1" |}.

End OneHost.

#[local] Existing Instance OneHost.inet.

Lemma listen_bind_spec_witness :
  eipc_transport_listen false None (bytes_of_string "localhost:9090") None = (EIPC_OK, Some tt, Some INADDR_ANY) /\
  exists n1 n2, os_bind INADDR_ANY 9090 tt n1 = (true, n2).
Proof.
  split; [reflexivity|].
  destruct (listen_bind_spec None (bytes_of_string "localhost") 9090 None tt (Some INADDR_ANY))
    as (n1 & n2 & _ & _ & H & _); [reflexivity|split; [discriminate|reflexivity]|reflexivity|].
  exists n1, n2. apply H. reflexivity.
Defined.
