(* ===== verification/CEndpoint.v ===== *)
(** * Clients and servers of the C SDK: src/sdk/c/src/eipc_client.c, eipc_server.c

    The client handle with its send functions, the server's connections, and
    the receiver both share.  The theorems: what a C client sends is what a Go
    server endpoint receives, what a Go endpoint sends a C client receives,
    and exactly when the receiver reads outside its arrays. *)

From S2P Require Import Prelude Time Utf8 Json Frame Sha256 Integrity Transport Replay Message Codec Endpoint.
From S2P Require Import CMem CSha256 CFrame CTransport CJson CFloat CIntent CSocket.
Local Open Scope string_scope.
Local Open Scope list_scope.
Local Open Scope Z_scope.

(** ** Constants of eipc_types.h *)

Definition EIPC_MSG_INTENT : byte := z2b 105.
Definition EIPC_MSG_TOOL_REQUEST : byte := z2b 116.
Definition EIPC_MSG_ACK : byte := z2b 97.
Definition EIPC_MSG_HEARTBEAT : byte := z2b 104.
Definition EIPC_MSG_CHAT : byte := z2b 99.
Definition EIPC_MSG_COMPLETE : byte := z2b 67.
Definition EIPC_PAYLOAD_JSON : Z := 0.
Definition EIPC_PRIORITY_P0 : Z := 0.
Definition EIPC_PRIORITY_P1 : Z := 1.

(** ** What a call depends on *)

(** The clock, which is taken to stand still during a call, [rand], [malloc],
    and what the stack arrays hold before. *)
Record sdk_env := MkSdkEnv {
  env_time : Z;
  env_rand : Z;
  env_malloc : bool;
  env_hmac : hmac_env;
  env_signable : list byte;
  env_encoded : list byte;
  env_args_json : list byte
}.

(** ** Time stamps and request identifiers *)

Definition hexChar (d : Z) : byte := z2b (if d <? 10 then 48 + d else 87 + d).

(** [%lx] of a 64-bit value, sixteen digits at most. *)
Fixpoint hexDigits (fuel : nat) (z : Z) : list byte :=
  match fuel with
  | O => []
  | S fuel' => (if z <? 16 then [] else hexDigits fuel' (z / 16)) ++ [hexChar (z mod 16)]
  end.

(** [%0<w>lx] *)
Definition hexText (w : nat) (z : Z) : list byte :=
  let ds := hexDigits 16 z in replicate (w - length ds) (z2b 48) ++ ds.

Definition eipc_timestamp_now (env : sdk_env) (buf_size : Z) : list byte :=
  snd (snprintf buf_size (appendInt (u64 (env_time env)) 0)).

Definition eipc_generate_request_id (env : sdk_env) (buf_size : Z) : list byte :=
  snd (snprintf buf_size (text "req-" ++ hexText 8 (u64 (env_time env)) ++ text "-" ++
                          hexText 4 (Z.land (env_rand env) 0xFFFF))).

(** [strncpy(dst, src, sizeof(dst) - 1)] into a zeroed array. *)
Definition strncpy (size : Z) (src : list byte) : list byte := take (Z.to_nat (size - 1)) src.

Definition fill_header (env : sdk_env) (service_id : list byte) (sequence : Z) : eipc_header_t :=
  MkCHeader (strncpy EIPC_SERVICE_ID_MAX service_id) []
    (eipc_generate_request_id env EIPC_REQUEST_ID_MAX) sequence
    (eipc_timestamp_now env EIPC_TIMESTAMP_MAX) EIPC_PRIORITY_P1 [] [] EIPC_PAYLOAD_JSON.

Definition with_capability (cap : string) (h : eipc_header_t) : eipc_header_t :=
  MkCHeader (ch_service_id h) (ch_session_id h) (ch_request_id h) (ch_sequence h) (ch_timestamp h)
    (ch_priority h) (strncpy EIPC_CAPABILITY_MAX (text cap)) (ch_route h) (ch_payload_format h).

(** ** Sockets that may be invalid *)

(** [None] is [EIPC_INVALID_SOCKET], on which every call fails. *)
#[global] Instance option_Socket {S} `{Socket S} : Socket (option S) :=
  {| sock_send data s :=
       match s with
       | Some s => let '(n, s) := sock_send data s in (n, Some s)
       | None => (-1, None)
       end;
     sock_recv n s :=
       match s with
       | Some s => let '(bs, s) := sock_recv n s in (bs, Some s)
       | None => ([], None)
       end |}.

(** ** Building and signing a frame *)

(** The zeroed frame with its fixed fields, header and payload copied in. *)
Definition makeFrame (msg_type : byte) (header_json payload : list byte) : option eipc_frame_t :=
  header ← memcpy 0 header_json (length header_json) (zeros EIPC_MAX_HEADER);
  body ← memcpy 0 payload (length payload) (zeros EIPC_MAX_PAYLOAD);
  Some (MkCFrame EIPC_PROTOCOL_VER msg_type EIPC_FLAG_HMAC header (zlen header_json) body (zlen payload)
          (zeros EIPC_MAC_SIZE)).

Definition with_mac (mac : list byte) (f : eipc_frame_t) : eipc_frame_t :=
  MkCFrame (c_version f) (c_msg_type f) (c_flags f) (c_header f) (c_header_len f) (c_payload f)
    (c_payload_len f) mac.

Section Endpoints.
Context {S : Type} `{Socket S}.

Definition signAndSend (env : sdk_env) (key : list byte) (frame : eipc_frame_t) (sock : option S) :
    option (eipc_status_t * option S) :=
  r ← eipc_frame_signable_bytes (Some frame) (Some (env_signable env)) EIPC_FRAME_BUF_SIZE;
  let '(signable_len, signable) := r in
  if signable_len =? 0 then Some (EIPC_ERR_INTEGRITY, sock)
  else
    mac ← eipc_hmac_sign (env_hmac env) key (take (Z.to_nat signable_len) (default [] signable));
    eipc_transport_send_frame (env_encoded env) (Some (with_mac mac frame)) sock.

(** ** The client *)

Record eipc_client_t := MkCClient {
  cc_sock : option S;
  cc_service_id : list byte;
  cc_hmac_key : list byte;
  cc_hmac_key_len : Z;
  cc_sequence : Z;
  cc_connected : bool
}.

Definition clientKey (c : eipc_client_t) : list byte := take (Z.to_nat (cc_hmac_key_len c)) (cc_hmac_key c).

Definition with_sock (sock : option S) (c : eipc_client_t) : eipc_client_t :=
  MkCClient sock (cc_service_id c) (cc_hmac_key c) (cc_hmac_key_len c) (cc_sequence c) (cc_connected c).

(** [c->sequence++] *)
Definition nextSequence (c : eipc_client_t) : eipc_client_t :=
  MkCClient (cc_sock c) (cc_service_id c) (cc_hmac_key c) (cc_hmac_key_len c) (u64 (cc_sequence c + 1)) (cc_connected c).

Definition build_and_send (env : sdk_env) (c : eipc_client_t) (msg_type : byte) (hdr : eipc_header_t)
    (payload : list byte) : option (eipc_status_t * eipc_client_t) :=
  match eipc_header_to_json false hdr EIPC_MAX_HEADER with
  | (EIPC_OK, header_json) =>
      if EIPC_MAX_PAYLOAD <? zlen payload then Some (EIPC_ERR_FRAME_TOO_LARGE, c)
      else
        frame ← makeFrame msg_type header_json payload;
        r ← signAndSend env (clientKey c) frame (cc_sock c);
        Some (r.1, with_sock r.2 c)
  | (rc, _) => Some (rc, c)
  end.

(** [null] says whether a pointer argument is null. *)
Definition eipc_client_init (null : bool) (c : eipc_client_t) (service_id : list byte) :
    eipc_status_t * eipc_client_t :=
  if null then (EIPC_ERR_INVALID, c)
  else (EIPC_OK, MkCClient None (strncpy EIPC_SERVICE_ID_MAX service_id) (zeros EIPC_MAC_SIZE) 0 0 false).

Definition eipc_client_connect {N} `{Inet N S} (null : bool) (c : eipc_client_t) (address hmac_key : list byte) (n : N) :
    option (eipc_status_t * eipc_client_t * N) :=
  if null then Some (EIPC_ERR_INVALID, c, n)
  else if EIPC_MAC_SIZE <? zlen hmac_key then Some (EIPC_ERR_INVALID, c, n)
  else
    key ← memcpy 0 hmac_key (length hmac_key) (cc_hmac_key c);
    let '(rc, sock, n) := eipc_transport_connect false (cc_sock c) address n in
    match rc with
    | EIPC_OK => Some (EIPC_OK, MkCClient sock (cc_service_id c) key (zlen hmac_key) 0 true, n)
    | _ => Some (rc, MkCClient sock (cc_service_id c) key (zlen hmac_key) (cc_sequence c) (cc_connected c), n)
    end.

(** The end of the send functions: [if (rc != EIPC_OK) return rc;] after the
    payload is written, and [build_and_send]. *)
Definition sendPayload (env : sdk_env) (c : eipc_client_t) (msg_type : byte) (hdr : eipc_header_t)
    (payload : eipc_status_t * list byte) : option (eipc_status_t * eipc_client_t) :=
  match payload with
  | (EIPC_OK, payload_json) => build_and_send env c msg_type hdr payload_json
  | (rc, _) => Some (rc, c)
  end.

Definition eipc_client_send_intent (null : bool) (env : sdk_env) (c : eipc_client_t) (intent : list byte)
    (confidence : float32) : option (eipc_status_t * eipc_client_t) :=
  if null || negb (cc_connected c) then Some (EIPC_ERR_INVALID, c)
  else
    let c := nextSequence c in
    let hdr := fill_header env (cc_service_id c) (cc_sequence c) in
    let ev := MkCIntent (strncpy EIPC_INTENT_MAX intent) confidence [] in
    sendPayload env c EIPC_MSG_INTENT hdr (eipc_intent_to_json false ev EIPC_MAX_PAYLOAD).

(** [memcpy(req.args, args, sizeof(eipc_kv_t) * n)]: [args] is the caller's
    array; a count beyond it reads outside. *)
Definition copyArgs (args : option (list eipc_kv_t)) (arg_count : Z) : option (list eipc_kv_t) :=
  match args with
  | Some args =>
      if 0 <? arg_count then
        let n := if EIPC_MAX_TOOL_ARGS <? arg_count then EIPC_MAX_TOOL_ARGS else arg_count in
        if zlen args <? n then None else Some (take (Z.to_nat n) args)
      else Some []
  | None => Some []
  end.

Definition eipc_client_send_tool_request (null : bool) (env : sdk_env) (c : eipc_client_t) (tool : list byte)
    (args : option (list eipc_kv_t)) (arg_count : Z) : option (eipc_status_t * eipc_client_t) :=
  if null || negb (cc_connected c) then Some (EIPC_ERR_INVALID, c)
  else
    let c := nextSequence c in
    let hdr := fill_header env (cc_service_id c) (cc_sequence c) in
    given ← copyArgs args arg_count;
    let req := MkToolRequest (strncpy 64 tool) given (zlen given) [] in
    payload ← eipc_tool_request_to_json false (env_args_json env) req EIPC_MAX_PAYLOAD;
    sendPayload env c EIPC_MSG_TOOL_REQUEST hdr payload.

Definition eipc_client_send_heartbeat (null : bool) (env : sdk_env) (c : eipc_client_t) :
    option (eipc_status_t * eipc_client_t) :=
  if null || negb (cc_connected c) then Some (EIPC_ERR_INVALID, c)
  else
    let c := nextSequence c in
    let hdr := fill_header env (cc_service_id c) (cc_sequence c) in
    let hb := MkHeartbeat (strncpy EIPC_SERVICE_ID_MAX (cc_service_id c)) (text "alive") in
    sendPayload env c EIPC_MSG_HEARTBEAT hdr (eipc_heartbeat_to_json false hb EIPC_MAX_PAYLOAD).

Definition eipc_client_send_chat (null : bool) (env : sdk_env) (c : eipc_client_t) (req : eipc_chat_request_t) :
    option (eipc_status_t * eipc_client_t) :=
  if null || negb (cc_connected c) then Some (EIPC_ERR_INVALID, c)
  else
    let c := nextSequence c in
    let hdr := with_capability "ai:chat" (fill_header env (cc_service_id c) (cc_sequence c)) in
    sendPayload env c EIPC_MSG_CHAT hdr (eipc_chat_request_to_json false req EIPC_MAX_PAYLOAD).

(** The text [eipc_client_send_complete] prints; nothing is escaped. *)
Definition completeText (session_id prompt : list byte) : list byte :=
  object [strMember "session_id" session_id; strMember "prompt" prompt; strMember "model" []; numMember "max_tokens" 0].

Definition eipc_client_send_complete (null : bool) (env : sdk_env) (c : eipc_client_t) (prompt : list byte)
    (session_id : option (list byte)) : option (eipc_status_t * eipc_client_t) :=
  if null || negb (cc_connected c) then Some (EIPC_ERR_INVALID, c)
  else
    let c := nextSequence c in
    let hdr := with_capability "ai:chat" (fill_header env (cc_service_id c) (cc_sequence c)) in
    sendPayload env c EIPC_MSG_COMPLETE hdr
      (emit EIPC_ERR_FRAME_TOO_LARGE EIPC_MAX_PAYLOAD (completeText (default [] session_id) prompt)).

Definition eipc_client_close {N} `{Inet N S} (null : bool) (c : eipc_client_t) (n : N) : eipc_client_t * N :=
  if null then (c, n)
  else (MkCClient None (cc_service_id c) (cc_hmac_key c) (cc_hmac_key_len c) 0 false,
        eipc_transport_close (cc_sock c) n).

(** ** Receiving *)

Record eipc_message_t := MkCMessage {
  m_version : Z;
  m_msg_type : byte;
  m_source : list byte;
  m_session_id : list byte;
  m_request_id : list byte;
  m_priority : Z;
  m_capability : list byte;
  m_payload : list byte;
  m_payload_len : Z
}.

Definition zeroMessage : eipc_message_t :=
  MkCMessage 0 (z2b 0) [] [] [] 0 [] (zeros EIPC_MAX_PAYLOAD) 0.

(** The test of the MAC of a frame that asks for it; the inner value is the
    early return. *)
Definition checkMac (env : sdk_env) (key : list byte) (frame : eipc_frame_t) : option (option eipc_status_t) :=
  if hasFlag (c_flags frame) EIPC_FLAG_HMAC then
    r ← eipc_frame_signable_bytes (Some frame) (Some (env_signable env)) EIPC_FRAME_BUF_SIZE;
    let '(signable_len, signable) := r in
    if signable_len =? 0 then Some (Some EIPC_ERR_INTEGRITY)
    else
      ok ← eipc_hmac_verify (env_hmac env) key (take (Z.to_nat signable_len) (default [] signable)) (c_mac frame);
      Some (if ok : bool then None else Some EIPC_ERR_AUTH)
  else Some None.

(** [*msg] from a frame; the header is read as a C string out of its array. *)
Definition fillMessage (frame : eipc_frame_t) : option (eipc_status_t * eipc_message_t) :=
  json ← cstr (c_header frame);
  let '(rc, hdr) := eipc_header_from_json false json (MkCHeader [] [] [] 0 [] 0 [] [] 0) in
  match rc with
  | EIPC_OK =>
      let msg payload len :=
        MkCMessage (c_version frame) (c_msg_type frame) (strncpy EIPC_SERVICE_ID_MAX (ch_service_id hdr))
          (strncpy EIPC_SESSION_ID_MAX (ch_session_id hdr)) (strncpy EIPC_REQUEST_ID_MAX (ch_request_id hdr))
          (ch_priority hdr) (strncpy EIPC_CAPABILITY_MAX (ch_capability hdr)) payload len in
      if 0 <? c_payload_len frame then
        if EIPC_MAX_PAYLOAD <? c_payload_len frame
        then Some (EIPC_ERR_FRAME_TOO_LARGE, msg (zeros EIPC_MAX_PAYLOAD) 0)
        else
          payload ← memcpy 0 (c_payload frame) (Z.to_nat (c_payload_len frame)) (zeros EIPC_MAX_PAYLOAD);
          Some (EIPC_OK, msg payload (c_payload_len frame))
      else Some (EIPC_OK, msg (zeros EIPC_MAX_PAYLOAD) 0)
  | _ => Some (rc, MkCMessage (c_version frame) (c_msg_type frame) [] [] [] 0 [] (zeros EIPC_MAX_PAYLOAD) 0)
  end.

(** What both receive functions do with the socket and the key. *)
Definition receiveMessage (env : sdk_env) (key : list byte) (sock : option S) (msg : eipc_message_t) :
    option (eipc_status_t * eipc_message_t * option S) :=
  r ← eipc_transport_recv_frame (env_malloc env) (Some zeroCFrame) sock;
  match r with
  | (EIPC_OK, Some frame, sock) =>
      bad ← checkMac env key frame;
      match bad with
      | Some rc => Some (rc, msg, sock)
      | None => r ← fillMessage frame; Some (r.1, r.2, sock)
      end
  | (rc, _, sock) => Some (rc, msg, sock)
  end.

Definition eipc_client_receive (null : bool) (env : sdk_env) (c : eipc_client_t) (msg : eipc_message_t) :
    option (eipc_status_t * eipc_message_t * eipc_client_t) :=
  if null || negb (cc_connected c) then Some (EIPC_ERR_INVALID, msg, c)
  else
    r ← receiveMessage env (clientKey c) (cc_sock c) msg;
    let '(rc, msg, sock) := r in Some (rc, msg, with_sock sock c).

(** ** The server *)

Record eipc_server_t := MkCServer { sv_listen_sock : option S; sv_hmac_key : list byte; sv_hmac_key_len : Z }.

Record eipc_conn_t := MkCConn {
  cn_sock : option S;
  cn_hmac_key : list byte;
  cn_hmac_key_len : Z;
  cn_sequence : Z;
  cn_remote_addr : list byte
}.

Definition connKey (c : eipc_conn_t) : list byte := take (Z.to_nat (cn_hmac_key_len c)) (cn_hmac_key c).

Definition with_conn (sock : option S) (sequence : Z) (c : eipc_conn_t) : eipc_conn_t :=
  MkCConn sock (cn_hmac_key c) (cn_hmac_key_len c) sequence (cn_remote_addr c).

Definition eipc_server_init (null : bool) (s : eipc_server_t) : eipc_status_t * eipc_server_t :=
  if null then (EIPC_ERR_INVALID, s) else (EIPC_OK, MkCServer None (zeros EIPC_MAC_SIZE) 0).

Definition eipc_server_listen {N} `{Inet N S} (null : bool) (s : eipc_server_t) (address hmac_key : list byte) (n : N) :
    option (eipc_status_t * eipc_server_t * N) :=
  if null then Some (EIPC_ERR_INVALID, s, n)
  else if EIPC_MAC_SIZE <? zlen hmac_key then Some (EIPC_ERR_INVALID, s, n)
  else
    key ← memcpy 0 hmac_key (length hmac_key) (sv_hmac_key s);
    let '(rc, sock, n) := eipc_transport_listen false (sv_listen_sock s) address n in
    Some (rc, MkCServer sock key (zlen hmac_key), n).

Definition eipc_server_accept {N} `{Inet N S} (null : bool) (s : eipc_server_t) (conn : eipc_conn_t) (n : N) :
    option (eipc_status_t * eipc_conn_t * N) :=
  if null then Some (EIPC_ERR_INVALID, conn, n)
  else match sv_listen_sock s with
  | None => Some (EIPC_ERR_INVALID, conn, n)
  | Some listen_sock =>
      key ← memcpy 0 (sv_hmac_key s) (Z.to_nat (sv_hmac_key_len s)) (zeros EIPC_MAC_SIZE);
      let '(rc, sock, remote_addr, n) := eipc_transport_accept listen_sock 128 n in
      Some (rc, MkCConn sock key (sv_hmac_key_len s) 0 remote_addr, n)
  end.

Definition eipc_server_receive (null : bool) (env : sdk_env) (conn : eipc_conn_t) (msg : eipc_message_t) :
    option (eipc_status_t * eipc_message_t * eipc_conn_t) :=
  if null then Some (EIPC_ERR_INVALID, msg, conn)
  else match cn_sock conn with
  | None => Some (EIPC_ERR_INVALID, msg, conn)
  | Some _ =>
      r ← receiveMessage env (connKey conn) (cn_sock conn) msg;
      let '(rc, msg, sock) := r in
      let sequence := match rc with EIPC_OK => u64 (cn_sequence conn + 1) | _ => cn_sequence conn end in
      Some (rc, msg, with_conn sock sequence conn)
  end.

(** The common end of the two send functions of a connection. *)
Definition sendOn (env : sdk_env) (conn : eipc_conn_t) (msg_type : byte) (header_json payload : list byte) :
    option (eipc_status_t * eipc_conn_t) :=
  frame ← makeFrame msg_type header_json payload;
  r ← signAndSend env (connKey conn) frame (cn_sock conn);
  Some (r.1, with_conn r.2 (cn_sequence conn) conn).

(** A payload that does not fit its buffer is left out. *)
Definition eipc_server_send_ack (null : bool) (env : sdk_env) (conn : eipc_conn_t) (request_id : option (list byte))
    (status : list byte) : option (eipc_status_t * eipc_conn_t) :=
  if null then Some (EIPC_ERR_INVALID, conn)
  else
    let conn := with_conn (cn_sock conn) (u64 (cn_sequence conn + 1)) conn in
    let hdr := MkCHeader (text "eipc-server") [] (strncpy EIPC_REQUEST_ID_MAX (default [] request_id))
                 (cn_sequence conn) (eipc_timestamp_now env EIPC_TIMESTAMP_MAX) EIPC_PRIORITY_P0 [] [] EIPC_PAYLOAD_JSON in
    match eipc_header_to_json false hdr EIPC_MAX_HEADER with
    | (EIPC_OK, header_json) =>
        let ack := object [strMember "request_id" (default [] request_id); strMember "status" status;
                           strMember "error" []] in
        sendOn env conn EIPC_MSG_ACK header_json (if zlen ack <? EIPC_MAX_PAYLOAD then ack else [])
    | (rc, _) => Some (rc, conn)
    end.

Definition eipc_server_send_message (null : bool) (env : sdk_env) (conn : eipc_conn_t) (msg : eipc_message_t) :
    option (eipc_status_t * eipc_conn_t) :=
  if null then Some (EIPC_ERR_INVALID, conn)
  else
    let conn := with_conn (cn_sock conn) (u64 (cn_sequence conn + 1)) conn in
    let hdr := MkCHeader (strncpy EIPC_SERVICE_ID_MAX (m_source msg)) (strncpy EIPC_SESSION_ID_MAX (m_session_id msg))
                 (strncpy EIPC_REQUEST_ID_MAX (m_request_id msg)) (cn_sequence conn)
                 (eipc_timestamp_now env EIPC_TIMESTAMP_MAX) (m_priority msg)
                 (strncpy EIPC_CAPABILITY_MAX (m_capability msg)) [] EIPC_PAYLOAD_JSON in
    match eipc_header_to_json false hdr EIPC_MAX_HEADER with
    | (EIPC_OK, header_json) =>
        if EIPC_MAX_PAYLOAD <? m_payload_len msg then Some (EIPC_ERR_FRAME_TOO_LARGE, conn)
        else sendOn env conn (m_msg_type msg) header_json (take (Z.to_nat (m_payload_len msg)) (m_payload msg))
    | (rc, _) => Some (rc, conn)
    end.

Definition eipc_conn_close {N} `{Inet N S} (null : bool) (conn : eipc_conn_t) (n : N) : eipc_conn_t * N :=
  if null then (conn, n)
  else (with_conn None (cn_sequence conn) conn, eipc_transport_close (cn_sock conn) n).

Definition eipc_server_close {N} `{Inet N S} (null : bool) (s : eipc_server_t) (n : N) : eipc_server_t * N :=
  if null then (s, n)
  else (MkCServer None (sv_hmac_key s) (sv_hmac_key_len s), eipc_transport_close (sv_listen_sock s) n).

End Endpoints.

Arguments eipc_client_t : clear implicits.
Arguments eipc_server_t : clear implicits.
Arguments eipc_conn_t : clear implicits.

(** ** Sockets that are valid *)

Section Valid.
Context {S : Type} `{Socket S}.

Lemma sendLoop_some fuel : forall data (s : S),
  sendLoop fuel data (Some s) = ((sendLoop fuel data s).1, Some (sendLoop fuel data s).2).
Proof.
  induction fuel as [|fuel IH]; intros [|x data] s; try done. cbn [sendLoop sock_send option_Socket].
  destruct (sock_send (x :: data) s) as [n s1]. destruct (n <=? 0); [done|]. apply IH.
Qed.

Lemma recvLoop_some fuel : forall want acc (s : S),
  recvLoop fuel want acc (Some s) = ((recvLoop fuel want acc s).1, Some (recvLoop fuel want acc s).2).
Proof.
  induction fuel as [|fuel IH]; intros [|want] acc s; try done. cbn [recvLoop sock_recv option_Socket].
  destruct (sock_recv _ s) as [bs s1]. destruct (length bs =? 0)%nat; [done|]. apply IH.
Qed.

Lemma send_frame_some encoded frame (s : S) rc s' :
  eipc_transport_send_frame encoded frame s = Some (rc, s') ->
  eipc_transport_send_frame encoded frame (Some s) = Some (rc, Some s').
Proof.
  unfold eipc_transport_send_frame, send_all. destruct frame as [f|]; [|by intros [= <- <-]].
  destruct (eipc_frame_encode _ _ _ _) as [[[[] [b|]] [n|]]|]; cbn [mbind option_bind]; try done;
    try by intros [= <- <-].
  rewrite sendLoop_some. destruct (sendLoop _ _ s) as [[] s1]; cbn [fst snd]; [|by intros [= <- <-]].
  rewrite sendLoop_some. destruct (sendLoop _ _ s1) as [[] s2]; cbn [fst snd]; by intros [= <- <-].
Qed.

Lemma recv_frame_some heap frame (s : S) r :
  eipc_transport_recv_frame heap frame s = r ->
  eipc_transport_recv_frame heap frame (Some s) = (fun '(rc, f, s') => (rc, f, Some s')) <$> r.
Proof.
  intros <-. unfold eipc_transport_recv_frame, recv_all. destruct frame as [f|]; [|done].
  rewrite recvLoop_some. destruct (recvLoop 4 4 [] s) as [[len|] s1]; cbn [fst snd]; [|done].
  destruct (load32 0 len) as [n|]; cbn [mbind option_bind]; [|done].
  destruct (EIPC_MAX_FRAME <? n); [done|]. destruct (negb heap); [done|].
  rewrite recvLoop_some. destruct (recvLoop _ _ [] s1) as [[b|] s2]; cbn [fst snd]; [|done].
  by destruct (eipc_frame_decode _ _ _) as [[rc f']|].
Qed.
End Valid.

(** ** Frames the SDK builds *)

(** The protocol frame with these parts, signed. *)
Definition cSigned (key : list byte) (msg_type : byte) (header payload : list byte) : Frame :=
  let frame := MkFrame EIPC_PROTOCOL_VER msg_type FlagHMAC header payload [] in
  MkFrame (Version frame) (MsgType frame) (Flags frame) (Header frame) (Payload frame)
    (Sign key (SignableBytes frame)).

Lemma cSigned_intact key t h p : integrityOk key (cSigned key t h p) = true.
Proof.
  unfold integrityOk. change (hasFlag (Flags (cSigned key t h p)) FlagHMAC) with true. cbv iota.
  change (SignableBytes (cSigned key t h p)) with (SignableBytes (MkFrame EIPC_PROTOCOL_VER t FlagHMAC h p [])).
  apply Verify_Sign.
Qed.

(** The arrays have their declared sizes. *)
Definition sdk_env_ok (env : sdk_env) : Prop :=
  zlen (env_signable env) = EIPC_FRAME_BUF_SIZE /\ zlen (env_encoded env) = EIPC_FRAME_BUF_SIZE /\
  zlen (env_args_json env) = ARGS_JSON_SIZE /\
  length (env_ctx (env_hmac env)) = 64%nat /\ length (env_ipad (env_hmac env)) = 64%nat /\
  length (env_opad (env_hmac env)) = 64%nat /\ zlen (env_inner_buf (env_hmac env)) = INNER_BUF_SIZE /\
  length (env_outer (env_hmac env)) = 96%nat.

(** Data of up to 64 KiB needs no heap. *)
Lemma hmac_small env key data :
  sdk_env_ok env -> zlen data <= 65536 -> eipc_hmac_sign (env_hmac env) key data = Some (Sign key data).
Proof.
  intros (_ & _ & _ & H1 & H2 & H3 & H4 & H5) Hd. destruct (env_hmac env) as [ctx ipad opad inner outer heap].
  cbn [env_ctx env_ipad env_opad env_inner_buf env_outer] in *.
  transitivity (eipc_hmac_sign (MkHmacEnv ctx ipad opad inner outer None) key data).
  - unfold eipc_hmac_sign. cbn [env_ctx env_ipad env_opad env_inner_buf env_outer env_heap].
    change (INNER_BUF_SIZE - Z.of_nat HMAC_BLOCK_SIZE) with 65536. by rewrite (proj2 (Z.leb_le _ _) Hd).
  - rewrite eipc_hmac_sign_ok by (split_and!; done). by rewrite (proj2 (Z.leb_le _ _) Hd).
Qed.

Lemma pad_full n l : zlen l = n -> pad n l = l.
Proof. intros <-. unfold pad. rewrite Z.sub_diag. apply app_nil_r. Qed.

Lemma zlen_pad n l : zlen l <= n -> zlen (pad n l) = n.
Proof. intros Hl. unfold pad. rewrite zlen_app, zlen_zeros by lia. lia. Qed.

(** A frame that fits the struct, in the struct. *)
Lemma cFrame_ok f : wf_frame f -> c_sized f -> cframe_ok (cFrame f) /\ lengthsExceed (cFrame f) = false.
Proof.
  intros (Hv & _ & Hm) [Hh Hp]. pose proof (zlen_nonneg (Header f)). pose proof (zlen_nonneg (Payload f)).
  assert (zlen (MAC f) <= EIPC_MAC_SIZE) as Hmac.
  { destruct (hasFlag _ _); unfold zlen; rewrite Hm; vm_compute; discriminate. }
  unfold cframe_ok, lengthsExceed, cFrame. cbn [c_version c_header_len c_payload_len c_header c_payload c_mac].
  rewrite !zlen_pad by done. rewrite Hv. unfold EIPC_MAX_HEADER, EIPC_MAX_PAYLOAD, in_u16, in_u32 in *.
  split; [split_and!; try lia; try done; vm_compute; discriminate|].
  rewrite !(proj2 (Z.ltb_ge _ _)) by lia. done.
Qed.


Lemma makeFrame_ok t h p :
  zlen h <= EIPC_MAX_HEADER -> zlen p <= EIPC_MAX_PAYLOAD ->
  makeFrame t h p =
  Some (MkCFrame EIPC_PROTOCOL_VER t EIPC_FLAG_HMAC (pad EIPC_MAX_HEADER h) (zlen h) (pad EIPC_MAX_PAYLOAD p) (zlen p)
          (zeros EIPC_MAC_SIZE)).
Proof.
  intros Hh Hp. unfold makeFrame. rewrite !copy_zeros by (done || exact Hh || exact Hp). cbn [mbind option_bind].
  by rewrite !take_ge.
Qed.

Lemma built_wf t h p mac :
  zlen h <= EIPC_MAX_HEADER -> zlen p <= EIPC_MAX_PAYLOAD -> length mac = MACSize ->
  wf_frame (MkFrame EIPC_PROTOCOL_VER t FlagHMAC h p mac).
Proof.
  intros Hh Hp Hm. split; [done|]. split; [|done]. unfold tooLarge. cbn [Header Payload].
  unfold EIPC_MAX_HEADER, EIPC_MAX_PAYLOAD in *. apply Z.ltb_ge. change MaxFrameSize with 1048576. lia.
Qed.

Lemma cSigned_streamable key t h p :
  zlen h <= EIPC_MAX_HEADER -> zlen p <= EIPC_MAX_PAYLOAD ->
  streamable (cSigned key t h p) /\ c_sized (cSigned key t h p).
Proof.
  intros Hh Hp. assert (wf_frame (cSigned key t h p)) as Hwf by (by apply built_wf, length_Sign).
  assert (c_sized (cSigned key t h p)) as Hsz by done. split; [|done].
  destruct (cFrame_ok _ Hwf Hsz) as [Hok Hl]. rewrite <-(goFrame_cFrame _ Hwf Hsz). by apply goFrame_streamable.
Qed.

Section Sending.
Context {S : Type} `{StreamSocket S}.

Lemma signAndSend_ok env key t h p (s : S) frame :
  sdk_env_ok env -> zlen h <= EIPC_MAX_HEADER -> zlen p <= EIPC_MAX_PAYLOAD -> makeFrame t h p = Some frame ->
  exists s', signAndSend env key frame (Some s) = Some (EIPC_OK, Some s') /\
    sent s' = sent s ++ envelope (cSigned key t h p) /\ incoming s' = incoming s.
Proof.
  intros Henv Hh Hp. rewrite makeFrame_ok by done. intros [= <-]. pose proof Henv as (He1 & He2 & _).
  set (blank := MkFrame EIPC_PROTOCOL_VER t FlagHMAC h p (zeros EIPC_MAC_SIZE)).
  assert (wf_frame blank) as Hwf by (by apply built_wf).
  change (MkCFrame _ _ _ _ _ _ _ _) with (cFrame blank).
  destruct (cFrame_ok blank Hwf ltac:(done)) as [Hok Hl].
  assert (goFrame (cFrame blank) = blank) as Hgo by (by apply goFrame_cFrame).
  pose proof (zlen_signable blank (proj1 (proj2 Hwf))) as Hz. cbn [Header Payload blank] in Hz.
  pose proof (zlen_nonneg h). pose proof (zlen_nonneg p).
  assert (zlen (SignableBytes blank) <= EIPC_FRAME_BUF_SIZE) as Hbuf.
  { unfold EIPC_MAX_HEADER, EIPC_MAX_PAYLOAD in *. change EIPC_FRAME_BUF_SIZE with 5168. lia. }
  unfold signAndSend. rewrite signable_ok, Hgo by (done || (rewrite Hgo; lia)).
  cbn [mbind option_bind]. rewrite (proj2 (Z.eqb_neq _ _)) by lia. cbn [default from_option id].
  assert (take (Z.to_nat (zlen (SignableBytes blank))) (splice 0 (SignableBytes blank) (env_signable env)) =
          SignableBytes blank) as ->.
  { unfold zlen, splice. rewrite Nat2Z.id, take_0. cbn [app]. apply take_app_length. }
  rewrite hmac_small by (done || (change EIPC_FRAME_BUF_SIZE with 5168 in Hbuf; lia)). cbn [mbind option_bind].
  assert (with_mac (Sign key (SignableBytes blank)) (cFrame blank) = cFrame (cSigned key t h p)) as ->.
  { unfold cFrame at 2. unfold cSigned. cbn [Version MsgType Flags Header Payload MAC].
    rewrite (pad_full EIPC_MAC_SIZE (Sign _ _)) by (unfold zlen; by rewrite length_Sign). done. }
  destruct (cSigned_streamable key t h p Hh Hp) as [[Hwf2 _] Hsz2].
  destruct (cFrame_ok _ Hwf2 Hsz2) as [Hok2 Hl2].
  destruct (send_frame_ok (env_encoded env) _ s He2 Hok2 Hl2) as (s' & Hs & Hsent & Hin).
  rewrite goFrame_cFrame in Hsent by done. exists s'. split; [|done]. by apply send_frame_some.
Qed.

Lemma build_and_send_ok env c t hdr p (s : S) :
  sdk_env_ok env -> cc_sock c = Some s -> zlen (headerText hdr) < EIPC_MAX_HEADER -> zlen p <= EIPC_MAX_PAYLOAD ->
  exists s', build_and_send env c t hdr p = Some (EIPC_OK, with_sock (Some s') c) /\
    sent s' = sent s ++ envelope (cSigned (clientKey c) t (headerText hdr) p) /\ incoming s' = incoming s.
Proof.
  intros Henv Hs Hh Hp. unfold build_and_send, eipc_header_to_json.
  rewrite emit_fits by done. rewrite (proj2 (Z.ltb_ge _ _)) by done. rewrite makeFrame_ok by (done || lia). cbn [mbind option_bind].
  rewrite Hs.
  destruct (signAndSend_ok env (clientKey c) t (headerText hdr) p s _ Henv ltac:(lia) Hp
    (makeFrame_ok t (headerText hdr) p ltac:(lia) Hp)) as (s' & -> & Hsent & Hin).
  cbn [mbind option_bind fst snd]. by exists s'.
Qed.

Lemma sendOn_ok env conn t h p (s : S) :
  sdk_env_ok env -> cn_sock conn = Some s -> zlen h <= EIPC_MAX_HEADER -> zlen p <= EIPC_MAX_PAYLOAD ->
  exists s', sendOn env conn t h p = Some (EIPC_OK, with_conn (Some s') (cn_sequence conn) conn) /\
    sent s' = sent s ++ envelope (cSigned (connKey conn) t h p) /\ incoming s' = incoming s.
Proof.
  intros Henv Hs Hh Hp. unfold sendOn. rewrite makeFrame_ok by done. cbn [mbind option_bind]. rewrite Hs.
  destruct (signAndSend_ok env (connKey conn) t h p s _ Henv Hh Hp (makeFrame_ok t h p Hh Hp)) as (s' & -> & Hsent & Hin).
  cbn [mbind option_bind fst snd]. by exists s'.
Qed.

End Sending.

(** ** The headers of the client *)

(** The Go view of the header a client call sends. *)
Definition clientHeader (env : sdk_env) (service_id : list byte) (sequence : Z) (cap : string) : MessageHeader :=
  MkHeader (string_of_bytes (strncpy EIPC_SERVICE_ID_MAX service_id)) ""
    (string_of_bytes (eipc_generate_request_id env EIPC_REQUEST_ID_MAX)) sequence
    (string_of_bytes (eipc_timestamp_now env EIPC_TIMESTAMP_MAX)) EIPC_PRIORITY_P1 cap "" EIPC_PAYLOAD_JSON.

Lemma hexChar_plain d : 0 <= d < 16 -> plainByte (hexChar d) = true.
Proof.
  intros Hd. assert (forallb (fun d => plainByte (hexChar d)) (seqZ 0 16) = true) as H by by vm_compute.
  rewrite forallb_forall in H. apply H, list_elem_of_In, elem_of_seqZ. lia.
Qed.

Lemma hexDigits_facts fuel : forall z, plain (hexDigits fuel z) /\ (length (hexDigits fuel z) <= fuel)%nat.
Proof.
  induction fuel as [|fuel IH]; intros z; [done|]. cbn [hexDigits]. rewrite length_app. cbn [length]. split.
  - apply plain_app; [destruct (z <? 16); [done|apply IH]|]. unfold plain. cbn [forallb].
    by rewrite hexChar_plain by (apply Z.mod_pos_bound; lia).
  - destruct (z <? 16); cbn [length]; [lia|]. destruct (IH (z / 16)). lia.
Qed.

Lemma hexText_facts w z : (w <= 16)%nat -> plain (hexText w z) /\ (length (hexText w z) <= 16)%nat.
Proof.
  intros Hw. destruct (hexDigits_facts 16 z) as [Hp Hl]. unfold hexText.
  rewrite length_app, length_replicate. split; [|lia]. apply plain_app; [|done].
  unfold plain. apply forallb_forall. intros c Hc%list_elem_of_In%elem_of_replicate. by destruct Hc as [-> _].
Qed.

Lemma request_id_ok env :
  plain (eipc_generate_request_id env EIPC_REQUEST_ID_MAX) /\
  field_ok EIPC_REQUEST_ID_MAX (eipc_generate_request_id env EIPC_REQUEST_ID_MAX).
Proof.
  destruct (hexText_facts 8 (u64 (env_time env)) ltac:(lia)) as [H1 L1].
  destruct (hexText_facts 4 (Z.land (env_rand env) 0xFFFF) ltac:(lia)) as [H2 L2].
  unfold eipc_generate_request_id, snprintf. cbn [snd].
  assert (length (text "req-" ++ hexText 8 (u64 (env_time env)) ++ text "-" ++ hexText 4 (Z.land (env_rand env) 65535))
          <= 63)%nat as Hl.
  { rewrite !length_app. change (length (text "req-")) with 4%nat. change (length (text "-")) with 1%nat. lia. }
  rewrite take_ge by (change (Z.to_nat (EIPC_REQUEST_ID_MAX - 1)) with 63%nat; exact Hl).
  assert (plain (text "req-" ++ hexText 8 (u64 (env_time env)) ++ text "-" ++ hexText 4 (Z.land (env_rand env) 65535))) as Hp
    by (apply plain_app; [done|]; apply plain_app; [done|]; by apply plain_app).
  split; [done|]. split; [by apply plain_simple|]. split; [unfold zlen, EIPC_REQUEST_ID_MAX; lia|].
  unfold headerKeys. rewrite !elem_of_cons, elem_of_nil. intros Hin.
  destruct_or! Hin; try done; discriminate Hin.
Qed.

Lemma timestamp_ok env :
  plain (eipc_timestamp_now env EIPC_TIMESTAMP_MAX) /\
  field_ok EIPC_TIMESTAMP_MAX (eipc_timestamp_now env EIPC_TIMESTAMP_MAX) /\
  ParseRFC3339Nano (eipc_timestamp_now env EIPC_TIMESTAMP_MAX) = None.
Proof.
  assert (in_u64 (u64 (env_time env))) as Hu by apply u64_range.
  unfold eipc_timestamp_now, snprintf. cbn [snd]. pose proof (zlen_uint (u64 (env_time env))) as Hz.
  rewrite take_ge by (change (Z.to_nat (EIPC_TIMESTAMP_MAX - 1)) with 39%nat; unfold zlen in Hz; lia).
  destruct (uint_text _ Hu) as (_ & Hd & _). destruct (uint_cons _ Hu) as (d & ds & E & Hd1 & Hd2).
  split; [by apply plain_digits|]. split; [split; [by apply plain_simple, plain_digits|]; split|].
  - unfold EIPC_TIMESTAMP_MAX. lia.
  - rewrite E. unfold headerKeys. rewrite !elem_of_cons, elem_of_nil. intros Hin.
    destruct_or! Hin; try done; injection Hin as -> _; discriminate Hd1.
  - unfold ParseRFC3339Nano, getyear. destruct (_ && _); [|done]. cbn [mbind option_bind].
    destruct (drop 4 (appendInt (u64 (env_time env)) 0)) as [|x l] eqn:Ex; [done|].
    assert (isDigit x = true) as Hx.
    { rewrite <-(take_drop 4 (appendInt (u64 (env_time env)) 0)), Ex, forallb_app in Hd.
      apply andb_true_iff in Hd as [_ Hd]. by apply andb_true_iff in Hd as [? _]. }
    unfold skip. unfold isDigit in Hx. breflect. by rewrite (proj2 (Z.eqb_neq _ _)) by lia.
Qed.

(** A service name that both sides take as it is. *)
Definition service_ok (sid : list byte) : Prop := plain sid /\ field_ok EIPC_SERVICE_ID_MAX sid.

Lemma strncpy_short size s : zlen s < size -> strncpy size s = s.
Proof. intros H. unfold strncpy. apply take_ge. unfold zlen in H. lia. Qed.

Lemma clientHeader_ok env sid seq cap :
  service_ok sid -> in_u64 seq -> cap = "" \/ cap = "ai:chat" ->
  portable (clientHeader env sid seq cap) /\
  cHeaderOf (clientHeader env sid seq cap) = with_capability cap (fill_header env sid seq).
Proof.
  intros [Hp Hf] Hseq Hcap. destruct (request_id_ok env) as [Hr1 Hr2]. destruct (timestamp_ok env) as (Ht1 & Ht2 & _).
  assert (plain (text cap) /\ field_ok EIPC_CAPABILITY_MAX (text cap)) as [Hc1 Hc2].
  { destruct Hcap as [-> | ->]; (split; [done|]); (split; [by apply plain_simple|]);
      (split; [by vm_compute|]); apply (bool_decide_unpack _); by vm_compute. }
  assert (field_ok EIPC_SESSION_ID_MAX (text "") /\ field_ok EIPC_ROUTE_MAX (text "")) as [Hs1 Hs2].
  { split; (split; [by apply plain_simple|]); (split; [by vm_compute|]); apply (bool_decide_unpack _); by vm_compute. }
  unfold portable, cheader_ok, clientHeader, cHeaderOf.
  cbn [hServiceID hSessionID hRequestID hSequence hTimestamp hPriority hCapability hRoute hPayloadFormat
       ch_service_id ch_session_id ch_request_id ch_sequence ch_timestamp ch_priority ch_capability ch_payload_format].
  rewrite !String.list_byte_of_string_of_list_byte. rewrite (strncpy_short _ sid) by apply Hf. split.
  - repeat match goal with |- _ /\ _ => split end; try done.
  - unfold with_capability, fill_header.
    cbn [ch_service_id ch_session_id ch_request_id ch_sequence ch_timestamp ch_priority ch_route ch_payload_format].
    rewrite (strncpy_short _ sid) by apply Hf. by rewrite (strncpy_short _ (text cap)) by apply Hc2.
Qed.

(** ** Sessions of a client *)

(** The calls of the public interface that send. *)
Inductive client_op :=
  | OpIntent (intent : list byte) (confidence : float32)
  | OpTool (tool : list byte) (args : option (list eipc_kv_t)) (arg_count : Z)
  | OpHeartbeat
  | OpChat (req : eipc_chat_request_t)
  | OpComplete (prompt : list byte) (session_id : option (list byte)).

Definition clientCall {S} `{Socket S} (env : sdk_env) (op : client_op) (c : eipc_client_t S) :
    option (eipc_status_t * eipc_client_t S) :=
  match op with
  | OpIntent intent confidence => eipc_client_send_intent false env c intent confidence
  | OpTool tool args arg_count => eipc_client_send_tool_request false env c tool args arg_count
  | OpHeartbeat => eipc_client_send_heartbeat false env c
  | OpChat req => eipc_client_send_chat false env c req
  | OpComplete prompt session_id => eipc_client_send_complete false env c prompt session_id
  end.

Fixpoint clientRun {S} `{Socket S} (calls : list (sdk_env * client_op)) (c : eipc_client_t S) :
    option (list eipc_status_t * eipc_client_t S) :=
  match calls with
  | [] => Some ([], c)
  | (env, op) :: calls' =>
      r ← clientCall env op c;
      rs ← clientRun calls' r.2;
      Some (r.1 :: rs.1, rs.2)
  end.

Definition opType (op : client_op) : byte :=
  match op with
  | OpIntent _ _ => EIPC_MSG_INTENT
  | OpTool _ _ _ => EIPC_MSG_TOOL_REQUEST
  | OpHeartbeat => EIPC_MSG_HEARTBEAT
  | OpChat _ => EIPC_MSG_CHAT
  | OpComplete _ _ => EIPC_MSG_COMPLETE
  end.

Definition opCapability (op : client_op) : string :=
  match op with OpChat _ | OpComplete _ _ => "ai:chat" | _ => "" end.

(** The payload a call prints, with the status of printing it. *)
Definition opPayload (env : sdk_env) (service_id : list byte) (op : client_op) : option (eipc_status_t * list byte) :=
  match op with
  | OpIntent intent confidence =>
      Some (eipc_intent_to_json false (MkCIntent (strncpy EIPC_INTENT_MAX intent) confidence []) EIPC_MAX_PAYLOAD)
  | OpTool tool args arg_count =>
      given ← copyArgs args arg_count;
      eipc_tool_request_to_json false (env_args_json env) (MkToolRequest (strncpy 64 tool) given (zlen given) [])
        EIPC_MAX_PAYLOAD
  | OpHeartbeat =>
      Some (eipc_heartbeat_to_json false (MkHeartbeat (strncpy EIPC_SERVICE_ID_MAX service_id) (text "alive")) EIPC_MAX_PAYLOAD)
  | OpChat req => Some (eipc_chat_request_to_json false req EIPC_MAX_PAYLOAD)
  | OpComplete prompt session_id =>
      Some (emit EIPC_ERR_FRAME_TOO_LARGE EIPC_MAX_PAYLOAD (completeText (default [] session_id) prompt))
  end.

(** The message a Go endpoint should see. *)
Definition goMessage (service_id : list byte) (call : sdk_env * client_op) (payload : list byte) : Message :=
  MkMessage EIPC_PROTOCOL_VER (msgTypeFromByte (opType call.2)) (string_of_bytes service_id) zeroTime ""
    (string_of_bytes (eipc_generate_request_id call.1 EIPC_REQUEST_ID_MAX)) EIPC_PRIORITY_P1
    (opCapability call.2) payload.

Lemma clientCall_eq {S} `{Socket S} env op (c : eipc_client_t S) :
  cc_connected c = true ->
  clientCall env op c =
  payload ← opPayload env (cc_service_id c) op;
  sendPayload env (nextSequence c) (opType op)
    (with_capability (opCapability op) (fill_header env (cc_service_id c) (u64 (cc_sequence c + 1)))) payload.
Proof.
  intros Hc. destruct op; cbn [clientCall opPayload];
    unfold eipc_client_send_intent, eipc_client_send_tool_request, eipc_client_send_heartbeat, eipc_client_send_chat,
      eipc_client_send_complete; rewrite Hc; cbn [orb negb]; [done| |done..].
  by destruct (copyArgs args arg_count).
Qed.

Lemma emit_size err size t b : err <> EIPC_OK -> emit err size t = (EIPC_OK, b) -> zlen b < size.
Proof.
  intros He. unfold emit, snprintf. destruct (Z.leb_spec size (zlen t)); [by intros [= -> _]|].
  intros [= <-]. unfold zlen in *. rewrite length_take. lia.
Qed.

Lemma opPayload_size env sid op p : opPayload env sid op = Some (EIPC_OK, p) -> zlen p < EIPC_MAX_PAYLOAD.
Proof.
  destruct op; cbn [opPayload].
  - intros [= E]. by eapply emit_size in E.
  - destruct (copyArgs args arg_count) as [given|]; [|done]. cbn [mbind option_bind].
    unfold eipc_tool_request_to_json. destruct (push _ _) as [c1|]; [|done]. cbn [mbind option_bind].
    destruct (argsLoop _ _ c1) as [[c2|]|]; [|done..]. cbn [mbind option_bind].
    destruct (push _ c2) as [c3|]; [|done]. cbn [mbind option_bind].
    destruct (CMem.store _ _ _) as [b|]; [|done]. cbn [mbind option_bind].
    destruct (cstr b) as [a|]; [|done]. cbn [mbind option_bind]. intros [= E]. by eapply emit_size in E.
  - intros [= E]. by eapply emit_size in E.
  - intros [= E]. by eapply emit_size in E.
  - intros [= E]. by eapply emit_size in E.
Qed.

(** One call, and the frame it sends. *)
Definition callFrame (key service_id : list byte) (sequence : Z) (call : sdk_env * client_op) (payload : list byte) : Frame :=
  cSigned key (opType call.2) (headerText (cHeaderOf (clientHeader call.1 service_id sequence (opCapability call.2)))) payload.

Lemma clientCall_ok {S} `{StreamSocket S} call (c : eipc_client_t S) s p :
  sdk_env_ok call.1 -> cc_sock c = Some s -> cc_connected c = true -> service_ok (cc_service_id c) ->
  0 <= cc_sequence c -> cc_sequence c + 1 < 2 ^ 64 -> opPayload call.1 (cc_service_id c) call.2 = Some (EIPC_OK, p) ->
  exists s', clientCall call.1 call.2 c = Some (EIPC_OK, with_sock (Some s') (nextSequence c)) /\
    sent s' = sent s ++ envelope (callFrame (clientKey c) (cc_service_id c) (cc_sequence c + 1) call p) /\
    streamable (callFrame (clientKey c) (cc_service_id c) (cc_sequence c + 1) call p).
Proof.
  intros Henv Hs Hcon Hsid Hlo Hhi Hp. assert (in_u64 (cc_sequence c + 1)) as Hseq by (unfold in_u64; lia).
  rewrite clientCall_eq, Hp by done. cbn [mbind option_bind sendPayload]. rewrite u64_id by done.
  destruct (clientHeader_ok call.1 (cc_service_id c) (cc_sequence c + 1) (opCapability call.2) Hsid Hseq)
    as [Hport Hhdr]; [destruct call.2; auto|]. rewrite <-Hhdr.
  pose proof (header_text_short _ (proj1 Hport)) as Hshort. apply opPayload_size in Hp.
  destruct (build_and_send_ok call.1 (nextSequence c) (opType call.2)
    (cHeaderOf (clientHeader call.1 (cc_service_id c) (cc_sequence c + 1) (opCapability call.2))) p s Henv Hs)
    as (s' & -> & Hsent & _); [done|lia|].
  exists s'. split; [done|]. split; [exact Hsent|].
  refine (proj1 (cSigned_streamable _ _ _ _ _ _)); [unfold EIPC_MAX_HEADER|]; lia.
Qed.

(** ... which a Go endpoint that is waiting for its number takes. *)
Lemma go_takes_call call sid p e accepted :
  service_ok sid -> tracks_accepted (se_replay e) accepted -> maxSeen (se_replay e) + 1 < 2 ^ 64 ->
  let f := callFrame (se_hmacKey e) sid (maxSeen (se_replay e) + 1) call p in
  streamable f ->
  exists t', (forall k, ServerEndpoint_Receive (e, MkPipe (envelope f ++ k)) =
    (Ok (goMessage sid call p), (MkServer (se_hmacKey e) t' (se_seq e) (peerCapabilities e), MkPipe k))) /\
    tracks_accepted t' ({[maxSeen (se_replay e) + 1]} ∪ accepted) /\ maxSeen t' = maxSeen (se_replay e) + 1.
Proof.
  intros Hsid Ht Hlen f Hf. pose proof (ta_max _ _ Ht) as Hmax.
  assert (in_u64 (maxSeen (se_replay e) + 1)) as Hseq by (unfold in_u64; lia).
  set (h := clientHeader call.1 sid (maxSeen (se_replay e) + 1) (opCapability call.2)).
  destruct (clientHeader_ok call.1 sid (maxSeen (se_replay e) + 1) (opCapability call.2) Hsid Hseq)
    as [Hport _]; [destruct call.2; auto|].
  destruct (accept_next f e h accepted) as (t' & Ha & Ht' & Hmx); [apply cSigned_intact| |done..|].
  { change (Header f) with (headerText (cHeaderOf h)). rewrite c_header_text, unmarshal_c_header by done. done. }
  exists t'. split; [|done]. intros k. unfold ServerEndpoint_Receive. cbn [chan_recv ConnWrapper_Channel].
  rewrite pipe_Receive. cbn [in_flight]. rewrite Receive_streamable by done. cbn [fst snd]. rewrite Ha.
  do 2 f_equal. unfold messageOf, goMessage, h, clientHeader.
  cbn [hTimestamp hServiceID hSessionID hRequestID hPriority hCapability].
  rewrite String.list_byte_of_string_of_list_byte, (proj2 (proj2 (timestamp_ok call.1))).
  by rewrite strncpy_short by apply Hsid.
Qed.

Lemma client_session {S} `{StreamSocket S} calls : forall payloads (c : eipc_client_t S) s e accepted,
  cc_sock c = Some s -> cc_connected c = true -> service_ok (cc_service_id c) ->
  se_hmacKey e = clientKey c -> tracks_accepted (se_replay e) accepted -> maxSeen (se_replay e) = cc_sequence c ->
  0 <= cc_sequence c -> cc_sequence c + zlen calls < 2 ^ 64 ->
  Forall2 (fun call p => sdk_env_ok call.1 /\ opPayload call.1 (cc_service_id c) call.2 = Some (EIPC_OK, p)) calls payloads ->
  exists c' s' new e', clientRun calls c = Some (replicate (length calls) EIPC_OK, c') /\
    cc_sock c' = Some s' /\ sent s' = sent s ++ new /\
    receiveMessages (length calls) (e, MkPipe new) =
      (Ok (zip_with (goMessage (cc_service_id c)) calls payloads), (e', MkPipe [])).
Proof.
  induction calls as [|call calls IH]; intros payloads c s e accepted Hs Hcon Hsid Hkey Ht Hmx Hlo Hhi Hall.
  { apply Forall2_nil_inv_l in Hall as ->. exists c, s, [], e. split_and!; [done|done|by rewrite app_nil_r|done]. }
  apply Forall2_cons_inv_l in Hall as (p & payloads' & [Henv Hp] & Hall & ->).
  rewrite zlen_cons in Hhi. pose proof (zlen_nonneg calls).
  destruct (clientCall_ok call c s p Henv Hs Hcon Hsid Hlo ltac:(lia) Hp) as (s1 & Hc1 & Hs1 & Hf1).
  set (c1 := with_sock (Some s1) (nextSequence c)) in *.
  assert (cc_sequence c1 = cc_sequence c + 1) as Hseq1.
  { cbn [c1 with_sock nextSequence cc_sequence]. apply u64_id. unfold in_u64. lia. }
  rewrite <-Hkey, <-Hmx in Hf1, Hs1.
  destruct (go_takes_call call (cc_service_id c) p e accepted Hsid Ht ltac:(lia) Hf1) as (t1 & Hr1 & Ht1 & Hmx1).
  destruct (IH payloads' c1 s1 (MkServer (se_hmacKey e) t1 (se_seq e) (peerCapabilities e))
    ({[maxSeen (se_replay e) + 1]} ∪ accepted)) as (c' & s' & new & e' & Hrun & Hsock & Hsent & Hrecv);
    try done; [cbn [se_replay]; lia|lia|lia|].
  exists c', s', (envelope (callFrame (se_hmacKey e) (cc_service_id c) (maxSeen (se_replay e) + 1) call p) ++ new), e'.
  cbn [clientRun]. destruct call as [env op]. cbn [fst snd] in *. rewrite Hc1. cbn [mbind option_bind snd]. rewrite Hrun.
  cbn [mbind option_bind fst snd]. split_and!; [done|done|by rewrite Hsent, Hs1, <-app_assoc|].
  cbn [length receiveMessages zip_with]. unfold mbind, M_bind. rewrite Hr1, Hrecv. done.
Qed.

(** C15: C clients reach Go servers: whatever sequence of fewer than 2^64 calls
    a connected C client makes whose payloads can be printed, over any stream
    socket and with any clock and random numbers, every call succeeds, and a Go
    server endpoint with the same key receives exactly the messages of the
    calls, in order, every signature and sequence number accepted. The name of
    the client's service is plain ASCII without quotes, backslashes, [<], [>]
    and [&], fits its array, and is not the name of a header field. The time
    stamp alone is lost: it is sent as seconds since 1970, which the Go side
    cannot read. *)
Theorem c_session_delivery {S} `{StreamSocket S} (calls : list (sdk_env * client_op)) (payloads : list (list byte))
    (c : eipc_client_t S) (s : S) :
  cc_sock c = Some s -> cc_connected c = true -> cc_sequence c = 0 -> service_ok (cc_service_id c) ->
  zlen calls < 2 ^ 64 ->
  Forall2 (fun call p => sdk_env_ok call.1 /\ opPayload call.1 (cc_service_id c) call.2 = Some (EIPC_OK, p)) calls payloads ->
  exists c' s' new e', clientRun calls c = Some (replicate (length calls) EIPC_OK, c') /\
    cc_sock c' = Some s' /\ sent s' = sent s ++ new /\
    receiveMessages (length calls) (NewServerEndpoint (clientKey c), MkPipe new) =
      (Ok (zip_with (goMessage (cc_service_id c)) calls payloads), (e', MkPipe [])).
Proof.
  intros Hs Hcon Hseq Hsid Hlen Hall.
  apply (client_session calls payloads c s (NewServerEndpoint (clientKey c)) ∅); try done; rewrite ?Hseq; try done.
  apply NewTracker_ok. unfold in_i64. lia.
Qed.

(** ** Receiving *)


Lemma cstr_pad n l : nonul l -> zlen l < n -> cstr (pad n l) = Some l.
Proof.
  intros Hl Hn. unfold pad. assert (exists k, zeros (n - zlen l) = z2b 0 :: k) as [k ->].
  { unfold zeros. destruct (Z.to_nat (n - zlen l)) as [|m] eqn:E; [lia|]. by eexists. }
  by apply cstr_app.
Qed.



Lemma checkMac_ok env key f :
  sdk_env_ok env -> wf_frame f -> c_sized f ->
  checkMac env key (cFrame f) = Some (if integrityOk key f then None else Some EIPC_ERR_AUTH).
Proof.
  intros Henv Hwf Hsz. destruct (cFrame_ok f Hwf Hsz) as [Hok Hl]. pose proof Henv as (He & _).
  unfold checkMac, integrityOk. change (c_flags (cFrame f)) with (Flags f). change EIPC_FLAG_HMAC with FlagHMAC.
  destruct (hasFlag (Flags f) FlagHMAC) eqn:Hfl; [|done].
  pose proof (zlen_signable f (proj1 (proj2 Hwf))) as Hz. destruct Hsz as [Hh Hp].
  pose proof (zlen_nonneg (Header f)). pose proof (zlen_nonneg (Payload f)).
  assert (zlen (SignableBytes f) <= EIPC_FRAME_BUF_SIZE) as Hbuf.
  { unfold EIPC_MAX_HEADER, EIPC_MAX_PAYLOAD in *. change EIPC_FRAME_BUF_SIZE with 5168. lia. }
  rewrite signable_ok, goFrame_cFrame by (done || (rewrite goFrame_cFrame by done; lia)).
  cbn [mbind option_bind]. rewrite (proj2 (Z.eqb_neq _ _)) by lia. cbn [default from_option id].
  assert (take (Z.to_nat (zlen (SignableBytes f))) (splice 0 (SignableBytes f) (env_signable env)) = SignableBytes f) as ->.
  { unfold zlen, splice. rewrite Nat2Z.id, take_0. cbn [app]. apply take_app_length. }
  destruct Hwf as (_ & _ & Hm). rewrite Hfl in Hm.
  assert (c_mac (cFrame f) = MAC f) as -> by (apply pad_full; unfold zlen; by rewrite Hm).
  rewrite (eipc_hmac_verify_ok _ _ _ _ (Sign key (SignableBytes f)));
    [|done|apply length_Sign|apply hmac_small; [done|change EIPC_FRAME_BUF_SIZE with 5168 in Hbuf; lia]].
  done.
Qed.

(** What the receiver gets from a socket that delivers no more than it is
    asked for: a status, and with success a frame of the protocol. *)
Section Safe.
Context {S : Type} `{Socket S}.
Context (recv_le : forall n (s : S), (0 < n)%nat -> (length (sock_recv n s).1 <= n)%nat).




End Safe.

(** ** Messages from Go *)

Lemma go_header_facts h :
  portable h -> nonul (print (headerJSON h)) /\ zlen (print (headerJSON h)) < EIPC_MAX_HEADER.
Proof.
  intros Hport. rewrite go_header_text by done.
  destruct Hport as ((F1 & F2 & F3 & F4 & F5 & Hseq & Hpr & Hpf) & F6 & P1 & P2 & P3 & P4 & P5 & P6).
  unfold cHeaderOf, headerMembers in *.
  cbn [ch_service_id ch_session_id ch_request_id ch_sequence ch_timestamp ch_priority ch_capability ch_payload_format] in *.
  assert (forall n, in_u8 n -> in_u64 n) as H8 by (unfold in_u8, in_u64; lia). split.
  - apply object_nonul. unfold nonempty.
    destruct (String.eqb (hCapability h) ""), (String.eqb (hRoute h) ""); cbn [optMember app];
      repeat (apply Forall_cons; split); try apply Forall_nil_2; (split; [done|]); cbn [snd]; auto.
  - pose proof (zlen_uint (hSequence h)). pose proof (zlen_uint (hPriority h)). pose proof (zlen_uint (hPayloadFormat h)).
    destruct F1 as (_ & L1 & _), F2 as (_ & L2 & _), F3 as (_ & L3 & _), F4 as (_ & L4 & _), F5 as (_ & L5 & _), F6 as (_ & L6 & _).
    unfold EIPC_SERVICE_ID_MAX, EIPC_SESSION_ID_MAX, EIPC_REQUEST_ID_MAX, EIPC_TIMESTAMP_MAX, EIPC_CAPABILITY_MAX,
      EIPC_ROUTE_MAX, EIPC_MAX_HEADER in *.
    unfold nonempty, object.
    revert L1 L2 L3 L4 L5 L6. generalize (text (hServiceID h)) (text (hSessionID h)) (text (hRequestID h))
      (text (hTimestamp h)) (text (hCapability h)) (text (hRoute h)). intros.
    destruct (String.eqb (hCapability h) ""), (String.eqb (hRoute h) "");
      cbn [optMember app fmap list_fmap commaSep]; unfold member; cbn [fst snd valText]; unfold quoted;
      repeat (rewrite zlen_cons || rewrite zlen_app);
      repeat match goal with |- context [zlen (text ?s)] =>
        let n := eval vm_compute in (zlen (text s)) in change (zlen (text s)) with n end;
      change (zlen (@nil byte)) with 0; lia.
Qed.

(** A Go message in the struct of the C side. *)
Definition cMessageOf (m : Message) : eipc_message_t :=
  MkCMessage ProtocolVersion (MsgTypeToByte (MType m)) (text (Source m)) (text (SessionID m)) (text (RequestID m))
    (MPriority m) (text (Capability m)) (pad EIPC_MAX_PAYLOAD (MPayload m)) (zlen (MPayload m)).

(** A message out of a frame whose header is the object of these members. *)
Lemma fillMessage_members f h cap route :
  cheader_ok h -> default [] cap = ch_capability h -> (forall r, route = Some r -> field_ok EIPC_ROUTE_MAX r) ->
  Header f = object (member <$> headerMembers h cap route) -> nonul (Header f) -> zlen (Header f) < EIPC_MAX_HEADER ->
  zlen (Payload f) <= EIPC_MAX_PAYLOAD ->
  fillMessage (cFrame f) = Some (EIPC_OK, MkCMessage (Version f) (MsgType f) (ch_service_id h) (ch_session_id h)
    (ch_request_id h) (ch_priority h) (ch_capability h) (pad EIPC_MAX_PAYLOAD (Payload f)) (zlen (Payload f))).
Proof.
  intros Hc Hcap Hroute Hh Hnul Hlen Hp. unfold fillMessage.
  cbn [cFrame c_header c_payload c_payload_len c_version c_msg_type].
  rewrite cstr_pad by done. cbn [mbind option_bind]. rewrite Hh, from_members by done.
  destruct Hc as ((_ & L1 & _) & (_ & L2 & _) & (_ & L3 & _) & _ & (_ & L5 & _) & _).
  cbn [ch_service_id ch_session_id ch_request_id ch_priority ch_capability].
  rewrite !strncpy_short by done. pose proof (zlen_nonneg (Payload f)).
  destruct (Z.ltb_spec 0 (zlen (Payload f))) as [H0|H0].
  - rewrite (proj2 (Z.ltb_ge _ _)) by done. unfold pad at 1.
    rewrite copy_zeros; [|rewrite length_app; unfold zlen in *; lia|unfold zlen in *; lia].
    cbn [mbind option_bind]. unfold zlen at 1. by rewrite Nat2Z.id, take_app_length.
  - assert (Payload f = []) as -> by (apply nil_length_inv; unfold zlen in *; lia). by rewrite pad_nil.
Qed.

Lemma fillMessage_go key seq m :
  portable (headerOf seq m) -> zlen (MPayload m) <= EIPC_MAX_PAYLOAD ->
  fillMessage (cFrame (signedFrame key (print (headerJSON (headerOf seq m))) m)) = Some (EIPC_OK, cMessageOf m).
Proof.
  intros Hport Hp. destruct (go_header_facts _ Hport) as [Hnul Hlen]. pose proof Hport as (Hc & Hr & _).
  set (f := signedFrame _ _ _).
  by rewrite (fillMessage_members f _ _ _ Hc (nonempty_cap _) (nonempty_route _ Hr) (go_header_text _ Hport) Hnul Hlen Hp).
Qed.

Lemma c_header_facts h :
  portable h -> nonul (headerText (cHeaderOf h)) /\ zlen (headerText (cHeaderOf h)) < EIPC_MAX_HEADER.
Proof.
  intros ((F1 & F2 & F3 & F4 & F5 & Hseq & Hpr & Hpf) & _ & P1 & P2 & P3 & P4 & P5 & _).
  assert (forall n, in_u8 n -> in_u64 n) as H8 by (unfold in_u8, in_u64; lia).
  split; [|by apply header_text_short].
  change (headerText (cHeaderOf h)) with
    (object (member <$> headerMembers (cHeaderOf h) (Some (ch_capability (cHeaderOf h))) None)).
  apply object_nonul. unfold headerMembers, cHeaderOf.
  cbn [ch_service_id ch_session_id ch_request_id ch_sequence ch_timestamp ch_priority ch_capability ch_payload_format
       optMember app] in *.
  repeat (apply Forall_cons; split); try apply Forall_nil_2; (split; [done|]); cbn [snd]; auto.
Qed.

(** The message in a frame that the C side has built. *)
Definition cMessage (t : byte) (h : MessageHeader) (payload : list byte) : eipc_message_t :=
  MkCMessage EIPC_PROTOCOL_VER t (text (hServiceID h)) (text (hSessionID h)) (text (hRequestID h)) (hPriority h)
    (text (hCapability h)) (pad EIPC_MAX_PAYLOAD payload) (zlen payload).

Lemma fillMessage_c key t h p :
  portable h -> zlen p <= EIPC_MAX_PAYLOAD ->
  fillMessage (cFrame (cSigned key t (headerText (cHeaderOf h)) p)) = Some (EIPC_OK, cMessage t h p).
Proof.
  intros Hport Hp. destruct (c_header_facts h Hport) as [Hnul Hlen]. set (f := cSigned _ _ _ _).
  by rewrite (fillMessage_members f (cHeaderOf h) (Some (ch_capability (cHeaderOf h))) None) by (done || apply Hport).
Qed.

(** A frame in front of the stream whose signature is right. *)
Lemma receiveMessage_ok {S} `{StreamSocket S} env key f k (s : S) m msg :
  sdk_env_ok env -> env_malloc env = true -> streamable f -> c_sized f -> integrityOk key f = true ->
  fillMessage (cFrame f) = Some (EIPC_OK, m) -> incoming s = envelope f ++ k ->
  exists s', receiveMessage env key (Some s) msg = Some (EIPC_OK, m, Some s') /\ incoming s' = k /\ sent s' = sent s.
Proof.
  intros Henv Hheap Hst Hsz Hi Hfill Hin. destruct (recv_frame_ok zeroCFrame f k s Hst Hsz Hin) as (s' & Hr & Hk).
  exists s'. split; [|done]. unfold receiveMessage. rewrite Hheap.
  rewrite (recv_frame_some _ _ _ _ Hr). cbn [fmap option_fmap option_map mbind option_bind].
  rewrite checkMac_ok by (done || apply Hst). rewrite Hi. cbn [mbind option_bind]. by rewrite Hfill.
Qed.

(** The frame of such a message in front of a stream. *)
Lemma receive_go {S} `{StreamSocket S} key seq m env (c : eipc_client_t S) s k msg :
  portable (headerOf seq m) -> zlen (MPayload m) <= EIPC_MAX_PAYLOAD ->
  let f := signedFrame key (print (headerJSON (headerOf seq m))) m in
  streamable f /\
  (sdk_env_ok env -> env_malloc env = true -> cc_connected c = true -> clientKey c = key -> cc_sock c = Some s ->
   incoming s = envelope f ++ k ->
   exists s', eipc_client_receive false env c msg = Some (EIPC_OK, cMessageOf m, with_sock (Some s') c) /\ incoming s' = k).
Proof.
  intros Hport Hp f. destruct (go_header_facts _ Hport) as [_ Hlen].
  destruct (cSigned_streamable key (MsgTypeToByte (MType m)) (print (headerJSON (headerOf seq m))) (MPayload m)
    ltac:(lia) Hp) as [Hst Hsz]. change (cSigned _ _ _ _) with f in Hst, Hsz. split; [done|].
  intros Henv Hheap Hcon Hkey Hs Hin.
  destruct (receiveMessage_ok env key f k s (cMessageOf m) msg Henv Hheap Hst Hsz) as (s' & Hr & Hk & _);
    [apply signedFrame_intact|by apply fillMessage_go|done|].
  exists s'. split; [|done]. unfold eipc_client_receive. rewrite Hcon, Hs, Hkey. cbn [orb negb]. by rewrite Hr.
Qed.

(** The C receivers have no replay protection: a signed frame that is delivered
    twice is accepted twice. *)
Lemma c_replay_accepted {S} `{StreamSocket S} key seq m env (c : eipc_client_t S) s msg :
  portable (headerOf seq m) -> zlen (MPayload m) <= EIPC_MAX_PAYLOAD ->
  sdk_env_ok env -> env_malloc env = true -> cc_connected c = true -> clientKey c = key -> cc_sock c = Some s ->
  let f := signedFrame key (print (headerJSON (headerOf seq m))) m in
  incoming s = envelope f ++ envelope f ->
  exists c1 c2, eipc_client_receive false env c msg = Some (EIPC_OK, cMessageOf m, c1) /\
    eipc_client_receive false env c1 msg = Some (EIPC_OK, cMessageOf m, c2).
Proof.
  intros Hport Hp Henv Hheap Hcon Hkey Hs f Hin.
  destruct (receive_go key seq m env c s (envelope f) msg Hport Hp) as [_ H1].
  destruct (H1 Henv Hheap Hcon Hkey Hs Hin) as (s1 & E1 & Hs1).
  destruct (receive_go key seq m env (with_sock (Some s1) c) s1 [] msg Hport Hp) as [_ H2].
  destruct (H2 Henv Hheap Hcon Hkey eq_refl) as (s2 & E2 & _); [by rewrite app_nil_r|]. eauto.
Qed.

(** C16: Go servers reach C clients: a message a Go server endpoint sends
    arrives at a C client with the same key with the same type, source, session,
    request, priority, capability and payload, whatever parts of the stream each
    system call delivers, and the client takes exactly its bytes. The strings of
    the header are plain ASCII without quotes, backslashes, [<], [>] and [&],
    fit the C arrays, and are not names of header fields; the payload is at most
    4096 bytes; [malloc] succeeds. *)
Theorem go_reaches_c {S} `{StreamSocket S} (e : ServerEndpoint) (m : Message) (env : sdk_env) (c : eipc_client_t S)
    (s : S) (k : list byte) (msg : eipc_message_t) :
  portable (headerOf (u64 (se_seq e + 1)) m) -> zlen (MPayload m) <= EIPC_MAX_PAYLOAD ->
  sdk_env_ok env -> env_malloc env = true -> cc_connected c = true -> clientKey c = se_hmacKey e ->
  let '(r, (_, wire)) := ServerEndpoint_Send m (e, MkPipe []) in
  r = Ok tt /\
  (cc_sock c = Some s -> incoming s = in_flight wire ++ k ->
   exists s', eipc_client_receive false env c msg = Some (EIPC_OK, cMessageOf m, with_sock (Some s') c) /\ incoming s' = k).
Proof.
  intros Hport Hp Henv Hheap Hcon Hkey. unfold ServerEndpoint_Send. cbn [Marshal JSONCodec se_hmacKey].
  destruct (receive_go (se_hmacKey e) (u64 (se_seq e + 1)) m env c s k msg Hport Hp) as [Hst Hrecv].
  cbn [chan_send ConnWrapper_Channel]. rewrite Send_pipe by apply Hst. split; [done|].
  cbn [in_flight app]. intros Hs Hin. by apply Hrecv.
Qed.

(** ** Samples *)

Definition sampleEnv : sdk_env :=
  MkSdkEnv 1700000000 42 true zeroEnv (zeros EIPC_FRAME_BUF_SIZE) (zeros EIPC_FRAME_BUF_SIZE) (zeros ARGS_JSON_SIZE).

Lemma sampleEnv_ok : sdk_env_ok sampleEnv.
Proof.
  destruct (zeroEnv_ok []) as (H1 & H2 & H3 & H4 & H5 & _).
  unfold sdk_env_ok, sampleEnv. cbn [env_signable env_encoded env_args_json env_hmac].
  rewrite !zlen_zeros by (vm_compute; discriminate). by split_and!.
Qed.

Definition sampleClient (s : slowSocket) : eipc_client_t slowSocket :=
  MkCClient (Some s) (text "nia.min") (text "k" ++ zeros 31) 1 0 true.

Lemma sampleService_ok : service_ok (text "nia.min").
Proof.
  split; [reflexivity|]. split; [by apply plain_simple|]. split; [reflexivity|]. apply (bool_decide_unpack _). reflexivity.
Qed.

Lemma c_session_delivery_witness :
  exists c', clientRun [(sampleEnv, OpHeartbeat)] (sampleClient (MkSlow [] [])) = Some ([EIPC_OK], c').
Proof.
  destruct (c_session_delivery [(sampleEnv, OpHeartbeat)]
    [snd (eipc_heartbeat_to_json false (MkHeartbeat (text "nia.min") (text "alive")) EIPC_MAX_PAYLOAD)]
    (sampleClient (MkSlow [] [])) (MkSlow [] [])) as (c' & s' & new & e' & Hr & _);
    [reflexivity|reflexivity|reflexivity|exact sampleService_ok|reflexivity| |].
  - constructor; [|constructor]. split; [exact sampleEnv_ok|reflexivity].
  - exists c'. exact Hr.
Defined.




Definition sampleAck : Message := MkMessage 1 TypeAck "eipc-server" zeroTime "" "r1" 0 "" (text "{}").

Lemma go_reaches_c_witness :
  exists s', eipc_client_receive false sampleEnv
    (sampleClient (MkSlow [] (in_flight (snd (snd (ServerEndpoint_Send sampleAck (NewServerEndpoint (text "k"), MkPipe [])))) ++ [])))
    zeroMessage = Some (EIPC_OK, cMessageOf sampleAck, sampleClient s').
Proof.
  set (s := MkSlow [] _).
  pose proof (go_reaches_c (NewServerEndpoint (text "k")) sampleAck sampleEnv (sampleClient s) s [] zeroMessage) as H.
  destruct (ServerEndpoint_Send sampleAck (NewServerEndpoint (text "k"), MkPipe [])) as [r [e' w]].
  destruct H as [_ H]; [apply (bool_decide_unpack _); reflexivity|vm_compute; discriminate|exact sampleEnv_ok
    |reflexivity|reflexivity|reflexivity|].
  destruct H as (s' & H & _); [reflexivity|reflexivity|]. exists s'. exact H.
Defined.
