(* ===== verification/CEasy.v ===== *)
(** * The convenience layer of the C SDK: src/sdk/c/src/eipc_easy.c

    Handles that wrap a client, or a server with one connection, and count
    what they do.  The theorems: the statistics account for every call, and an
    intent and its acknowledgement cross between two handles. *)

From Stdlib Require Import SpecFloat.
From S2P Require Import Prelude Time Utf8 Json Frame Sha256 Integrity Transport Replay Message Codec Endpoint.
From S2P Require Import CMem CSha256 CFrame CTransport CJson CFloat CIntent CSocket CEndpoint.
Local Open Scope string_scope.
Local Open Scope list_scope.
Local Open Scope Z_scope.

(** ** Statistics *)

Record eipc_easy_stats_t := MkStats {
  sent_count : Z; received_count : Z; ack_count : Z; error_count : Z
}.

Definition zeroStats : eipc_easy_stats_t := MkStats 0 0 0 0.

(** The counter a call increments. *)
Inductive counter := SentCount | ReceivedCount | AckCount | ErrorCount | NoCount.

#[global] Instance counter_eq : EqDecision counter.
Proof. solve_decision. Defined.

Definition incr (k : counter) (st : eipc_easy_stats_t) : eipc_easy_stats_t :=
  match k with
  | SentCount => MkStats (u64 (sent_count st + 1)) (received_count st) (ack_count st) (error_count st)
  | ReceivedCount => MkStats (sent_count st) (u64 (received_count st + 1)) (ack_count st) (error_count st)
  | AckCount => MkStats (sent_count st) (received_count st) (u64 (ack_count st + 1)) (error_count st)
  | ErrorCount => MkStats (sent_count st) (received_count st) (ack_count st) (u64 (error_count st + 1))
  | NoCount => st
  end.

(** [if (rc == EIPC_OK) h->stats.<k>++; else h->stats.error_count++;] *)
Definition tally (k : counter) (rc : eipc_status_t) (st : eipc_easy_stats_t) : eipc_easy_stats_t :=
  match rc with EIPC_OK => incr k st | _ => incr ErrorCount st end.

Section Easy.
Context {S : Type} `{Socket S}.

(** ** Client handles *)

Record eipc_easy_client := MkEasyClient {
  ec_client : eipc_client_t S; ec_connected : bool; ec_stats : eipc_easy_stats_t
}.

(** [memset]; the socket is set by [eipc_client_init]. *)
Definition zeroClient : eipc_client_t S := MkCClient None [] (zeros EIPC_MAC_SIZE) 0 0 false.

(** [heap] says whether [malloc] succeeds, [out] is what [*out] holds. *)
Definition eipc_easy_connect {N} `{Inet N S} (null heap : bool) (addr hmac_key service_id : list byte)
    (out : option eipc_easy_client) (n : N) : option (eipc_status_t * option eipc_easy_client * N) :=
  if null then Some (EIPC_ERR_INVALID, out, n)
  else if negb heap then Some (EIPC_ERR_NOMEM, None, n)
  else
    match eipc_client_init false zeroClient service_id with
    | (EIPC_OK, client) =>
        r ← eipc_client_connect false client addr hmac_key n;
        match r with
        | (EIPC_OK, client, n) => Some (EIPC_OK, Some (MkEasyClient client true zeroStats), n)
        | (rc, _, n) => Some (rc, None, n)
        end
    | (rc, _) => Some (rc, None, n)
    end.

(** The body the four send functions share. *)
Definition easySend (bad : bool) (h : eipc_easy_client)
    (send : eipc_client_t S -> option (eipc_status_t * eipc_client_t S)) : option (eipc_status_t * eipc_easy_client) :=
  if bad || negb (ec_connected h) then Some (EIPC_ERR_INVALID, h)
  else
    r ← send (ec_client h);
    let '(rc, client) := r in
    Some (rc, MkEasyClient client (ec_connected h) (tally SentCount rc (ec_stats h))).

Definition eipc_easy_send_intent (null : bool) (env : sdk_env) (h : eipc_easy_client) (intent : list byte)
    (confidence : float32) : option (eipc_status_t * eipc_easy_client) :=
  easySend null h (fun c => eipc_client_send_intent false env c intent confidence).

Definition eipc_easy_send_tool_request (null : bool) (env : sdk_env) (h : eipc_easy_client) (tool : list byte)
    (args : option (list eipc_kv_t)) (arg_count : Z) : option (eipc_status_t * eipc_easy_client) :=
  easySend null h (fun c => eipc_client_send_tool_request false env c tool args arg_count).

Definition eipc_easy_send_chat (null : bool) (env : sdk_env) (h : eipc_easy_client) (req : eipc_chat_request_t) :
    option (eipc_status_t * eipc_easy_client) :=
  easySend null h (fun c => eipc_client_send_chat false env c req).

Definition eipc_easy_send_complete (null : bool) (env : sdk_env) (h : eipc_easy_client) (prompt : list byte)
    (session_id : option (list byte)) : option (eipc_status_t * eipc_easy_client) :=
  easySend null h (fun c => eipc_client_send_complete false env c prompt session_id).

Definition eipc_easy_receive (null : bool) (env : sdk_env) (h : eipc_easy_client) (msg : eipc_message_t) :
    option (eipc_status_t * eipc_message_t * eipc_easy_client) :=
  if null || negb (ec_connected h) then Some (EIPC_ERR_INVALID, msg, h)
  else
    r ← eipc_client_receive false env (ec_client h) msg;
    let '(rc, msg, client) := r in
    Some (rc, msg, MkEasyClient client (ec_connected h) (tally ReceivedCount rc (ec_stats h))).

(** The checks of the typed receivers: the status, the type of the message,
    and its payload, read as a C string out of its array. *)
Definition typedPayload {A} (want : byte) (parse : list byte -> A -> eipc_status_t * A) (out : A)
    (rc : eipc_status_t) (msg : eipc_message_t) : option (eipc_status_t * A) :=
  match rc with
  | EIPC_OK =>
      if bool_decide (m_msg_type msg = want) then json ← cstr (m_payload msg); Some (parse json out)
      else Some (EIPC_ERR_PROTOCOL, out)
  | _ => Some (rc, out)
  end.

Definition eipc_easy_recv_ack (null : bool) (env : sdk_env) (h : eipc_easy_client) (ack : eipc_ack_t) :
    option (eipc_status_t * eipc_ack_t * eipc_easy_client) :=
  if null || negb (ec_connected h) then Some (EIPC_ERR_INVALID, ack, h)
  else
    r ← eipc_client_receive false env (ec_client h) zeroMessage;
    let '(rc, msg, client) := r in
    r ← typedPayload EIPC_MSG_ACK (eipc_ack_from_json false) ack rc msg;
    let '(rc, ack) := r in
    Some (rc, ack, MkEasyClient client (ec_connected h) (tally AckCount rc (ec_stats h))).

(** The handle is freed; the statistics are also printed. *)
Definition eipc_easy_close {N} `{Inet N S} (null : bool) (h : eipc_easy_client) (n : N) : N :=
  if null then n else if ec_connected h then snd (eipc_client_close false (ec_client h) n) else n.

Definition eipc_easy_client_stats (h : option eipc_easy_client) : eipc_easy_stats_t :=
  match h with None => zeroStats | Some h => ec_stats h end.

(** ** Server handles *)

Record eipc_easy_server := MkEasyServer {
  es_server : eipc_server_t S; es_conn : eipc_conn_t S; es_listening : bool; es_has_client : bool;
  es_stats : eipc_easy_stats_t
}.

Definition zeroServer : eipc_server_t S := MkCServer None (zeros EIPC_MAC_SIZE) 0.
Definition zeroConn : eipc_conn_t S := MkCConn None (zeros EIPC_MAC_SIZE) 0 0 [].

Definition eipc_easy_listen {N} `{Inet N S} (null heap : bool) (addr hmac_key : list byte)
    (out : option eipc_easy_server) (n : N) : option (eipc_status_t * option eipc_easy_server * N) :=
  if null then Some (EIPC_ERR_INVALID, out, n)
  else if negb heap then Some (EIPC_ERR_NOMEM, None, n)
  else
    match eipc_server_init false zeroServer with
    | (EIPC_OK, server) =>
        r ← eipc_server_listen false server addr hmac_key n;
        match r with
        | (EIPC_OK, server, n) => Some (EIPC_OK, Some (MkEasyServer server zeroConn true false zeroStats), n)
        | (rc, _, n) => Some (rc, None, n)
        end
    | (rc, _) => Some (rc, None, n)
    end.

(** A connection the handle already has is overwritten, not closed. *)
Definition eipc_easy_accept {N} `{Inet N S} (null : bool) (h : eipc_easy_server) (n : N) :
    option (eipc_status_t * eipc_easy_server * N) :=
  if null || negb (es_listening h) then Some (EIPC_ERR_INVALID, h, n)
  else
    r ← eipc_server_accept false (es_server h) (es_conn h) n;
    let '(rc, conn, n) := r in
    let has_client := match rc with EIPC_OK => true | _ => es_has_client h end in
    Some (rc, MkEasyServer (es_server h) conn (es_listening h) has_client (tally NoCount rc (es_stats h)), n).

(** The handle after a call on its connection. *)
Definition with_easy_conn (conn : eipc_conn_t S) (k : counter) (rc : eipc_status_t) (h : eipc_easy_server) :
    eipc_easy_server :=
  MkEasyServer (es_server h) conn (es_listening h) (es_has_client h) (tally k rc (es_stats h)).

(** The body the two typed receivers of the server share. *)
Definition easyRecv {A} (bad : bool) (want : byte) (parse : list byte -> A -> eipc_status_t * A) (env : sdk_env)
    (h : eipc_easy_server) (out : A) : option (eipc_status_t * A * eipc_easy_server) :=
  if bad || negb (es_has_client h) then Some (EIPC_ERR_INVALID, out, h)
  else
    r ← eipc_server_receive false env (es_conn h) zeroMessage;
    let '(rc, msg, conn) := r in
    r ← typedPayload want parse out rc msg;
    let '(rc, out) := r in
    Some (rc, out, with_easy_conn conn ReceivedCount rc h).

Definition eipc_easy_recv_intent (null : bool) (env : sdk_env) (h : eipc_easy_server) (intent_out : eipc_intent_t) :
    option (eipc_status_t * eipc_intent_t * eipc_easy_server) :=
  easyRecv null EIPC_MSG_INTENT (eipc_intent_from_json false) env h intent_out.

Definition eipc_easy_recv_chat (null : bool) (env : sdk_env) (h : eipc_easy_server) (chat_out : eipc_chat_request_t) :
    option (eipc_status_t * eipc_chat_request_t * eipc_easy_server) :=
  easyRecv null EIPC_MSG_CHAT (eipc_chat_request_from_json false) env h chat_out.

(** A request identifier that is missing or empty is made up. *)
Definition eipc_easy_send_ack (null : bool) (env : sdk_env) (h : eipc_easy_server) (request_id : option (list byte))
    (status : list byte) : option (eipc_status_t * eipc_easy_server) :=
  if null || negb (es_has_client h) then Some (EIPC_ERR_INVALID, h)
  else
    let request_id := match request_id with
                      | None | Some [] => eipc_generate_request_id env EIPC_REQUEST_ID_MAX
                      | Some rid => rid
                      end in
    r ← eipc_server_send_ack false env (es_conn h) (Some request_id) status;
    let '(rc, conn) := r in
    Some (rc, with_easy_conn conn AckCount rc h).

Definition eipc_easy_send_chat_response (null : bool) (env : sdk_env) (h : eipc_easy_server)
    (session_id : option (list byte)) (response : list byte) (model : option (list byte)) (tokens_used : Z) :
    option (eipc_status_t * eipc_easy_server) :=
  if null || negb (es_has_client h) then Some (EIPC_ERR_INVALID, h)
  else
    let session := strncpy EIPC_SESSION_ID_MAX (default [] session_id) in
    let resp := MkChatResponse session (strncpy EIPC_MAX_PAYLOAD response) (strncpy 64 (default [] model)) tokens_used in
    match eipc_chat_response_to_json false resp EIPC_MAX_PAYLOAD with
    | (EIPC_OK, payload_json) =>
        payload ← memcpy 0 payload_json (length payload_json) (zeros EIPC_MAX_PAYLOAD);
        let msg := MkCMessage EIPC_PROTOCOL_VER EIPC_MSG_CHAT (text "eipc-easy") session [] 0 [] payload (zlen payload_json) in
        r ← eipc_server_send_message false env (es_conn h) msg;
        let '(rc, conn) := r in
        Some (rc, with_easy_conn conn SentCount rc h)
    | (rc, _) => Some (rc, with_easy_conn (es_conn h) SentCount rc h)
    end.

Definition eipc_easy_close_server {N} `{Inet N S} (null : bool) (h : eipc_easy_server) (n : N) : N :=
  if null then n
  else
    let n := if es_has_client h then snd (eipc_conn_close false (es_conn h) n) else n in
    if es_listening h then snd (eipc_server_close false (es_server h) n) else n.

Definition eipc_easy_server_stats (h : option eipc_easy_server) : eipc_easy_stats_t :=
  match h with None => zeroStats | Some h => es_stats h end.

End Easy.

Arguments eipc_easy_client : clear implicits.
Arguments eipc_easy_server : clear implicits.

(** ** Accounting *)

(** What the accounting relies on.  A handle may have a peer, and most calls
    need one: without it they return EIPC_ERR_INVALID and change nothing.  Any
    other call increments exactly one counter, and one that needs no peer gets
    the handle one when it succeeds. *)
Class EasyHandle (H Op : Type) := {
  easy_call : Op -> H -> option (eipc_status_t * H);
  easy_stats : H -> eipc_easy_stats_t;
  easy_alive : H -> bool;
  easy_peer : H -> bool;
  easy_needs : Op -> bool;
  easy_counter : Op -> counter
}.

Definition isOK (rc : eipc_status_t) : bool := match rc with EIPC_OK => true | _ => false end.

Class EasyLaw (H Op : Type) `{EasyHandle H Op} := {
  easy_call_counts (op : Op) (h : H) rc h' :
    easy_alive h = true -> easy_call op h = Some (rc, h') ->
    easy_alive h' = true /\
    if easy_needs op && negb (easy_peer h) then rc = EIPC_ERR_INVALID /\ h' = h
    else easy_stats h' = tally (easy_counter op) rc (easy_stats h) /\
         easy_peer h' = easy_peer h || (negb (easy_needs op) && isOK rc)
}.

Fixpoint easyRun {H Op} `{EasyHandle H Op} (ops : list Op) (h : H) : option (list eipc_status_t * H) :=
  match ops with
  | [] => Some ([], h)
  | op :: ops' =>
      r ← easy_call op h;
      rs ← easyRun ops' r.2;
      Some (r.1 :: rs.1, rs.2)
  end.

(** The counter each call of a run has incremented. *)
Definition outcome (k : counter) (rc : eipc_status_t) : counter :=
  match rc with EIPC_OK => k | _ => ErrorCount end.

(** By the calls and what they returned; [peer] says whether there is a peer.
    Calls refused for want of one are not counted. *)
Fixpoint outcomes {H Op} `{EasyHandle H Op} (peer : bool) (ops : list Op) (rcs : list eipc_status_t) : list counter :=
  match ops, rcs with
  | op :: ops', rc :: rcs' =>
      if easy_needs op && negb peer then outcomes peer ops' rcs'
      else outcome (easy_counter op) rc :: outcomes (peer || (negb (easy_needs op) && isOK rc)) ops' rcs'
  | _, _ => []
  end.

(** Calls without the peer they need are refused. *)
Fixpoint refusals {H Op} `{EasyHandle H Op} (peer : bool) (ops : list Op) (rcs : list eipc_status_t) : Prop :=
  match ops, rcs with
  | op :: ops', rc :: rcs' =>
      if easy_needs op && negb peer then rc = EIPC_ERR_INVALID /\ refusals peer ops' rcs'
      else refusals (peer || (negb (easy_needs op) && isOK rc)) ops' rcs'
  | _, _ => True
  end.

Definition occurs (k : counter) (ks : list counter) : Z := zlen (filter (fun k' => k' = k) ks).

(** The statistics that these increments lead to. *)
Definition accounted (ks : list counter) (st : eipc_easy_stats_t) : eipc_easy_stats_t :=
  MkStats (u64 (sent_count st + occurs SentCount ks)) (u64 (received_count st + occurs ReceivedCount ks))
    (u64 (ack_count st + occurs AckCount ks)) (u64 (error_count st + occurs ErrorCount ks)).

Lemma occurs_cons k k' ks : occurs k (k' :: ks) = (if decide (k' = k) then 1 else 0) + occurs k ks.
Proof. unfold occurs. rewrite filter_cons. destruct (decide (k' = k)); rewrite ?zlen_cons; lia. Qed.

Lemma u64_add_l a b : u64 (u64 a + b) = u64 (a + b).
Proof. unfold u64. by rewrite Zplus_mod_idemp_l. Qed.

Lemma accounted_cons k ks st : accounted (k :: ks) st = accounted ks (incr k st).
Proof.
  unfold accounted. rewrite !occurs_cons.
  destruct k; cbn [incr sent_count received_count ack_count error_count]; rewrite ?u64_add_l;
    repeat case_decide; try done; by rewrite <-!Z.add_assoc.
Qed.

Definition stats_ok (st : eipc_easy_stats_t) : Prop :=
  in_u64 (sent_count st) /\ in_u64 (received_count st) /\ in_u64 (ack_count st) /\ in_u64 (error_count st).

Lemma incr_ok k st : stats_ok st -> stats_ok (incr k st).
Proof. intros (? & ? & ? & ?). destruct k; split_and!; try done; apply u64_range. Qed.

Lemma easyRun_accounted {H Op} `{EasyLaw H Op} (ops : list Op) : forall h rcs h',
  easy_alive h = true -> stats_ok (easy_stats h) -> easyRun ops h = Some (rcs, h') ->
  length rcs = length ops /\ refusals (easy_peer h) ops rcs /\
  easy_stats h' = accounted (outcomes (easy_peer h) ops rcs) (easy_stats h).
Proof.
  induction ops as [|op ops IH]; intros h rcs h' Hr Hst; cbn [easyRun].
  - intros [= <- <-]. split; [done|]. split; [done|]. destruct (easy_stats h) as [a b c d], Hst as (? & ? & ? & ?).
    unfold accounted, occurs. cbn [outcomes sent_count received_count ack_count error_count] in *.
    rewrite !Z.add_0_r. by rewrite !u64_id.
  - destruct (easy_call op h) as [[rc h1]|] eqn:E; cbn [mbind option_bind fst snd]; [|done].
    destruct (easyRun ops h1) as [[rcs1 h2]|] eqn:E1; cbn [mbind option_bind fst snd]; [|done].
    intros [= <- <-]. destruct (easy_call_counts op h rc h1 Hr E) as [Hr1 Hc]. cbn [refusals outcomes length].
    destruct (easy_needs op && negb (easy_peer h)).
    + destruct Hc as [-> ->]. destruct (IH h rcs1 h2 Hr Hst E1) as (Hl & Hx & Ha). by rewrite Hl.
    + destruct Hc as [Hs Hp]. rewrite <-Hp.
      assert (easy_stats h1 = incr (outcome (easy_counter op) rc) (easy_stats h)) as Hs' by (rewrite Hs; by destruct rc).
      destruct (IH h1 rcs1 h2 Hr1) as (Hl & Hx & Ha); [rewrite Hs'; by apply incr_ok|done|].
      split; [by rewrite Hl|]. split; [done|]. rewrite accounted_cons, <-Hs'. exact Ha.
Qed.

(** The calls on a client handle. *)
Inductive easy_client_op :=
  | EasyIntent (intent : list byte) (confidence : float32)
  | EasyTool (tool : list byte) (args : option (list eipc_kv_t)) (arg_count : Z)
  | EasyChat (req : eipc_chat_request_t)
  | EasyComplete (prompt : list byte) (session_id : option (list byte))
  | EasyReceive (msg : eipc_message_t)
  | EasyRecvAck (ack : eipc_ack_t).

Definition dropOut {A R H : Type} (r : option (R * A * H)) : option (R * H) :=
  '(rc, _, h) ← r; Some (rc, h).

#[global] Instance client_EasyHandle {S} `{Socket S} : EasyHandle (eipc_easy_client S) (sdk_env * easy_client_op) :=
  {| easy_call call h :=
       match call.2 with
       | EasyIntent intent confidence => eipc_easy_send_intent false call.1 h intent confidence
       | EasyTool tool args arg_count => eipc_easy_send_tool_request false call.1 h tool args arg_count
       | EasyChat req => eipc_easy_send_chat false call.1 h req
       | EasyComplete prompt session_id => eipc_easy_send_complete false call.1 h prompt session_id
       | EasyReceive msg => dropOut (eipc_easy_receive false call.1 h msg)
       | EasyRecvAck ack => dropOut (eipc_easy_recv_ack false call.1 h ack)
       end;
     easy_stats := ec_stats;
     easy_alive := ec_connected;
     easy_peer := ec_connected;
     easy_needs _ := true;
     easy_counter call :=
       match call.2 with
       | EasyReceive _ => ReceivedCount
       | EasyRecvAck _ => AckCount
       | _ => SentCount
       end |}.

Lemma easySend_counts {S} `{Socket S} (h : eipc_easy_client S) send rc h' :
  ec_connected h = true -> easySend false h send = Some (rc, h') ->
  ec_stats h' = tally SentCount rc (ec_stats h) /\ ec_connected h' = true.
Proof.
  unfold easySend. intros Hc. rewrite Hc. cbn [orb negb].
  destruct (send (ec_client h)) as [[r c]|]; cbn [mbind option_bind]; [|done]. by intros [= <- <-].
Qed.

#[global] Instance client_EasyLaw {S} `{Socket S} : EasyLaw (eipc_easy_client S) (sdk_env * easy_client_op).
Proof.
  constructor. intros [env op] h rc h' Hc E. cbn [easy_alive easy_peer easy_needs client_EasyHandle] in *. rewrite Hc. cbn [andb negb orb].
  assert (ec_stats h' = tally (easy_counter (EasyHandle := client_EasyHandle) (env, op)) rc (ec_stats h) /\ ec_connected h' = true)
    as [? ->]; [|done].
  revert E. destruct op; cbn [easy_call easy_counter client_EasyHandle fst snd]; try by apply easySend_counts.
  - unfold eipc_easy_receive, dropOut. rewrite Hc. cbn [orb negb].
    destruct (eipc_client_receive _ _ _ _) as [[[r m] c]|]; cbn [mbind option_bind]; [|done]. by intros [= <- <-].
  - unfold eipc_easy_recv_ack, dropOut. rewrite Hc. cbn [orb negb].
    destruct (eipc_client_receive _ _ _ _) as [[[r m] c]|]; cbn [mbind option_bind]; [|done].
    destruct (typedPayload _ _ _ _ _) as [[r' a]|]; cbn [mbind option_bind]; [|done]. by intros [= <- <-].
Qed.

(** The calls on a server handle, with the network it accepts from. *)
Inductive easy_server_op :=
  | EasyAccept
  | EasyRecvIntent (intent : eipc_intent_t)
  | EasyRecvChat (chat : eipc_chat_request_t)
  | EasySendAck (request_id : option (list byte)) (status : list byte)
  | EasyChatResponse (session_id : option (list byte)) (response : list byte) (model : option (list byte)) (tokens_used : Z).

Definition onHandle {R H N : Type} (n : N) (r : option (R * H)) : option (R * (H * N)) :=
  '(rc, h) ← r; Some (rc, (h, n)).

#[global] Instance server_EasyHandle {S N} `{Inet N S} `{Socket S} :
    EasyHandle (eipc_easy_server S * N) (sdk_env * easy_server_op) :=
  {| easy_call call st :=
       let '(h, n) := st in
       match call.2 with
       | EasyAccept => '(rc, h, n) ← eipc_easy_accept false h n; Some (rc, (h, n))
       | EasyRecvIntent i => onHandle n (dropOut (eipc_easy_recv_intent false call.1 h i))
       | EasyRecvChat c => onHandle n (dropOut (eipc_easy_recv_chat false call.1 h c))
       | EasySendAck request_id status => onHandle n (eipc_easy_send_ack false call.1 h request_id status)
       | EasyChatResponse session_id response model tokens_used =>
           onHandle n (eipc_easy_send_chat_response false call.1 h session_id response model tokens_used)
       end;
     easy_stats st := es_stats st.1;
     easy_alive st := es_listening st.1;
     easy_peer st := es_has_client st.1;
     easy_needs call := match call.2 with EasyAccept => false | _ => true end;
     easy_counter call :=
       match call.2 with
       | EasyAccept => NoCount
       | EasyRecvIntent _ | EasyRecvChat _ => ReceivedCount
       | EasySendAck _ _ => AckCount
       | EasyChatResponse _ _ _ _ => SentCount
       end |}.

(** A call on the connection of a server handle: refused without one. *)
Definition conn_call {S} (k : counter) (h : eipc_easy_server S) (rc : eipc_status_t) (h' : eipc_easy_server S) : Prop :=
  if es_has_client h then exists conn, h' = with_easy_conn conn k rc h else rc = EIPC_ERR_INVALID /\ h' = h.

Lemma easyRecv_counts {S A} `{Socket S} want (parse : list byte -> A -> eipc_status_t * A) env (h : eipc_easy_server S) out rc out' h' :
  easyRecv false want parse env h out = Some (rc, out', h') -> conn_call ReceivedCount h rc h'.
Proof.
  unfold easyRecv, conn_call. destruct (es_has_client h); cbn [orb negb]; [|by intros [= <- _ <-]].
  destruct (eipc_server_receive _ _ _ _) as [[[r m] c]|]; cbn [mbind option_bind]; [|done].
  destruct (typedPayload _ _ _ _ _) as [[r' a]|]; cbn [mbind option_bind]; [|done]. intros [= <- _ <-]. by exists c.
Qed.

Lemma send_ack_counts {S} `{Socket S} env (h : eipc_easy_server S) rid status rc h' :
  eipc_easy_send_ack false env h rid status = Some (rc, h') -> conn_call AckCount h rc h'.
Proof.
  unfold eipc_easy_send_ack, conn_call. destruct (es_has_client h); cbn [orb negb]; [|by intros [= <- <-]].
  destruct (eipc_server_send_ack _ _ _ _ _) as [[r c]|]; cbn [mbind option_bind]; [|done]. intros [= <- <-]. by exists c.
Qed.

Lemma chat_response_counts {S} `{Socket S} env (h : eipc_easy_server S) sid resp model used rc h' :
  eipc_easy_send_chat_response false env h sid resp model used = Some (rc, h') -> conn_call SentCount h rc h'.
Proof.
  unfold eipc_easy_send_chat_response, conn_call. destruct (es_has_client h); cbn [orb negb]; [|by intros [= <- <-]].
  destruct (eipc_chat_response_to_json _ _ _) as [[] p]; [|intros [= <- <-]; by eexists..].
  destruct (memcpy _ _ _ _) as [pl|]; cbn [mbind option_bind]; [|done].
  destruct (eipc_server_send_message _ _ _ _) as [[r c]|]; cbn [mbind option_bind]; [|done]. intros [= <- <-]. by exists c.
Qed.

#[global] Instance server_EasyLaw {S N} `{Inet N S} `{Socket S} : EasyLaw (eipc_easy_server S * N) (sdk_env * easy_server_op).
Proof.
  constructor. intros [env op] [h n] rc [h' n'] Hl E.
  assert (forall k, conn_call k h rc h' -> n' = n -> es_listening h' = true /\
    if negb (es_has_client h) then rc = EIPC_ERR_INVALID /\ (h', n') = (h, n)
    else es_stats h' = tally k rc (es_stats h) /\ es_has_client h' = es_has_client h) as Hconn.
  { intros k Hk ->. unfold conn_call in Hk. destruct (es_has_client h) eqn:Ec; [|by destruct Hk as [-> ->]].
    destruct Hk as [conn ->]. done. }
  revert E Hl. cbn [easy_alive easy_peer easy_needs easy_call easy_stats easy_counter server_EasyHandle fst snd].
  unfold onHandle, dropOut. destruct op; cbn [andb negb orb]; intros E Hl.
  - revert E. unfold eipc_easy_accept. rewrite Hl. cbn [orb negb].
    destruct (eipc_server_accept _ _ _ _) as [[[r c] n1]|]; cbn [mbind option_bind]; [|done].
    intros [= <- <- _]. split; [done|]. split; [done|]. cbn [es_has_client]. by destruct r, (es_has_client h).
  - revert E. destruct (eipc_easy_recv_intent _ _ _ _) as [[[r i] h1]|] eqn:E; cbn [mbind option_bind]; [|done]. intros [= <- <- <-].
    rewrite orb_false_r. by eapply Hconn; [eapply easyRecv_counts|].
  - revert E. destruct (eipc_easy_recv_chat _ _ _ _) as [[[r i] h1]|] eqn:E; cbn [mbind option_bind]; [|done]. intros [= <- <- <-].
    rewrite orb_false_r. by eapply Hconn; [eapply easyRecv_counts|].
  - revert E. destruct (eipc_easy_send_ack _ _ _ _ _) as [[r h1]|] eqn:E; cbn [mbind option_bind]; [|done]. intros [= <- <- <-].
    rewrite orb_false_r. by eapply Hconn; [eapply send_ack_counts|].
  - revert E. destruct (eipc_easy_send_chat_response _ _ _ _ _ _ _) as [[r h1]|] eqn:E; cbn [mbind option_bind]; [|done].
    intros [= <- <- <-]. rewrite orb_false_r. by eapply Hconn; [eapply chat_response_counts|].
Qed.

Lemma zeroStats_ok : stats_ok zeroStats.
Proof. by split_and!. Qed.

(** The handles the two constructors return. *)
Lemma easy_connect_fresh {S N} `{Inet N S} `{Socket S} heap addr key sid out (n n' : N) (h : eipc_easy_client S) :
  eipc_easy_connect false heap addr key sid out n = Some (EIPC_OK, Some h, n') -> ec_connected h = true /\ ec_stats h = zeroStats.
Proof.
  unfold eipc_easy_connect. destruct heap; cbn [negb]; [|done]. destruct (eipc_client_init _ _ _) as [[] c]; try done.
  destruct (eipc_client_connect _ _ _ _ _) as [[[[] c1] n1]|]; try done. cbn [mbind option_bind]. by intros [= <- _].
Qed.

Lemma easy_listen_fresh {S N} `{Inet N S} `{Socket S} heap addr key out (n n' : N) (g : eipc_easy_server S) :
  eipc_easy_listen false heap addr key out n = Some (EIPC_OK, Some g, n') ->
  es_listening g = true /\ es_has_client g = false /\ es_stats g = zeroStats.
Proof.
  unfold eipc_easy_listen. destruct heap; cbn [negb]; [|done]. destruct (eipc_server_init _ _) as [[] c]; try done.
  destruct (eipc_server_listen _ _ _ _ _) as [[[[] c1] n1]|]; try done. cbn [mbind option_bind]. by intros [= <- _].
Qed.

(** C25: the statistics account for every call: whatever sequence of calls is
    made on the handle [eipc_easy_connect] or [eipc_easy_listen] returned, with
    any results, each counter is, modulo 2^64, the number of calls that ended
    the way it counts: messages sent, messages received, acknowledgements, and
    failures.  A fresh server handle has no client: until an accept succeeds,
    its other calls return EIPC_ERR_INVALID and are not counted.  NULL
    arguments are not among the calls, and a run ends where the C code would
    have undefined behaviour. *)
Theorem easy_accounting {S N} `{Inet N S} `{Socket S} (calls : list (sdk_env * easy_client_op))
    (scalls : list (sdk_env * easy_server_op)) (heap : bool) (addr key sid : list byte) (out : option (eipc_easy_client S))
    (sout : option (eipc_easy_server S)) (n n1 n2 : N) (h : eipc_easy_client S) (g : eipc_easy_server S) :
  eipc_easy_connect false heap addr key sid out n = Some (EIPC_OK, Some h, n1) ->
  eipc_easy_listen false heap addr key sout n = Some (EIPC_OK, Some g, n2) ->
  (forall rcs h', easyRun calls h = Some (rcs, h') ->
     length rcs = length calls /\ eipc_easy_client_stats (Some h') = accounted (outcomes true calls rcs) zeroStats) /\
  (forall rcs g' n', easyRun scalls (g, n2) = Some (rcs, (g', n')) ->
     length rcs = length scalls /\ refusals false scalls rcs /\
     eipc_easy_server_stats (Some g') = accounted (outcomes false scalls rcs) zeroStats).
Proof.
  intros [Hc Hst]%easy_connect_fresh (Hl & Hg & Hgs)%easy_listen_fresh. split.
  - intros rcs h' Hr. pose proof (easyRun_accounted calls h rcs h') as Ha.
    cbn [easy_alive easy_peer easy_stats client_EasyHandle] in Ha. rewrite Hst, Hc in Ha.
    destruct (Ha eq_refl zeroStats_ok Hr) as (H1 & _ & H3). done.
  - intros rcs g' n' Hr. pose proof (easyRun_accounted scalls (g, n2) rcs (g', n')) as Ha.
    cbn [easy_alive easy_peer easy_stats server_EasyHandle fst] in Ha. rewrite Hl, Hg, Hgs in Ha.
    exact (Ha eq_refl zeroStats_ok Hr).
Qed.

(** ** An intent and its acknowledgement *)

(** The message with a payload that has no NUL, taken by a typed receiver. *)
Lemma typedPayload_ok {A} t h p (parse : list byte -> A -> eipc_status_t * A) out :
  nonul p -> zlen p < EIPC_MAX_PAYLOAD ->
  typedPayload t parse out EIPC_OK (cMessage t h p) = Some (parse p out).
Proof.
  intros Hn Hz. unfold typedPayload, cMessage. cbn [m_msg_type m_payload].
  rewrite bool_decide_true by done. by rewrite cstr_pad.
Qed.

(** What a C receiver makes of a frame the C side has signed. *)
Lemma receive_c {S} `{StreamSocket S} env key t h p k (s : S) msg :
  sdk_env_ok env -> env_malloc env = true -> portable h -> zlen p <= EIPC_MAX_PAYLOAD ->
  incoming s = envelope (cSigned key t (headerText (cHeaderOf h)) p) ++ k ->
  exists s', receiveMessage env key (Some s) msg = Some (EIPC_OK, cMessage t h p, Some s') /\
    incoming s' = k /\ sent s' = sent s.
Proof.
  intros Henv Hheap Hport Hp Hin. destruct (c_header_facts h Hport) as [_ Hlen].
  destruct (cSigned_streamable key t (headerText (cHeaderOf h)) p ltac:(lia) Hp) as [Hst Hsz].
  by apply (receiveMessage_ok env key _ k s _ msg Henv Hheap Hst Hsz (cSigned_intact _ _ _ _) (fillMessage_c _ _ _ _ Hport Hp)).
Qed.

(** The header of an acknowledgement. *)
Definition ackHeader (env : sdk_env) (request_id : list byte) (sequence : Z) : MessageHeader :=
  MkHeader "eipc-server" "" (string_of_bytes request_id) sequence
    (string_of_bytes (eipc_timestamp_now env EIPC_TIMESTAMP_MAX)) EIPC_PRIORITY_P0 "" "" EIPC_PAYLOAD_JSON.

(** Identifiers and states that both conversions take as they are. *)
Definition ack_ok (request_id status : list byte) : Prop :=
  request_id <> [] /\ plain request_id /\ field_ok EIPC_REQUEST_ID_MAX request_id /\
  request_id <> text "status" /\ request_id <> text "error" /\
  plain status /\ zlen status < 32 /\ status <> text "error".

Definition ackText (request_id status : list byte) : list byte :=
  object (member <$> [(text "request_id", CStr request_id); (text "status", CStr status); (text "error", CStr [])]).

Lemma ackText_facts rid status :
  ack_ok rid status -> nonul (ackText rid status) /\ zlen (ackText rid status) < 300.
Proof.
  intros (_ & P1 & (_ & L1 & _) & _ & _ & P2 & L2 & _). unfold EIPC_REQUEST_ID_MAX in *. split.
  - apply object_nonul. repeat (apply Forall_cons; split); try apply Forall_nil_2; by split.
  - unfold ackText, object. cbn [fmap list_fmap commaSep]. unfold member. cbn [fst snd valText]. unfold quoted.
    repeat (rewrite zlen_cons || rewrite zlen_app). change (zlen (@nil byte)) with 0.
    change (zlen (text "request_id")) with 10. change (zlen (text "status")) with 6. change (zlen (text "error")) with 5. lia.
Qed.

Lemma ack_from_text rid status ack0 :
  ack_ok rid status -> eipc_ack_from_json false (ackText rid status) ack0 = (EIPC_OK, MkAck rid status []).
Proof.
  intros (_ & P1 & (_ & L1 & _) & N1 & N2 & P2 & L2 & N3). unfold eipc_ack_from_json, ackText.
  assert (noquote rid /\ noquote status) as [Q1 Q2] by (by split; apply simple_noquote, plain_simple).
  set (ms := [_; _; _]).
  rewrite (find_string_at ms 0 "request_id" rid);
    [|cbn; lia|by apply keylike_text|done|constructor|by apply plain_simple|done].
  rewrite (find_string_at ms 1 "status" status);
    [|cbn; lia|by apply keylike_text|done| |by apply plain_simple|done].
  2:{ repeat (apply Forall_cons; split); try apply Forall_nil_2; split_and!; try done; repeat constructor. }
  rewrite (find_string_at ms 2 "error" []); [done|cbn; lia|by apply keylike_text|done| |constructor|done].
  repeat (apply Forall_cons; split); try apply Forall_nil_2; split_and!; try done; repeat constructor.
Qed.

Lemma ackHeader_ok env rid status seq :
  ack_ok rid status -> in_u64 seq -> portable (ackHeader env rid seq).
Proof.
  intros (_ & P1 & F1 & _) Hseq. destruct (timestamp_ok env) as (Ht1 & Ht2 & _).
  assert (field_ok EIPC_SERVICE_ID_MAX (text "eipc-server") /\ field_ok EIPC_SESSION_ID_MAX (text "")) as [Hs1 Hs2].
  { split; (split; [by apply plain_simple|]); (split; [by vm_compute|]); apply (bool_decide_unpack _); by vm_compute. }
  unfold portable, cheader_ok, ackHeader, cHeaderOf.
  cbn [hServiceID hSessionID hRequestID hSequence hTimestamp hPriority hCapability hRoute hPayloadFormat
       ch_service_id ch_session_id ch_request_id ch_sequence ch_timestamp ch_priority ch_capability ch_payload_format].
  rewrite !String.list_byte_of_string_of_list_byte. repeat match goal with |- _ /\ _ => split end; done.
Qed.

(** The handle when its socket has come to be [s]. *)
Definition with_easy_sock {S} (s : S) (h : eipc_easy_client S) : eipc_easy_client S :=
  MkEasyClient (with_sock (Some s) (ec_client h)) (ec_connected h) (ec_stats h).

Section Exchange.
Context {S : Type} `{StreamSocket S}.

(** A client handle that is connected over [s] under [key]. *)
Definition client_ready (key : list byte) (s : S) (h : eipc_easy_client S) : Prop :=
  ec_connected h = true /\ cc_connected (ec_client h) = true /\ cc_sock (ec_client h) = Some s /\
  clientKey (ec_client h) = key /\ service_ok (cc_service_id (ec_client h)) /\
  0 <= cc_sequence (ec_client h) /\ cc_sequence (ec_client h) + 1 < 2 ^ 64.

(** A server handle with a connection over [s] under [key]. *)
Definition server_ready (key : list byte) (s : S) (g : eipc_easy_server S) : Prop :=
  es_has_client g = true /\ cn_sock (es_conn g) = Some s /\ connKey (es_conn g) = key.

Lemma easy_send_intent_ok env key (s : S) h intent conf :
  sdk_env_ok env -> client_ready key s h -> intent_ok (MkCIntent intent conf []) ->
  exists s', eipc_easy_send_intent false env h intent conf =
      Some (EIPC_OK, MkEasyClient (with_sock (Some s') (nextSequence (ec_client h))) true (incr SentCount (ec_stats h))) /\
    sent s' = sent s ++ envelope (callFrame key (cc_service_id (ec_client h)) (cc_sequence (ec_client h) + 1)
      (env, OpIntent intent conf) (intentText (MkCIntent intent conf []))).
Proof.
  intros Henv (Hc & Hcc & Hs & Hk & Hsid & Hlo & Hhi) Hi. pose proof (intentText_short _ Hi) as Hz.
  assert (opPayload env (cc_service_id (ec_client h)) (OpIntent intent conf) =
          Some (EIPC_OK, intentText (MkCIntent intent conf []))) as Hp.
  { cbn [opPayload]. rewrite strncpy_short by apply Hi. f_equal. apply emit_fits. unfold EIPC_MAX_PAYLOAD. lia. }
  destruct (clientCall_ok (env, OpIntent intent conf) _ s _ Henv Hs Hcc Hsid Hlo Hhi Hp) as (s' & Hcall & Hsent & _).
  rewrite Hk in Hsent. exists s'. split; [|exact Hsent]. unfold eipc_easy_send_intent, easySend. rewrite Hc. cbn [orb negb].
  cbn [clientCall fst snd] in Hcall. by rewrite Hcall.
Qed.

Lemma easy_recv_intent_ok env key (s : S) g h intent conf i0 k :
  sdk_env_ok env -> env_malloc env = true -> server_ready key s g -> portable h -> intent_ok (MkCIntent intent conf []) ->
  incoming s = envelope (cSigned key EIPC_MSG_INTENT (headerText (cHeaderOf h)) (intentText (MkCIntent intent conf []))) ++ k ->
  exists s' g', eipc_easy_recv_intent false env g i0 = Some (EIPC_OK, readIntent (MkCIntent intent conf []), g') /\
    server_ready key s' g' /\ incoming s' = k /\ es_stats g' = incr ReceivedCount (es_stats g).
Proof.
  intros Henv Hheap (Hc & Hs & Hk) Hport Hi Hin. pose proof (intentText_short _ Hi) as Hz.
  destruct (receive_c env key EIPC_MSG_INTENT h (intentText (MkCIntent intent conf [])) k s zeroMessage Henv Hheap Hport)
    as (s' & Hr & Hin' & _); [unfold EIPC_MAX_PAYLOAD; lia|done|].
  exists s'. unfold eipc_easy_recv_intent, easyRecv, eipc_server_receive. rewrite Hc, Hs, Hk, Hr. cbn [orb negb mbind option_bind].
  rewrite typedPayload_ok; [| |unfold EIPC_MAX_PAYLOAD; lia].
  - rewrite from_intentText by done. cbn [mbind option_bind]. eexists. split; [done|]. by split_and!.
  - rewrite intentText_members by done. destruct Hi as (P1 & _ & _ & _ & P2 & _ & Hv & Hf).
    apply object_nonul. repeat (apply Forall_cons; split); try apply Forall_nil_2; (split; [done|]); [done| |done].
    by apply fixed2_plain.
Qed.

Lemma easy_send_ack_ok env key (s : S) g rid status :
  sdk_env_ok env -> server_ready key s g -> ack_ok rid status ->
  exists s' g', eipc_easy_send_ack false env g (Some rid) status = Some (EIPC_OK, g') /\ server_ready key s' g' /\
    sent s' = sent s ++ envelope (cSigned key EIPC_MSG_ACK
      (headerText (cHeaderOf (ackHeader env rid (u64 (cn_sequence (es_conn g) + 1))))) (ackText rid status)) /\
    es_stats g' = incr AckCount (es_stats g).
Proof.
  intros Henv (Hc & Hs & Hk) Hack. set (seq := u64 (cn_sequence (es_conn g) + 1)).
  pose proof (ackHeader_ok env rid status seq Hack (u64_range _)) as Hport.
  destruct (c_header_facts _ Hport) as [_ Hlen]. destruct (ackText_facts rid status Hack) as [_ Hz].
  set (conn := with_conn (Some s) seq (es_conn g)).
  destruct (sendOn_ok env conn EIPC_MSG_ACK (headerText (cHeaderOf (ackHeader env rid seq))) (ackText rid status) s)
    as (s' & Hsend & Hsent & _); [done|done|lia|unfold EIPC_MAX_PAYLOAD; lia|].
  change (connKey conn) with (connKey (es_conn g)) in Hsent. rewrite Hk in Hsent.
  exists s', (with_easy_conn (with_conn (Some s') seq conn) AckCount EIPC_OK g).
  split; [|by split_and!]. unfold eipc_easy_send_ack, eipc_server_send_ack. rewrite Hc. cbn [orb negb].
  destruct Hack as (Hne & _ & (_ & L1 & _) & _). destruct rid as [|x rid]; [done|].
  cbn [default from_option id]. rewrite strncpy_short by done. rewrite Hs. fold seq. fold conn. change (cn_sequence conn) with seq.
  assert (MkCHeader (text "eipc-server") [] (x :: rid) seq (eipc_timestamp_now env EIPC_TIMESTAMP_MAX) EIPC_PRIORITY_P0 [] []
            EIPC_PAYLOAD_JSON = cHeaderOf (ackHeader env (x :: rid) seq)) as ->.
  { unfold cHeaderOf, ackHeader. cbn [hServiceID hSessionID hRequestID hSequence hTimestamp hPriority hCapability hPayloadFormat].
    by rewrite !String.list_byte_of_string_of_list_byte. }
  unfold eipc_header_to_json. rewrite emit_fits by done.
  change (object [_; _; _]) with (ackText (x :: rid) status). rewrite (proj2 (Z.ltb_lt _ _)) by (unfold EIPC_MAX_PAYLOAD; lia).
  rewrite Hsend. done.
Qed.

Lemma easy_recv_ack_ok env key (s : S) h hdr rid status a0 k :
  sdk_env_ok env -> env_malloc env = true -> ec_connected h = true -> cc_connected (ec_client h) = true ->
  cc_sock (ec_client h) = Some s -> clientKey (ec_client h) = key -> portable hdr -> ack_ok rid status ->
  incoming s = envelope (cSigned key EIPC_MSG_ACK (headerText (cHeaderOf hdr)) (ackText rid status)) ++ k ->
  exists h', eipc_easy_recv_ack false env h a0 = Some (EIPC_OK, MkAck rid status [], h') /\
    ec_stats h' = incr AckCount (ec_stats h).
Proof.
  intros Henv Hheap Hc Hcc Hs Hk Hport Hack Hin. destruct (ackText_facts rid status Hack) as [Hn Hz].
  destruct (receive_c env key EIPC_MSG_ACK hdr (ackText rid status) k s zeroMessage Henv Hheap Hport)
    as (s' & Hr & _ & _); [unfold EIPC_MAX_PAYLOAD; lia|done|].
  unfold eipc_easy_recv_ack, eipc_client_receive. rewrite Hc, Hcc, Hs, Hk. cbn [orb negb]. rewrite Hr. cbn [mbind option_bind].
  rewrite typedPayload_ok by (done || (unfold EIPC_MAX_PAYLOAD; lia)). rewrite ack_from_text by done.
  cbn [mbind option_bind]. eexists. by split.
Qed.

End Exchange.

(** C24: An exchange between two programs that use the convenience layer: an
    intent that a connected client sends over any stream socket is what the
    server of the other end, which has accepted it, receives, its confidence
    rounded to hundredths; the acknowledgement the server then sends is what the
    client receives; and both handles have counted one message each way. The
    name of the client's service, the name of the intent, the request id and the
    status are plain ASCII without quotes, backslashes, [<], [>] and [&], fit
    their arrays and are not names of fields of what they are sent in; the
    request id is not empty, the confidence is finite, and [malloc] succeeds for
    the receivers. *)
Theorem easy_exchange {S T} `{StreamSocket S} `{StreamSocket T} (env1 env2 env3 env4 : sdk_env) (key : list byte)
    (h : eipc_easy_client S) (g : eipc_easy_server T) (s : S) (t : T) (intent : list byte) (conf : float32)
    (rid status : list byte) (i0 : eipc_intent_t) (a0 : eipc_ack_t) (k1 k2 : list byte) :
  sdk_env_ok env1 -> sdk_env_ok env2 -> env_malloc env2 = true -> sdk_env_ok env3 -> sdk_env_ok env4 -> env_malloc env4 = true ->
  client_ready key s h -> server_ready key t g -> intent_ok (MkCIntent intent conf []) -> ack_ok rid status ->
  exists h1 s1 request, eipc_easy_send_intent false env1 h intent conf = Some (EIPC_OK, h1) /\
    cc_sock (ec_client h1) = Some s1 /\ sent s1 = sent s ++ request /\
    (incoming t = request ++ k1 ->
     exists g1 g2 t1 t2 reply,
       eipc_easy_recv_intent false env2 g i0 = Some (EIPC_OK, readIntent (MkCIntent intent conf []), g1) /\
       cn_sock (es_conn g1) = Some t1 /\ incoming t1 = k1 /\
       eipc_easy_send_ack false env3 g1 (Some rid) status = Some (EIPC_OK, g2) /\
       cn_sock (es_conn g2) = Some t2 /\ sent t2 = sent t1 ++ reply /\
       es_stats g2 = incr AckCount (incr ReceivedCount (es_stats g)) /\
       forall s2, incoming s2 = reply ++ k2 ->
         exists h2, eipc_easy_recv_ack false env4 (with_easy_sock s2 h1) a0 = Some (EIPC_OK, MkAck rid status [], h2) /\
           ec_stats h2 = incr AckCount (incr SentCount (ec_stats h))).
Proof.
  intros He1 He2 Hm2 He3 He4 Hm4 Hh Hg Hi Ha. pose proof Hh as (_ & Hcc & _ & Hkey & Hsid & Hlo & Hhi).
  destruct (easy_send_intent_ok env1 key s h intent conf He1 Hh Hi) as (s1 & Hsend & Hsent).
  eexists _, s1, _. split; [exact Hsend|]. split; [done|]. split; [exact Hsent|]. intros Hin.
  assert (in_u64 (cc_sequence (ec_client h) + 1)) as Hseq by (unfold in_u64; lia).
  destruct (clientHeader_ok env1 _ _ (opCapability (OpIntent intent conf)) Hsid Hseq) as [Hport _]; [by left|].
  destruct (easy_recv_intent_ok env2 key t g _ intent conf i0 k1 He2 Hm2 Hg Hport Hi Hin) as (t1 & g1 & Hr & Hg1 & Hk1 & Hst1).
  destruct (easy_send_ack_ok env3 key t1 g1 rid status He3 Hg1 Ha) as (t2 & g2 & Hs & Hg2 & Hsent2 & Hst2).
  eexists g1, g2, t1, t2, _. split_and!; [done|apply Hg1|done|done|apply Hg2|exact Hsent2|by rewrite Hst2, Hst1|].
  intros s2 Hin2. eapply easy_recv_ack_ok; [done|done|done|exact Hcc|done|exact Hkey| |done|exact Hin2].
  by eapply ackHeader_ok, u64_range.
Qed.

(** ** Samples *)

Definition sampleEasyClient (s : slowSocket) : eipc_easy_client slowSocket := MkEasyClient (sampleClient s) true zeroStats.

Definition sampleEasyServer (s : slowSocket) : eipc_easy_server slowSocket :=
  MkEasyServer zeroServer (MkCConn (Some s) (text "k" ++ zeros 31) 1 0 []) true true zeroStats.

Lemma sample_ready s t :
  client_ready (text "k") s (sampleEasyClient s) /\ server_ready (text "k") t (sampleEasyServer t).
Proof. split; [|done]. by split_and!; try apply sampleService_ok. Qed.

Lemma sampleAck_ok : ack_ok (text "r1") (text "ok").
Proof.
  split_and!; try done. split; [by apply plain_simple|]. split; [done|]. apply (bool_decide_unpack _). reflexivity.
Qed.

(** A network with one host, whose connections carry nothing. *)
Module Loopback.

#[local] Instance inet : Inet unit slowSocket :=
  {| os_socket n := (Some (MkSlow [] []), n); os_connect _ _ s n := (Some s, n); os_bind _ _ _ n := (true, n);
     os_listen _ _ n := (true, n); os_accept s n := (Some (s, 0, 0), n); os_close _ n := n;
     inet_pton _ := Some 0; inet_ntop _ := text "127.0.0.1" |}.

Definition client : eipc_easy_client slowSocket :=
  match eipc_easy_connect false true (text "127.0.0.1:9090") (text "k") (text "c") None tt with
  | Some (EIPC_OK, Some h, _) => h
  | _ => sampleEasyClient (MkSlow [] [])
  end.

Definition server : eipc_easy_server slowSocket :=
  match eipc_easy_listen false true (text "127.0.0.1:9090") (text "k") None tt with
  | Some (EIPC_OK, Some g, _) => g
  | _ => sampleEasyServer (MkSlow [] [])
  end.

End Loopback.

#[local] Existing Instance Loopback.inet.

(** A receive before the accept is refused uncounted, one behind it fails and
    is counted. *)
Lemma easy_accounting_witness :
  exists h g, es_has_client Loopback.server = false /\
    easyRun [(sampleEnv, EasyRecvAck (MkAck [] [] []))] Loopback.client = Some ([EIPC_ERR_IO], h) /\
    eipc_easy_client_stats (Some h) = MkStats 0 0 0 1 /\
    easyRun [(sampleEnv, EasyRecvIntent sampleCIntent); (sampleEnv, EasyAccept); (sampleEnv, EasyRecvIntent sampleCIntent)]
      (Loopback.server, tt) = Some ([EIPC_ERR_INVALID; EIPC_OK; EIPC_ERR_IO], (g, tt)) /\
    eipc_easy_server_stats (Some g) = MkStats 0 0 0 1.
Proof.
  destruct (easy_accounting (N := unit) [(sampleEnv, EasyRecvAck (MkAck [] [] []))]
    [(sampleEnv, EasyRecvIntent sampleCIntent); (sampleEnv, EasyAccept); (sampleEnv, EasyRecvIntent sampleCIntent)]
    true (text "127.0.0.1:9090") (text "k") (text "c") None None tt tt tt Loopback.client Loopback.server) as [H1 H2];
    [vm_compute; reflexivity..|].
  eexists _, _. split; [vm_compute; reflexivity|]. split; [vm_compute; reflexivity|].
  split; [exact (proj2 (H1 [EIPC_ERR_IO] _ ltac:(vm_compute; reflexivity)))|].
  split; [vm_compute; reflexivity|].
  exact (proj2 (proj2 (H2 [EIPC_ERR_INVALID; EIPC_OK; EIPC_ERR_IO] _ tt ltac:(vm_compute; reflexivity)))).
Defined.

Lemma easy_exchange_witness :
  exists h1, eipc_easy_send_intent false sampleEnv (sampleEasyClient (MkSlow [] [])) (text "move_left")
    (ci_confidence sampleCIntent) = Some (EIPC_OK, h1).
Proof.
  destruct (sample_ready (MkSlow [] []) (MkSlow [] [])) as [Hc Hs].
  destruct (easy_exchange sampleEnv sampleEnv sampleEnv sampleEnv (text "k") (sampleEasyClient (MkSlow [] []))
    (sampleEasyServer (MkSlow [] [])) (MkSlow [] []) (MkSlow [] []) (text "move_left") (ci_confidence sampleCIntent)
    (text "r1") (text "ok") sampleCIntent (MkAck [] [] []) [] []) as (h1 & s1 & req & Hsend & _);
    try exact sampleEnv_ok; try exact Hc; try exact Hs; try reflexivity; [by split_and!|apply sampleAck_ok|].
  exists h1. exact Hsend.
Defined.
