(* ===== verification/Server.v ===== *)
(** * The server: src/cmd/eipc-server/main.go

    The tables the server is started with, the handlers it registers, the
    connection handler [handleConnection], and the server as a whole: the
    accept loop with its limit, any number of connections whose handlers run
    interleaved, the time limit of the handshake and the clean-up of sessions.
    What the handlers share (the authenticator, the audit log, the health
    service, the clock and the random source) is the [World]. *)

From S2P Require Import Prelude Time Utf8 Json Frame Transport Sha256 Replay Message Codec Endpoint Router Fmt.
From S2P Require Import Capability Auth AuditLog ServiceRegistry Events.
Local Open Scope string_scope.
Local Open Scope list_scope.
Local Open Scope Z_scope.

(** ** What [main] sets up *)

(** The services the authenticator knows, with their capabilities. *)
Definition knownTable : gmap string (list string) :=
  list_to_map
    [("nia.min", ["ui:control"; "device:read"]);
     ("nia.framework", ["ui:control"; "device:read"; "device:write"]);
     ("ail.min.agent", ["ui:control"]);
     ("ail.framework", ["ui:control"; "device:read"; "device:write"; "system:restricted"]);
     ("ebot.client", ["ai:chat"])].

(** The actions each capability permits. *)
Definition capTable : gmap string (list string) :=
  list_to_map
    [("ui:control", ["ui.cursor.move"; "ui.click"; "ui.scroll"]);
     ("device:read", ["device.sensor.read"; "device.status"]);
     ("device:write", ["device.actuator.write"]);
     ("system:restricted", ["system.reboot"; "system.update"]);
     ("ai:chat", ["ai.chat.send"; "ai.complete.send"])].

Definition capChecker : Checker := NewChecker capTable.

(** The services [main] registers; a failure would only be logged. *)
Definition serverRegistry : Registry.Registry :=
  let reg := Registry.NewRegistry in
  let reg := snd (Registry.Register
    (Registry.MkInfo "eipc-server" ["ui:control"; "device:read"; "device:write"; "ai:chat"] [1]
       [TypeIntent; TypeAck; TypeHeartbeat; TypeAudit; TypeChat; TypeComplete; TypeAuth; TypeChallenge; TypeAuthResponse]
       PriorityP0) reg) in
  snd (Registry.Register
    (Registry.MkInfo "ebot.client" ["ai:chat"] [1] [TypeChat; TypeComplete; TypeAck; TypeAuth; TypeAuthResponse]
       PriorityP1) reg).

(** ** What the handlers share *)

(** The readings of [time.Now] and the outcomes of [rand.Read] come from two
    sequences; [ticks] and [draws] count how many have been taken. *)
Record World (L : Type) := MkWorld {
  authenticator : Authenticator;
  auditLogger : L;
  healthSvc : Health.Service;
  clock : nat -> Time;
  ticks : nat;
  entropy : nat -> result (list byte);
  draws : nat
}.
Arguments MkWorld {L} _ _ _ _ _ _ _.
Arguments authenticator {L} _.
Arguments auditLogger {L} _.
Arguments healthSvc {L} _.
Arguments clock {L} _.
Arguments ticks {L} _.
Arguments entropy {L} _.
Arguments draws {L} _.

Definition serverName : string := "eipc-server".

Section Server.
Context {L C : Type} `{Logger L} `{Channel C} `{UnicodeTable}.

Definition timeNow (w : World L) : Time * World L :=
  (clock w (ticks w),
   MkWorld (authenticator w) (auditLogger w) (healthSvc w) (clock w) (S (ticks w)) (entropy w) (draws w)).

Definition randRead (w : World L) : result (list byte) * World L :=
  (entropy w (draws w),
   MkWorld (authenticator w) (auditLogger w) (healthSvc w) (clock w) (ticks w) (entropy w) (S (draws w))).

Definition with_authenticator (a : Authenticator) (w : World L) : World L :=
  MkWorld a (auditLogger w) (healthSvc w) (clock w) (ticks w) (entropy w) (draws w).

Definition with_health (h : Health.Service) (w : World L) : World L :=
  MkWorld (authenticator w) (auditLogger w) h (clock w) (ticks w) (entropy w) (draws w).

(** [if err := auditLogger.Log(entry); err != nil { log.Printf(...) }] *)
Definition logEntry (entry : Entry) (w : World L) : World L :=
  let '(now, w) := timeNow w in
  MkWorld (authenticator w) (snd (Log now entry (auditLogger w))) (healthSvc w) (clock w) (ticks w)
    (entropy w) (draws w).

(** ** The message handlers *)

Definition handleIntent : @HandlerFunc (World L) := fun msg w =>
  match (Unmarshal (MPayload msg) : result IntentEvent) with
  | Err err => (MkDispatchResult None (Some (Wrapf "unmarshal intent: %w" err [])), w)
  | Ok intent =>
      match Checker_Check capChecker [Capability msg] "ui.cursor.move" with
      | Some err =>
          let w := logEntry (MkLogEntry "" (RequestID msg) (Source msg) serverName (Intent intent)
                               "denied" (Error err)) w in
          (MkDispatchResult None (Some err), w)
      | None =>
          let w := logEntry (MkLogEntry "" (RequestID msg) (Source msg) serverName (Intent intent)
                               "allowed" "success") w in
          match Marshal (MkAck (RequestID msg) "ok" "") with
          | Err err => (MkDispatchResult None (Some (Wrapf "marshal ack: %w" err [])), w)
          | Ok ackPayload =>
              let '(now, w) := timeNow w in
              let ack := MkMessage ProtocolVersion TypeAck serverName (UTC now) (SessionID msg)
                           (RequestID msg) PriorityP0 "" ackPayload in
              (MkDispatchResult (Some ack) None, w)
          end
      end
  end.

Definition handleHeartbeat : @HandlerFunc (World L) := fun msg w =>
  match (Unmarshal (MPayload msg) : result HeartbeatEvent) with
  | Err err => (MkDispatchResult None (Some err), w)
  | Ok hb =>
      let '(now, w) := timeNow w in
      let w := with_health (Health.RecordHeartbeat now (hb_Service hb) (hb_Status hb) (healthSvc w)) w in
      (MkDispatchResult None None, w)
  end.

Definition handleChat : @HandlerFunc (World L) := fun msg w =>
  match (Unmarshal (MPayload msg) : result ChatRequestEvent) with
  | Err err => (MkDispatchResult None (Some (Wrapf "unmarshal chat request: %w" err [])), w)
  | Ok chatReq =>
      match Checker_Check capChecker [Capability msg] "ai.chat.send" with
      | Some err =>
          let w := logEntry (MkLogEntry "" (RequestID msg) (Source msg) serverName "ai.chat.send"
                               "denied" (Error err)) w in
          (MkDispatchResult None (Some err), w)
      | None =>
          let w := logEntry (MkLogEntry "" (RequestID msg) (Source msg) "eai" "ai.chat.send"
                               "allowed" "forwarded") w in
          let chatResp := MkChatResponse (cq_SessionID chatReq)
                            (Sprintf "[EIPC] Chat received: %s" [ArgStr (UserPrompt chatReq)])
                            (cq_Model chatReq) 0 in
          match Marshal chatResp with
          | Err err => (MkDispatchResult None (Some (Wrapf "marshal chat response: %w" err [])), w)
          | Ok respPayload =>
              let '(now, w) := timeNow w in
              (MkDispatchResult (Some (MkMessage ProtocolVersion TypeChat serverName (UTC now)
                 (SessionID msg) (RequestID msg) PriorityP1 "" respPayload)) None, w)
          end
      end
  end.

Definition handleComplete : @HandlerFunc (World L) := fun msg w =>
  match (Unmarshal (MPayload msg) : result CompleteRequestEvent) with
  | Err err => (MkDispatchResult None (Some (Wrapf "unmarshal complete request: %w" err [])), w)
  | Ok completeReq =>
      match Checker_Check capChecker [Capability msg] "ai.complete.send" with
      | Some err =>
          let w := logEntry (MkLogEntry "" (RequestID msg) (Source msg) serverName "ai.complete.send"
                               "denied" (Error err)) w in
          (MkDispatchResult None (Some err), w)
      | None =>
          let w := logEntry (MkLogEntry "" (RequestID msg) (Source msg) "eai" "ai.complete.send"
                               "allowed" "forwarded") w in
          let completeResp := MkCompleteResponse (pq_SessionID completeReq)
                                (Sprintf "[EIPC] Completion received: %s" [ArgStr (pq_Prompt completeReq)])
                                (pq_Model completeReq) 0 in
          match Marshal completeResp with
          | Err err => (MkDispatchResult None (Some (Wrapf "marshal complete response: %w" err [])), w)
          | Ok respPayload =>
              let '(now, w) := timeNow w in
              (MkDispatchResult (Some (MkMessage ProtocolVersion TypeComplete serverName (UTC now)
                 (SessionID msg) (RequestID msg) PriorityP1 "" respPayload)) None, w)
          end
      end
  end.

Definition router : @Router (World L) :=
  Handle TypeComplete handleComplete
    (Handle TypeChat handleChat
      (Handle TypeHeartbeat handleHeartbeat
        (Handle TypeIntent handleIntent NewRouter))).

(** ** A connection *)

(** Where the handler of a connection stands: at which [Receive], or past its
    end; [Panicked] is a slice index out of range. *)
Inductive phase :=
  | AwaitAuth
  | AwaitResponse (requestID serviceID : string)
  | Serving (peer : PeerIdentity)
  | Finished
  | Panicked.

(** A connection with the two directions of its transport; [open] is false
    once [conn.Close] has been called. *)
Record Conn := MkConn {
  endpoint : ServerEndpoint;
  incoming : C;
  outgoing : C;
  open : bool;
  at_ : phase
}.

Definition errClosed : error := ErrorNew "use of closed network connection".

Definition newConn (hmacKey : list byte) (inc out : C) : Conn :=
  MkConn (NewServerEndpoint hmacKey) inc out true AwaitAuth.

Definition with_endpoint (e : ServerEndpoint) (c : Conn) : Conn := MkConn e (incoming c) (outgoing c) (open c) (at_ c).
Definition with_phase (p : phase) (c : Conn) : Conn := MkConn (endpoint c) (incoming c) (outgoing c) (open c) p.
Definition with_incoming (inc : C) (c : Conn) : Conn := MkConn (endpoint c) inc (outgoing c) (open c) (at_ c).

(** [conn.Close] *)
Definition closeConn (c : Conn) : Conn := MkConn (endpoint c) (incoming c) (outgoing c) false (at_ c).

(** The handler returns; its deferred [conn.Close] runs. *)
Definition return_ (c : Conn) : Conn := with_phase Finished (closeConn c).

Definition receive (c : Conn) : result Message * Conn :=
  if open c then
    let '(r, (e, inc)) := ServerEndpoint_Receive (endpoint c, incoming c) in
    (r, MkConn e inc (outgoing c) (open c) (at_ c))
  else (Err errClosed, c).

(** A closed connection fails after the endpoint has numbered the message. *)
Definition send (msg : Message) (c : Conn) : result unit * Conn :=
  let '(r, (e, out)) := ServerEndpoint_Send msg (endpoint c, outgoing c) in
  if open c then (r, MkConn e (incoming c) out (open c) (at_ c))
  else (Err errClosed, with_endpoint e c).

(** A message of the handshake. *)
Definition authMessage (now : Time) (msgType : MessageType) (requestID : string) (payload : list byte) : Message :=
  MkMessage ProtocolVersion msgType serverName (UTC now) "" requestID 0 "" payload.

(** The answer to a request that failed. *)
Definition errorAck (now : Time) (msg : Message) (payload : list byte) : Message :=
  MkMessage ProtocolVersion TypeAck serverName (UTC now) (SessionID msg) (RequestID msg) PriorityP0 "" payload.

(** The refusal both steps of the handshake send; its failure is only logged. *)
Definition sendDenied (requestID : string) (err : error) (c : Conn) (w : World L) : Conn * World L :=
  let respPayload := print (authResponseJSON (MkAuthResponse "denied" (Error err))) in
  let '(now, w) := timeNow w in
  let '(_, c) := send (authMessage now TypeAuthResponse requestID respPayload) c in
  (c, w).

Definition authEntry (requestID source decision res : string) : Entry :=
  MkLogEntry "" requestID source serverName "authenticate" decision res.

(** Steps 1 and 2: the request, the challenge. *)
Definition handleRequest (c : Conn) (w : World L) : Conn * World L :=
  match receive c with
  | (Err _, c) => (return_ c, w)
  | (Ok authMsg, c) =>
      if negb (String.eqb (MType authMsg) TypeAuth) then (return_ c, w)
      else match (Unmarshal (MPayload authMsg) : result authRequest) with
      | Err _ => (return_ c, w)
      | Ok authReq =>
          let '(rnd, w) := randRead w in
          let '(now, w) := timeNow w in
          match CreateChallenge rnd now (ar_ServiceID authReq) (authenticator w) with
          | (Err err, a) =>
              let w := with_authenticator a w in
              let w := logEntry (authEntry (RequestID authMsg) (ar_ServiceID authReq) "denied" (Error err)) w in
              let '(c, w) := sendDenied (RequestID authMsg) err c w in (return_ c, w)
          | (Ok challenge, a) =>
              let w := with_authenticator a w in
              match Marshal (MkChallengeMessage "challenge" (string_of_bytes (hexEncode (Nonce challenge))) "") with
              | Err _ => (return_ c, w)
              | Ok challengePayload =>
                  let '(now, w) := timeNow w in
                  match send (authMessage now TypeChallenge (RequestID authMsg) challengePayload) c with
                  | (Err _, c) => (return_ c, w)
                  | (Ok _, c) => (with_phase (AwaitResponse (RequestID authMsg) (ar_ServiceID authReq)) c, w)
                  end
              end
          end
      end
  end.

(** What follows a successful handshake, up to the message loop.  The log
    line slices the token at 8 from both ends. *)
Definition admitPeer (requestID : string) (peer : PeerIdentity) (c : Conn) (w : World L) : Conn * World L :=
  if slen (SessionToken peer) <? 8 then (with_phase Panicked (closeConn c), w)
  else
    let w := logEntry (authEntry requestID (ServiceID peer) "allowed" "session created") w in
    let c := with_endpoint (SetPeerCapabilities (Capabilities peer) (endpoint c)) c in
    match Marshal (MkAuthResult "ok" (SessionToken peer) (Capabilities peer) "") with
    | Err _ => (return_ c, w)
    | Ok respPayload =>
        let '(now, w) := timeNow w in
        match send (authMessage now TypeAuthResponse requestID respPayload) c with
        | (Err _, c) => (return_ c, w)
        | (Ok _, c) => (with_phase (Serving peer) c, w)
        end
    end.

(** Steps 3 and 4: the response, its verification. *)
Definition handleResponse (requestID serviceID : string) (c : Conn) (w : World L) : Conn * World L :=
  match receive c with
  | (Err _, c) => (return_ c, w)
  | (Ok responseMsg, c) =>
      if negb (String.eqb (MType responseMsg) TypeAuthResponse) then (return_ c, w)
      else match (Unmarshal (MPayload responseMsg) : result challengeResponse) with
      | Err _ => (return_ c, w)
      | Ok chalResp =>
          match hexDecode (bytes_of_string (ch_Response chalResp)) with
          | Err _ => (return_ c, w)
          | Ok responseBytes =>
              let '(rnd, w) := randRead w in
              let '(now, w) := timeNow w in
              match VerifyResponse rnd now serviceID responseBytes (authenticator w) with
              | (Err err, a) =>
                  let w := with_authenticator a w in
                  let w := logEntry (authEntry requestID serviceID "denied" "challenge-response failed") w in
                  let '(c, w) := sendDenied requestID err c w in (return_ c, w)
              | (Ok peer, a) => admitPeer requestID peer c (with_authenticator a w)
              end
          end
      end
  end.

(** The error answers of the message loop; their failure is only logged. *)
Definition sendError (msg : Message) (err : error) (c : Conn) (w : World L) : Conn * World L :=
  match Marshal (MkAck (RequestID msg) "error" (Error err)) with
  | Err _ => (c, w)
  | Ok errPayload =>
      let '(now, w) := timeNow w in
      let '(_, c) := send (errorAck now msg errPayload) c in (c, w)
  end.

(** One round of the message loop. *)
Definition handleMessage (peer : PeerIdentity) (c : Conn) (w : World L) : Conn * World L :=
  match receive c with
  | (Err _, c) => (return_ c, w)
  | (Ok msg, c) =>
      let '(now, w) := timeNow w in
      if IsExpired now peer then
        let w := logEntry (MkLogEntry "" "" (ServiceID peer) serverName "session_check" "denied" "session expired") w in
        (return_ c, w)
      else match ValidateCapability (Capability msg) (endpoint c) with
      | Some err =>
          let w := logEntry (MkLogEntry "" (RequestID msg) (ServiceID peer) serverName (Capability msg)
                               "denied" "capability violation") w in
          sendError msg err c w
      | None =>
          let '(res, w) := Dispatch router msg w in
          match DErr res with
          | Some err => sendError msg err c w
          | None =>
              match Response res with
              | None => (c, w)
              | Some resp =>
                  match send resp c with
                  | (Err _, c) => (return_ c, w)
                  | (Ok _, c) => (c, w)
                  end
              end
          end
      end
  end.

(** The handler from one [Receive] to the next. *)
Definition handleStep (c : Conn) (w : World L) : Conn * World L :=
  match at_ c with
  | AwaitAuth => handleRequest c w
  | AwaitResponse requestID serviceID => handleResponse requestID serviceID c w
  | Serving peer => handleMessage peer c w
  | Finished | Panicked => (c, w)
  end.

(** The handler run on its own for at most [fuel] of its receives. *)
Fixpoint handleConnection (fuel : nat) (c : Conn) (w : World L) : Conn * World L :=
  match fuel with
  | O => (c, w)
  | S fuel' =>
      match at_ c with
      | Finished | Panicked => (c, w)
      | _ => let '(c, w) := handleStep c w in handleConnection fuel' c w
      end
  end.

(** ** The server *)

(** The connections whose handlers hold a slot of [connSem], by a number of
    their own. *)
Record Server := MkServerState { world : World L; conns : gmap nat Conn }.

(** What can happen next; [EvNetwork] is anything the network does to the
    incoming side of a connection. *)
Inductive event :=
  | EvAccept (i : nat) (remoteAddr : string) (inc out : C)
  | EvNetwork (i : nat) (inc : C)
  | EvHandle (i : nat)
  | EvAuthTimeout (i : nat)
  | EvReturn (i : nat)
  | EvCleanup.

(** The accept loop: a slot for the handler, or the connection is refused. *)
Definition acceptConn (maxConns : Z) (hmacKey : list byte) (i : nat) (remoteAddr : string) (inc out : C)
    (s : Server) : Server :=
  if Z.of_nat (size (conns s)) <? maxConns
  then MkServerState (world s) (<[i := newConn hmacKey inc out]> (conns s))
  else MkServerState (logEntry (MkLogEntry "" "" remoteAddr serverName "connect" "denied"
                                  "connection limit exceeded") (world s)) (conns s).

(** The goroutine that waits for [authDone] closes the connection. *)
Definition authTimeout (c : Conn) : Conn :=
  match at_ c with
  | AwaitAuth | AwaitResponse _ _ => closeConn c
  | _ => c
  end.

Definition cleanup (w : World L) : World L :=
  let '(now, w) := timeNow w in
  with_authenticator (snd (CleanupExpired now (authenticator w))) w.

Definition serverStep (maxConns : Z) (hmacKey : list byte) (s : Server) (ev : event) : Server :=
  match ev with
  | EvAccept i remote inc out =>
      match conns s !! i with
      | Some _ => s
      | None => acceptConn maxConns hmacKey i remote inc out s
      end
  | EvNetwork i inc => MkServerState (world s) (alter (with_incoming inc) i (conns s))
  | EvHandle i =>
      match conns s !! i with
      | Some c => let '(c, w) := handleStep c (world s) in MkServerState w (<[i := c]> (conns s))
      | None => s
      end
  | EvAuthTimeout i => MkServerState (world s) (alter authTimeout i (conns s))
  | EvReturn i =>
      match conns s !! i with
      | Some c => match at_ c with Finished => MkServerState (world s) (delete i (conns s)) | _ => s end
      | None => s
      end
  | EvCleanup => MkServerState (cleanup (world s)) (conns s)
  end.

Definition serverRun (maxConns : Z) (hmacKey : list byte) (s : Server) (evs : list event) : Server :=
  foldl (serverStep maxConns hmacKey) s evs.

(** The state [main] enters the accept loop with. *)
Definition startServer (sharedSecret : list byte) (sessionTTL : Z) (log : L) (times : nat -> Time)
    (rands : nat -> result (list byte)) : Server :=
  MkServerState
    (MkWorld (SetSessionTTL sessionTTL (NewAuthenticator sharedSecret knownTable)) log
       (Health.NewService (5 * Second) (15 * Second)) times 0 rands 0) ∅.

End Server.

(** The registry and the authenticator know the same capabilities of the chat
    client, and both of its services offer chat. *)
Lemma registry_agrees :
  (exists info, Registry.Lookup "ebot.client" serverRegistry = Ok info /\
     knownTable !! Registry.ServiceID info = Some (Registry.Capabilities info)) /\
  length (Registry.FindByCapability "ai:chat" serverRegistry) = 2%nat.
Proof. split; [|by vm_compute]. eexists. split; vm_compute; reflexivity. Qed.

(** ** What a step leaves alone *)

Section Frame.
Context {C : Type} `{Channel C}.

(** The parts of a connection that receiving and sending do not touch. *)
Definition same_peer (c c' : @Conn C) : Prop :=
  at_ c' = at_ c /\ peerCapabilities (endpoint c') = peerCapabilities (endpoint c) /\
  se_hmacKey (endpoint c') = se_hmacKey (endpoint c).

#[global] Instance same_peer_preorder : PreOrder same_peer.
Proof. split; [by intros c|]. intros c1 c2 c3 (E1 & E2 & E3) (F1 & F2 & F3). unfold same_peer. by rewrite F1, F2, F3. Qed.

Lemma receive_same c r c' : receive c = (r, c') -> same_peer c c'.
Proof.
  unfold receive. destruct (open c); [|by intros [= _ <-]].
  unfold ServerEndpoint_Receive, accept. destruct (chan_recv (incoming c)) as [[f|e] inc]; [|by intros [= _ <-]].
  destruct (integrityOk _ f); cbn [negb]; [|by intros [= _ <-]].
  destruct (Unmarshal (Header f)) as [h|e]; [|by intros [= _ <-]].
  destruct (Check _ _) as [t [e|]]; by intros [= _ <-].
Qed.

Lemma receive_outgoing c r c' : receive c = (r, c') -> outgoing c' = outgoing c.
Proof.
  unfold receive. destruct (open c); [|by intros [= _ <-]].
  destruct (ServerEndpoint_Receive _) as [r0 [e inc]]. by intros [= _ <-].
Qed.

Lemma send_same m c r c' : send m c = (r, c') -> same_peer c c'.
Proof.
  unfold send, ServerEndpoint_Send. destruct (Marshal _) as [bs|e].
  - destruct (chan_send _ _) as [r0 out]. destruct (open c); by intros [= _ <-].
  - destruct (open c); by intros [= _ <-].
Qed.

Context {L : Type} `{Logger L} `{UnicodeTable}.

Lemma sendDenied_same rid e c (w : World L) c' w' :
  sendDenied rid e c w = (c', w') -> same_peer c c' /\ w' = snd (timeNow w).
Proof.
  unfold sendDenied. simpl. destruct (send _ c) as [r c1] eqn:E. intros [= <- <-].
  split; [by eapply send_same|done].
Qed.

Lemma sendError_same m e c (w : World L) c' w' :
  sendError m e c w = (c', w') -> same_peer c c' /\ w' = snd (timeNow w).
Proof.
  unfold sendError. simpl. destruct (send _ c) as [r c1] eqn:E. intros [= <- <-].
  split; [by eapply send_same|done].
Qed.

End Frame.

(** ** The audit trail *)

(** The log as the sequence of its entries; [FileLogger] writes one line for
    each of them. *)
Definition trail := list Entry.

#[global] Instance trail_Logger : Logger trail := fun now e t => (Ok tt, t ++ [stamped now e]).

Lemma auditLogger_logEntry e (w : World trail) :
  auditLogger (logEntry e w) = auditLogger w ++ [stamped (clock w (ticks w)) e].
Proof. done. Qed.

(** Entries that report an action carried out for a peer, as opposed to a
    refusal or the opening of a session. *)
Definition served (e : Entry) : Prop := eDecision e = "allowed" /\ eResult e <> "session created".

(** The capability permits what the entry reports.  For a request to the
    language model that is the logged action.  For an intent it is
    [ui.cursor.move], the action the server asks about whatever the intent is
    called; the log has the intent's name. *)
Definition permits (cap : string) (e : Entry) : Prop :=
  eTarget e = "eai" /\ (eAction e = "ai.chat.send" \/ eAction e = "ai.complete.send") /\
    allows capChecker cap (eAction e) \/
  eTarget e = serverName /\ allows capChecker cap "ui.cursor.move".

(** The entry of a successful handshake of [sid]. *)
Definition admitted (sid : string) (e : Entry) : Prop :=
  eSource e = sid /\ eAction e = "authenticate" /\ eDecision e = "allowed" /\ eResult e = "session created".

Lemma stamped_fields now e :
  eSource (stamped now e) = eSource e /\ eTarget (stamped now e) = eTarget e /\
  eAction (stamped now e) = eAction e /\ eDecision (stamped now e) = eDecision e /\
  eResult (stamped now e) = eResult e.
Proof. unfold stamped. by destruct (String.eqb _ _). Qed.

Lemma served_stamped now e : served (stamped now e) <-> served e.
Proof. unfold served. by destruct (stamped_fields now e) as (_ & _ & _ & -> & ->). Qed.

Lemma permits_stamped cap now e : permits cap (stamped now e) <-> permits cap e.
Proof. unfold permits. by destruct (stamped_fields now e) as (_ & -> & -> & _). Qed.

Lemma admitted_stamped now rid sid : admitted sid (stamped now (authEntry rid sid "allowed" "session created")).
Proof.
  unfold admitted. by destruct (stamped_fields now (authEntry rid sid "allowed" "session created")) as (-> & _ & -> & -> & ->).
Qed.

(** A capability that passed the checker permits the action. *)
Lemma check_allows cap act : Checker_Check capChecker [cap] act = None -> allows capChecker cap act.
Proof.
  unfold Checker_Check. destruct (permitted _ _ _) eqn:E; [|done]. intros _.
  apply permitted_spec in E as (c & ->%list_elem_of_singleton & Ha). done.
Qed.

Lemma permits_nonempty cap e : permits cap e -> cap <> "".
Proof. intros [(_ & _ & actions & Hl & _)|(_ & actions & Hl & _)] ->; vm_compute in Hl; discriminate. Qed.

Lemma validate_held cap e : ValidateCapability cap e = None -> cap <> "" -> cap ∈ peerCapabilities e.
Proof.
  unfold ValidateCapability. destruct (String.eqb_spec cap ""); [done|].
  destruct (existsb _ _) eqn:E; [|done]. intros _ _.
  apply existsb_exists in E as (c & Hin & ->%String.eqb_eq). by apply list_elem_of_In.
Qed.

Section Trail.
Context {C : Type} `{Channel C} `{UnicodeTable}.

(** What a handler may do: leave the authenticator alone, and report as served
    only what the capability of the message permits. *)
Definition handler_ok (h : @HandlerFunc (World trail)) : Prop := forall msg w res w', h msg w = (res, w') ->
  authenticator w' = authenticator w /\ entropy w' = entropy w /\
  exists es, auditLogger w' = auditLogger w ++ es /\
    Forall (fun e => served e -> permits (Capability msg) e) es.

Lemma denied_entry rid src tgt act res now cap :
  Forall (fun e => served e -> permits cap e)
    [stamped now (MkLogEntry "" rid src tgt act "denied" res)].
Proof. apply Forall_singleton. rewrite served_stamped. by intros [? _]. Qed.

Lemma allowed_intent rid src act res now cap :
  Checker_Check capChecker [cap] "ui.cursor.move" = None ->
  Forall (fun e => served e -> permits cap e) [stamped now (MkLogEntry "" rid src serverName act "allowed" res)].
Proof. intros Hc%check_allows. apply Forall_singleton. intros _. rewrite permits_stamped. by right. Qed.

Lemma allowed_forward rid src act res now cap :
  Checker_Check capChecker [cap] act = None -> act = "ai.chat.send" \/ act = "ai.complete.send" ->
  Forall (fun e => served e -> permits cap e) [stamped now (MkLogEntry "" rid src "eai" act "allowed" res)].
Proof. intros Hc%check_allows Hact. apply Forall_singleton. intros _. rewrite permits_stamped. by left. Qed.

Ltac handler_cases :=
  intros msg w res w';
  repeat match goal with
  | |- (match timeNow _ with _ => _ end) = _ -> _ => unfold timeNow at 1; cbv beta iota
  | |- (match ?x with _ => _ end) = _ -> _ => let E := fresh "E" in destruct x eqn:E
  end; intros [= <- <-]; (split; [reflexivity|split; [reflexivity|]]);
  first [ exists []; split; [by rewrite app_nil_r|by apply Forall_nil_2]
        | eexists; split; [apply auditLogger_logEntry|first [by apply denied_entry | by apply allowed_intent | by apply allowed_forward; [|auto]]] ].

Lemma handleIntent_ok : handler_ok handleIntent.
Proof. unfold handler_ok, handleIntent. handler_cases. Qed.

Lemma handleHeartbeat_ok : handler_ok handleHeartbeat.
Proof. unfold handler_ok, handleHeartbeat. handler_cases. Qed.

Lemma handleChat_ok : handler_ok handleChat.
Proof. unfold handler_ok, handleChat. handler_cases. Qed.

Lemma handleComplete_ok : handler_ok handleComplete.
Proof. unfold handler_ok, handleComplete. handler_cases. Qed.

Lemma Dispatch_ok : handler_ok (Dispatch router).
Proof.
  intros msg w res w'. unfold Dispatch. destruct (handlers router !! MType msg) as [h|] eqn:Eh.
  - assert (h = handleComplete \/ h = handleChat \/ h = handleHeartbeat \/ h = handleIntent) as Hh.
    { cbn [router Handle handlers NewRouter] in Eh.
      repeat (apply lookup_insert_Some in Eh as [[_ <-]|[_ Eh]]; [tauto|]). by rewrite lookup_empty in Eh. }
    destruct Hh as [->|[->|[->| ->]]]; [apply handleComplete_ok|apply handleChat_ok|apply handleHeartbeat_ok|apply handleIntent_ok].
  - intros [= <- <-]. split; [done|]. split; [done|]. exists []. by rewrite app_nil_r.
Qed.

(** The operations the server performs on its authenticator. *)
Definition by_server (op : auth_op) : Prop :=
  match op with AChallenge _ _ _ | AVerify _ _ _ _ | ACleanup _ => True | _ => False end.

Definition auth_moves (a a' : Authenticator) : Prop :=
  a' = a \/ exists op, by_server op /\ a' = auth_step a op.

(** The endpoint has the capabilities of the phase. *)
Definition shape (c : @Conn C) : Prop :=
  match at_ c with
  | AwaitAuth | AwaitResponse _ _ => peerCapabilities (endpoint c) = []
  | Serving peer => peerCapabilities (endpoint c) = Capabilities peer
  | Finished => True
  | Panicked => False
  end.

(** The peer served on the connection has a capability for the entry's action. *)
Definition permitted_here (c : @Conn C) (e : Entry) : Prop :=
  exists peer cap, at_ c = Serving peer /\ cap ∈ peerCapabilities (endpoint c) /\
    permits cap e.

(** What one step of a handler does, in its own terms. *)
Record step_spec (c : @Conn C) (w : World trail) (c' : @Conn C) (w' : World trail) : Prop := {
  sp_auth : auth_moves (authenticator w) (authenticator w');
  sp_entropy : entropy w' = entropy w;
  sp_shape : shape c';
  sp_trail : exists es, auditLogger w' = auditLogger w ++ es /\
    Forall (fun e => served e -> permitted_here c e) es;
  sp_serving peer : at_ c' = Serving peer ->
    at_ c = Serving peer \/
    activeSessions (authenticator w') !! SessionToken peer = Some peer /\
    exists e, e ∈ auditLogger w' /\ admitted (ServiceID peer) e
}.

(** [rand.Read] fills the 32 bytes it is given, or fails. *)
Definition fills (rands : nat -> result (list byte)) : Prop := forall n b, rands n = Ok b -> length b = 32%nat.

Lemma shape_same c c' : same_peer c c' -> shape c -> shape c'.
Proof. intros (E1 & E2 & _). unfold shape. by rewrite E1, E2. Qed.

(** The steps that end the handler, after any sends. *)
Lemma spec_finished c w c' w' es :
  auth_moves (authenticator w) (authenticator w') -> entropy w' = entropy w ->
  auditLogger w' = auditLogger w ++ es -> Forall (fun e => ~ served e) es ->
  at_ c' = Finished -> step_spec c w c' w'.
Proof.
  intros Ha He Hl Hes Hc. constructor; [done|done|unfold shape; by rewrite Hc| |intros p; by rewrite Hc].
  exists es. split; [done|]. eapply Forall_impl; [exact Hes|]. by intros e Hn Hs.
Qed.

Lemma not_served_denied now rid src tgt act res : Forall (fun e => ~ served e) [stamped now (MkLogEntry "" rid src tgt act "denied" res)].
Proof. apply Forall_singleton. rewrite served_stamped. by intros [? _]. Qed.

(** The steps that stay in their phase or go to another one before [Serving]. *)
Lemma spec_waits c w c' w' es :
  auth_moves (authenticator w) (authenticator w') -> entropy w' = entropy w ->
  auditLogger w' = auditLogger w ++ es ->
  Forall (fun e => served e -> permitted_here c e) es ->
  shape c' -> (forall peer, at_ c' = Serving peer -> at_ c = Serving peer) -> step_spec c w c' w'.
Proof. intros. constructor; [done|done|done|by exists es|]. eauto. Qed.

Lemma app_nil (w w' : World trail) : auditLogger w' = auditLogger w -> auditLogger w' = auditLogger w ++ [].
Proof. by rewrite app_nil_r. Qed.

(** The early returns. *)
Lemma spec_returns c w c' : at_ c' = Finished -> step_spec c w c' w.
Proof. intros Hc. apply (spec_finished _ _ _ _ []); [by left|done|by apply app_nil|by apply Forall_nil_2|done]. Qed.

Lemma handleRequest_spec c w c' w' :
  at_ c = AwaitAuth -> shape c -> handleRequest c w = (c', w') -> step_spec c w c' w'.
Proof.
  intros Hat Hsh. unfold handleRequest.
  destruct (receive c) as [[m|e] c1] eqn:Er; [|intros [= <- <-]; by apply spec_returns].
  apply receive_same in Er.
  destruct (String.eqb (MType m) TypeAuth); cbn [negb]; [|intros [= <- <-]; by apply spec_returns].
  destruct (Unmarshal (MPayload m)) as [r|e]; [|intros [= <- <-]; by apply spec_returns].
  cbn [randRead timeNow authenticator].
  destruct (CreateChallenge _ _ _ _) as [[ch|err] a] eqn:Ec;
    assert (auth_moves (authenticator w) a) as Hm
      by (right; eexists (AChallenge _ _ _); split; [exact I|cbn [auth_step]; by rewrite Ec]).
  - cbn [Marshal challengeMessage_codec timeNow].
    destruct (send _ c1) as [[u|e] c2] eqn:Es; intros [= <- <-]; apply send_same in Es.
    + apply (spec_waits _ _ _ _ []); [done|done|by apply app_nil|by apply Forall_nil_2| |by intros ?].
      destruct Er as (_ & E2 & _), Es as (_ & E4 & _). unfold shape in *. rewrite Hat in Hsh. simpl. congruence.
    + by apply (spec_finished _ _ _ _ []); [..|by apply app_nil|apply Forall_nil_2|].
  - destruct (sendDenied _ _ _ _) as [c2 w2] eqn:Es. intros [= <- <-].
    apply sendDenied_same in Es as [_ ->].
    by eapply spec_finished; [..|reflexivity|apply not_served_denied|].
Qed.

Lemma VerifyResponse_ok rnd now sid resp a p a' :
  VerifyResponse rnd now sid resp a = (Ok p, a') ->
  exists b, rnd = Ok b /\ SessionToken p = string_of_bytes (hexEncode b) /\
    activeSessions a' !! SessionToken p = Some p.
Proof.
  unfold VerifyResponse. destruct (pendingChallenges a !! sid); [|done].
  destruct (hmacEqual _ _); cbn [negb]; [|done]. unfold openSession, generateToken.
  destruct rnd as [b|e]; [|done]. cbn [mbind result_bind]. intros [= <- <-]. exists b.
  cbn [with_sessions activeSessions SessionToken]. by rewrite lookup_insert_eq.
Qed.

Lemma length_hexEncode bs : length (hexEncode bs) = (2 * length bs)%nat.
Proof.
  induction bs as [|b bs IH]; [done|].
  change (hexEncode (b :: bs)) with (hexDigits 2 (b2z b) ++ hexEncode bs).
  rewrite length_app, length_hexDigits, IH. simpl. lia.
Qed.

Lemma handleResponse_spec rid sid c w c' w' :
  at_ c = AwaitResponse rid sid -> shape c -> fills (entropy w) ->
  handleResponse rid sid c w = (c', w') -> step_spec c w c' w'.
Proof.
  intros Hat Hsh Hf. unfold handleResponse.
  destruct (receive c) as [[m|e] c1] eqn:Er; [|intros [= <- <-]; by apply spec_returns].
  destruct (String.eqb (MType m) TypeAuthResponse); cbn [negb]; [|intros [= <- <-]; by apply spec_returns].
  destruct (Unmarshal (MPayload m)) as [r|e]; [|intros [= <- <-]; by apply spec_returns].
  destruct (hexDecode _) as [resp|e]; [|intros [= <- <-]; by apply spec_returns].
  cbn [randRead timeNow authenticator].
  destruct (VerifyResponse _ _ _ _ _) as [[p|err] a] eqn:Ec;
    assert (auth_moves (authenticator w) a) as Hm
      by (right; eexists (AVerify _ _ _ _); split; [exact I|cbn [auth_step]; by rewrite Ec]).
  - apply VerifyResponse_ok in Ec as (b & Hb & Ht & Hs). apply Hf in Hb.
    unfold admitPeer. rewrite Ht, slen_string_of_bytes. unfold zlen. rewrite length_hexEncode, Hb.
    change (Z.of_nat (2 * 32) <? 8) with false. cbv iota. cbn [Marshal authResult_codec timeNow].
    destruct (send _ _) as [[u|e] c2] eqn:Es; intros [= <- <-]; apply send_same in Es as (_ & Ecap & _).
    + constructor; [done|done|done| |].
      * eexists. split; [reflexivity|]. apply Forall_singleton. rewrite served_stamped. by intros [_ ?].
      * intros peer [= <-]. right. split; [done|]. eexists. split; [|apply admitted_stamped].
        cbn [auditLogger]. apply elem_of_app. right. by apply list_elem_of_singleton.
    + eapply spec_finished; [done|done|reflexivity| |done].
      apply Forall_singleton. rewrite served_stamped. by intros [_ ?].
  - destruct (sendDenied _ _ _ _) as [c2 w2] eqn:Es. intros [= <- <-].
    apply sendDenied_same in Es as [_ ->].
    by eapply spec_finished; [..|reflexivity|apply not_served_denied|].
Qed.

Lemma handleMessage_spec p c w c' w' :
  at_ c = Serving p -> shape c -> handleMessage p c w = (c', w') -> step_spec c w c' w'.
Proof.
  intros Hat Hsh. unfold handleMessage.
  destruct (receive c) as [[m|e] c1] eqn:Er; [|intros [= <- <-]; by apply spec_returns].
  apply receive_same in Er. cbn [timeNow].
  destruct (IsExpired _ p).
  { intros [= <- <-]. eapply spec_finished; [by left|done|reflexivity|apply not_served_denied|done]. }
  assert (forall c2, same_peer c1 c2 -> shape c2 /\ forall peer, at_ c2 = Serving peer -> at_ c = Serving peer) as Hsame.
  { intros c2 H2. assert (same_peer c c2) as H3 by (by etrans). split; [by eapply shape_same|].
    destruct H3 as (-> & _). done. }
  destruct (ValidateCapability _ _) as [err|] eqn:Ev.
  { intros [Hs ->]%sendError_same. apply Hsame in Hs as [Hs1 Hs2].
    eapply spec_waits; [by left|done|reflexivity| |done|done].
    apply Forall_singleton. rewrite served_stamped. by intros [? _]. }
  destruct (Dispatch router m _) as [res w1] eqn:Ed.
  apply Dispatch_ok in Ed as (Ha & He & es & Hl & Hes). cbn [authenticator entropy auditLogger] in *.
  assert (Forall (fun e => served e -> permitted_here c e) es) as Hes'.
  { eapply Forall_impl; [exact Hes|]. intros e Hal Hse. specialize (Hal Hse). exists p, (Capability m).
    destruct Er as (_ & <- & _). split; [done|]. split; [|done]. eapply validate_held; [done|]. by eapply permits_nonempty. }
  assert (auth_moves (authenticator w) (authenticator w1)) as Hm by (by left).
  destruct (DErr res) as [err|].
  { intros [Hs ->]%sendError_same. apply Hsame in Hs as [Hs1 Hs2]. by eapply spec_waits. }
  destruct (Response res) as [resp|].
  2: { intros [= <- <-]. destruct (Hsame c1) as [Hs1 Hs2]; [done|]. by eapply spec_waits. }
  destruct (send resp c1) as [[u|e] c2] eqn:Es; intros [= <- <-]; apply send_same in Es.
  - apply Hsame in Es as [Hs1 Hs2]. by eapply spec_waits.
  - constructor; [done|done|exact I|by exists es|by intros ?].
Qed.

Lemma handleStep_spec c w c' w' :
  shape c -> fills (entropy w) -> handleStep c w = (c', w') -> step_spec c w c' w'.
Proof.
  intros Hsh Hf. unfold handleStep. destruct (at_ c) eqn:Hat.
  - by apply handleRequest_spec.
  - by apply handleResponse_spec.
  - by apply handleMessage_spec.
  - intros [= <- <-]. by apply spec_returns.
  - unfold shape in Hsh. by rewrite Hat in Hsh.
Qed.

(** ** The invariant of the server *)

(** A trail in which every served action comes after the handshake of a known
    service with a capability that permits it. *)
Definition justified (pre : trail) (e : Entry) : Prop :=
  exists sid caps cap, knownTable !! sid = Some caps /\ cap ∈ caps /\
    permits cap e /\ exists a, a ∈ pre /\ admitted sid a.

Definition trail_ok (t : trail) : Prop :=
  forall pre e post, t = pre ++ e :: post -> served e -> justified pre e.

Lemma trail_ok_app t es :
  trail_ok t -> Forall (fun e => served e -> justified t e) es -> trail_ok (t ++ es).
Proof.
  intros Ht Hes pre e post E Hse. apply app_eq_inv in E as [(k & -> & Ek)|(k & -> & ->)].
  - destruct k as [|x k]; simplify_eq/=; [|by apply (Ht pre x k)].
    rewrite app_nil_r in *. apply Forall_cons in Hes as [He _]. by apply He.
  - apply Forall_app in Hes as [_ Hes]. apply Forall_cons in Hes as [He _].
    destruct (He Hse) as (sid & caps & cap & H1 & H2 & H3 & a & Ha & Had).
    exists sid, caps, cap. split_and!; [done..|]. exists a. set_solver.
Qed.

(** The server after a history [ops] of its authenticator. *)
Record server_inv (maxConns : Z) (secret : list byte) (ops : list auth_op) (s : @Server trail C) : Prop := {
  si_ops : Forall (fun op => by_server op \/ exists ttl, op = ASetTTL ttl) ops;
  si_auth : authenticator (world s) = auth_run (NewAuthenticator secret knownTable) ops;
  si_fills : fills (entropy (world s));
  si_slots : Z.of_nat (size (conns s)) <= Z.max 0 maxConns;
  si_shape i c : conns s !! i = Some c -> shape c;
  si_serving i c peer : conns s !! i = Some c -> at_ c = Serving peer ->
    knownTable !! ServiceID peer = Some (Capabilities peer) /\
    responded secret ops (ServiceID peer) (SessionToken peer) /\
    exists e, e ∈ auditLogger (world s) /\ admitted (ServiceID peer) e;
  si_trail : trail_ok (auditLogger (world s))
}.

Lemma not_legacy ops sid token :
  Forall (fun op => by_server op \/ exists ttl, op = ASetTTL ttl) ops -> ~ legacy ops sid token.
Proof.
  intros Hops (rnd & now & Hin & _). rewrite Forall_forall in Hops. by destruct (Hops _ Hin) as [[]|[? [=]]].
Qed.

(** The history after a move of the authenticator. *)
Lemma moves_history secret ops a a' :
  Forall (fun op => by_server op \/ exists ttl, op = ASetTTL ttl) ops ->
  a = auth_run (NewAuthenticator secret knownTable) ops -> auth_moves a a' ->
  exists ops', Forall (fun op => by_server op \/ exists ttl, op = ASetTTL ttl) ops' /\
    a' = auth_run (NewAuthenticator secret knownTable) ops' /\
    forall sid token, responded secret ops sid token -> responded secret ops' sid token.
Proof.
  intros Hops -> [->|(op & Hop & ->)]; [by exists ops|]. exists (ops ++ [op]).
  split; [apply Forall_app; split; [done|]; apply Forall_singleton; by left|].
  split; [unfold auth_run; by rewrite foldl_app|]. intros. by apply responded_snoc.
Qed.

(** A step of the handler of connection [i]. *)
Lemma inv_handle maxConns secret ops s i c c' w' :
  server_inv maxConns secret ops s -> conns s !! i = Some c -> step_spec c (world s) c' w' ->
  exists ops', server_inv maxConns secret ops' (MkServerState w' (<[i := c']> (conns s))).
Proof.
  intros [Hops Ha Hf Hn Hsh Hse Ht] Hi [Sa Se Ssh (es & Hl & Hes) Ss].
  destruct (moves_history _ _ _ _ Hops Ha Sa) as (ops' & Hops' & Ha' & Hr).
  assert (forall e, e ∈ auditLogger (world s) -> e ∈ auditLogger w') as Hmono by (rewrite Hl; set_solver).
  exists ops'. constructor; cbn [world conns]; [done|done|by rewrite Se| | | |].
  - rewrite map_size_insert, Hi. done.
  - intros j d Hj. apply lookup_insert_Some in Hj as [[_ <-]|[_ Hj]]; [done|by eapply Hsh].
  - intros j d peer Hj Hat.
    assert ((exists d0, conns s !! j = Some d0 /\ at_ d0 = Serving peer) \/
      activeSessions (authenticator w') !! SessionToken peer = Some peer /\
      exists e, e ∈ auditLogger w' /\ admitted (ServiceID peer) e) as [(d0 & Hj0 & Hat0)|[Hs He]].
    { apply lookup_insert_Some in Hj as [[<- <-]|[_ Hj]]; [|by left; exists d].
      destruct (Ss peer Hat) as [Hc|Hc]; [left; by exists c|by right]. }
    + destruct (Hse _ _ _ Hj0 Hat0) as (H1 & H2 & e & H3 & H4). eauto 10.
    + rewrite Ha' in Hs. destruct (ex_sessions _ _ _ _ (explains_run secret knownTable ops') _ _ Hs) as (_ & Hk & [Hre|Hle]).
      * by split_and!.
      * by apply not_legacy in Hle.
  - rewrite Hl. apply trail_ok_app; [done|]. eapply Forall_impl; [exact Hes|].
    intros e Hcap Hs. destruct (Hcap Hs) as (p & cap & Hat & Hin & Hal).
    specialize (Hsh i c Hi). unfold shape in Hsh. rewrite Hat in Hsh. rewrite Hsh in Hin.
    destruct (Hse _ _ _ Hi Hat) as (H1 & _ & a & H3 & H4). exists (ServiceID p), (Capabilities p), cap. eauto 6.
Qed.

(** Steps that only change what a connection has received or whether it is
    open keep the invariant. *)
Lemma inv_alter maxConns secret ops s i (f : @Conn C -> @Conn C) :
  (forall c, same_peer c (f c)) -> server_inv maxConns secret ops s ->
  server_inv maxConns secret ops (MkServerState (world s) (alter f i (conns s))).
Proof.
  intros Hf [Hops Ha He Hn Hsh Hse Ht]. constructor; cbn [world conns]; try done.
  - by rewrite <-(size_dom (D := gset nat)), dom_alter_L, size_dom.
  - intros j c Hj. apply lookup_alter_Some in Hj as [(<- & c0 & Hj & ->)|[_ Hj]]; [|by eapply Hsh].
    eapply shape_same; [apply Hf|by eapply Hsh].
  - intros j c peer Hj Hat. apply lookup_alter_Some in Hj as [(<- & c0 & Hj & ->)|[_ Hj]]; [|by eapply Hse].
    eapply Hse; [done|]. destruct (Hf c0) as (<- & _). done.
Qed.

(** So do steps of the rest of the server. *)
Lemma inv_world maxConns secret ops s (w' : World trail) (cs : gmap nat (@Conn C)) :
  server_inv maxConns secret ops s -> auth_moves (authenticator (world s)) (authenticator w') ->
  entropy w' = entropy (world s) ->
  (exists es, auditLogger w' = auditLogger (world s) ++ es /\ Forall (fun e => ~ served e) es) ->
  Z.of_nat (size cs) <= Z.max 0 maxConns ->
  (forall i c, cs !! i = Some c -> conns s !! i = Some c \/ at_ c = AwaitAuth /\ peerCapabilities (endpoint c) = []) ->
  exists ops', server_inv maxConns secret ops' (MkServerState w' cs).
Proof.
  intros [Hops Ha Hf Hn Hsh Hse Ht] Hm He (es & Hl & Hes) Hsz Hcs.
  destruct (moves_history _ _ _ _ Hops Ha Hm) as (ops' & Hops' & Ha' & Hr).
  exists ops'. constructor; cbn [world conns]; [done|done|by rewrite He|done| | |].
  - intros j c Hj. destruct (Hcs j c Hj) as [Hj'|[H1 H2]]; [by eapply Hsh|]. unfold shape. by rewrite H1.
  - intros j c peer Hj Hat. destruct (Hcs j c Hj) as [Hj'|[H1 H2]]; [|by rewrite H1 in Hat].
    destruct (Hse _ _ _ Hj' Hat) as (H1 & H2 & e & H3 & H4). rewrite Hl. split_and!; [done|by apply Hr|].
    exists e. set_solver.
  - rewrite Hl. apply trail_ok_app; [done|]. eapply Forall_impl; [exact Hes|]. by intros e H1 H2.
Qed.

Lemma inv_accept maxConns secret ops s i remote inc out :
  server_inv maxConns secret ops s -> conns s !! i = None ->
  exists ops', server_inv maxConns secret ops' (acceptConn maxConns secret i remote inc out s).
Proof.
  intros Hinv Hi. unfold acceptConn. destruct (Z.ltb_spec (Z.of_nat (size (conns s))) maxConns) as [Hlt|Hge].
  - eapply inv_world; [done|by left|done|by exists []; rewrite app_nil_r| |].
    + rewrite map_size_insert, Hi. lia.
    + intros j c Hj. apply lookup_insert_Some in Hj as [[_ <-]|[_ Hj]]; [by right|by left].
  - eapply inv_world; [done|by left|done|eexists; split; [reflexivity|apply not_served_denied]|apply Hinv|by left].
Qed.

Lemma server_inv_step maxConns secret ops s ev :
  server_inv maxConns secret ops s ->
  exists ops', server_inv maxConns secret ops' (serverStep maxConns secret s ev).
Proof.
  intros Hinv. destruct ev as [i remote inc out|i inc|i|i|i|]; cbn [serverStep].
  - destruct (conns s !! i) as [c|] eqn:Hi; [by exists ops|by eapply inv_accept].
  - exists ops. by apply inv_alter.
  - destruct (conns s !! i) as [c|] eqn:Hi; [|by exists ops].
    destruct (handleStep c (world s)) as [c' w'] eqn:Eh. eapply inv_handle; [done|done|].
    apply handleStep_spec in Eh; [done|by eapply si_shape|by eapply si_fills].
  - exists ops. apply inv_alter; [|done]. intros c. unfold authTimeout. by destruct (at_ c) eqn:E.
  - destruct (conns s !! i) as [c|] eqn:Hi; [|by exists ops]. destruct (at_ c); try by exists ops.
    eapply inv_world; [done|by left|done|by exists []; rewrite app_nil_r| |].
    + rewrite map_size_delete, Hi. pose proof (si_slots _ _ _ _ Hinv). simpl. lia.
    + intros j d [_ Hj]%lookup_delete_Some. by left.
  - eapply inv_world; [done|right; eexists (ACleanup _); split; [exact I|reflexivity]|done
      |by exists []; rewrite app_nil_r|apply Hinv|by left].
Qed.

Lemma inv_start maxConns secret ttl times rands :
  fills rands ->
  server_inv maxConns secret [ASetTTL ttl] (startServer secret ttl [] times rands).
Proof.
  intros Hf. constructor; cbn [world conns startServer authenticator auditLogger entropy];
    [apply Forall_singleton; right; by eexists|done|done|rewrite map_size_empty; lia|..].
  - intros i c. by rewrite lookup_empty.
  - intros i c p. by rewrite lookup_empty.
  - intros pre e post E. by destruct pre.
Qed.

Lemma server_inv_run maxConns secret ttl times rands evs :
  fills rands -> exists ops,
  server_inv maxConns secret ops (serverRun maxConns secret (startServer secret ttl [] times rands) evs).
Proof.
  intros Hf. induction evs as [|ev evs [ops IH]] using rev_ind; [eexists; by apply inv_start|].
  unfold serverRun. rewrite foldl_app. by eapply server_inv_step.
Qed.

End Trail.

(** ** Who opened a session *)

Section Provenance.
Context {C : Type} `{Channel C} `{UnicodeTable}.

(** The next message of the connection is a request for a challenge of [sid]. *)
Definition asks (c : @Conn C) (sid : string) : Prop :=
  exists m c1, at_ c = AwaitAuth /\ receive c = (Ok m, c1) /\ MType m = TypeAuth /\
    Unmarshal (MPayload m) = Ok (MkAuthRequest sid).

(** It is an answer to the challenge of [sid]. *)
Definition answers (c : @Conn C) (sid : string) (response : list byte) : Prop :=
  exists rid m c1 r, at_ c = AwaitResponse rid sid /\ receive c = (Ok m, c1) /\ MType m = TypeAuthResponse /\
    Unmarshal (MPayload m) = Ok r /\ hexDecode (bytes_of_string (ch_Response r)) = Ok response.

(** The three things a step of a handler can do to the authenticator. *)
Inductive auth_case (c : @Conn C) (w : World trail) (c' : @Conn C) (w' : World trail) : Prop :=
  | auth_challenge sid :
      asks c sid ->
      authenticator w' = snd (CreateChallenge (entropy w (draws w)) (clock w (ticks w)) sid (authenticator w)) ->
      (forall peer, at_ c' <> Serving peer) -> auth_case c w c' w'
  | auth_verify sid response :
      answers c sid response ->
      authenticator w' = snd (VerifyResponse (entropy w (draws w)) (clock w (ticks w)) sid response (authenticator w)) ->
      (forall peer, at_ c' = Serving peer ->
        fst (VerifyResponse (entropy w (draws w)) (clock w (ticks w)) sid response (authenticator w)) = Ok peer) ->
      auth_case c w c' w'
  | auth_none :
      (forall sid, ~ asks c sid) -> (forall sid response, ~ answers c sid response) ->
      authenticator w' = authenticator w ->
      (forall peer, at_ c' = Serving peer -> at_ c = Serving peer) -> auth_case c w c' w'.

Lemma asks_inv c sid m c1 : receive c = (Ok m, c1) -> asks c sid ->
  at_ c = AwaitAuth /\ MType m = TypeAuth /\ Unmarshal (MPayload m) = Ok (MkAuthRequest sid).
Proof. intros E (m' & c1' & H1 & H2 & H3 & H4). rewrite E in H2. by injection H2 as -> ->. Qed.

Lemma answers_inv c sid response m c1 : receive c = (Ok m, c1) -> answers c sid response ->
  exists rid r, at_ c = AwaitResponse rid sid /\ MType m = TypeAuthResponse /\ Unmarshal (MPayload m) = Ok r /\
    hexDecode (bytes_of_string (ch_Response r)) = Ok response.
Proof. intros E (rid & m' & c1' & r & H1 & H2 & H3 & H4 & H5). rewrite E in H2. injection H2 as -> ->. eauto 6. Qed.

(** A step that neither asks nor answers, in any of its ways out. *)
Ltac no_case Er :=
  apply auth_none; [| |reflexivity|done];
  [ intros ? Hx; first [by destruct Hx as (? & ? & Hx & _); congruence
      | by destruct Hx as (? & ? & _ & Hx & _); congruence
      | apply (asks_inv _ _ _ _ Er) in Hx as (? & ? & ?); congruence ]
  | intros ? ? Hx; first [by destruct Hx as (? & ? & ? & ? & Hx & _); congruence
      | by destruct Hx as (? & ? & ? & ? & _ & Hx & _); congruence
      | apply (answers_inv _ _ _ _ _ Er) in Hx as (? & ? & ? & ? & ? & ?); congruence ] ].

Lemma handleRequest_auth c (w : World trail) c' w' :
  at_ c = AwaitAuth -> handleRequest c w = (c', w') -> auth_case c w c' w'.
Proof.
  intros Hat. unfold handleRequest. destruct (receive c) as [[m|e] c1] eqn:Er; [|intros [= <- <-]; no_case Er].
  destruct (String.eqb_spec (MType m) TypeAuth) as [Et|Et]; cbn [negb]; [|intros [= <- <-]; no_case Er].
  destruct (Unmarshal (MPayload m)) as [[sid]|e] eqn:Eu; [|intros [= <- <-]; no_case Er].
  assert (asks c sid) as Hask by (by exists m, c1). cbn [randRead timeNow authenticator clock ticks ar_ServiceID].
  destruct (CreateChallenge _ _ _ _) as [[ch|err] a] eqn:Ec.
  - cbn [Marshal challengeMessage_codec timeNow]. destruct (send _ c1) as [[u|e] c2]; intros [= <- <-];
      (apply (auth_challenge _ _ _ _ sid); [done|by rewrite Ec|done]).
  - destruct (sendDenied _ _ _ _) as [c2 w2] eqn:Es. intros [= <- <-]. apply sendDenied_same in Es as [_ ->].
    apply (auth_challenge _ _ _ _ sid); [done|by rewrite Ec|done].
Qed.

Lemma handleResponse_auth rid sid c (w : World trail) c' w' :
  at_ c = AwaitResponse rid sid -> handleResponse rid sid c w = (c', w') -> auth_case c w c' w'.
Proof.
  intros Hat. unfold handleResponse. destruct (receive c) as [[m|e] c1] eqn:Er; [|intros [= <- <-]; no_case Er].
  destruct (String.eqb_spec (MType m) TypeAuthResponse) as [Et|Et]; cbn [negb]; [|intros [= <- <-]; no_case Er].
  destruct (Unmarshal (MPayload m)) as [r|e] eqn:Eu; [|intros [= <- <-]; no_case Er].
  destruct (hexDecode _) as [resp|e] eqn:Eh; [|intros [= <- <-]; no_case Er].
  assert (answers c sid resp) as Hans by (by exists rid, m, c1, r). cbn [randRead timeNow authenticator clock ticks].
  destruct (VerifyResponse _ _ _ _ _) as [[p|err] a] eqn:Ec.
  - unfold admitPeer. destruct (slen _ <? 8).
    { intros [= <- <-]. apply (auth_verify _ _ _ _ sid resp); [done|by rewrite Ec|done]. }
    cbn [Marshal authResult_codec timeNow].
    destruct (send _ _) as [[u|e] c2]; intros [= <- <-]; (apply (auth_verify _ _ _ _ sid resp); [done|by rewrite Ec|]).
    + intros peer [= <-]. by rewrite Ec.
    + done.
  - destruct (sendDenied _ _ _ _) as [c2 w2] eqn:Es. intros [= <- <-]. apply sendDenied_same in Es as [_ ->].
    apply (auth_verify _ _ _ _ sid resp); [done|by rewrite Ec|done].
Qed.

Lemma handleMessage_auth p c (w : World trail) c' w' :
  at_ c = Serving p -> handleMessage p c w = (c', w') -> auth_case c w c' w'.
Proof.
  intros Hat E. apply auth_none; [by intros ? (? & ? & Hx & _); congruence
    |by intros ? ? (? & ? & ? & ? & Hx & _); congruence|..]; revert E; unfold handleMessage;
    destruct (receive c) as [[m|e] c1] eqn:Er; try (by intros [= <- <-]); apply receive_same in Er as (E1 & _);
    cbn [timeNow]; (destruct (IsExpired _ p); [by intros [= <- <-]|]);
    (destruct (ValidateCapability _ _) as [err|];
      [intros [Hs ->]%sendError_same; first [done | destruct Hs as (-> & _); by rewrite E1]|]);
    destruct (Dispatch router m _) as [res w1] eqn:Ed; apply Dispatch_ok in Ed as (Ha & _);
    (destruct (DErr res) as [err|]; [intros [Hs ->]%sendError_same; first [done | destruct Hs as (-> & _); by rewrite E1]|]);
    (destruct (Response res) as [resp|]; [|intros [= <- <-]; first [done | by rewrite E1]]);
    destruct (send resp c1) as [[u|e] c2] eqn:Es; intros [= <- <-]; try done;
    apply send_same in Es as (-> & _); by rewrite E1.
Qed.

Lemma handleStep_auth c (w : World trail) c' w' : handleStep c w = (c', w') -> auth_case c w c' w'.
Proof.
  unfold handleStep. destruct (at_ c) eqn:Hat.
  - by apply handleRequest_auth.
  - by apply handleResponse_auth.
  - by apply handleMessage_auth.
  - intros [= <- <-]. no_case Hat.
  - intros [= <- <-]. no_case Hat.
Qed.

Lemma asks_unique c sid sid' : asks c sid -> asks c sid' -> sid = sid'.
Proof. intros (m & c1 & _ & Hr & _ & Hu) Ha. apply (asks_inv _ _ _ _ Hr) in Ha as (_ & _ & Hu'). congruence. Qed.

Lemma answers_service c sid r sid' r' : answers c sid r -> answers c sid' r' -> sid = sid'.
Proof. intros (? & ? & ? & ? & H1 & _) (? & ? & ? & ? & H2 & _). congruence. Qed.

Lemma asks_answers c sid sid' r : asks c sid -> answers c sid' r -> False.
Proof. intros (? & ? & H1 & _) (? & ? & ? & ? & H2 & _). congruence. Qed.

Lemma VerifyResponse_pending rnd now sid response a :
  pendingChallenges (snd (VerifyResponse rnd now sid response a)) = delete sid (pendingChallenges a).
Proof.
  unfold VerifyResponse. destruct (pendingChallenges a !! sid) eqn:E; [|cbn [snd]; by rewrite delete_id].
  destruct (negb _); [done|]. unfold openSession. by destruct (generateToken rnd).
Qed.

(** The handler of connection [j] is about to challenge [sid], and the random
    source is about to give [nonce]. *)
Definition requested (s : @Server trail C) (j : nat) (sid : string) (nonce : list byte) : Prop :=
  exists c, conns s !! j = Some c /\ asks c sid /\ entropy (world s) (draws (world s)) = Ok nonce.

(** The handler of connection [i] is about to verify [response] for [sid]. *)
Definition answered (s : @Server trail C) (i : nat) (sid : string) (response : list byte) : Prop :=
  exists c, conns s !! i = Some c /\ answers c sid response.

(** The event replaces the challenge of [sid], or uses it up. *)
Definition touches (s : @Server trail C) (ev : @event C) (sid : string) : Prop :=
  exists k, ev = EvHandle k /\ ((exists nonce, requested s k sid nonce) \/ exists response, answered s k sid response).

(** No event does. *)
Fixpoint quiet (maxConns : Z) (key : list byte) (s : @Server trail C) (evs : list (@event C)) (sid : string) : Prop :=
  match evs with
  | [] => True
  | ev :: evs' => ~ touches s ev sid /\ quiet maxConns key (serverStep maxConns key s ev) evs' sid
  end.

Lemma quiet_snoc maxConns key s evs ev sid :
  quiet maxConns key s evs sid -> ~ touches (serverRun maxConns key s evs) ev sid ->
  quiet maxConns key s (evs ++ [ev]) sid.
Proof.
  revert s. induction evs as [|e evs IH]; intros s; [by intros _|]. cbn [app quiet]. intros [H1 H2] H3.
  split; [done|]. by apply IH.
Qed.

(** The challenges after an event: kept, or just issued. *)
Lemma pending_step maxConns key s ev sid ch :
  (is_Some (pendingChallenges (authenticator (world s)) !! sid) -> is_Some (knownServices (authenticator (world s)) !! sid)) ->
  pendingChallenges (authenticator (world (serverStep maxConns key s ev))) !! sid = Some ch ->
  pendingChallenges (authenticator (world s)) !! sid = Some ch /\ ~ touches s ev sid \/
  exists j, ev = EvHandle j /\ requested s j sid (Nonce ch).
Proof.
  intros Hk. destruct ev as [i remote inc out|i inc|i|i|i|]; cbn [serverStep];
    try (intros Hp; left; (split; [|by intros (k & [=] & _)]); revert Hp;
      unfold acceptConn; repeat (case_match; try done); done).
  destruct (conns s !! i) as [c|] eqn:Ec.
  2: { intros Hp. left. split; [done|]. intros (k & [= <-] & [(x & c & H1 & _)|(x & c & H1 & _)]); congruence. }
  destruct (handleStep c (world s)) as [c' w'] eqn:Eh. cbn [world].
  assert (forall k x, EvHandle i = @EvHandle C k -> requested s k sid x -> asks c sid /\ entropy (world s) (draws (world s)) = Ok x) as Hreq.
  { intros k x [= <-] (d & Hd & Ha & He). rewrite Ec in Hd. by injection Hd as <-. }
  assert (forall k x, EvHandle i = @EvHandle C k -> answered s k sid x -> answers c sid x) as Hans.
  { intros k x [= <-] (d & Hd & Ha). rewrite Ec in Hd. by injection Hd as <-. }
  apply handleStep_auth in Eh as [sid' Hask Ha _|sid' resp Hask Ha _|Hn1 Hn2 Ha _]; rewrite Ha.
  - assert (~ (exists x, asks c sid /\ entropy (world s) (draws (world s)) = Ok x) -> ~ touches s (EvHandle i) sid) as Hno.
    { intros Hx (k & Hev & [(x & Hr)|(x & Hr)]); [by eapply Hx; exists x; eapply Hreq|].
      apply (Hans _ _ Hev) in Hr. by eapply asks_answers. }
    unfold CreateChallenge. destruct (knownServices _ !! sid') eqn:Ek; cbn [snd].
    2: { intros Hp. left. split; [done|]. apply Hno. intros (x & Hs & _). rewrite (asks_unique _ _ _ Hs Hask) in *.
         destruct Hk as [caps Hk]; [by eexists|]. congruence. }
    destruct (entropy _ _) as [x|e] eqn:Ee; cbn [snd]; [|intros Hp; left; split; [done|]; apply Hno; by intros (x & _ & [=])].
    cbn [with_pending pendingChallenges]. intros [[<- <-]|[Hne Hp]]%lookup_insert_Some; [right; exists i; split; [done|]; by exists c|].
    left. split; [done|]. apply Hno. intros (y & Hs & _). by eapply Hne, asks_unique.
  - rewrite VerifyResponse_pending. intros [Hne Hp]%lookup_delete_Some. left. split; [done|].
    intros (k & Hev & [(x & Hx)|(x & Hx)]).
    + apply (Hreq _ _ Hev) in Hx as [Hs _]. by eapply asks_answers.
    + apply (Hans _ _ Hev) in Hx. by eapply Hne, answers_service.
  - intros Hp. left. split; [done|]. intros (k & Hev & [(x & Hx)|(x & Hx)]).
    + apply (Hreq _ _ Hev) in Hx as [Hs _]. by eapply Hn1.
    + apply (Hans _ _ Hev) in Hx. by eapply Hn2.
Qed.

(** A right response and the session it opens. *)
Lemma VerifyResponse_right rnd now sid response a p :
  fst (VerifyResponse rnd now sid response a) = Ok p ->
  exists ch b, pendingChallenges a !! sid = Some ch /\ response = hmacSHA256 (sharedSecret a) (Nonce ch) /\
    rnd = Ok b /\ SessionToken p = string_of_bytes (hexEncode b) /\ ServiceID p = sid.
Proof.
  unfold VerifyResponse. destruct (pendingChallenges a !! sid) as [ch|]; [|done].
  destruct (hmacEqual _ _) eqn:E; cbn [negb]; [|done]. apply hmacEqual_true in E. unfold openSession, generateToken.
  destruct rnd as [b|e]; [|done]. cbn [mbind result_bind fst]. intros [= <-]. by exists ch, b.
Qed.

(** The peers in the message loop after an event: served before, or just
    admitted. *)
Lemma serving_step maxConns key s ev i c' peer :
  conns (serverStep maxConns key s ev) !! i = Some c' -> at_ c' = Serving peer ->
  (exists c, conns s !! i = Some c /\ at_ c = Serving peer) \/
  ev = EvHandle i /\ exists ch b,
    pendingChallenges (authenticator (world s)) !! ServiceID peer = Some ch /\
    answered s i (ServiceID peer) (hmacSHA256 (sharedSecret (authenticator (world s))) (Nonce ch)) /\
    entropy (world s) (draws (world s)) = Ok b /\ SessionToken peer = string_of_bytes (hexEncode b).
Proof.
  assert (forall (f : @Conn C -> @Conn C) j, (forall c, at_ (f c) = at_ c) -> alter f j (conns s) !! i = Some c' ->
    at_ c' = Serving peer -> exists c, conns s !! i = Some c /\ at_ c = Serving peer) as Halter.
  { intros f j Hf [(-> & c & Hc & ->)|[_ Hc]]%lookup_alter_Some Hat; [|by exists c']. rewrite Hf in Hat. by exists c. }
  destruct ev as [j remote inc out|j inc|j|j|j|]; cbn [serverStep]; intros Hi Hat; [left|left|idtac|left|left|left; by exists c'].
  - destruct (conns s !! j); [by exists c'|]. revert Hi. unfold acceptConn. destruct (_ <? _); cbn [conns]; [|by exists c'].
    intros [[_ <-]|[_ Hi]]%lookup_insert_Some; [done|by exists c'].
  - by apply (Halter (with_incoming inc) j).
  - destruct (conns s !! j) as [c|] eqn:Ec; [|left; by exists c'].
    destruct (handleStep c (world s)) as [c1 w1] eqn:Eh. cbn [conns] in Hi.
    apply lookup_insert_Some in Hi as [[-> ->]|[_ Hi]]; [|left; by exists c'].
    apply handleStep_auth in Eh as [sid' _ _ Hn|sid' resp Hans _ Hok|_ _ _ Hs]; [by destruct (Hn peer)| |left; exists c; auto].
    destruct (VerifyResponse_right _ _ _ _ _ _ (Hok _ Hat)) as (ch & b & H1 & -> & H3 & H4 & <-).
    right. split; [done|]. exists ch, b. split_and!; [done| |done..]. by exists c.
  - apply (Halter authTimeout j); [|done..]. intros c. unfold authTimeout. by destruct (at_ c) eqn:E.
  - destruct (conns s !! j) as [c|]; [|by exists c']. destruct (at_ c); try (by exists c').
    cbn [conns] in Hi. apply lookup_delete_Some in Hi as [_ Hi]. by exists c'.
Qed.

Section Handshakes.
Variables (maxConns : Z) (secret : list byte) (ttl : Z) (times : nat -> Time) (rands : nat -> result (list byte)).
Hypothesis Hfills : fills rands.

Let run (evs : list (@event C)) : @Server trail C :=
  serverRun maxConns secret (startServer secret ttl [] times rands) evs.

(** The last challenge of [sid] in a run. *)
Definition issued (evs : list (@event C)) (sid : string) (nonce : list byte) : Prop :=
  exists pre j mid, evs = pre ++ EvHandle j :: mid /\ requested (run pre) j sid nonce /\
    quiet maxConns secret (run (pre ++ [EvHandle j])) mid sid.

(** The handshake that opened the session of a peer served on connection [i]. *)
Definition opened (evs : list (@event C)) (i : nat) (peer : PeerIdentity) : Prop :=
  exists pre post nonce b, evs = pre ++ EvHandle i :: post /\ issued pre (ServiceID peer) nonce /\
    answered (run pre) i (ServiceID peer) (hmacSHA256 secret nonce) /\
    entropy (world (run pre)) (draws (world (run pre))) = Ok b /\ SessionToken peer = string_of_bytes (hexEncode b).

Lemma run_snoc evs ev : run (evs ++ [ev]) = serverStep maxConns secret (run evs) ev.
Proof. unfold run, serverRun. by rewrite foldl_app. Qed.

Lemma run_authenticator evs :
  sharedSecret (authenticator (world (run evs))) = secret /\
  forall sid, is_Some (pendingChallenges (authenticator (world (run evs))) !! sid) ->
    is_Some (knownServices (authenticator (world (run evs))) !! sid).
Proof.
  destruct (server_inv_run maxConns secret ttl times rands evs Hfills) as [ops Hinv]. fold (run evs) in Hinv.
  rewrite (si_auth _ _ _ _ Hinv). pose proof (explains_run secret knownTable ops) as [E1 E2 E3 _].
  split; [done|]. intros sid [ch Hch]. rewrite E2. by apply (E3 sid ch).
Qed.

Lemma issued_run evs sid ch :
  pendingChallenges (authenticator (world (run evs))) !! sid = Some ch -> issued evs sid (Nonce ch).
Proof.
  induction evs as [|ev evs IH] using rev_ind; [done|]. rewrite run_snoc.
  intros [[Hp Hq]|(j & -> & Hr)]%pending_step; [| |by apply run_authenticator].
  - destruct (IH Hp) as (pre & j & mid & -> & Hr & Hm). exists pre, j, (mid ++ [ev]). split; [by rewrite <-app_assoc|].
    split; [done|]. apply quiet_snoc; [done|]. unfold run in Hq |- *. unfold serverRun in *. rewrite !foldl_app in *. exact Hq.
  - by exists evs, j, [].
Qed.

Lemma opened_run evs i c peer : conns (run evs) !! i = Some c -> at_ c = Serving peer -> opened evs i peer.
Proof.
  revert c. induction evs as [|ev evs IH] using rev_ind; intros c; [done|]. rewrite run_snoc.
  intros Hi Hat. destruct (serving_step _ _ _ _ _ _ _ Hi Hat) as [(c0 & H1 & H2)|(-> & ch & b & H1 & H2 & H3 & H4)].
  - destruct (IH c0 H1 H2) as (pre & post & nonce & b & -> & H3). exists pre, (post ++ [ev]), nonce, b.
    by rewrite <-app_assoc.
  - exists evs, [], (Nonce ch), b. rewrite (proj1 (run_authenticator evs)) in H2. split_and!; [done|by apply issued_run|done..].
Qed.

End Handshakes.

End Provenance.

(** ** Termination *)

(** A received frame takes at least its length prefix off the stream. *)
Lemma Receive_shrinks bs f r : Receive bs = (Ok f, r) -> (length r + 4 <= length bs)%nat.
Proof.
  unfold Receive, mbind, M_bind. unfold wrapfa at 1.
  destruct (ReadFull 4 bs) as [[l|e] b1] eqn:E1; [|done]. apply ReadFull_bytes_inv in E1 as [-> H1].
  destruct (MaxFrameSize <? be_get l); [done|]. unfold wrapfa.
  destruct (ReadFull _ b1) as [[l2|e] b2] eqn:E2; [|done]. apply ReadFull_bytes_inv in E2 as [-> H2].
  unfold lift. intros [= _ <-]. rewrite !length_app. lia.
Qed.

Section Termination.
Context {L : Type} `{Logger L} `{UnicodeTable}.

Definition pending (c : @Conn pipe) : nat := length (in_flight (incoming c)).

Lemma receive_shrinks c m c' : receive c = (Ok m, c') -> (pending c' < pending c)%nat.
Proof.
  unfold receive, pending. destruct (open c); [|done].
  unfold ServerEndpoint_Receive. cbn [chan_recv ConnWrapper_Channel]. rewrite pipe_Receive.
  destruct (Receive (in_flight (incoming c))) as [[f|e] k] eqn:E; [|done]. apply Receive_shrinks in E.
  cbn [fst snd]. destruct (accept f (endpoint c)) as [r e]. intros [= _ <-]. cbn [incoming in_flight]. lia.
Qed.

Lemma send_pending m c r c' : send m c = (r, c') -> pending c' = pending c.
Proof.
  unfold send. destruct (ServerEndpoint_Send m _) as [r0 [e out]]. destruct (open c); by intros [= _ <-].
Qed.

(** The handler has returned, its connection closed, or has panicked. *)
Definition stopped (c : @Conn pipe) : Prop := at_ c = Finished /\ open c = false \/ at_ c = Panicked.

Lemma sendDenied_pending rid e c (w : World L) c' w' : sendDenied rid e c w = (c', w') -> pending c' = pending c.
Proof. unfold sendDenied. cbn [timeNow]. destruct (send _ c) as [r c1] eqn:E. intros [= <- _]. by eapply send_pending. Qed.

Lemma sendError_pending m e c (w : World L) c' w' : sendError m e c w = (c', w') -> pending c' = pending c.
Proof. unfold sendError. cbn [Marshal AckEvent_codec timeNow]. destruct (send _ c) as [r c1] eqn:E. intros [= <- _]. by eapply send_pending. Qed.

(** Every step reads a frame or ends the handler. *)
Definition running (c : @Conn pipe) : Prop := at_ c <> Finished /\ at_ c <> Panicked.

Definition advances (c c' : @Conn pipe) : Prop := stopped c' \/ running c' /\ (pending c' < pending c)%nat.

Lemma returns_advances c d : advances c (return_ d).
Proof. left. by left. Qed.

Lemma handleRequest_advances c (w : World L) : advances c (handleRequest c w).1.
Proof.
  unfold handleRequest.
  destruct (receive c) as [[m|e] c1] eqn:Er; [apply receive_shrinks in Er|apply returns_advances].
  destruct (negb _); [apply returns_advances|].
  destruct (Unmarshal (MPayload m)) as [r|e]; [|apply returns_advances]. cbn [randRead timeNow].
  destruct (CreateChallenge _ _ _ _) as [[ch|err] a].
  - cbn [Marshal challengeMessage_codec timeNow].
    destruct (send _ c1) as [[u|e] c2] eqn:Es; [|apply returns_advances].
    apply send_pending in Es. right. split; [done|]. change (pending c2 < pending c)%nat. lia.
  - destruct (sendDenied _ _ _ _) as [c2 w2]. apply returns_advances.
Qed.

Lemma handleResponse_advances rid sid c (w : World L) : advances c (handleResponse rid sid c w).1.
Proof.
  unfold handleResponse.
  destruct (receive c) as [[m|e] c1] eqn:Er; [apply receive_shrinks in Er|apply returns_advances].
  destruct (negb _); [apply returns_advances|].
  destruct (Unmarshal (MPayload m)) as [r|e]; [|apply returns_advances].
  destruct (hexDecode _) as [resp|e]; [|apply returns_advances]. cbn [randRead timeNow].
  destruct (VerifyResponse _ _ _ _ _) as [[p|err] a].
  - unfold admitPeer. destruct (slen _ <? 8); [left; by right|].
    cbn [Marshal authResult_codec timeNow].
    destruct (send _ _) as [[u|e] c2] eqn:Es; [|apply returns_advances].
    apply send_pending in Es. right. split; [done|]. change (pending c2 < pending c)%nat. rewrite Es. exact Er.
  - destruct (sendDenied _ _ _ _) as [c2 w2]. apply returns_advances.
Qed.

Lemma serving_advances p c c1 c2 :
  at_ c = Serving p -> same_peer c c1 -> (pending c1 < pending c)%nat ->
  same_peer c1 c2 -> pending c2 = pending c1 -> advances c c2.
Proof.
  intros Hat (E1 & _) Hp (E2 & _) Hq. right. unfold running. rewrite E2, E1, Hat. split; [done|lia].
Qed.

Lemma handleMessage_advances p c (w : World L) : at_ c = Serving p -> advances c (handleMessage p c w).1.
Proof.
  intros Hat. unfold handleMessage.
  destruct (receive c) as [[m|e] c1] eqn:Er; [|apply returns_advances].
  pose proof (receive_same _ _ _ Er) as Hs. apply receive_shrinks in Er.
  assert (forall err (w' : World L), advances c (sendError m err c1 w').1) as Herr.
  { intros err w'. destruct (sendError m err c1 w') as [c2 w2] eqn:Es.
    eapply serving_advances; [done..|by eapply sendError_same|by eapply sendError_pending]. }
  cbn [timeNow]. destruct (IsExpired _ p); [apply returns_advances|].
  destruct (ValidateCapability _ _) as [err|]; [apply Herr|].
  destruct (Dispatch router m _) as [res w1]. destruct (DErr res) as [err|]; [apply Herr|].
  destruct (Response res) as [resp|]; [|by eapply serving_advances].
  destruct (send resp c1) as [[u|e] c2] eqn:Es; [|apply returns_advances].
  eapply serving_advances; [done..|by eapply send_same|by eapply send_pending].
Qed.

Lemma handleStep_advances c (w : World L) : running c -> advances c (handleStep c w).1.
Proof.
  unfold handleStep, running. intros [H1 H2]. destruct (at_ c) eqn:Hat; try done.
  - apply handleRequest_advances.
  - apply handleResponse_advances.
  - by apply handleMessage_advances.
Qed.

Lemma handleConnection_stopped fuel c (w : World L) :
  stopped c -> handleConnection fuel c w = (c, w).
Proof. destruct fuel; [done|]. cbn [handleConnection]. by intros [[-> _]| ->]. Qed.

Lemma handleConnection_step fuel (c : @Conn pipe) (w : World L) :
  running c ->
  handleConnection (S fuel) c w = handleConnection fuel (handleStep c w).1 (handleStep c w).2.
Proof.
  intros [H1 H2]. cbn [handleConnection]. destruct (at_ c) eqn:Hat; try done; by destruct (handleStep c w).
Qed.

(** By the time the bytes in flight are used up the handler has returned, and
    further fuel makes no difference. *)
Lemma handleConnection_ends fuel extra : forall c (w : World L),
  (pending c < fuel)%nat -> stopped c \/ running c ->
  stopped (handleConnection fuel c w).1 /\ handleConnection (fuel + extra) c w = handleConnection fuel c w.
Proof.
  induction fuel as [|fuel IH]; intros c w Hf Hc; [lia|].
  destruct Hc as [Hs|Hr]; [by rewrite !handleConnection_stopped|].
  cbn [Nat.add]. rewrite !handleConnection_step by done.
  destruct (handleStep_advances c w Hr) as [Hs|[Hr' Hs]]; [by rewrite !handleConnection_stopped|].
  apply IH; [lia|by right].
Qed.

End Termination.

(** ** Properties *)

Section Runs.
Context {C : Type} `{Channel C} `{UnicodeTable}.

Lemma handleConnection_shape fuel : forall (c : @Conn C) (w : World trail),
  shape c -> fills (entropy w) -> shape (handleConnection fuel c w).1.
Proof.
  induction fuel as [|fuel IH]; intros c w Hs Hf; [done|]. cbn [handleConnection].
  destruct (at_ c) eqn:Hat; try done; destruct (handleStep c w) as [c' w'] eqn:E;
    apply handleStep_spec in E as [_ He Hsh _ _]; try done; apply IH; [done|by rewrite He|done|by rewrite He|done|by rewrite He].
Qed.

(** Which services can have which actions, by the two tables. *)
Lemma tables_ai sid caps cap act :
  knownTable !! sid = Some caps -> cap ∈ caps -> allows capChecker cap act ->
  act = "ai.chat.send" \/ act = "ai.complete.send" -> sid = "ebot.client".
Proof.
  intros Hk Hc (acts & Ha & Hin) Hact.
  assert (map_Forall (fun sid caps => sid = "ebot.client" \/
    Forall (fun cap => default ∅ (allowlist capChecker !! cap) ## ({["ai.chat.send"; "ai.complete.send"]} : gset string)) caps)
    knownTable) as Ht by (apply (bool_decide_unpack _); vm_compute; exact I).
  destruct (Ht sid caps Hk) as [|Hf]; [done|]. rewrite Forall_forall in Hf. specialize (Hf cap Hc).
  rewrite Ha in Hf. simpl in Hf. set_solver.
Qed.

Lemma tables_ui sid caps cap :
  knownTable !! sid = Some caps -> cap ∈ caps -> allows capChecker cap "ui.cursor.move" -> sid <> "ebot.client".
Proof.
  intros Hk Hc (acts & Ha & Hin) E.
  assert (map_Forall (fun sid caps => sid <> "ebot.client" \/
    Forall (fun cap => "ui.cursor.move" ∉ (default ∅ (allowlist capChecker !! cap) : gset string)) caps)
    knownTable) as Ht by (apply (bool_decide_unpack _); vm_compute; exact I).
  destruct (Ht sid caps Hk) as [|Hf]; [done|]. rewrite Forall_forall in Hf. specialize (Hf cap Hc).
  by rewrite Ha in Hf.
Qed.

End Runs.

(** C2: Nobody is served without the key: whatever the network delivers on any
    number of interleaved connections, a connection in the message loop
    belongs to a service of the server's table, its endpoint enforces exactly
    that service's capabilities, and the run has the two steps that opened the
    session.  In the first, the handler of some connection takes a request for
    that service off the network and draws the nonce; in the second, this
    connection's handler takes an answer off the network that is
    HMAC(secret, nonce), and draws the bytes of the session token.  In between
    no handler challenges the service anew or verifies another answer for it. *)
Theorem serving_is_authenticated {C} `{Channel C} `{UnicodeTable} (maxConns : Z) (secret : list byte) (ttl : Z)
    (times : nat -> Time) (rands : nat -> result (list byte)) (evs : list (@event C)) (i : nat) (c : @Conn C)
    (peer : PeerIdentity) :
  let run := serverRun maxConns secret (startServer secret ttl ([] : trail) times rands) in
  fills rands -> conns (run evs) !! i = Some c -> at_ c = Serving peer ->
  knownTable !! ServiceID peer = Some (Capabilities peer) /\
  peerCapabilities (endpoint c) = Capabilities peer /\
  exists pre j mid post nonce b,
    evs = pre ++ EvHandle j :: mid ++ EvHandle i :: post /\
    requested (run pre) j (ServiceID peer) nonce /\
    quiet maxConns secret (run (pre ++ [EvHandle j])) mid (ServiceID peer) /\
    answered (run (pre ++ EvHandle j :: mid)) i (ServiceID peer) (hmacSHA256 secret nonce) /\
    entropy (world (run (pre ++ EvHandle j :: mid))) (draws (world (run (pre ++ EvHandle j :: mid)))) = Ok b /\
    SessionToken peer = string_of_bytes (hexEncode b).
Proof.
  intros run Hf Hi Hat. destruct (server_inv_run maxConns secret ttl times rands evs Hf) as [ops Hinv].
  destruct (si_serving _ _ _ _ Hinv i c peer Hi Hat) as (Hk & _). split; [done|]. split.
  - pose proof (si_shape _ _ _ _ Hinv i c Hi) as Hs. unfold shape in Hs. by rewrite Hat in Hs.
  - destruct (opened_run maxConns secret ttl times rands Hf evs i c peer Hi Hat)
      as (pre0 & post & nonce & b & -> & (pre & j & mid & -> & H1 & H2) & H3 & H4 & H5).
    exists pre, j, mid, post, nonce, b. split_and!; [by rewrite <-app_assoc|done..].
Qed.

(** C6: The audit trail accounts for every action: in every run of the server,
    an entry that reports an action as carried out comes after the entry of a
    successful handshake of a service of the server's table with a capability
    for it.  A request forwarded to the language model is a chat or a
    completion, the capability permits the logged action, and the service is
    [ebot.client].  Any other such entry is an intent: the capability permits
    [ui.cursor.move], which is what the server asks whatever name of an intent
    it logs, and the service is not [ebot.client]. *)
Theorem actions_are_accounted {C} `{Channel C} `{UnicodeTable} (maxConns : Z) (secret : list byte) (ttl : Z)
    (times : nat -> Time) (rands : nat -> result (list byte)) (evs : list (@event C)) (pre post : trail) (e : Entry) :
  fills rands ->
  auditLogger (world (serverRun maxConns secret (startServer secret ttl [] times rands) evs)) = pre ++ e :: post ->
  eDecision e = "allowed" -> eResult e <> "session created" ->
  exists sid caps cap a, knownTable !! sid = Some caps /\ cap ∈ caps /\ a ∈ pre /\ admitted sid a /\
    (eTarget e = "eai" /\ (eAction e = "ai.chat.send" \/ eAction e = "ai.complete.send") /\
       allows capChecker cap (eAction e) /\ sid = "ebot.client" \/
     eTarget e = serverName /\ allows capChecker cap "ui.cursor.move" /\ sid <> "ebot.client").
Proof.
  intros Hf Ht Hd Hr. destruct (server_inv_run maxConns secret ttl times rands evs Hf) as [ops Hinv].
  destruct (si_trail _ _ _ _ Hinv pre e post Ht (conj Hd Hr)) as (sid & caps & cap & H1 & H2 & H3 & a & H4 & H5).
  exists sid, caps, cap, a. split_and!; try done.
  destruct H3 as [(E1 & E2 & E3)|[E1 E2]]; [left|right]; split_and!; try done; [by eapply tables_ai|by eapply tables_ui].
Qed.

(** C28: The server stays within its bounds: no run has more handlers than the
    connection limit, and no handler ever slices a session token out of range,
    as long as the random source fills its buffers. *)
Theorem connections_bounded {C} `{Channel C} `{UnicodeTable} (maxConns : Z) (secret : list byte) (ttl : Z)
    (times : nat -> Time) (rands : nat -> result (list byte)) (evs : list (@event C)) :
  let s := serverRun maxConns secret (startServer secret ttl ([] : trail) times rands) evs in
  fills rands -> 0 <= maxConns ->
  Z.of_nat (size (conns s)) <= maxConns /\ map_Forall (fun _ c => at_ c <> Panicked) (conns s).
Proof.
  intros s Hf Hm. destruct (server_inv_run maxConns secret ttl times rands evs Hf) as [ops Hinv]. split.
  - etrans; [apply (si_slots _ _ _ _ Hinv)|lia].
  - intros i c Hi Hat. pose proof (si_shape _ _ _ _ Hinv i c Hi) as Hs. unfold shape in Hs. by rewrite Hat in Hs.
Qed.

(** C11: Connection handlers end: on any byte stream that ends, honest or not,
    the handler of a new connection returns within one receive per byte and
    one more, without a panic, and further fuel changes nothing. *)
Theorem handler_terminates `{UnicodeTable} (secret bytes : list byte) (out : pipe) (w : World trail) (extra : nat) :
  fills (entropy w) ->
  let c := newConn secret (MkPipe bytes) out in
  let '(c', w') := handleConnection (S (length bytes)) c w in
  at_ c' = Finished /\ open c' = false /\ handleConnection (S (length bytes) + extra) c w = (c', w').
Proof.
  intros Hf c. destruct (handleConnection_ends (S (length bytes)) extra c w) as [He Hx];
    [apply Nat.lt_succ_diag_r|by right|].
  pose proof (handleConnection_shape (S (length bytes)) c w eq_refl Hf) as Hs.
  destruct (handleConnection (S (length bytes)) c w) as [c' w']. cbn [fst] in *.
  unfold shape in Hs. destruct He as [[E1 E2]|E]; [done|by rewrite E in Hs].
Qed.

(** ** One challenge per service *)

(** The table of challenges has one entry per service: a second request for
    the same service, from any connection, replaces the challenge, and the
    right answer to the first one is refused. *)
Lemma challenge_displaced a sid n1 n2 t1 t2 t3 rnd :
  is_Some (knownServices a !! sid) -> hmacSHA256 (sharedSecret a) n1 <> hmacSHA256 (sharedSecret a) n2 ->
  let a' := auth_run a [AChallenge (Ok n1) t1 sid; AChallenge (Ok n2) t2 sid] in
  exists err, fst (VerifyResponse rnd t3 sid (hmacSHA256 (sharedSecret a) n1) a') = Err err.
Proof.
  intros [caps Hk] Hne. cbn [auth_run foldl auth_step]. unfold CreateChallenge at 2. rewrite Hk. cbn [snd].
  unfold CreateChallenge. cbn [knownServices with_pending]. rewrite Hk. cbn [snd].
  unfold VerifyResponse. cbn [pendingChallenges with_pending sharedSecret]. rewrite lookup_insert_eq.
  cbn [Nonce]. destruct (hmacEqual _ _) eqn:E; [by apply hmacEqual_true in E|]. by eexists.
Qed.

(** ** Runs of the server *)

Module Sample.

#[local] Instance asciiOnly : UnicodeTable := fun _ => false.

Definition rands (n : nat) : result (list byte) := Ok (replicate 32 (z2b (Z.of_nat n))).
Definition key : list byte := text "k".

(** An unsigned frame whose header names [nia.framework]. *)
Definition rawFrame (msgType : MessageType) (seq : Z) (cap : string) (payload : list byte) : Frame :=
  MkFrame ProtocolVersion (MsgTypeToByte msgType) (z2b 0)
    (marshalled (MkHeader "nia.framework" "" "r1" seq "" 1 cap "" 0)) payload [].

Definition requestFrame : Frame :=
  rawFrame TypeAuth 1 "" (print (authRequestJSON (MkAuthRequest "ebot.client"))).

(** The handshake of [ebot.client], then a chat request. *)
Definition frames : list Frame :=
  [requestFrame;
   rawFrame TypeAuthResponse 2 "" (print (challengeResponseJSON (MkChallengeResponse "ebot.client"
     (string_of_bytes (hexEncode (hmacSHA256 key (replicate 32 (z2b 0))))))));
   rawFrame TypeChat 3 "ai:chat" (print (chatRequestJSON (MkChatRequest "s" "hi" "" 0)))].

Definition events : list (@event pipe) :=
  [EvAccept 0 "peer" (MkPipe (envelopes frames)) (MkPipe []); EvHandle 0; EvHandle 0; EvHandle 0].

Definition run (evs : list (@event pipe)) : @Server trail pipe :=
  serverRun 1 key (startServer key Hour [] (fun _ => zeroTime) rands) evs.

Definition conn : @Conn pipe := default (newConn key (MkPipe []) (MkPipe [])) (conns (run events) !! 0%nat).

Definition peer : PeerIdentity :=
  MkPeer "ebot.client" ["ai:chat"] (string_of_bytes (hexEncode (replicate 32 (z2b 1)))) zeroTime Hour.

Definition log : trail := auditLogger (world (run events)).
Definition chatEntry : Entry := nth 1 log (MkLogEntry "" "" "" "" "" "" "").

Lemma rands_fill : fills rands.
Proof. by intros n b [= <-]. Qed.

(** What the run comes to. *)
Lemma run_facts :
  conns (run events) !! 0%nat = Some conn /\ at_ conn = Serving peer /\
  log = take 1 log ++ chatEntry :: [] /\ eAction chatEntry = "ai.chat.send" /\
  eTarget chatEntry = "eai" /\ eDecision chatEntry = "allowed" /\ eResult chatEntry = "forwarded" /\
  eSource chatEntry = "nia.framework".
Proof. vm_compute. split_and!; reflexivity. Qed.

End Sample.

#[local] Existing Instance Sample.asciiOnly.

Lemma serving_is_authenticated_witness :
  fills Sample.rands /\ conns (Sample.run Sample.events) !! 0%nat = Some Sample.conn /\
  at_ Sample.conn = Serving Sample.peer /\
  exists pre j mid post nonce b,
    Sample.events = pre ++ EvHandle j :: mid ++ EvHandle 0 :: post /\
    requested (Sample.run pre) j "ebot.client" nonce /\
    answered (Sample.run (pre ++ EvHandle j :: mid)) 0 "ebot.client" (hmacSHA256 Sample.key nonce) /\
    SessionToken Sample.peer = string_of_bytes (hexEncode b).
Proof.
  destruct Sample.run_facts as (E1 & E2 & _).
  split; [exact Sample.rands_fill|]. split; [exact E1|]. split; [exact E2|].
  destruct (serving_is_authenticated 1 Sample.key Hour _ _ Sample.events 0 _ _ Sample.rands_fill E1 E2)
    as (_ & _ & pre & j & mid & post & nonce & b & H1 & H2 & _ & H4 & _ & H6).
  exists pre, j, mid, post, nonce, b. exact (conj H1 (conj H2 (conj H4 H6))).
Defined.

Lemma actions_are_accounted_witness :
  Sample.log = take 1 Sample.log ++ Sample.chatEntry :: [] /\ eAction Sample.chatEntry = "ai.chat.send" /\
  exists sid caps cap a, knownTable !! sid = Some caps /\ cap ∈ caps /\ a ∈ take 1 Sample.log /\ admitted sid a /\
    sid = "ebot.client".
Proof.
  destruct Sample.run_facts as (_ & _ & E & Ea & Eo & Ed & Er & _).
  split; [exact E|]. split; [exact Ea|].
  destruct (actions_are_accounted (C := pipe) 1 Sample.key Hour (fun _ => zeroTime) Sample.rands Sample.events
    _ _ _ Sample.rands_fill E) as (sid & caps & cap & a & H1 & H2 & H4 & H5 & H6).
  - exact Ed.
  - rewrite Er. discriminate.
  - exists sid, caps, cap, a. destruct H6 as [(_ & _ & _ & H6)|(H6 & _)].
    + exact (conj H1 (conj H2 (conj H4 (conj H5 H6)))).
    + rewrite Eo in H6. discriminate H6.
Defined.

Lemma connections_bounded_witness :
  Z.of_nat (size (conns (Sample.run Sample.events))) <= 1 /\
  map_Forall (fun _ c => at_ c <> Panicked) (conns (Sample.run Sample.events)).
Proof. apply (connections_bounded 1 Sample.key Hour _ _ Sample.events Sample.rands_fill). lia. Defined.

Lemma handler_terminates_witness :
  fills (entropy (world (Sample.run []))) /\
  let '(c', w') := handleConnection (S (length (text "junk"))) (newConn Sample.key (MkPipe (text "junk")) (MkPipe []))
                     (world (Sample.run [])) in
  at_ c' = Finished /\ open c' = false /\
  handleConnection (S (length (text "junk")) + 3) (newConn Sample.key (MkPipe (text "junk")) (MkPipe []))
    (world (Sample.run [])) = (c', w').
Proof.
  split; [exact Sample.rands_fill|].
  exact (handler_terminates Sample.key (text "junk") (MkPipe []) (world (Sample.run [])) 3 Sample.rands_fill).
Defined.
