(* ===== verification/Client.v ===== *)
(** * The demo client: src/cmd/eipc-client/main.go

    The client from its authentication request to its heartbeat, one
    definition from each [Receive] to the next, and the session of a client
    and a server connected by the two directions of one connection.  The
    theorem runs the two against each other. *)

From S2P Require Import Prelude Time Float64 Utf8 Json Frame Transport Sha256 Replay Message Codec Endpoint Router Fmt.
From S2P Require Import Capability Auth AuditLog ServiceRegistry FloatText Events Server.
Local Open Scope string_scope.
Local Open Scope list_scope.
Local Open Scope Z_scope.

(** ** The client *)

Definition clientService : string := "nia.min".

(** Where the client stands; [Fatal] is [log.Fatalf]. *)
Inductive clientPhase :=
  | AwaitChallenge
  | AwaitResult
  | AwaitAck (sessionToken : string)
  | Done (sessionToken : string) (ack : AckEvent)
  | Fatal (err : error).

Record Client := MkClientState { cl_endpoint : ClientEndpoint; cl_at : clientPhase }.

Definition fatal (format : string) (e : ClientEndpoint) (err : error) : Client :=
  MkClientState e (Fatal (Wrapf format err [])).

Section Client.
Context {C : Type} `{Channel C}.

(** Step 1: the authentication request.  [c2s] and [s2c] are the directions
    to the server and from it. *)
Definition clientStart (sharedSecret : list byte) (now : Time) (c2s : C) : Client * C :=
  let endpoint := NewClientEndpoint sharedSecret "" in
  match Marshal (MkAuthRequest clientService) with
  | Err err => (fatal "marshal auth request: %w" endpoint err, c2s)
  | Ok authPayload =>
      match ClientEndpoint_Send (MkMessage ProtocolVersion TypeAuth clientService (UTC now) "" "" 0 "" authPayload)
              (endpoint, c2s) with
      | (Err err, (e, c2s)) => (fatal "send auth request: %w" e err, c2s)
      | (Ok _, (e, c2s)) => (MkClientState e AwaitChallenge, c2s)
      end
  end.

(** Steps 2 and 3: the challenge and the response to it. *)
Definition clientChallenge (sharedSecret : list byte) (now : Time) (e : ClientEndpoint) (c2s s2c : C)
  : Client * C * C :=
  match ClientEndpoint_Receive (e, s2c) with
  | (Err err, (e, s2c)) => (fatal "receive challenge: %w" e err, c2s, s2c)
  | (Ok challengeMsg, (e, s2c)) =>
      if negb (String.eqb (MType challengeMsg) TypeChallenge)
      then (MkClientState e (Fatal (Errorf "[AUTH] expected TypeChallenge, got %s" [ArgStr (MType challengeMsg)])), c2s, s2c)
      else match (Unmarshal (MPayload challengeMsg) : result challengeMessage) with
      | Err err => (fatal "unmarshal challenge: %w" e err, c2s, s2c)
      | Ok challenge =>
          if String.eqb (cm_Status challenge) "denied"
          then (MkClientState e (Fatal (Errorf "[AUTH] rejected: %s" [ArgStr (cm_Error challenge)])), c2s, s2c)
          else match hexDecode (bytes_of_string (cm_Nonce challenge)) with
          | Err err => (fatal "decode nonce: %w" e err, c2s, s2c)
          | Ok nonceBytes =>
              let response := hmacSHA256 sharedSecret nonceBytes in
              match Marshal (MkChallengeResponse clientService (string_of_bytes (hexEncode response))) with
              | Err err => (fatal "marshal challenge response: %w" e err, c2s, s2c)
              | Ok chalRespPayload =>
                  match ClientEndpoint_Send
                          (MkMessage ProtocolVersion TypeAuthResponse clientService (UTC now) "" "" 0 "" chalRespPayload)
                          (e, c2s) with
                  | (Err err, (e, c2s)) => (fatal "send auth response: %w" e err, c2s, s2c)
                  | (Ok _, (e, c2s)) => (MkClientState e AwaitResult, c2s, s2c)
                  end
              end
          end
      end
  end.

(** The intent of step 5: a confidence of 0.91, the nearest float64. *)
Definition moveLeft (sessionToken : string) : IntentEvent :=
  MkIntent "move_left" (decimalFloat false 91 (-2)) sessionToken.

(** Steps 4 and 5: the session token and the intent. *)
Definition clientResult (now : Time) (e : ClientEndpoint) (c2s s2c : C) : Client * C * C :=
  match ClientEndpoint_Receive (e, s2c) with
  | (Err err, (e, s2c)) => (fatal "receive auth response: %w" e err, c2s, s2c)
  | (Ok authResp, (e, s2c)) =>
      if negb (String.eqb (MType authResp) TypeAuthResponse)
      then (MkClientState e (Fatal (Errorf "[AUTH] expected TypeAuthResponse, got %s" [ArgStr (MType authResp)])), c2s, s2c)
      else match (Unmarshal (MPayload authResp) : result authResult) with
      | Err err => (fatal "unmarshal auth response: %w" e err, c2s, s2c)
      | Ok authRes =>
          let sessionToken := rt_SessionToken authRes in
          match Marshal (moveLeft sessionToken) with
          | Err err => (fatal "marshal intent: %w" e err, c2s, s2c)
          | Ok intentPayload =>
              match ClientEndpoint_Send
                      (MkMessage ProtocolVersion TypeIntent clientService (UTC now) sessionToken "req-1" PriorityP0
                         "ui:control" intentPayload) (e, c2s) with
              | (Err err, (e, c2s)) => (fatal "send intent: %w" e err, c2s, s2c)
              | (Ok _, (e, c2s)) => (MkClientState e (AwaitAck sessionToken), c2s, s2c)
              end
          end
      end
  end.

(** Steps 6 and 7: the acknowledgement and the heartbeat. *)
Definition clientAck (sessionToken : string) (now : Time) (e : ClientEndpoint) (c2s s2c : C) : Client * C * C :=
  match ClientEndpoint_Receive (e, s2c) with
  | (Err err, (e, s2c)) => (fatal "receive ack: %w" e err, c2s, s2c)
  | (Ok ackMsg, (e, s2c)) =>
      match (Unmarshal (MPayload ackMsg) : result AckEvent) with
      | Err err => (fatal "unmarshal ack: %w" e err, c2s, s2c)
      | Ok ack =>
          match Marshal (MkHeartbeat clientService "ready") with
          | Err err => (fatal "marshal heartbeat: %w" e err, c2s, s2c)
          | Ok hbPayload =>
              match ClientEndpoint_Send
                      (MkMessage ProtocolVersion TypeHeartbeat clientService (UTC now) sessionToken "hb-1" PriorityP2
                         "" hbPayload) (e, c2s) with
              | (Err err, (e, c2s)) => (fatal "send heartbeat: %w" e err, c2s, s2c)
              | (Ok _, (e, c2s)) => (MkClientState e (Done sessionToken ack), c2s, s2c)
              end
          end
      end
  end.

Definition clientStep (sharedSecret : list byte) (now : Time) (cl : Client) (c2s s2c : C) : Client * C * C :=
  match cl_at cl with
  | AwaitChallenge => clientChallenge sharedSecret now (cl_endpoint cl) c2s s2c
  | AwaitResult => clientResult now (cl_endpoint cl) c2s s2c
  | AwaitAck token => clientAck token now (cl_endpoint cl) c2s s2c
  | Done _ _ | Fatal _ => (cl, c2s, s2c)
  end.

(** ** A client and a server *)

Context {L : Type} `{Logger L} `{UnicodeTable}.

(** The connection of the server holds both directions. *)
Record Link := MkLink { lk_client : Client; lk_conn : @Conn C; lk_world : World L }.

Definition linkStart (secret : list byte) (now : Time) (c2s s2c : C) (w : World L) : Link :=
  let '(cl, c2s) := clientStart secret now c2s in MkLink cl (newConn secret c2s s2c) w.

Definition serverTurn (lk : Link) : Link :=
  let '(c, w) := handleStep (lk_conn lk) (lk_world lk) in MkLink (lk_client lk) c w.

Definition clientTurnConn (secret : list byte) (now : Time) (cl : Client) (c : @Conn C) : Client * @Conn C :=
  let '(cl, c2s, s2c) := clientStep secret now cl (incoming c) (outgoing c) in
  (cl, MkConn (endpoint c) c2s s2c (open c) (at_ c)).

Definition clientTurn (secret : list byte) (now : Time) (lk : Link) : Link :=
  let '(cl, c) := clientTurnConn secret now (lk_client lk) (lk_conn lk) in MkLink cl c (lk_world lk).

(** The whole session; [t0] to [t3] are the times the client sends at. *)
Definition session (secret : list byte) (t0 t1 t2 t3 : Time) (c2s s2c : C) (w : World L) : Link :=
  let lk := serverTurn (linkStart secret t0 c2s s2c w) in
  let lk := serverTurn (clientTurn secret t1 lk) in
  let lk := serverTurn (clientTurn secret t2 lk) in
  serverTurn (clientTurn secret t3 lk).

End Client.

(** ** One message from end to end *)

Section Delivery.
Context {C : Type} `{FrameQueue C} `{UnicodeTable}.
Context (delivers : forall f, deliver (C := C) f = f).
Context (room : forall (c : C) key bs m, chan_ok c -> zlen bs + zlen (MPayload m) <= 1048000 -> fits c (signedFrame key bs m)).
Context (secret : list byte).

(** Messages that the other side can read and that a frame can hold: a byte of a
    string of the header takes up to six bytes of JSON. *)
Record sendable (m : Message) : Prop := {
  sm_time : printable (Timestamp m);
  sm_source : validString (Source m) = true;
  sm_session : validString (SessionID m) = true;
  sm_request : validString (RequestID m) = true;
  sm_cap : validString (Capability m) = true;
  sm_priority : in_u8 (MPriority m);
  sm_size : 6 * (slen (Source m) + slen (SessionID m) + slen (RequestID m) + slen (Capability m)) +
              zlen (MPayload m) <= 1000000
}.

(** The messages of the programs are small. *)
Lemma sendable_small m :
  printable (Timestamp m) -> validString (Source m) = true -> validString (SessionID m) = true ->
  validString (RequestID m) = true -> validString (Capability m) = true -> in_u8 (MPriority m) ->
  slen (Source m) + slen (SessionID m) + slen (RequestID m) + slen (Capability m) <= 200 ->
  zlen (MPayload m) <= 4000 -> sendable m.
Proof. intros. constructor; try done. lia. Qed.

Definition frameOf (n : Z) (m : Message) : Frame := signedFrame secret (marshalled (headerOf n m)) m.

Lemma sendable_deliverable m : sendable m -> deliverable m.
Proof.
  intros [Ht S1 S2 S3 S4 S5 _]. split; [done|]. intros seq Hs. unfold marshals, JSONCodec_law, header_ok.
  cbn [headerOf hServiceID hSessionID hRequestID hSequence hTimestamp hPriority hCapability hRoute hPayloadFormat].
  split_and!; try done. apply validString_bytes, asciiText_Format.
Qed.

Lemma sendable_fits m n (c : C) : sendable m -> chan_ok c -> fits c (frameOf n m).
Proof.
  intros [_ _ _ _ _ _ Hs] Hc. apply room; [done|]. rewrite marshalled_JSON.
  pose proof (header_size (headerOf n m)) as Hh.
  cbn [headerOf hServiceID hSessionID hRequestID hTimestamp hCapability hRoute] in Hh.
  rewrite slen_string_of_bytes in Hh. pose proof (length_Format (Timestamp m)). change (slen "") with 0 in Hh.
  unfold zlen in Hh at 2. lia.
Qed.

(** The server's side of a link: [k] messages received, [j] sent. *)
Record srv (k j : Z) (inq outq : list Frame) (sv : phase) (caps : list string) (c : @Conn C) : Prop := {
  sv_key : se_hmacKey (endpoint c) = secret;
  sv_seen : maxSeen (se_replay (endpoint c)) = k;
  sv_tracks : exists accepted, tracks_accepted (se_replay (endpoint c)) accepted;
  sv_seq : se_seq (endpoint c) = j;
  sv_caps : peerCapabilities (endpoint c) = caps;
  sv_open : open c = true;
  sv_at : at_ c = sv;
  sv_in_ok : chan_ok (incoming c);
  sv_in : queued (incoming c) = inq;
  sv_out_ok : chan_ok (outgoing c);
  sv_out : queued (outgoing c) = outq
}.

Lemma srv_receive k j m outq sv caps c :
  srv k j [frameOf (k + 1) m] outq sv caps c -> sendable m -> k + 1 < 2 ^ 64 ->
  exists c', receive c = (Ok (received m), c') /\ srv (k + 1) j [] outq sv caps c'.
Proof.
  intros [S1 S2 [acc S3] S4 S5 S6 S7 S8 S9 S10 S11] Hm%sendable_deliverable Hk. unfold receive. rewrite S6.
  destruct (server_receive_ok m (endpoint c) (incoming c) acc [] S3 S8 Hm) as (t' & inc & -> & Hok & Hq & Ht & Hmx).
  - by rewrite S2.
  - by rewrite S2, S1.
  - eexists. split; [done|]. rewrite S2 in Ht, Hmx. constructor; cbn; eauto.
Qed.

Lemma srv_send k j m inq sv caps c :
  srv k j inq [] sv caps c -> sendable m -> 0 <= j -> j + 1 < 2 ^ 64 ->
  exists c', send m c = (Ok tt, c') /\ srv k (j + 1) inq [frameOf (j + 1) m] sv caps c'.
Proof.
  intros [S1 S2 S3 S4 S5 S6 S7 S8 S9 S10 S11] Hm Hj0 Hj. unfold send.
  destruct (server_send_ok m (endpoint c) (outgoing c) delivers S10 (sendable_deliverable m Hm)) as (out & -> & Hok & Hq);
    [lia|lia|rewrite S1, S4; by apply sendable_fits|]. rewrite S6.
  eexists. split; [done|]. rewrite S11, S1, S4 in Hq. constructor; cbn; eauto. lia.
Qed.

(** A turn of the client: it reads one message and sends one. *)
Lemma cl_receive j m e s2c :
  ce_hmacKey e = secret -> chan_ok s2c -> queued s2c = [frameOf j m] -> sendable m -> in_u64 j ->
  exists s2c', ClientEndpoint_Receive (e, s2c) = (Ok (received m), (e, s2c')) /\ chan_ok s2c' /\ queued s2c' = [].
Proof.
  intros He Hc Hq Hm%sendable_deliverable Hj. apply (client_receive_ok m e s2c j []); [done..|]. by rewrite He.
Qed.

Lemma cl_send k m e (c2s : C) :
  ce_hmacKey e = secret -> ce_sequence e = k -> chan_ok c2s -> queued c2s = [] -> sendable m -> 0 <= k -> k + 1 < 2 ^ 64 ->
  exists c2s', ClientEndpoint_Send m (e, c2s) = (Ok tt, (MkClient secret (ce_sessionID e) (k + 1), c2s')) /\
    chan_ok c2s' /\ queued c2s' = [frameOf (k + 1) m].
Proof.
  intros He <- Hc Hq Hm Hk0 Hk.
  destruct (client_send_ok m e c2s delivers Hc (sendable_deliverable m Hm) Hk0 Hk) as (c' & -> & Hok & Hq');
    rewrite ?He in *; [by apply sendable_fits|]. rewrite Hq in Hq'. eauto.
Qed.

Lemma srv_phase k j inq outq sv sv' caps c :
  srv k j inq outq sv caps c -> srv k j inq outq sv' caps (with_phase sv' c).
Proof. intros []. by constructor. Qed.

Lemma srv_caps k j inq outq sv caps caps' c :
  srv k j inq outq sv caps c -> srv k j inq outq sv caps' (with_endpoint (SetPeerCapabilities caps' (endpoint c)) c).
Proof. intros []. by constructor. Qed.

(** ** The messages of the session *)

Definition requestMsg (t : Time) : Message :=
  MkMessage ProtocolVersion TypeAuth clientService (UTC t) "" "" 0 "" (print (authRequestJSON (MkAuthRequest clientService))).

Definition challengeMsg (t : Time) (nonce : list byte) : Message :=
  authMessage t TypeChallenge ""
    (print (challengeMessageJSON (MkChallengeMessage "challenge" (string_of_bytes (hexEncode nonce)) ""))).

Definition responseMsg (t : Time) (nonce : list byte) : Message :=
  MkMessage ProtocolVersion TypeAuthResponse clientService (UTC t) "" "" 0 ""
    (print (challengeResponseJSON (MkChallengeResponse clientService
       (string_of_bytes (hexEncode (hmacSHA256 secret nonce)))))).

Definition resultMsg (t : Time) (token : string) (caps : list string) : Message :=
  authMessage t TypeAuthResponse "" (print (authResultJSON (MkAuthResult "ok" token caps ""))).

Definition moveLeftJSON (token : string) : json :=
  JObj [(text "intent", strText "move_left"); (text "confidence", JNum (text "0.91")); (text "session_id", strText token)].

Lemma moveLeft_marshal token : Marshal (moveLeft token) = Ok (print (moveLeftJSON token)).
Proof.
  assert (floatJSON (decimalFloat false 91 (-2)) = Ok (JNum (text "0.91"))) as Hf by by vm_compute.
  cbn [Marshal IntentEvent_codec]. unfold intentJSON, moveLeft. cbn [Confidence]. by rewrite Hf.
Qed.

Lemma moveLeft_marshals token : validString token = true -> marshals (moveLeft token).
Proof. intros Ht. split_and!; [done|split; by vm_compute|done]. Qed.

Definition intentMsg (t : Time) (token : string) : Message :=
  MkMessage ProtocolVersion TypeIntent clientService (UTC t) token "req-1" PriorityP0 "ui:control"
    (print (moveLeftJSON token)).

Definition ackMsg (t : Time) (token : string) : Message :=
  MkMessage ProtocolVersion TypeAck serverName (UTC t) token "req-1" PriorityP0 ""
    (print (ackJSON (MkAck "req-1" "ok" ""))).

Definition beatMsg (t : Time) (token : string) : Message :=
  MkMessage ProtocolVersion TypeHeartbeat clientService (UTC t) token "hb-1" PriorityP2 ""
    (print (heartbeatJSON (MkHeartbeat clientService "ready"))).

(** The text of 32 random bytes. *)
Definition token32 (s : string) : Prop := exists b, length b = 32%nat /\ s = string_of_bytes (hexEncode b).

Lemma token32_facts s : token32 s -> validString s = true /\ slen s = 64.
Proof.
  intros (b & Hb & ->). split; [apply validString_bytes, asciiText_hexEncode|].
  rewrite slen_string_of_bytes. unfold zlen. by rewrite length_hexEncode, Hb.
Qed.

(** Small payloads: the sizes of the members add up. *)
Ltac payload_size :=
  cbn [MPayload authMessage]; (etrans; [apply zlen_object|]);
  rewrite ?membersSize_cons; change (membersSize []) with 0;
  repeat match goal with
  | |- context [memberSize (text ?k, strText ?s)] =>
      pose proof (memberSize_str k s); generalize dependent (memberSize (text k, strText s)); intros
  end.

Ltac sendable_tac :=
  apply sendable_small; try done; unfold requestMsg, challengeMsg, responseMsg, resultMsg, intentMsg, ackMsg, beatMsg;
  cbn [Timestamp Source SessionID RequestID Capability MPriority MPayload authMessage].

Lemma requestMsg_sendable t : printable (UTC t) -> sendable (requestMsg t).
Proof. intros Ht. sendable_tac. Qed.

Lemma challengeMsg_sendable t nonce : printable (UTC t) -> length nonce = 32%nat -> sendable (challengeMsg t nonce).
Proof.
  intros Ht Hn. destruct (token32_facts (string_of_bytes (hexEncode nonce))) as [_ Hl]; [by exists nonce|].
  sendable_tac. unfold challengeMessageJSON. payload_size. cbn [cm_Status cm_Nonce] in *. rewrite Hl in *.
  unfold slen in *. simpl String.length in *. lia.
Qed.

Lemma responseMsg_sendable t nonce : printable (UTC t) -> sendable (responseMsg t nonce).
Proof.
  intros Ht. destruct (token32_facts (string_of_bytes (hexEncode (hmacSHA256 secret nonce)))) as [_ Hl].
  { eexists. split; [apply length_hmac|done]. }
  sendable_tac. unfold challengeResponseJSON. payload_size. cbn [ch_Service ch_Response] in *. rewrite Hl in *.
  unfold slen in *. simpl String.length in *. lia.
Qed.

Lemma resultMsg_sendable t token caps :
  printable (UTC t) -> token32 token -> zlen (print (strsText caps)) <= 1000 -> sendable (resultMsg t token caps).
Proof.
  intros Ht [_ Hl]%token32_facts Hc. sendable_tac. unfold authResultJSON. payload_size.
  cbn [rt_Status rt_SessionToken rt_Capabilities] in *. rewrite Hl in *. unfold memberSize. cbn [fst snd].
  rewrite zlen_bytes_of_string. unfold slen in *. simpl String.length in *. lia.
Qed.

Lemma intentMsg_sendable t token : printable (UTC t) -> token32 token -> sendable (intentMsg t token).
Proof.
  intros Ht [Hv Hl]%token32_facts. sendable_tac; [rewrite Hl; unfold slen; simpl String.length; lia|].
  unfold moveLeftJSON. payload_size. rewrite Hl in *. unfold memberSize.
  cbn [fst snd print]. rewrite !zlen_bytes_of_string. unfold slen in *. simpl String.length in *. lia.
Qed.

Lemma ackMsg_sendable t token : printable (UTC t) -> token32 token -> sendable (ackMsg t token).
Proof. intros Ht [Hv Hl]%token32_facts. sendable_tac. rewrite Hl. unfold slen. simpl String.length. lia. Qed.

Lemma beatMsg_sendable t token : printable (UTC t) -> token32 token -> sendable (beatMsg t token).
Proof. intros Ht [Hv Hl]%token32_facts. sendable_tac. rewrite Hl. unfold slen. simpl String.length. lia. Qed.

(** ** The turns of the server *)

Context {L : Type} `{Logger L}.

Definition advance (a : Authenticator) (l : L) (h : Health.Service) (dt dr : nat) (w : World L) : World L :=
  MkWorld a l h (clock w) (dt + ticks w) (entropy w) (dr + draws w).

Lemma unmarshal_event {T} `{CodecLaw T} (v : T) bs : marshals v -> Marshal v = Ok bs -> Unmarshal bs = Ok v.
Proof. intros Hv Hb. destruct (unmarshal_marshal v Hv) as (bs' & Hb' & Hu). congruence. Qed.

Lemma turn_request c (w : World L) t nonce caps :
  srv 0 0 [frameOf 1 (requestMsg t)] [] AwaitAuth [] c -> printable (UTC t) ->
  (forall n, printable (UTC (clock w n))) -> knownServices (authenticator w) !! clientService = Some caps ->
  entropy w (draws w) = Ok nonce -> length nonce = 32%nat ->
  exists c', handleStep c w =
    (c', advance (with_pending (insert clientService (MkChallenge clientService nonce (UTC (clock w (ticks w)))))
                    (authenticator w)) (auditLogger w) (healthSvc w) 2 1 w) /\
    srv 1 1 [] [frameOf 1 (challengeMsg (clock w (S (ticks w))) nonce)] (AwaitResponse "" clientService) [] c'.
Proof.
  intros Hs Ht Hck Hkn Hent Hn. unfold handleStep. rewrite (sv_at _ _ _ _ _ _ _ Hs). unfold handleRequest.
  destruct (srv_receive 0 0 (requestMsg t) _ _ _ _ Hs (requestMsg_sendable t Ht) ltac:(lia)) as (c1 & -> & Hs1).
  change (negb (String.eqb (MType (received (requestMsg t))) TypeAuth)) with false. cbv iota.
  change (MPayload (received (requestMsg t))) with (print (authRequestJSON (MkAuthRequest clientService))).
  rewrite (unmarshal_event (MkAuthRequest clientService)) by done.
  cbn [randRead timeNow clock ticks authenticator entropy draws ar_ServiceID].
  unfold CreateChallenge. rewrite Hkn, Hent.
  cbn [Marshal challengeMessage_codec timeNow with_authenticator authenticator auditLogger healthSvc clock ticks entropy draws Nonce].
  change (RequestID (received (requestMsg t))) with "".
  destruct (srv_send 1 0 (challengeMsg (clock w (S (ticks w))) nonce) _ _ _ _ Hs1) as (c2 & E & Hs2);
    [by apply challengeMsg_sendable|lia|lia|].
  unfold challengeMsg in E. rewrite E. eexists. split; [reflexivity|]. by eapply srv_phase.
Qed.

Definition after (now : Time) (e : Entry) (l : L) : L := snd (Log now e l).

Definition peerOf (token : string) (caps : list string) (now : Time) (ttl : Z) : PeerIdentity :=
  MkPeer clientService caps token (UTC now) ttl.

Lemma turn_response c (w : World L) t nonce b caps ch :
  srv 1 1 [frameOf 2 (responseMsg t nonce)] [] (AwaitResponse "" clientService) [] c -> printable (UTC t) ->
  (forall n, printable (UTC (clock w n))) -> sharedSecret (authenticator w) = secret ->
  knownServices (authenticator w) !! clientService = Some caps -> zlen (print (strsText caps)) <= 1000 ->
  pendingChallenges (authenticator w) !! clientService = Some ch -> Nonce ch = nonce ->
  entropy w (draws w) = Ok b -> length b = 32%nat ->
  let token := string_of_bytes (hexEncode b) in
  let peer := peerOf token caps (clock w (ticks w)) (sessionTTL (authenticator w)) in
  exists c' a', handleStep c w =
    (c', advance a' (after (clock w (S (ticks w))) (authEntry "" clientService "allowed" "session created")
                       (auditLogger w)) (healthSvc w) 3 1 w) /\
    srv 2 2 [] [frameOf 2 (resultMsg (clock w (S (S (ticks w)))) token caps)] (Serving peer) caps c'.
Proof.
  intros Hs Ht Hck Hsec Hkn Hsz Hpe Hno Hent Hb token peer.
  unfold handleStep. rewrite (sv_at _ _ _ _ _ _ _ Hs). unfold handleResponse.
  destruct (srv_receive 1 1 (responseMsg t nonce) _ _ _ _ Hs (responseMsg_sendable t nonce Ht) ltac:(lia)) as (c1 & -> & Hs1).
  change (negb (String.eqb (MType (received (responseMsg t nonce))) TypeAuthResponse)) with false. cbv iota.
  change (MPayload (received (responseMsg t nonce))) with (MPayload (responseMsg t nonce)). cbn [MPayload responseMsg].
  rewrite (unmarshal_event (MkChallengeResponse clientService (string_of_bytes (hexEncode (hmacSHA256 secret nonce)))));
    [|by split; [|apply validString_bytes, asciiText_hexEncode]|done].
  cbn [ch_Response]. rewrite String.list_byte_of_string_of_list_byte, hexDecode_hexEncode.
  cbn [randRead timeNow clock ticks authenticator entropy draws].
  unfold VerifyResponse. rewrite Hpe. cbn [sharedSecret knownServices with_pending].
  rewrite Hsec, Hno, Hkn, (proj2 (hmacEqual_true _ _) eq_refl). cbn [negb].
  unfold openSession, generateToken. rewrite Hent. cbn [mbind result_bind sessionTTL with_pending].
  fold token. fold (peerOf token caps (clock w (ticks w)) (sessionTTL (authenticator w))). fold peer.
  assert (token32 token) as Htok by (by exists b).
  unfold admitPeer. change (SessionToken peer) with token. destruct (token32_facts token Htok) as [_ ->].
  change (64 <? 8) with false. cbv iota. change (Capabilities peer) with caps.
  cbn [Marshal authResult_codec timeNow logEntry with_authenticator auditLogger clock ticks entropy draws healthSvc authenticator].
  pose proof (srv_caps _ _ _ _ _ _ caps _ Hs1) as Hs2.
  destruct (srv_send 2 1 (resultMsg (clock w (S (S (ticks w)))) token caps) _ _ _ _ Hs2) as (c2 & E & Hs3);
    [by apply resultMsg_sendable|lia|lia|].
  unfold resultMsg in E. rewrite E. eexists _, _. split; [reflexivity|]. by eapply srv_phase.
Qed.

Lemma Dispatch_intent m (w : World L) : MType m = TypeIntent -> Dispatch router m w = handleIntent m w.
Proof. intros E. unfold Dispatch. rewrite E. reflexivity. Qed.

Lemma Dispatch_heartbeat m (w : World L) : MType m = TypeHeartbeat -> Dispatch router m w = handleHeartbeat m w.
Proof. intros E. unfold Dispatch. rewrite E. reflexivity. Qed.

Definition intentEntry : Entry := MkLogEntry "" "req-1" clientService serverName "move_left" "allowed" "success".

Lemma turn_intent c (w : World L) t token peer caps :
  srv 2 2 [frameOf 3 (intentMsg t token)] [] (Serving peer) caps c -> printable (UTC t) -> token32 token ->
  (forall n, printable (UTC (clock w n))) -> "ui:control" ∈ caps -> IsExpired (clock w (ticks w)) peer = false ->
  exists c', handleStep c w =
    (c', advance (authenticator w) (after (clock w (S (ticks w))) intentEntry (auditLogger w)) (healthSvc w) 3 0 w) /\
    srv 3 3 [] [frameOf 3 (ackMsg (clock w (S (S (ticks w)))) token)] (Serving peer) caps c'.
Proof.
  intros Hs Ht Htok Hck Hcap Hex. unfold handleStep. rewrite (sv_at _ _ _ _ _ _ _ Hs). unfold handleMessage.
  destruct (srv_receive 2 2 (intentMsg t token) _ _ _ _ Hs (intentMsg_sendable t token Ht Htok) ltac:(lia)) as (c1 & -> & Hs1).
  cbn [timeNow]. rewrite Hex. change (Capability (received (intentMsg t token))) with "ui:control".
  assert (ValidateCapability "ui:control" (endpoint c1) = None) as ->.
  { unfold ValidateCapability. rewrite (sv_caps _ _ _ _ _ _ _ Hs1).
    assert (existsb (fun c0 => String.eqb c0 "ui:control") caps = true) as ->; [|done].
    apply existsb_exists. exists "ui:control". split; [by apply list_elem_of_In|done]. }
  rewrite Dispatch_intent by done. unfold handleIntent.
  change (MPayload (received (intentMsg t token))) with (MPayload (intentMsg t token)). cbn [MPayload intentMsg].
  destruct (token32_facts token Htok) as [Hv _].
  rewrite (unmarshal_event (moveLeft token)) by (by apply moveLeft_marshals || apply moveLeft_marshal).
  change (Checker_Check capChecker [Capability (received (intentMsg t token))] "ui.cursor.move") with (@None error).
  cbn [Marshal AckEvent_codec timeNow logEntry auditLogger clock ticks entropy draws healthSvc authenticator DErr Response Intent].
  destruct (srv_send 3 2 (ackMsg (clock w (S (S (ticks w)))) token) _ _ _ _ Hs1) as (c2 & E & Hs3);
    [by apply ackMsg_sendable|lia|lia|].
  change (SessionID (received (intentMsg t token))) with token. change (RequestID (received (intentMsg t token))) with "req-1".
  change (Source (received (intentMsg t token))) with clientService.
  unfold ackMsg in E. rewrite E. eexists. split; [reflexivity|]. done.
Qed.

Lemma turn_beat c (w : World L) t token peer caps :
  srv 3 3 [frameOf 4 (beatMsg t token)] [] (Serving peer) caps c -> printable (UTC t) -> token32 token ->
  IsExpired (clock w (ticks w)) peer = false ->
  exists c', handleStep c w =
    (c', advance (authenticator w) (auditLogger w)
           (Health.RecordHeartbeat (clock w (S (ticks w))) clientService "ready" (healthSvc w)) 2 0 w) /\
    srv 4 3 [] [] (Serving peer) caps c'.
Proof.
  intros Hs Ht Htok Hex. unfold handleStep. rewrite (sv_at _ _ _ _ _ _ _ Hs). unfold handleMessage.
  destruct (srv_receive 3 3 (beatMsg t token) _ _ _ _ Hs (beatMsg_sendable t token Ht Htok) ltac:(lia)) as (c1 & -> & Hs1).
  cbn [timeNow]. rewrite Hex. change (Capability (received (beatMsg t token))) with "".
  change (ValidateCapability "" (endpoint c1)) with (@None error). cbv iota.
  rewrite Dispatch_heartbeat by done. unfold handleHeartbeat.
  change (MPayload (received (beatMsg t token))) with (MPayload (beatMsg t token)). cbn [MPayload beatMsg].
  rewrite (unmarshal_event (MkHeartbeat clientService "ready")) by done.
  cbn [timeNow DErr Response]. eexists. split; [reflexivity|done].
Qed.

(** ** The turns of the client *)

(** A client that has sent [k] messages. *)
Definition cl_ready (k : Z) (e : ClientEndpoint) : Prop := ce_hmacKey e = secret /\ ce_sequence e = k.

(** What a turn of the client leaves: its phase, and its message in flight. *)
Definition cl_sent (k j : Z) (m : Message) (ph : clientPhase) (sv : phase) (caps : list string)
    (cl : Client) (c : @Conn C) : Prop :=
  cl_at cl = ph /\ cl_ready k (cl_endpoint cl) /\ srv (k - 1) j [frameOf k m] [] sv caps c.

Lemma client_exchange k j m m' e (c : @Conn C) sv caps :
  cl_ready k e -> srv k j [] [frameOf j m] sv caps c -> sendable m -> sendable m' ->
  0 <= k -> k + 1 < 2 ^ 64 -> in_u64 j ->
  exists c2s s2c, ClientEndpoint_Receive (e, outgoing c) = (Ok (received m), (e, s2c)) /\
    ClientEndpoint_Send m' (e, incoming c) = (Ok tt, (MkClient secret (ce_sessionID e) (k + 1), c2s)) /\
    srv k j [frameOf (k + 1) m'] [] sv caps (MkConn (endpoint c) c2s s2c (open c) (at_ c)).
Proof.
  intros [He Hk] [S1 S2 S3 S4 S5 S6 S7 S8 S9 S10 S11] Hm Hm' Hk0 Hk1 Hj.
  destruct (cl_receive j m e (outgoing c) He S10 S11 Hm Hj) as (s2c & E1 & Hok1 & Hq1).
  destruct (cl_send k m' e (incoming c) He Hk S8 S9 Hm' Hk0 Hk1) as (c2s & E2 & Hok2 & Hq2).
  exists c2s, s2c. split; [done|]. split; [done|]. by constructor.
Qed.

Lemma turn_challenge now t nonce cl (c : @Conn C) sv caps :
  cl_at cl = AwaitChallenge -> cl_ready 1 (cl_endpoint cl) ->
  srv 1 1 [] [frameOf 1 (challengeMsg t nonce)] sv caps c ->
  printable (UTC t) -> printable (UTC now) -> length nonce = 32%nat ->
  exists cl' c', clientTurnConn secret now cl c = (cl', c') /\ cl_sent 2 1 (responseMsg now nonce) AwaitResult sv caps cl' c'.
Proof.
  intros Hat Hr Hs Ht Hn Hl. unfold clientTurnConn, clientStep. rewrite Hat. unfold clientChallenge.
  destruct (client_exchange 1 1 _ (responseMsg now nonce) _ c sv caps Hr Hs) as (c2s & s2c & -> & E2 & Hs');
    [by apply challengeMsg_sendable|by apply responseMsg_sendable|lia|lia|unfold in_u64; lia|].
  change (negb (String.eqb (MType (received (challengeMsg t nonce))) TypeChallenge)) with false. cbv iota.
  change (MPayload (received (challengeMsg t nonce))) with (MPayload (challengeMsg t nonce)).
  cbn [MPayload challengeMsg authMessage].
  rewrite (unmarshal_event (MkChallengeMessage "challenge" (string_of_bytes (hexEncode nonce)) ""));
    [|by split; [|split; [apply validString_bytes, asciiText_hexEncode|]]|done].
  cbn [cm_Status cm_Nonce]. change (String.eqb "challenge" "denied") with false. cbv iota.
  rewrite String.list_byte_of_string_of_list_byte, hexDecode_hexEncode. cbv zeta.
  cbn [Marshal challengeResponse_codec]. unfold responseMsg in E2. rewrite E2.
  eexists _, _. split; [reflexivity|]. split; [done|]. by split.
Qed.

Lemma turn_result now t token cl (c : @Conn C) sv caps scaps :
  cl_at cl = AwaitResult -> cl_ready 2 (cl_endpoint cl) ->
  srv 2 2 [] [frameOf 2 (resultMsg t token caps)] sv scaps c ->
  printable (UTC t) -> printable (UTC now) -> token32 token ->
  Forall (fun s => validString s = true) caps -> zlen (print (strsText caps)) <= 1000 ->
  exists cl' c', clientTurnConn secret now cl c = (cl', c') /\ cl_sent 3 2 (intentMsg now token) (AwaitAck token) sv scaps cl' c'.
Proof.
  intros Hat Hr Hs Ht Hn Htok Hcs Hsz. unfold clientTurnConn, clientStep. rewrite Hat. unfold clientResult.
  destruct (client_exchange 2 2 _ (intentMsg now token) _ c sv scaps Hr Hs) as (c2s & s2c & -> & E2 & Hs');
    [by apply resultMsg_sendable|by apply intentMsg_sendable|lia|lia|unfold in_u64; lia|].
  change (negb (String.eqb (MType (received (resultMsg t token caps))) TypeAuthResponse)) with false. cbv iota.
  change (MPayload (received (resultMsg t token caps))) with (MPayload (resultMsg t token caps)).
  cbn [MPayload resultMsg authMessage]. destruct (token32_facts token Htok) as [Hv _].
  rewrite (unmarshal_event (MkAuthResult "ok" token caps "")) by done.
  cbn [rt_SessionToken]. cbv zeta. rewrite moveLeft_marshal. unfold intentMsg in E2. rewrite E2.
  eexists _, _. split; [reflexivity|]. split; [done|]. by split.
Qed.

Lemma turn_ack now t token cl (c : @Conn C) sv caps :
  cl_at cl = AwaitAck token -> cl_ready 3 (cl_endpoint cl) ->
  srv 3 3 [] [frameOf 3 (ackMsg t token)] sv caps c ->
  printable (UTC t) -> printable (UTC now) -> token32 token ->
  exists cl' c', clientTurnConn secret now cl c = (cl', c') /\
    cl_sent 4 3 (beatMsg now token) (Done token (MkAck "req-1" "ok" "")) sv caps cl' c'.
Proof.
  intros Hat Hr Hs Ht Hn Htok. unfold clientTurnConn, clientStep. rewrite Hat. unfold clientAck.
  destruct (client_exchange 3 3 _ (beatMsg now token) _ c sv caps Hr Hs) as (c2s & s2c & -> & E2 & Hs');
    [by apply ackMsg_sendable|by apply beatMsg_sendable|lia|lia|unfold in_u64; lia|].
  change (MPayload (received (ackMsg t token))) with (MPayload (ackMsg t token)). cbn [MPayload ackMsg].
  rewrite (unmarshal_event (MkAck "req-1" "ok" "")) by done.
  cbn [Marshal HeartbeatEvent_codec]. unfold beatMsg in E2. rewrite E2.
  eexists _, _. split; [reflexivity|]. split; [done|]. by split.
Qed.

Lemma turn_start now (c2s s2c : C) (w : World L) :
  chan_ok c2s -> chan_ok s2c -> queued c2s = [] -> queued s2c = [] -> printable (UTC now) ->
  exists cl c, linkStart secret now c2s s2c w = MkLink cl c w /\
    cl_sent 1 0 (requestMsg now) AwaitChallenge AwaitAuth [] cl c.
Proof.
  intros Hok1 Hok2 Hq1 Hq2 Ht. unfold linkStart, clientStart. cbn [Marshal authRequest_codec].
  destruct (cl_send 0 (requestMsg now) (NewClientEndpoint secret "") c2s) as (c' & E & Hok & Hq);
    [done|done|done|done|by apply requestMsg_sendable|lia|lia|].
  unfold requestMsg in E. rewrite E. eexists _, _. split; [reflexivity|]. split; [done|]. split; [done|].
  constructor; try done. exists ∅. apply NewTracker_ok. unfold in_i64. lia.
Qed.

(** The lifetime of sessions is long enough for this one: it is opened at the
    reading of the clock with the number 2 and not expired at those with the
    numbers 5 and 8, when the server looks at its expiry before it handles the
    intent and the heartbeat. *)
Definition lasting (w : World L) : Prop :=
  forall n caps token, n = 5%nat \/ n = 8%nat ->
    IsExpired (clock w (n + ticks w)) (peerOf token caps (clock w (2 + ticks w)) (sessionTTL (authenticator w))) = false.

Lemma session_delivered t0 t1 t2 t3 (c2s s2c : C) (w : World L) nonce b caps :
  chan_ok c2s -> chan_ok s2c -> queued c2s = [] -> queued s2c = [] ->
  Forall (fun t => printable (UTC t)) [t0; t1; t2; t3] -> (forall n, printable (UTC (clock w n))) ->
  sharedSecret (authenticator w) = secret -> knownServices (authenticator w) !! clientService = Some caps ->
  Forall (fun s => validString s = true) caps -> zlen (print (strsText caps)) <= 1000 -> "ui:control" ∈ caps ->
  entropy w (draws w) = Ok nonce -> length nonce = 32%nat ->
  entropy w (S (draws w)) = Ok b -> length b = 32%nat -> lasting w ->
  let token := string_of_bytes (hexEncode b) in
  let log := after (clock w (6 + ticks w)) intentEntry
               (after (clock w (3 + ticks w)) (authEntry "" clientService "allowed" "session created") (auditLogger w)) in
  let health := Health.RecordHeartbeat (clock w (9 + ticks w)) clientService "ready" (healthSvc w) in
  exists cl c a, session secret t0 t1 t2 t3 c2s s2c w = MkLink cl c (advance a log health 10 2 w) /\
    cl_at cl = Done token (MkAck "req-1" "ok" "") /\
    at_ c = Serving (peerOf token caps (clock w (2 + ticks w)) (sessionTTL (authenticator w))).
Proof.
  intros Ho1 Ho2 Hq1 Hq2 Hts Hck Hsec Hkn Hvc Hsz Hui He1 Hl1 He2 Hl2 Hlast token log health.
  apply Forall_cons in Hts as [T0 Hts]. apply Forall_cons in Hts as [T1 Hts].
  apply Forall_cons in Hts as [T2 Hts]. apply Forall_cons in Hts as [T3 _].
  assert (token32 token) as Htok by (by exists b). unfold session. cbv zeta.
  destruct (turn_start t0 c2s s2c w Ho1 Ho2 Hq1 Hq2 T0) as (cl0 & c0 & -> & Hc0 & Hr0 & Hs0).
  unfold serverTurn at 4. cbn [lk_client lk_conn lk_world].
  destruct (turn_request c0 w t0 nonce caps Hs0 T0 Hck Hkn He1 Hl1) as (c1 & -> & Hs1).
  unfold clientTurn at 3. cbn [lk_client lk_conn lk_world].
  destruct (turn_challenge t1 _ nonce cl0 c1 _ _ Hc0 Hr0 Hs1 (Hck _) T1 Hl1) as (cl1 & c2 & -> & Hc1 & Hr1 & Hs2).
  unfold serverTurn at 3. cbn [lk_client lk_conn lk_world].
  set (w1 := advance _ _ _ _ _ w).
  destruct (turn_response c2 w1 t1 nonce b caps _ Hs2 T1 Hck Hsec Hkn Hsz (lookup_insert_eq _ _ _) eq_refl He2 Hl2)
    as (c3 & a3 & -> & Hs3).
  unfold clientTurn at 2. cbn [lk_client lk_conn lk_world].
  destruct (turn_result t2 _ token cl1 c3 _ caps _ Hc1 Hr1 Hs3 (Hck _) T2 Htok Hvc Hsz) as (cl2 & c4 & -> & Hc2 & Hr2 & Hs4).
  unfold serverTurn at 2. cbn [lk_client lk_conn lk_world].
  set (w2 := advance _ _ _ _ _ w1).
  destruct (turn_intent c4 w2 t2 token _ caps Hs4 T2 Htok Hck Hui (Hlast 5%nat _ _ ltac:(by left))) as (c5 & -> & Hs5).
  unfold clientTurn at 1. cbn [lk_client lk_conn lk_world].
  destruct (turn_ack t3 _ token cl2 c5 _ _ Hc2 Hr2 Hs5 (Hck _) T3 Htok) as (cl3 & c6 & -> & Hc3 & Hr3 & Hs6).
  unfold serverTurn at 1. cbn [lk_client lk_conn lk_world].
  set (w3 := advance _ _ _ _ _ w2).
  destruct (turn_beat c6 w3 t3 token _ caps Hs6 T3 Htok (Hlast 8%nat _ _ ltac:(by right))) as (c7 & -> & Hs7).
  eexists _, _, _. split; [reflexivity|]. split; [done|]. apply Hs7.
Qed.

(** ** A refusal *)

Lemma refusal_read err :
  validString err = true ->
  (Unmarshal (print (authResponseJSON (MkAuthResponse "denied" err))) : result authResult) =
  Ok (MkAuthResult "denied" "" [] err).
Proof. intros Hv. cbn [Unmarshal authResult_codec]. event_law. Qed.

(** The client does not look at the status of the result: it takes a refusal
    of its response for a session with the empty token, and sends its intent. *)
Lemma refusal_ignored now t err k j e (c2s s2c : C) :
  cl_ready k e -> chan_ok c2s -> queued c2s = [] -> chan_ok s2c ->
  queued s2c = [frameOf j (authMessage t TypeAuthResponse "" (print (authResponseJSON (MkAuthResponse "denied" err))))] ->
  validString err = true -> slen err <= 300 -> printable (UTC t) -> printable (UTC now) ->
  0 <= k -> k + 1 < 2 ^ 64 -> in_u64 j ->
  exists e' c2s' s2c', clientResult now e c2s s2c = (MkClientState e' (AwaitAck ""), c2s', s2c') /\
    queued c2s' = [frameOf (k + 1) (intentMsg now "")].
Proof.
  intros [He Hk] Ho1 Hq1 Ho2 Hq2 Hv Hl Ht Hn Hk0 Hk1 Hj. unfold clientResult.
  destruct (cl_receive j _ e s2c He Ho2 Hq2) as (s2c' & -> & _ & _); [|done|].
  { apply sendable_small; try done. cbn [MPayload authMessage]. unfold authResponseJSON. etrans; [apply zlen_object|].
    rewrite membersSize_app, membersSize_cons. change (membersSize []) with 0. cbn [rs_Status rs_Error].
    pose proof (memberSize_str "status" "denied"). pose proof (membersSize_omitempty "error" err).
    unfold slen in *. simpl String.length in *. lia. }
  cbn [received MType MPayload authMessage].
  change (negb (String.eqb (msgTypeFromByte (MsgTypeToByte TypeAuthResponse)) TypeAuthResponse)) with false. cbv iota.
  rewrite refusal_read by done. cbn [rt_SessionToken]. cbv zeta. rewrite moveLeft_marshal.
  destruct (cl_send k (intentMsg now "") e c2s He Hk Ho1 Hq1) as (c2s' & E & _ & Hq'); [by apply sendable_small|lia|lia|].
  unfold intentMsg in E. rewrite E. eauto.
Qed.

End Delivery.

(** ** Properties *)

Lemma pipe_room (c : pipe) key bs m :
  chan_ok c -> zlen bs + zlen (MPayload m) <= 1048000 -> fits c (signedFrame key bs m).
Proof. intros _ Hs. apply signedFrame_streamable. change MaxFrameSize with 1048576. lia. Qed.

Lemma pipe_empty : chan_ok (MkPipe []).
Proof. exists []. split; [by apply Forall_nil_2|done]. Qed.

(** C7: The programs work together: the client of eipc-client and the server of
    eipc-server that share a key, over a stream connection, with any 32 random
    bytes for the nonce and any for the token, complete the handshake, the
    intent and the heartbeat. The clock readings have years of four digits, and
    the session's lifetime is long enough for the session: it has not expired
    when the server handles the intent and the heartbeat. The client ends with
    the server's session token and the acknowledgement of its request, the
    server serves [nia.min] with the capabilities of its table, its audit log
    has gained exactly the entries of the handshake and of the intent, and its
    health service has the heartbeat. *)
Theorem session_completes `{UnicodeTable} (secret : list byte) (t0 t1 t2 t3 : Time) (w : World trail)
    (nonce b : list byte) :
  Forall (fun t => printable (UTC t)) [t0; t1; t2; t3] -> (forall n, printable (UTC (clock w n))) ->
  sharedSecret (authenticator w) = secret -> knownServices (authenticator w) = knownTable ->
  entropy w (draws w) = Ok nonce -> length nonce = 32%nat ->
  entropy w (S (draws w)) = Ok b -> length b = 32%nat -> lasting w ->
  let lk := session secret t0 t1 t2 t3 (MkPipe []) (MkPipe []) w in
  let token := string_of_bytes (hexEncode b) in
  cl_at (lk_client lk) = Done token (MkAck "req-1" "ok" "") /\
  (exists peer, at_ (lk_conn lk) = Serving peer /\ ServiceID peer = "nia.min" /\ SessionToken peer = token /\
     knownTable !! "nia.min" = Some (Capabilities peer)) /\
  (exists a i, auditLogger (lk_world lk) = auditLogger w ++ [a; i] /\ admitted "nia.min" a /\
     eRequestID i = "req-1" /\ eSource i = "nia.min" /\ eAction i = "move_left" /\ eDecision i = "allowed") /\
  Health.peers (healthSvc (lk_world lk)) !! "nia.min" =
    Some (Health.MkPeerStatus "nia.min" "ready" (clock w (9 + ticks w))).
Proof.
  intros Ht Hck Hs Hk He1 Hl1 He2 Hl2 Hla lk token.
  destruct (session_delivered (C := pipe) ltac:(done) pipe_room secret t0 t1 t2 t3 (MkPipe []) (MkPipe []) w nonce b
    ["ui:control"; "device:read"] pipe_empty pipe_empty eq_refl eq_refl Ht Hck Hs) as (cl & c & a & E & Hcl & Hc); try done.
  - by rewrite Hk.
  - by repeat constructor.
  - left.
  - subst lk. rewrite E. cbn [lk_client lk_conn lk_world healthSvc auditLogger advance]. split; [done|].
    split; [eexists; split; [exact Hc|by split_and!]|]. split.
    + eexists _, _. split; [unfold after; cbn [Log trail_Logger snd]; by rewrite <-app_assoc|].
      split; [apply admitted_stamped|]. by split_and!.
    + cbn [Health.RecordHeartbeat Health.peers]. apply lookup_insert_eq.
Qed.

#[local] Existing Instance Sample.asciiOnly.

Lemma session_completes_witness :
  let lk := session Sample.key zeroTime zeroTime zeroTime zeroTime (MkPipe []) (MkPipe []) (world (Sample.run [])) in
  cl_at (lk_client lk) = Done (string_of_bytes (hexEncode (replicate 32 (z2b 1)))) (MkAck "req-1" "ok" "") /\
  exists a i, auditLogger (lk_world lk) = [a; i] /\ admitted "nia.min" a /\ eAction i = "move_left".
Proof.
  assert (printable (UTC zeroTime)) as Hp by (split; [|split]; vm_compute; (reflexivity || split; (reflexivity || discriminate))).
  destruct (session_completes Sample.key zeroTime zeroTime zeroTime zeroTime (world (Sample.run []))
    (replicate 32 (z2b 0)) (replicate 32 (z2b 1))) as (H1 & _ & (a & i & E & Ha & _ & _ & Hi & _) & _).
  - repeat (apply Forall_cons_2; [exact Hp|]). apply Forall_nil_2.
  - intros n. exact Hp.
  - reflexivity.
  - reflexivity.
  - reflexivity.
  - reflexivity.
  - reflexivity.
  - reflexivity.
  - intros n m caps token. reflexivity.
  - split; [exact H1|]. exists a, i. exact (conj E (conj Ha Hi)).
Defined.
