(* ===== verification/Lifecycle.v ===== *)
(** * Connection lifecycle: src/core/lifecycle.go

    The backoff of reconnection attempts, the periodic heartbeat sender with
    its stop channel, and the graceful shutdown.  The theorem gives the
    backoff sequence of the default policy. *)

From Stdlib Require Import SpecFloat.
From S2P Require Import Prelude Time Utf8 Json Frame Message Codec Transport Endpoint Fmt Events Float64.
Local Open Scope string_scope.
Local Open Scope list_scope.
Local Open Scope Z_scope.

(** ** Reconnection *)

Record ReconnectPolicy := MkReconnectPolicy {
  MaxRetries : Z;
  InitialBackoff : Z;
  MaxBackoff : Z;
  BackoffFactor : float64
}.

Definition Millisecond : Z := 1000000.

Definition DefaultReconnectPolicy : ReconnectPolicy :=
  MkReconnectPolicy 10 (100 * Millisecond) (30 * Second) (ofZ 2).

(** [time.Duration(f)]; Go leaves the result to the machine when the value is
    out of range: [machine] says what it is. *)
Definition durationOf (machine : float64 -> Z) (f : float64) : Z :=
  match truncZ f with
  | Some z => if (- 2 ^ 63 <=? z) && (z <? 2 ^ 63) then z else machine f
  | None => machine f
  end.

Definition Backoff (machine : float64 -> Z) (p : ReconnectPolicy) (attempt : Z) : Z :=
  if attempt <=? 0 then InitialBackoff p
  else
    let y := match truncZ (ofZ attempt) with Some yi => yi | None => 0 end in
    let backoff := fmul (ofZ (InitialBackoff p)) (PowInt (BackoffFactor p) y) in
    let backoff := if flt (ofZ (MaxBackoff p)) backoff then ofZ (MaxBackoff p) else backoff in
    durationOf machine backoff.

(** ** Heartbeats *)

Record HeartbeatConfig := MkHeartbeatConfig { Interval : Z; hc_ServiceID : string }.

(** The goroutine of [Start], the flag of the sender and its stop channel. *)
Inductive senderLoop := NotStarted | Ticking | Returned.

Record HeartbeatSender := MkSender {
  sender_config : HeartbeatConfig;
  stopCh_closed : bool;
  stopped_flag : bool;
  sender_loop : senderLoop
}.

Definition NewHeartbeatSender (config : HeartbeatConfig) : HeartbeatSender :=
  let config := if Interval config =? 0 then MkHeartbeatConfig (5 * Second) (hc_ServiceID config) else config in
  MkSender config false false NotStarted.

Definition Start (h : HeartbeatSender) : HeartbeatSender :=
  MkSender (sender_config h) (stopCh_closed h) (stopped_flag h) Ticking.

(** [close(h.stopCh)]; closing a closed channel panics. *)
Definition closeStop (h : HeartbeatSender) : result HeartbeatSender :=
  if stopCh_closed h then Err (ErrorNew "panic: close of closed channel")
  else Ok (MkSender (sender_config h) true (stopped_flag h) (sender_loop h)).

Definition Stop (h : HeartbeatSender) : result HeartbeatSender :=
  if stopped_flag h then Ok h
  else h ← closeStop h; Ok (MkSender (sender_config h) (stopCh_closed h) true (sender_loop h)).

(** The payload is formatted into a JSON text without escaping. *)
Definition dquote : list byte := [z2b 34].

Definition heartbeatPayload (serviceID : string) : list byte :=
  text "{" ++ dquote ++ text "service" ++ dquote ++ text ":" ++ dquote ++ bytes_of_string serviceID ++ dquote ++
  text "," ++ dquote ++ text "status" ++ dquote ++ text ":" ++ dquote ++ text "alive" ++ dquote ++ text "}".

Definition heartbeatMessage (now : Time) (config : HeartbeatConfig) : Message :=
  MkMessage ProtocolVersion TypeHeartbeat (hc_ServiceID config) (UTC now) "" "" PriorityP3 ""
    (heartbeatPayload (hc_ServiceID config)).

Section Sender.
Context {C : Type} `{Channel C}.

(** What can happen to a sender: a tick, which sends a heartbeat and only
    prints an error; the loop finding the channel closed; a call of [Stop].
    [select] picks any of its ready cases. *)
Inductive sender_step : HeartbeatSender * (ClientEndpoint * C) -> HeartbeatSender * (ClientEndpoint * C) -> Prop :=
  | step_tick h st now r st' :
      sender_loop h = Ticking ->
      ClientEndpoint_Send (heartbeatMessage now (sender_config h)) st = (r, st') ->
      sender_step (h, st) (h, st')
  | step_return h st :
      sender_loop h = Ticking -> stopCh_closed h = true ->
      sender_step (h, st) (MkSender (sender_config h) (stopCh_closed h) (stopped_flag h) Returned, st)
  | step_stop h h' st : Stop h = Ok h' -> sender_step (h, st) (h', st).

End Sender.

(** ** Shutdown *)

(** [GracefulShutdown]: which of the two channels of the [select] is ready
    first; [closed] is the result of [endpoint.Close] if it comes in time. *)
Definition GracefulShutdown (closed : option (option error)) (timeoutText : string) : option error :=
  match closed with
  | Some err => err
  | None => Some (Errorf "shutdown timed out after %v" [ArgStr timeoutText])
  end.

(** ** Lemmas *)

(** The flag and the channel agree, so that [Stop] never panics. *)
Definition sender_inv (h : HeartbeatSender) : Prop := stopped_flag h = stopCh_closed h.

Lemma Stop_ok h : sender_inv h -> exists h', Stop h = Ok h' /\ sender_inv h' /\ stopCh_closed h' = true.
Proof.
  unfold sender_inv, Stop, closeStop. intros E. destruct (stopped_flag h) eqn:Ef.
  - exists h. by rewrite Ef, <-E.
  - rewrite <-E. cbn. by eexists.
Qed.

Lemma sender_step_inv {C} `{Channel C} (s s' : HeartbeatSender * (ClientEndpoint * C)) :
  sender_step s s' -> sender_inv s.1 -> sender_inv s'.1.
Proof.
  intros Hs Hi. destruct Hs as [| |h h' st E]; try done.
  destruct (Stop_ok h Hi) as (h2 & E2 & H2 & _). cbn [fst] in *. congruence.
Qed.

Lemma sender_run_inv {C} `{Channel C} (s s' : HeartbeatSender * (ClientEndpoint * C)) :
  rtc sender_step s s' -> sender_inv s.1 -> sender_inv s'.1.
Proof. induction 1 as [|s1 s2 s3 Hs _ IH]; [done|]. intros Hi. by apply IH, (sender_step_inv _ _ Hs). Qed.

(** In every state a sender can reach, [Stop] succeeds, however often it has
    been called. *)
Lemma stop_never_panics {C} `{Channel C} config started (st : ClientEndpoint * C) s :
  let h := NewHeartbeatSender config in
  rtc sender_step ((if started : bool then Start h else h), st) s ->
  exists h', Stop s.1 = Ok h' /\ Stop h' = Ok h'.
Proof.
  intros h Hr. assert (sender_inv s.1) as Hi by (apply (sender_run_inv _ _ Hr); by destruct started).
  destruct (Stop_ok _ Hi) as (h' & E & Hi' & Hc). exists h'. split; [done|].
  unfold Stop. by rewrite Hi', Hc.
Qed.

(** The payload of an id that needs no escaping is the JSON of its heartbeat... *)
Lemma heartbeatPayload_plain serviceID :
  validString serviceID = true -> quoteBody 0 0 (bytes_of_string serviceID) = bytes_of_string serviceID ->
  Unmarshal (heartbeatPayload serviceID) = Ok (MkHeartbeat serviceID "alive").
Proof.
  intros Hv Hq. assert (heartbeatPayload serviceID = print (heartbeatJSON (MkHeartbeat serviceID "alive"))) as ->.
  { unfold heartbeatJSON. cbn [print map commaSep fst snd strText hb_Service hb_Status]. unfold quote. rewrite Hq.
    unfold heartbeatPayload, dquote. cbn [app]. rewrite <-!app_assoc. cbn [app]. rewrite <-!app_assoc. reflexivity. }
  by destruct (unmarshal_marshal (MkHeartbeat serviceID "alive")) as (bs & [= <-] & Hu).
Qed.

(** ... but a quote in the id puts members of its own into the payload: this
    id reports the heartbeat of another service. *)
Definition quotedID : string :=
  string_of_bytes (text "a" ++ dquote ++ text "," ++ dquote ++ text "service" ++ dquote ++ text ":" ++ dquote ++ text "b").

Lemma heartbeatPayload_injection : Unmarshal (heartbeatPayload quotedID) = Ok (MkHeartbeat "b" "alive").
Proof. vm_compute. reflexivity. Qed.

(** The first attempt is not capped. *)
Lemma first_backoff_uncapped machine p : Backoff machine p 0 = InitialBackoff p.
Proof. done. Qed.

(** ** Properties *)

(** The default policy backs off exponentially up to its limit: for every
    attempt below 1024, the float64 computation gives exactly 100 ms doubled
    once per attempt, and never more than 30 s. *)
Theorem default_backoff (machine : float64 -> Z) (attempt : Z) :
  attempt < 1024 ->
  Backoff machine DefaultReconnectPolicy attempt =
  Z.min (100 * Millisecond * 2 ^ Z.max 0 attempt) (30 * Second).
Proof.
  intros Hn. destruct (Z.leb_spec attempt 0) as [H0|H0].
  { unfold Backoff. rewrite (proj2 (Z.leb_le _ _) H0), Z.max_l by done. reflexivity. }
  assert (forallb (fun n => match Backoff (fun _ => -1) DefaultReconnectPolicy n with
                            | -1 => false
                            | z => z =? Z.min (100 * Millisecond * 2 ^ n) (30 * Second)
                            end) (seqZ 1 1023) = true) as Hall by (vm_compute; reflexivity).
  rewrite Z.max_r by lia. rewrite forallb_forall in Hall.
  specialize (Hall attempt ltac:(apply list_elem_of_In, elem_of_seqZ; lia)).
  unfold Backoff, durationOf in *. rewrite (proj2 (Z.leb_gt _ _) H0) in *.
  destruct (truncZ _) as [z|]; [|done]. destruct (_ && _); [|done].
  destruct z as [|p|p]; [by apply Z.eqb_eq in Hall|by apply Z.eqb_eq in Hall|].
  destruct p; try by apply Z.eqb_eq in Hall. done.
Qed.

Lemma default_backoff_witness : 5 < 1024 /\ Backoff (fun _ => 0) DefaultReconnectPolicy 5 = 3200 * Millisecond.
Proof. split; [lia|]. rewrite (default_backoff (fun _ => 0) 5 ltac:(lia)). reflexivity. Defined.
