(* ===== verification/Config.v ===== *)
(** * Configuration: src/config/config.go

    The settings the programs read from the environment, with what they use of
    [strconv.Atoi], [time.ParseDuration] and [filepath.Clean].  The environment
    is a map, the files are a function from paths.  The theorems say which
    settings the server can end up with. *)

From Stdlib Require Import SpecFloat.
From S2P Require Import Prelude Time Utf8 Json Message Codec Fmt Float64 Auth.
Local Open Scope string_scope.
Local Open Scope list_scope.
Local Open Scope Z_scope.

Abbreviation Env := (gmap string string).

(** [os.Getenv]: an unset variable reads as empty. *)
Definition Getenv (env : Env) (key : string) : string := default "" (env !! key).

(** [os.ReadFile] *)
Definition FileSystem := string -> result (list byte).

(** ** [filepath.Clean] *)

(** The elements of a slash-separated path. *)
Fixpoint splitSlash (cur : list byte) (path : list byte) : list (list byte) :=
  match path with
  | [] => [cur]
  | c :: r => if b2z c =? 47 then cur :: splitSlash [] r else splitSlash (cur ++ [c]) r
  end.

(** Elements from left to right; [out] is the result so far, last element first. *)
Fixpoint cleanElements (rooted : bool) (out elems : list (list byte)) : list (list byte) :=
  match elems with
  | [] => out
  | e :: rest =>
      if bool_decide (e = []) || bool_decide (e = text ".") then cleanElements rooted out rest
      else if bool_decide (e = text "..") then
        match out with
        | [] => cleanElements rooted (if rooted then [] else [e]) rest
        | top :: out' =>
            if bool_decide (top = text "..") then cleanElements rooted (e :: out) rest
            else cleanElements rooted out' rest
        end
      else cleanElements rooted (e :: out) rest
  end.

Fixpoint joinSlash (elems : list (list byte)) : list byte :=
  match elems with
  | [] => []
  | [e] => e
  | e :: rest => e ++ [z2b 47] ++ joinSlash rest
  end.

Definition Clean (path : string) : string :=
  let bs := bytes_of_string path in
  let rooted := match bs with c :: _ => b2z c =? 47 | [] => false end in
  let out := joinSlash (reverse (cleanElements rooted [] (splitSlash [] bs))) in
  if rooted then string_of_bytes ([z2b 47] ++ out)
  else match out with [] => "." | _ => string_of_bytes out end.

(** ** [strconv.Atoi] *)

Definition ErrSyntax : error := ErrorNew "invalid syntax".
Definition ErrRange : error := ErrorNew "value out of range".

Definition Atoi (s : string) : result Z :=
  let bs := bytes_of_string s in
  let '(neg, ds) := match bs with
                    | c :: r => if isC c 45 then (true, r) else if isC c 43 then (false, r) else (false, bs)
                    | [] => (false, bs)
                    end in
  if bool_decide (ds = []) || negb (forallb isDigit ds) then Err ErrSyntax
  else
    let z := if neg then - atoi ds else atoi ds in
    if (- 2 ^ 63 <=? z) && (z <? 2 ^ 63) then Ok z else Err ErrRange.

(** ** [time.ParseDuration] *)

Definition errDuration : error := ErrorNew "time: invalid duration".

(** [leadingInt]: the value of the leading digits and the rest; [None] when it
    exceeds 2^63. *)
Fixpoint leadingInt (x : Z) (s : list byte) : option (Z * list byte) :=
  match s with
  | c :: r =>
      if isDigit c then
        if 2 ^ 63 / 10 <? x then None
        else
          let x := x * 10 + digitVal c in
          if 2 ^ 63 <? x then None else leadingInt x r
      else Some (x, s)
  | [] => Some (x, s)
  end.

(** [leadingFraction]: digits beyond the precision of a uint64 are dropped. *)
Fixpoint leadingFraction (x : Z) (scale : float64) (overflow : bool) (s : list byte) : Z * float64 * list byte :=
  match s with
  | c :: r =>
      if isDigit c then
        if overflow then leadingFraction x scale true r
        else if (2 ^ 63 - 1) / 10 <? x then leadingFraction x scale true r
        else
          let y := x * 10 + digitVal c in
          if 2 ^ 63 <? y then leadingFraction x scale true r
          else leadingFraction y (fmul scale (ofZ 10)) false r
      else (x, scale, s)
  | [] => (x, scale, s)
  end.

(** The unit: everything up to the next digit or period. *)
Fixpoint unitRun (s : list byte) : list byte :=
  match s with
  | c :: r => if isC c 46 || isDigit c then [] else c :: unitRun r
  | [] => []
  end.

(** [unitMap]; both spellings of the micro sign. *)
Definition unitOf (u : list byte) : option Z :=
  if bool_decide (u = text "ns") then Some 1
  else if bool_decide (u = text "us") || bool_decide (u = [z2b 0xC2; z2b 0xB5; z2b 115]) ||
          bool_decide (u = [z2b 0xCE; z2b 0xBC; z2b 115]) then Some 1000
  else if bool_decide (u = text "ms") then Some 1000000
  else if bool_decide (u = text "s") then Some Second
  else if bool_decide (u = text "m") then Some Minute
  else if bool_decide (u = text "h") then Some Hour
  else None.

(** One number with its unit, added to [d]. *)
Definition durationPart (d : Z) (s : list byte) : result (Z * list byte) :=
  match leadingInt 0 s with
  | None => Err errDuration
  | Some (v, r) =>
      let pre := negb (length r =? length s)%nat in
      let '(f, scale, post, r) :=
        match r with
        | c :: r' =>
            if isC c 46 then
              let '(f, scale, r'') := leadingFraction 0 (ofZ 1) false r' in
              (f, scale, negb (length r'' =? length r')%nat, r'')
            else (0, ofZ 1, false, r)
        | [] => (0, ofZ 1, false, r)
        end in
      if negb pre && negb post then Err errDuration
      else
        let u := unitRun r in
        let r := drop (length u) r in
        match u with
        | [] => Err (ErrorNew "time: missing unit in duration")
        | _ =>
            match unitOf u with
            | None => Err (ErrorNew "time: unknown unit in duration")
            | Some unit =>
                if 2 ^ 63 / unit <? v then Err errDuration
                else
                  let v := v * unit in
                  let fraction := match truncZ (fmul (ofZ f) (fdiv (ofZ unit) scale)) with Some z => z | None => 0 end in
                  let v := if 0 <? f then u64 (v + fraction) else v in
                  if (0 <? f) && (2 ^ 63 <? v) then Err errDuration
                  else
                    let d := u64 (d + v) in
                    if 2 ^ 63 <? d then Err errDuration else Ok (d, r)
            end
        end
  end.

(** [for s != "" {...}]; each round takes at least a digit and a unit. *)
Fixpoint durationLoop (fuel : nat) (d : Z) (s : list byte) : result Z :=
  match s with
  | [] => Ok d
  | c :: _ =>
      match fuel with
      | O => Err errDuration
      | S fuel' =>
          if negb (isC c 46 || isDigit c) then Err errDuration
          else '(d, s) ← durationPart d s; durationLoop fuel' d s
      end
  end.

Definition ParseDuration (str : string) : result Z :=
  let s := bytes_of_string str in
  let '(neg, s) := match s with
                   | c :: r => if isC c 45 || isC c 43 then (isC c 45, r) else (false, s)
                   | [] => (false, s)
                   end in
  if bool_decide (s = text "0") then Ok 0
  else if bool_decide (s = []) then Err errDuration
  else
    d ← durationLoop (length s) 0 s;
    if neg then Ok (i64 (- i64 d))
    else if 2 ^ 63 - 1 <? d then Err errDuration else Ok d.

(** ** The settings *)

Definition LoadHMACKey (env : Env) (fs : FileSystem) : result (list byte) :=
  let key := Getenv env "EIPC_HMAC_KEY" in
  if negb (String.eqb key "") then Ok (bytes_of_string key)
  else
    let path := Getenv env "EIPC_KEY_FILE" in
    if negb (String.eqb path "") then
      let path := Clean path in
      match fs path with
      | Err err => Err (Wrapf "read key file %q: %w" err [ArgStr path])
      | Ok data => Ok data
      end
    else Err (ErrorNew "EIPC_HMAC_KEY or EIPC_KEY_FILE must be set").

Definition LoadSessionTTL (env : Env) : Z :=
  let s := Getenv env "EIPC_SESSION_TTL" in
  if negb (String.eqb s "") then
    match ParseDuration s with Ok d => d | Err _ => 1 * Hour end
  else 1 * Hour.

Definition LoadMaxConnections (env : Env) : Z :=
  let s := Getenv env "EIPC_MAX_CONNECTIONS" in
  if negb (String.eqb s "") then
    match Atoi s with
    | Ok n => if 0 <? n then n else 64
    | Err _ => 64
    end
  else 64.

Definition LoadListenAddr (env : Env) : string :=
  let addr := Getenv env "EIPC_LISTEN_ADDR" in
  if negb (String.eqb addr "") then addr else "127.0.0.1:9090".

Definition TLSEnabled (env : Env) : bool :=
  negb (String.eqb (Getenv env "EIPC_TLS_CERT") "") || String.eqb (Getenv env "EIPC_TLS_AUTO_CERT") "true".

(** ** Lemmas *)

Lemma leadingInt_spec s : forall x v r,
  leadingInt x s = Some (v, r) -> 0 <= x <= 2 ^ 63 -> 0 <= v <= 2 ^ 63 /\ (length r <= length s)%nat.
Proof.
  induction s as [|c s IH]; intros x v r; cbn [leadingInt]; [by intros [= <- <-]|].
  destruct (isDigit c) eqn:Hd; [|by intros [= <- <-]].
  destruct (Z.ltb_spec (2 ^ 63 / 10) x); [done|]. destruct (Z.ltb_spec (2 ^ 63) (x * 10 + digitVal c)); [done|].
  intros E Hx. destruct (IH _ _ _ E) as [Hv Hl]; [|cbn [length]; split; [done|lia]].
  unfold isDigit, digitVal in *. breflect. lia.
Qed.

Lemma leadingFraction_le s : forall x scale o, (length (leadingFraction x scale o s).2 <= length s)%nat.
Proof.
  induction s as [|c s IH]; intros x scale o; cbn [leadingFraction]; [done|].
  destruct (isDigit c); [|done]. cbn [length].
  destruct o; [etrans; [apply IH|lia]|]. destruct (_ <? x); [etrans; [apply IH|lia]|].
  destruct (_ <? _); (etrans; [apply IH|lia]).
Qed.

Lemma unitOf_pos u unit : unitOf u = Some unit -> 1 <= unit.
Proof. unfold unitOf. repeat case_match; intros [= <-]; unfold Hour, Minute, Second; lia. Qed.

(** A part adds to the duration within the range of a uint64 up to 2^63, and
    takes at least its unit off the text. *)
Lemma durationPart_spec d s d' r :
  durationPart d s = Ok (d', r) -> 0 <= d' <= 2 ^ 63 /\ (length r < length s)%nat.
Proof.
  unfold durationPart. destruct (leadingInt 0 s) as [[v r0]|] eqn:E0; [|done].
  apply leadingInt_spec in E0 as [Hv Hl]; [|lia].
  set (fr := match r0 with [] => _ | _ => _ end).
  assert (length fr.2 <= length r0)%nat as Hfr.
  { subst fr. destruct r0 as [|c r1]; [done|]. destruct (isC c 46); [|done].
    pose proof (leadingFraction_le r1 0 (ofZ 1) false). destruct (leadingFraction 0 _ false r1) as [[f sc] r2].
    simpl in *. lia. }
  destruct fr as [[[f scale] post] r1]. cbn [snd] in Hfr.
  destruct (_ && _); [done|]. destruct (unitRun r1) as [|c u] eqn:Eu; [done|].
  assert (length (drop (length (c :: u)) r1) < length r1)%nat as Hdrop.
  { rewrite length_drop. destruct r1; [done|]. simpl. lia. }
  destruct (unitOf (c :: u)) as [unit|] eqn:Eun; [|done].
  destruct (_ <? v); [done|]. cbv zeta. destruct (_ && _); [done|].
  match goal with |- (if _ <? u64 ?y then _ else _) = _ -> _ =>
    pose proof (u64_range y) as [Hy _]; destruct (Z.ltb_spec (2 ^ 63) (u64 y)) as [|Hle]; [done|] end.
  intros [= <- <-]. split; [split; [exact Hy|exact Hle]|]. cbn [length] in *. lia.
Qed.

Lemma durationLoop_range fuel : forall d s d', durationLoop fuel d s = Ok d' -> 0 <= d <= 2 ^ 63 -> 0 <= d' <= 2 ^ 63.
Proof.
  induction fuel as [|fuel IH]; intros d [|c s] d'; cbn [durationLoop]; try by intros [= <-].
  destruct (negb _); [done|]. destruct (durationPart d (c :: s)) as [[d1 r]|] eqn:E; [|done].
  apply durationPart_spec in E as [Hd _]. cbn [mbind result_bind]. intros E2 _. by eapply IH.
Qed.

(** The fuel of [ParseDuration] is enough: more changes nothing. *)
Lemma durationLoop_fuel n : forall d s extra,
  (length s <= n)%nat -> durationLoop (n + extra) d s = durationLoop n d s.
Proof.
  induction n as [|n IH]; intros d [|c s] extra Hl; try done; [by destruct extra|simpl in Hl; lia|].
  cbn [Nat.add durationLoop]. destruct (negb _); [done|].
  destruct (durationPart d (c :: s)) as [[d1 r]|] eqn:E; [|done]. cbn [mbind result_bind].
  apply durationPart_spec in E as [_ Hr]. apply IH. lia.
Qed.

Lemma ParseDuration_i64 s d : ParseDuration s = Ok d -> in_i64 d.
Proof.
  unfold ParseDuration, in_i64. destruct (match bytes_of_string s with [] => _ | _ => _ end) as [neg bs].
  destruct (bool_decide _); [intros [= <-]; lia|]. destruct (bool_decide _); [done|].
  destruct (durationLoop _ 0 bs) as [d0|] eqn:E; [|done]. cbn [mbind result_bind].
  apply durationLoop_range in E; [|lia]. destruct neg.
  - intros [= <-]. unfold i64. pose proof (Z.mod_pos_bound (- ((d0 + 2 ^ 63) mod 2 ^ 64 - 2 ^ 63) + 2 ^ 63) (2 ^ 64)). lia.
  - destruct (Z.ltb_spec (2 ^ 63 - 1) d0); [done|]. intros [= <-]. lia.
Qed.

Lemma leadingInt_digits ds : forall x r,
  forallb isDigit ds = true -> 0 <= x -> foldl (fun n b => n * 10 + digitVal b) x ds <= 2 ^ 63 ->
  match r with c :: _ => isDigit c = false | [] => True end ->
  leadingInt x (ds ++ r) = Some (foldl (fun n b => n * 10 + digitVal b) x ds, r).
Proof.
  induction ds as [|c ds IH]; intros x r Hd Hx Hb Hr; cbn [app].
  { destruct r as [|c r]; [done|]. cbn [leadingInt]. by rewrite Hr. }
  cbn [forallb] in Hd. apply andb_true_iff in Hd as [Hc Hds]. cbn [leadingInt foldl] in *. rewrite Hc.
  assert (0 <= digitVal c <= 9) as Hv by (unfold isDigit, digitVal in *; breflect; lia).
  assert (forall l y, forallb isDigit l = true -> 0 <= y -> y <= foldl (fun n b => n * 10 + digitVal b) y l) as Hmono.
  { induction l as [|b l IHl]; intros y Hl Hy; [done|]. cbn [forallb foldl] in *. apply andb_true_iff in Hl as [Hb' Hl].
    assert (0 <= digitVal b) by (unfold isDigit, digitVal in *; breflect; lia).
    etrans; [|apply IHl; [done|lia]]. lia. }
  pose proof (Hmono ds (x * 10 + digitVal c) Hds ltac:(lia)).
  destruct (Z.ltb_spec (2 ^ 63 / 10) x) as [Hlt|_]; [change (2 ^ 63 / 10) with 922337203685477580 in Hlt; lia|].
  destruct (Z.ltb_spec (2 ^ 63) (x * 10 + digitVal c)); [lia|]. apply IH; [done|lia|done|done].
Qed.

(** The units are texts without digits and periods. *)
Lemma unitOf_run u unit :
  unitOf u = Some unit -> unitRun u = u /\ exists c r, u = c :: r /\ isDigit c = false /\ isC c 46 = false.
Proof.
  unfold unitOf. repeat case_match; intros [= <-];
    repeat match goal with
    | H : _ || _ = true |- _ => apply orb_true_iff in H as [H|H]
    | H : bool_decide (u = _) = true |- _ => apply bool_decide_eq_true in H; subst u
    end; (split; [reflexivity|by eexists _, _]).
Qed.

(** A whole number of a unit reads as the number of nanoseconds it is. *)
Lemma ParseDuration_whole n u unit :
  unitOf u = Some unit -> 0 <= n -> n * unit < 2 ^ 63 ->
  ParseDuration (string_of_bytes (appendInt n 0 ++ u)) = Ok (n * unit).
Proof.
  intros Hu Hn Hb. pose proof (unitOf_pos _ _ Hu) as Hu1.
  destruct (unitOf_run _ _ Hu) as (Hrun & c & r & -> & Hc1 & Hc2).
  assert (in_u64 n) as (Hp & Hd & Ha)%uint_text by (unfold in_u64; nia).
  unfold ParseDuration. rewrite String.list_byte_of_string_of_list_byte.
  generalize dependent (appendInt n 0). intros [|d ds] Hp Hd Ha; [done|]. clear Hp.
  assert (isDigit d = true) as Hd0 by (cbn [forallb] in Hd; by apply andb_true_iff in Hd as [? _]).
  cbn [app]. assert (isC d 45 = false /\ isC d 43 = false /\ isC d 46 = false) as (-> & -> & Hdot).
  { unfold isDigit in Hd0. breflect. split_and!; apply isC_false; lia. }
  cbn [orb app]. rewrite !bool_decide_eq_false_2 by (intros E; apply (f_equal length) in E; simpl in E;
    rewrite length_app in E; simpl in E; lia).
  change (d :: ds ++ c :: r) with ((d :: ds) ++ c :: r).
  assert (durationPart 0 ((d :: ds) ++ c :: r) = Ok (n * unit, [])) as Hpart.
  { unfold durationPart. unfold atoi in Ha. rewrite leadingInt_digits, Ha by (rewrite ?Ha; (done || nia)).
    rewrite Hc2, length_app. cbn [length].
    rewrite (proj2 (Nat.eqb_neq (S (length r)) (S (length ds) + S (length r)))) by lia. cbn [negb andb]. rewrite Hrun.
    rewrite drop_all. cbv beta iota. rewrite Hu.
    rewrite (proj2 (Z.ltb_ge (2 ^ 63 / unit) n)) by (apply Z.div_le_lower_bound; nia).
    cbn [Z.ltb Z.compare andb]. rewrite Z.add_0_l, u64_id by (unfold in_u64; nia). by zbool. }
  cbn [length app durationLoop] in *. rewrite Hdot, Hd0. cbn [orb negb]. rewrite Hpart. cbn [mbind result_bind].
  assert (forall fuel, durationLoop fuel (n * unit) [] = Ok (n * unit)) as -> by (by intros []). cbn [mbind result_bind].
  by zbool.
Qed.

Lemma Atoi_i64 s n : Atoi s = Ok n -> in_i64 n.
Proof.
  unfold Atoi, in_i64. destruct (match bytes_of_string s with [] => _ | _ => _ end) as [neg ds].
  destruct (_ || _); [done|]. destruct (_ && _) eqn:Eb; [|done]. intros [= <-]. breflect. lia.
Qed.

(** An empty key file is a key: the programs then sign with the empty key. *)
Lemma empty_key_file fs path :
  fs (Clean path) = Ok [] -> path <> "" -> LoadHMACKey {["EIPC_KEY_FILE" := path]} fs = Ok [].
Proof.
  intros Hf Hp. unfold LoadHMACKey, Getenv. rewrite lookup_singleton_ne by done. rewrite lookup_singleton_eq.
  cbn [default from_option id String.eqb negb]. destruct (String.eqb_spec path ""); [done|]. cbn [negb]. by rewrite Hf.
Qed.

(** ** Properties *)

(** Whatever the environment, the settings are of their ranges: the limit of
    connections is positive, the lifetime of sessions is a duration, and the
    listen address is not empty. *)
Theorem settings_in_range (env : Env) :
  1 <= LoadMaxConnections env < 2 ^ 63 /\ in_i64 (LoadSessionTTL env) /\ LoadListenAddr env <> "".
Proof.
  unfold LoadMaxConnections, LoadSessionTTL, LoadListenAddr. cbv zeta. split; [|split].
  - destruct (negb _); [|lia]. destruct (Atoi _) as [n|] eqn:E; [|lia]. destruct (Z.ltb_spec 0 n); [|lia].
    apply Atoi_i64 in E. unfold in_i64 in E. lia.
  - destruct (negb _); [|unfold in_i64, Hour, Minute, Second; lia].
    destruct (ParseDuration _) as [d|] eqn:E; [by eapply ParseDuration_i64|unfold in_i64, Hour, Minute, Second; lia].
  - destruct (String.eqb_spec (Getenv env "EIPC_LISTEN_ADDR") ""); [done|done].
Qed.

(** The session lifetime is the one the operator writes: a whole number of
    hours, minutes, seconds or smaller units in EIPC_SESSION_TTL, whatever its
    size up to the largest duration, is read as exactly that many nanoseconds;
    without the variable it is one hour. *)
Theorem session_ttl_setting (env : Env) (n : Z) (u : list byte) (unit : Z) :
  unitOf u = Some unit -> 0 <= n -> n * unit < 2 ^ 63 ->
  LoadSessionTTL (<["EIPC_SESSION_TTL" := string_of_bytes (appendInt n 0 ++ u)]> env) = n * unit /\
  LoadSessionTTL (delete "EIPC_SESSION_TTL" env) = 3600 * Second.
Proof.
  intros Hu Hn Hb. unfold LoadSessionTTL, Getenv. rewrite lookup_insert_eq, lookup_delete_eq. cbn [default from_option id].
  split; [|done]. destruct (String.eqb_spec (string_of_bytes (appendInt n 0 ++ u)) "") as [E|_].
  - apply (f_equal bytes_of_string) in E. rewrite String.list_byte_of_string_of_list_byte in E. destruct (unitOf_run _ _ Hu) as (_ & c & r & -> & _).
    apply (f_equal length) in E. rewrite length_app in E. simpl in E. lia.
  - cbn [negb]. by rewrite (ParseDuration_whole n u unit).
Qed.

Lemma session_ttl_setting_witness :
  unitOf (text "m") = Some Minute /\
  LoadSessionTTL (<["EIPC_SESSION_TTL" := string_of_bytes (appendInt 90 0 ++ text "m")]> ∅) = 90 * Minute /\
  string_of_bytes (appendInt 90 0 ++ text "m") = "90m".
Proof.
  assert (unitOf (text "m") = Some Minute) as Hu by reflexivity.
  split; [exact Hu|]. split; [|reflexivity].
  apply (session_ttl_setting ∅ 90 (text "m") Minute Hu); [lia|reflexivity].
Defined.
