(* ===== verification/Net.v ===== *)
(** * Socket transports: src/transport/tcp/tcp.go, tcp/tls_config.go,
      src/transport/unix/unix.go, src/transport/windows/pipe.go, the interface
      of src/transport/transport.go, the audit file of
      src/services/audit/audit.go, and the start of the three programs of
      src/cmd

    The state of the three transports (a listener, and for TCP a TLS
    configuration) with their operations.  The operating system's network,
    and the certificates of crypto/tls and crypto/x509, are interfaces; which
    listener is opened, with which configuration, and every error path are
    the program's.  The theorems say when a server ends up behind TLS; that the
    three transports keep one contract is [transport_law]. *)

From S2P Require Import Prelude Time Fmt Config Server.
Local Open Scope string_scope.
Local Open Scope list_scope.
Local Open Scope Z_scope.

(** ** Interfaces *)

(** The fields of an [x509.Certificate] the program fills in. *)
Record CertTemplate := MkTemplate {
  SerialNumber : Z;
  Organization : list string;
  CommonName : string;
  NotBefore : Time;
  NotAfter : Time;
  KeyUsage : Z;
  ExtKeyUsage : list Z;
  BasicConstraintsValid : bool;
  DNSNames : list string
}.

Definition KeyUsageDigitalSignature : Z := 1.
Definition KeyUsageKeyEncipherment : Z := 4.
Definition ExtKeyUsageServerAuth : Z := 1.
Definition ExtKeyUsageClientAuth : Z := 2.

(** Certificates and what the program calls to make and read them. *)
Class X509 := {
  Certificate : Type;
  CertPool : Type;
  PrivateKey : Type;
  (** [tls.LoadX509KeyPair]: reads two files *)
  LoadX509KeyPair : string -> string -> result Certificate;
  (** [pool.AppendCertsFromPEM] on a new pool; [None] when no certificate parses *)
  AppendCertsFromPEM : list byte -> option CertPool;
  (** [ecdsa.GenerateKey] on P-256 and [rand.Int] below 2^128, from the random source *)
  GenerateKey : result PrivateKey;
  RandSerial : result Z;
  (** [x509.CreateCertificate] with a template, a parent and the key *)
  CreateCertificate : CertTemplate -> CertTemplate -> PrivateKey -> result (list byte);
  (** [pem.EncodeToMemory] of a block of a type *)
  EncodeToMemory : string -> list byte -> list byte;
  MarshalECPrivateKey : PrivateKey -> result (list byte);
  (** [tls.X509KeyPair] on two PEM texts *)
  X509KeyPair : list byte -> list byte -> result Certificate
}.

Section Net.
Context `{X509}.

Definition VersionTLS12 : Z := 0x0303.

(** The fields of a [tls.Config] the program sets. *)
Record TLSConfig := MkTLSConfig {
  Certificates : list Certificate;
  MinVersion : Z;
  ClientCAs : option CertPool;
  RequireAndVerifyClientCert : bool
}.

(** The operating system: [N] is its state, [Ln] a listening socket and [Cn] a
    connection as the program holds them; [tls_NewListener] wraps a listener. *)
Class Network (N Ln Cn : Type) := {
  net_Listen : string -> string -> M N Ln;
  net_Dial : string -> string -> M N Cn;
  tls_Dial : string -> string -> TLSConfig -> M N Cn;
  tls_NewListener : Ln -> TLSConfig -> Ln;
  ln_Accept : Ln -> M N Cn;
  ln_Close : Ln -> M N unit;
  ln_Addr : Ln -> string;
  isTCPConn : Cn -> bool;
  keepAlive : Cn -> N -> N
}.

(** ** tls_config.go *)

Definition GenerateSelfSignedCert (now1 now2 : Time) : result Certificate :=
  match GenerateKey with
  | Err err => Err (Wrapf "generate key: %w" err [])
  | Ok key =>
      match RandSerial with
      | Err err => Err (Wrapf "generate serial: %w" err [])
      | Ok serial =>
          let template := MkTemplate serial ["EoS EIPC"] serverName
            (MkTime (wall now1 - 1 * Hour) (offset now1))
            (MkTime (wall now2 + 365 * 24 * Hour) (offset now2))
            (Z.lor KeyUsageDigitalSignature KeyUsageKeyEncipherment)
            [ExtKeyUsageServerAuth; ExtKeyUsageClientAuth] true ["localhost"] in
          match CreateCertificate template template key with
          | Err err => Err (Wrapf "create certificate: %w" err [])
          | Ok certDER =>
              let certPEM := EncodeToMemory "CERTIFICATE" certDER in
              match MarshalECPrivateKey key with
              | Err err => Err (Wrapf "marshal key: %w" err [])
              | Ok keyDER => X509KeyPair certPEM (EncodeToMemory "EC PRIVATE KEY" keyDER)
              end
          end
      end
  end.

Definition LoadTLSConfig (fs : FileSystem) (certFile keyFile caFile : string) : result TLSConfig :=
  let certFile := Clean certFile in
  let keyFile := Clean keyFile in
  match LoadX509KeyPair certFile keyFile with
  | Err err => Err (Wrapf "load key pair: %w" err [])
  | Ok cert =>
      let cfg := MkTLSConfig [cert] VersionTLS12 None false in
      if negb (String.eqb caFile "") then
        let caFile := Clean caFile in
        match fs caFile with
        | Err err => Err (Wrapf "read CA file: %w" err [])
        | Ok caPEM =>
            match AppendCertsFromPEM caPEM with
            | None => Err (ErrorNew "failed to parse CA certificate")
            | Some pool => Ok (MkTLSConfig (Certificates cfg) (MinVersion cfg) (Some pool) true)
            end
        end
      else Ok cfg
  end.

Definition AutoTLSConfig (now1 now2 : Time) : result TLSConfig :=
  match GenerateSelfSignedCert now1 now2 with
  | Err err => Err err
  | Ok cert => Ok (MkTLSConfig [cert] VersionTLS12 None false)
  end.

(** ** tcp.go *)

Context {N Ln Cn : Type} `{Network N Ln Cn}.

Record TCPTransport := MkTCP { tcp_listener : option Ln; tlsConfig : option TLSConfig }.

Definition tcp_New : TCPTransport := MkTCP None None.

Definition WithTLS (fs : FileSystem) (certFile keyFile caFile : string) : M TCPTransport unit := fun t =>
  match LoadTLSConfig fs certFile keyFile caFile with
  | Err err => (Err err, t)
  | Ok cfg => (Ok tt, MkTCP (tcp_listener t) (Some cfg))
  end.

Definition WithTLSConfig (cfg : TLSConfig) (t : TCPTransport) : TCPTransport := MkTCP (tcp_listener t) (Some cfg).

Definition tcp_Listen (address : string) : M (TCPTransport * N) unit := fun '(t, n) =>
  match net_Listen "tcp" address n with
  | (Err err, n) => (Err (Wrapf "tcp listen: %w" err []), (t, n))
  | (Ok ln, n) =>
      let ln := match tlsConfig t with Some cfg => tls_NewListener ln cfg | None => ln end in
      (Ok tt, (MkTCP (Some ln) (tlsConfig t), n))
  end.

(** The keep-alive settings of plain TCP connections; their errors are ignored. *)
Definition withKeepAlive (conn : Cn) (n : N) : N := if isTCPConn conn then keepAlive conn n else n.

Definition tcp_Dial (t : TCPTransport) (address : string) : M N Cn := fun n =>
  match tlsConfig t with
  | Some clientTLS =>
      match tls_Dial "tcp" address clientTLS n with
      | (Err err, n) => (Err (Wrapf "tcp tls dial: %w" err []), n)
      | (Ok conn, n) => (Ok conn, n)
      end
  | None =>
      match net_Dial "tcp" address n with
      | (Err err, n) => (Err (Wrapf "tcp dial: %w" err []), n)
      | (Ok conn, n) => (Ok conn, withKeepAlive conn n)
      end
  end.

Definition tcp_Accept (t : TCPTransport) : M N Cn := fun n =>
  match tcp_listener t with
  | None => (Err (ErrorNew "tcp: not listening"), n)
  | Some ln =>
      match ln_Accept ln n with
      | (Err err, n) => (Err (Wrapf "tcp accept: %w" err []), n)
      | (Ok conn, n) => (Ok conn, withKeepAlive conn n)
      end
  end.

Definition tcp_Close (t : TCPTransport) : M N unit := fun n =>
  match tcp_listener t with
  | Some ln => ln_Close ln n
  | None => (Ok tt, n)
  end.

Definition tcp_Addr (t : TCPTransport) : string :=
  match tcp_listener t with Some ln => ln_Addr ln | None => "" end.

Definition SetupTLSFromEnv (env : Env) (fs : FileSystem) (now1 now2 : Time) : M TCPTransport unit := fun t =>
  let certFile := Getenv env "EIPC_TLS_CERT" in
  let keyFile := Getenv env "EIPC_TLS_KEY" in
  if negb (String.eqb certFile "") && negb (String.eqb keyFile "") then
    WithTLS fs certFile keyFile (Getenv env "EIPC_TLS_CA") t
  else if String.eqb (Getenv env "EIPC_TLS_AUTO_CERT") "true" then
    match AutoTLSConfig now1 now2 with
    | Err err => (Err err, t)
    | Ok cfg => (Ok tt, MkTCP (tcp_listener t) (Some cfg))
    end
  else (Ok tt, t).

(** ** unix.go and pipe.go *)

(** Both hold a listener only. *)
Record SocketTransport := MkSocketTransport { sock_listener : option Ln }.

Definition unix_New : SocketTransport := MkSocketTransport None.

Definition unix_Listen (address : string) : M (SocketTransport * N) unit := fun '(t, n) =>
  match net_Listen "unix" address n with
  | (Err err, n) => (Err (Wrapf "unix listen: %w" err []), (t, n))
  | (Ok ln, n) => (Ok tt, (MkSocketTransport (Some ln), n))
  end.

Definition unix_Dial (address : string) : M N Cn := wrapf "unix dial: %w" (net_Dial "unix" address).

Definition unix_Accept (t : SocketTransport) : M N Cn :=
  match sock_listener t with
  | None => fail (ErrorNew "unix: not listening")
  | Some ln => wrapf "unix accept: %w" (ln_Accept ln)
  end.

Definition unix_Close (t : SocketTransport) : M N unit :=
  match sock_listener t with Some ln => ln_Close ln | None => mret tt end.

Definition unix_Addr (t : SocketTransport) : string :=
  match sock_listener t with Some ln => ln_Addr ln | None => "" end.

Definition winpipe_New : SocketTransport := MkSocketTransport None.

Definition winpipe_Listen (address : string) : M (SocketTransport * N) unit := fun '(t, n) =>
  match net_Listen "tcp" address n with
  | (Err err, n) => (Err (Wrapf "windows pipe listen: %w" err []), (t, n))
  | (Ok ln, n) => (Ok tt, (MkSocketTransport (Some ln), n))
  end.

Definition winpipe_Dial (address : string) : M N Cn := wrapf "windows pipe dial: %w" (net_Dial "tcp" address).

Definition winpipe_Accept (t : SocketTransport) : M N Cn :=
  match sock_listener t with
  | None => fail (ErrorNew "windows pipe: not listening")
  | Some ln => wrapf "windows pipe accept: %w" (ln_Accept ln)
  end.

Definition winpipe_Close (t : SocketTransport) : M N unit :=
  match sock_listener t with Some ln => ln_Close ln | None => mret tt end.

Definition winpipe_Addr (t : SocketTransport) : string :=
  match sock_listener t with Some ln => ln_Addr ln | None => "" end.

(** ** The interface of transport.go *)

(** [transport.Transport] for a transport whose own state is [T]. *)
Record Transport (T : Type) := MkTransport {
  tr_Listen : string -> M (T * N) unit;
  tr_Dial : T -> string -> M N Cn;
  tr_Accept : T -> M N Cn;
  tr_Close : T -> M N unit
}.
Arguments MkTransport {T} _ _ _ _.
Arguments tr_Listen {T} _ _.
Arguments tr_Dial {T} _ _ _.
Arguments tr_Accept {T} _ _.
Arguments tr_Close {T} _ _.

Definition tcp_Transport : Transport TCPTransport := MkTransport tcp_Listen tcp_Dial tcp_Accept tcp_Close.
Definition unix_Transport : Transport SocketTransport := MkTransport unix_Listen (fun _ => unix_Dial) unix_Accept unix_Close.
Definition winpipe_Transport : Transport SocketTransport :=
  MkTransport winpipe_Listen (fun _ => winpipe_Dial) winpipe_Accept winpipe_Close.

(** What every transport promises: a new one accepts nothing and has nothing
    to close; a failed [Listen] leaves it as it was; after a successful one it
    accepts from and closes one listener. *)
Record transport_law {T} (I : Transport T) (new : T) : Prop := {
  idle_accept n : exists e, tr_Accept I new n = (Err e, n);
  idle_close n : tr_Close I new n = (Ok tt, n);
  listen_failed address t n e t' n' : tr_Listen I address (t, n) = (Err e, (t', n')) -> t' = t;
  listen_serves address t n t' n' : tr_Listen I address (t, n) = (Ok tt, (t', n')) ->
    exists ln, (forall m, tr_Close I t' m = ln_Close ln m) /\
      forall m, match tr_Accept I t' m with
                | (Ok conn, _) => exists m1, ln_Accept ln m = (Ok conn, m1)
                | (Err _, m') => exists e, ln_Accept ln m = (Err e, m')
                end
}.

(** ** The audit file: audit.go *)

(** [os.OpenFile] for appending and [Close]; [F] is an open file. *)
Context {F : Type} (OpenFile : string -> M N F) (CloseFile : F -> M N unit).

Inductive logWriter := Stdout | Opened (f : F).

Definition NewFileLogger (path : string) : M N logWriter :=
  if String.eqb path "" then mret Stdout
  else
    let path := Clean path in
    f ← wrapf "open audit log: %w" (OpenFile path); mret (Opened f).

Definition FileLogger_Close (l : logWriter) : M N unit :=
  match l with
  | Opened f => CloseFile f
  | Stdout => mret tt
  end.

(** ** The start of the server *)

(** What [main] has set up when it enters the accept loop. *)
Record Startup := MkStartup {
  st_addr : string;
  st_secret : list byte;
  st_ttl : Z;
  st_maxConns : Z;
  st_log : logWriter;
  st_transport : TCPTransport;
  st_tlsMode : string
}.

(** The transport, and the mode that [main] reports; an error is a [log.Fatalf]. *)
Definition serverListen (env : Env) (fs : FileSystem) (addr : string) (now1 now2 : Time) : M N (TCPTransport * string) := fun n =>
  match SetupTLSFromEnv env fs now1 now2 tcp_New with
  | (Err err, _) => (Err (Wrapf "TLS setup: %w" err []), n)
  | (Ok _, t) =>
      match tcp_Listen addr (t, n) with
      | (Err err, (_, n)) => (Err (Wrapf "listen: %w" err []), n)
      | (Ok _, (t, n)) =>
          let tlsMode := if TLSEnabled env then "TLS" else "plaintext" in
          (Ok (t, tlsMode), n)
      end
  end.

(** [main] up to the accept loop. *)
Definition serverMain (env : Env) (fs : FileSystem) (args : list string) (now1 now2 : Time) : M N Startup := fun n =>
  let addr := match args with _ :: a :: _ => a | _ => LoadListenAddr env end in
  match LoadHMACKey env fs with
  | Err err => (Err (Wrapf "[CONFIG] %w" err []), n)
  | Ok sharedSecret =>
      let sessionTTL := LoadSessionTTL env in
      let maxConns := LoadMaxConnections env in
      match NewFileLogger "" n with
      | (Err err, n) => (Err (Wrapf "audit logger: %w" err []), n)
      | (Ok auditLogger, n) =>
          match serverListen env fs addr now1 now2 n with
          | (Err err, n) => (Err err, n)
          | (Ok (t, tlsMode), n) => (Ok (MkStartup addr sharedSecret sessionTTL maxConns auditLogger t tlsMode), n)
          end
      end
  end.

(** ** The start of the clients *)

(** eipc-client up to its endpoint: the key and the connection. *)
Definition clientMain (env : Env) (fs : FileSystem) (args : list string) (now1 now2 : Time) : M N (list byte * Cn) := fun n =>
  let addr := match args with _ :: a :: _ => a | _ => "127.0.0.1:9090" end in
  match LoadHMACKey env fs with
  | Err err => (Err (Wrapf "[CONFIG] %w" err []), n)
  | Ok sharedSecret =>
      match SetupTLSFromEnv env fs now1 now2 tcp_New with
      | (Err err, _) => (Err (Wrapf "TLS setup: %w" err []), n)
      | (Ok _, t) =>
          match tcp_Dial t addr n with
          | (Err err, n) => (Err (Wrapf "dial: %w" err []), n)
          | (Ok conn, n) => (Ok (sharedSecret, conn), n)
          end
      end
  end.

(** The commands of eipc-cli from their flags to theirs; [addr] is the value
    of [--addr].  They do not look at the TLS settings. *)
Definition cliConnect (env : Env) (fs : FileSystem) (addr : string) : M N (list byte * Cn) := fun n =>
  match LoadHMACKey env fs with
  | Err err => (Err (Wrapf "HMAC key: %w" err []), n)
  | Ok hmacKey =>
      match tcp_Dial tcp_New addr n with
      | (Err err, n) => (Err (Wrapf "dial %s: %w" err [ArgStr addr]), n)
      | (Ok conn, n) => (Ok (hmacKey, conn), n)
      end
  end.

(** ** Lemmas *)

Definition certKeyGiven (env : Env) : Prop :=
  Getenv env "EIPC_TLS_CERT" <> "" /\ Getenv env "EIPC_TLS_KEY" <> "".

Definition autoGiven (env : Env) : Prop := Getenv env "EIPC_TLS_AUTO_CERT" = "true".

Lemma tcp_transport_law : transport_law tcp_Transport tcp_New.
Proof.
  constructor; cbn [tr_Listen tr_Accept tr_Close tcp_Transport].
  - intros n. by eexists.
  - done.
  - unfold tcp_Listen. intros address t n e t' n'. by destruct (net_Listen _ _ n) as [[]]; intros [= <- <- <-].
  - unfold tcp_Listen. intros address t n t' n'. destruct (net_Listen _ _ n) as [[ln|]]; [|done]. intros [= <- <-].
    eexists. split; [done|]. intros m. unfold tcp_Accept. cbn [tcp_listener].
    destruct (ln_Accept _ m) as [[conn|e] m1]; by eexists.
Qed.

Ltac socket_law listen accept :=
  constructor; cbn [tr_Listen tr_Accept tr_Close unix_Transport winpipe_Transport];
  [ intros n; by eexists | done
  | unfold listen; intros address t n e t' n'; by destruct (net_Listen _ _ n) as [[]]; intros [= <- <- <-]
  | unfold listen; intros address t n t' n'; destruct (net_Listen _ _ n) as [[ln|]]; [|done]; intros [= <- <-];
    exists ln; split; [done|]; intros m; unfold accept; cbn [sock_listener]; unfold wrapfa;
    destruct (ln_Accept _ m) as [[conn|e] m1]; by eexists ].

Lemma unix_transport_law : transport_law unix_Transport unix_New.
Proof. socket_law unix_Listen unix_Accept. Qed.

Lemma winpipe_transport_law : transport_law winpipe_Transport winpipe_New.
Proof. socket_law winpipe_Listen winpipe_Accept. Qed.

Lemma LoadTLSConfig_spec fs certFile keyFile caFile cfg :
  LoadTLSConfig fs certFile keyFile caFile = Ok cfg ->
  exists cert, Certificates cfg = [cert] /\ MinVersion cfg = VersionTLS12 /\
    RequireAndVerifyClientCert cfg = negb (String.eqb caFile "") /\
    (caFile <> "" <-> is_Some (ClientCAs cfg)).
Proof.
  unfold LoadTLSConfig. destruct (LoadX509KeyPair _ _) as [cert|]; [|done].
  destruct (String.eqb_spec caFile "") as [->|Hne]; cbn [negb].
  - intros [= <-]. exists cert. split_and!; try done. split; [done|by intros []].
  - destruct (fs _) as [pem|]; [|done]. destruct (AppendCertsFromPEM pem) as [pool|]; [|done].
    intros [= <-]. exists cert. split_and!; try done.
Qed.

(** What a successful set-up leaves in a new transport. *)
Lemma SetupTLSFromEnv_spec env fs now1 now2 t :
  SetupTLSFromEnv env fs now1 now2 tcp_New = (Ok tt, t) ->
  tcp_listener t = None /\ (is_Some (tlsConfig t) <-> certKeyGiven env \/ autoGiven env) /\
  forall cfg, tlsConfig t = Some cfg -> exists cert, Certificates cfg = [cert] /\ MinVersion cfg = VersionTLS12 /\
    (RequireAndVerifyClientCert cfg = true <-> certKeyGiven env /\ Getenv env "EIPC_TLS_CA" <> "").
Proof.
  unfold SetupTLSFromEnv, certKeyGiven, autoGiven. cbv zeta.
  destruct (String.eqb_spec (Getenv env "EIPC_TLS_CERT") "") as [Ec|Ec];
    destruct (String.eqb_spec (Getenv env "EIPC_TLS_KEY") "") as [Ek|Ek]; cbn [negb andb].
  4: { unfold WithTLS. destruct (LoadTLSConfig _ _ _ _) as [cfg|] eqn:E; [|done]. intros [= <-]. cbn [tcp_listener tlsConfig tcp_New].
       split; [done|]. split; [split; [by left|by eexists]|]. intros cfg' [= <-].
       apply LoadTLSConfig_spec in E as (cert & H1 & H2 & H3 & _). exists cert. split; [done|]. split; [done|].
       rewrite H3. destruct (String.eqb_spec (Getenv env "EIPC_TLS_CA") ""); naive_solver. }
  all: destruct (String.eqb_spec (Getenv env "EIPC_TLS_AUTO_CERT") "true") as [Ea|Ea].
  all: try (intros [= <-]; cbn [tcp_listener tlsConfig tcp_New]; split; [done|]; split; [|done];
            split; [by intros []|]; naive_solver).
  all: unfold AutoTLSConfig; destruct (GenerateSelfSignedCert _ _) as [cert|]; [|done]; intros [= <-];
    cbn [tcp_listener tlsConfig tcp_New]; (split; [done|]); (split; [split; [by right|by eexists]|]);
    intros cfg [= <-]; exists cert; (split; [done|]); (split; [done|]); naive_solver.
Qed.

Lemma serverMain_inv env fs args now1 now2 n st n' :
  serverMain env fs args now1 now2 n = (Ok st, n') ->
  exists t ln, SetupTLSFromEnv env fs now1 now2 tcp_New = (Ok tt, t) /\
    net_Listen "tcp" (st_addr st) n = (Ok ln, n') /\
    st_transport st = MkTCP (Some (match tlsConfig t with Some cfg => tls_NewListener ln cfg | None => ln end)) (tlsConfig t) /\
    st_tlsMode st = (if TLSEnabled env then "TLS" else "plaintext") /\
    LoadHMACKey env fs = Ok (st_secret st) /\ st_ttl st = LoadSessionTTL env /\ st_maxConns st = LoadMaxConnections env.
Proof.
  unfold serverMain, serverListen. destruct (LoadHMACKey env fs) as [key|]; [|done].
  change (NewFileLogger "" n) with (Ok Stdout : result logWriter, n). cbv zeta iota beta.
  destruct (SetupTLSFromEnv env fs now1 now2 tcp_New) as [[[]|] t]; [|done].
  unfold tcp_Listen. destruct (net_Listen "tcp" _ n) as [[ln|] n1] eqn:E; [|done].
  intros [= <- <-]. exists t, ln. by split_and!.
Qed.

(** eipc-client dials through TLS exactly where the server listens through it. *)
Lemma clientMain_tls env fs args now1 now2 n key conn n' :
  clientMain env fs args now1 now2 n = (Ok (key, conn), n') ->
  exists addr,
    (certKeyGiven env \/ autoGiven env -> exists cfg, tls_Dial "tcp" addr cfg n = (Ok conn, n')) /\
    (~ (certKeyGiven env \/ autoGiven env) ->
       exists n1, net_Dial "tcp" addr n = (Ok conn, n1) /\ n' = withKeepAlive conn n1).
Proof.
  unfold clientMain. cbv zeta. set (addr := match args with _ :: a :: _ => a | _ => _ end).
  destruct (LoadHMACKey env fs) as [k|]; [|done].
  destruct (SetupTLSFromEnv env fs now1 now2 tcp_New) as [[[]|] t] eqn:Es; [|done].
  apply SetupTLSFromEnv_spec in Es as (_ & Hiff & _). unfold tcp_Dial.
  destruct (tlsConfig t) as [cfg|].
  - destruct (tls_Dial "tcp" addr cfg n) as [[c|] n1] eqn:E; [|done]. intros [= <- <- <-]. exists addr.
    split; [intros _; by exists cfg|]. intros []. apply Hiff. by eexists.
  - destruct (net_Dial "tcp" addr n) as [[c|] n1] eqn:E; [|done]. intros [= <- <- <-]. exists addr.
    split; [intros Hg; by destruct (proj2 Hiff Hg)|]. intros _. by exists n1.
Qed.

(** eipc-cli never does. *)
Lemma cliConnect_plain env fs addr n key conn n' :
  cliConnect env fs addr n = (Ok (key, conn), n') ->
  exists n1, net_Dial "tcp" addr n = (Ok conn, n1) /\ n' = withKeepAlive conn n1.
Proof.
  unfold cliConnect. destruct (LoadHMACKey env fs) as [k|]; [|done]. cbn [tcp_Dial tlsConfig tcp_New].
  destruct (net_Dial "tcp" _ n) as [[c|] n1] eqn:E; [|done]. intros [= <- <- <-]. by exists n1.
Qed.

(** Without a path the log is the standard output, which is never closed; with
    one it is the file of the cleaned path, which is. *)
Lemma NewFileLogger_spec path n l n' :
  NewFileLogger path n = (Ok l, n') ->
  match l with
  | Stdout => path = "" /\ n' = n /\ FileLogger_Close l n' = (Ok tt, n')
  | Opened f => path <> "" /\ OpenFile (Clean path) n = (Ok f, n') /\ FileLogger_Close l n' = CloseFile f n'
  end.
Proof.
  unfold NewFileLogger. destruct (String.eqb_spec path "") as [->|Hne]; [by intros [= <- <-]|].
  unfold mbind, M_bind, wrapf. destruct (OpenFile (Clean path) n) as [[f|] n1] eqn:E; [|done].
  by intros [= <- <-].
Qed.

End Net.

(** ** Properties *)

(** C27: When the server is behind TLS: a started server listens through TLS
    exactly if certificate and key files are both configured or the automatic
    certificate is requested, with one certificate, TLS 1.2 or later, and
    client certificates required exactly if a CA file is given with the
    certificate and key; otherwise it listens on the plain socket.  The other
    settings it starts with are the loaded ones. *)
Theorem tls_listener_spec `{X509} {N Ln Cn F} `{Network N Ln Cn} (OpenFile : string -> M N F) (env : Env) (fs : FileSystem) (args : list string)
    (now1 now2 : Time) (n n' : N) (st : Startup (F := F)) :
  serverMain OpenFile env fs args now1 now2 n = (Ok st, n') ->
  (exists ln, net_Listen "tcp" (st_addr st) n = (Ok ln, n') /\
     (certKeyGiven env \/ autoGiven env ->
        exists cfg cert, tcp_listener (st_transport st) = Some (tls_NewListener ln cfg) /\
          Certificates cfg = [cert] /\ MinVersion cfg = VersionTLS12 /\
          (RequireAndVerifyClientCert cfg = true <-> certKeyGiven env /\ Getenv env "EIPC_TLS_CA" <> "")) /\
     (~ (certKeyGiven env \/ autoGiven env) -> tcp_listener (st_transport st) = Some ln)) /\
  LoadHMACKey env fs = Ok (st_secret st) /\ st_ttl st = LoadSessionTTL env /\ st_maxConns st = LoadMaxConnections env.
Proof.
  intros (t & ln & Es & El & Et & _ & Hrest)%serverMain_inv. split; [|done]. exists ln. split; [done|].
  apply SetupTLSFromEnv_spec in Es as (_ & Hiff & Hcfg). rewrite Et. cbn [tcp_listener]. split.
  - intros Hg. apply Hiff in Hg as [cfg Ecfg]. destruct (Hcfg cfg Ecfg) as (cert & Hc). exists cfg, cert. by rewrite Ecfg.
  - intros Hg. destruct (tlsConfig t) as [cfg|]; [|done]. destruct Hg. apply Hiff. by eexists.
Qed.

(** The server can claim TLS without having it: with a certificate file
    configured and no key file, a started server reports the mode TLS and
    listens on the plain socket. *)
Theorem tls_claimed_not_used `{X509} {N Ln Cn F} `{Network N Ln Cn} (OpenFile : string -> M N F) (env : Env) (fs : FileSystem) (args : list string)
    (now1 now2 : Time) (n n' : N) (st : Startup (F := F)) :
  Getenv env "EIPC_TLS_CERT" <> "" -> Getenv env "EIPC_TLS_KEY" = "" -> Getenv env "EIPC_TLS_AUTO_CERT" <> "true" ->
  serverMain OpenFile env fs args now1 now2 n = (Ok st, n') ->
  st_tlsMode st = "TLS" /\
  exists ln, net_Listen "tcp" (st_addr st) n = (Ok ln, n') /\ tcp_listener (st_transport st) = Some ln.
Proof.
  intros Hc Hk Ha (t & ln & Es & El & Et & Em & _)%serverMain_inv. split.
  - rewrite Em. unfold TLSEnabled. destruct (String.eqb_spec (Getenv env "EIPC_TLS_CERT") ""); [done|]. done.
  - exists ln. split; [done|]. rewrite Et. cbn [tcp_listener].
    apply SetupTLSFromEnv_spec in Es as (_ & Hiff & _). destruct (tlsConfig t) as [cfg|]; [|done].
    destruct (proj1 Hiff) as [[_ ?]|?]; [by eexists|done|done].
Qed.

(** A network with sockets that always open and nobody to talk to; a listener
    is its address and whether it speaks TLS. *)
Module Loopback.

#[local] Instance certs : X509 :=
  {| Certificate := string; CertPool := list byte; PrivateKey := unit;
     LoadX509KeyPair cert key := Ok cert; AppendCertsFromPEM pem := Some pem;
     GenerateKey := Ok tt; RandSerial := Ok 7;
     CreateCertificate template _ _ := Ok (bytes_of_string (CommonName template)); EncodeToMemory _ der := der;
     MarshalECPrivateKey _ := Ok [];
     X509KeyPair cert key := Ok (string_of_bytes cert) |}.

#[local] Instance net : Network unit (string * bool) unit :=
  {| net_Listen _ addr u := (Ok (addr, false), u); net_Dial _ _ u := (Ok tt, u); tls_Dial _ _ _ u := (Ok tt, u);
     tls_NewListener ln _ := (ln.1, true); ln_Accept _ u := (Ok tt, u); ln_Close _ u := (Ok tt, u);
     ln_Addr ln := ln.1; isTCPConn _ := true; keepAlive _ u := u |}.

(** ... without files to open. *)
Definition noFiles : string -> M unit unit := fun _ => fail ErrSyntax.

Definition start (env : Env) : Startup (F := unit) :=
  match serverMain noFiles env (fun _ => Err ErrSyntax) [] zeroTime zeroTime tt with
  | (Ok st, _) => st
  | (Err _, _) => MkStartup "" [] 0 0 Stdout tcp_New ""
  end.

Definition tlsEnv : Env := <["EIPC_HMAC_KEY" := "k"]> (<["EIPC_TLS_AUTO_CERT" := "true"]> ∅).
Definition certOnlyEnv : Env := <["EIPC_HMAC_KEY" := "k"]> (<["EIPC_TLS_CERT" := "server.pem"]> ∅).

End Loopback.

#[local] Existing Instance Loopback.certs.
#[local] Existing Instance Loopback.net.

Lemma tls_listener_spec_witness :
  serverMain Loopback.noFiles Loopback.tlsEnv (fun _ => Err ErrSyntax) [] zeroTime zeroTime tt = (Ok (Loopback.start Loopback.tlsEnv), tt) /\
  exists ln, tcp_listener (st_transport (Loopback.start Loopback.tlsEnv)) = Some ln /\ snd ln = true.
Proof.
  assert (serverMain Loopback.noFiles Loopback.tlsEnv (fun _ => Err ErrSyntax) [] zeroTime zeroTime tt =
    (Ok (Loopback.start Loopback.tlsEnv), tt)) as E by reflexivity.
  split; [exact E|]. destruct (tls_listener_spec _ _ _ _ _ _ _ _ _ E) as [(ln & _ & H & _) _].
  destruct H as (cfg & cert & Hl & _); [right; reflexivity|]. eexists. split; [exact Hl|reflexivity].
Defined.

Lemma tls_claimed_not_used_witness :
  st_tlsMode (Loopback.start Loopback.certOnlyEnv) = "TLS" /\
  tcp_listener (st_transport (Loopback.start Loopback.certOnlyEnv)) = Some ("127.0.0.1:9090", false).
Proof.
  destruct (tls_claimed_not_used Loopback.noFiles Loopback.certOnlyEnv (fun _ => Err ErrSyntax) [] zeroTime zeroTime tt tt
    (Loopback.start Loopback.certOnlyEnv)) as (H1 & ln & H2 & H3); [discriminate|reflexivity|discriminate|reflexivity|].
  split; [exact H1|]. rewrite H3. injection H2 as <-. reflexivity.
Defined.
