(* ===== verification/Encryption.v ===== *)
(** * Payload encryption: src/security/encryption/aes.go

    [Encrypt] and [Decrypt], with AES-256 (FIPS 197) and the Galois/counter
    mode of crypto/cipher (NIST SP 800-38D) written out, both executable.  The
    theorem says that decryption accepts exactly what encryption produces. *)

From S2P Require Import Prelude Json Fmt Events.
Local Open Scope string_scope.
Local Open Scope list_scope.
Local Open Scope Z_scope.

(** ** AES-256 *)

(** Multiplication by x, and in general, in GF(2^8) modulo x^8 + x^4 + x^3 + x + 1. *)
Definition xtime (a : Z) : Z :=
  let d := Z.shiftl a 1 in if Z.testbit a 7 then Z.lxor (Z.land d 0xFF) 0x1B else d.

Fixpoint gfMul (fuel : nat) (a b : Z) : Z :=
  match fuel with
  | O => 0
  | S n => Z.lxor (if Z.odd b then a else 0) (gfMul n (xtime a) (Z.shiftr b 1))
  end.

(** The inverse is the 254th power; 0 goes to 0. *)
Fixpoint gfPow (n : nat) (a : Z) : Z :=
  match n with O => 1 | S m => gfMul 8 a (gfPow m a) end.

Definition rotl8 (x k : Z) : Z := Z.land (Z.lor (Z.shiftl x k) (Z.shiftr x (8 - k))) 0xFF.

Definition sboxOf (a : Z) : Z :=
  let b := gfPow 254 a in
  Z.lxor 0x63 (Z.lxor b (Z.lxor (rotl8 b 1) (Z.lxor (rotl8 b 2) (Z.lxor (rotl8 b 3) (rotl8 b 4))))).

Definition sboxTable : list Z := Eval vm_compute in map sboxOf (seqZ 0 256).

Definition sbox (a : Z) : Z := nth (Z.to_nat a) sboxTable 0.

Definition xorZ (a b : list Z) : list Z := zip_with Z.lxor a b.

(** Words of four bytes; the key schedule has 60 of them, most recent first. *)
Definition rotWord (w : list Z) : list Z := drop 1 w ++ take 1 w.

Fixpoint expandLoop (n : nat) (i : Z) (rcon : Z) (ws : list (list Z)) : list (list Z) :=
  match n with
  | O => ws
  | S m =>
      let t := hd [] ws in
      let '(t, rcon) :=
        if i mod 8 =? 0 then (xorZ (map sbox (rotWord t)) [rcon; 0; 0; 0], xtime rcon)
        else if i mod 8 =? 4 then (map sbox t, rcon)
        else (t, rcon) in
      expandLoop m (i + 1) rcon (xorZ (nth 7 ws []) t :: ws)
  end.

Fixpoint chunks {A} (fuel n : nat) (l : list A) : list (list A) :=
  match fuel with
  | O => []
  | S f => match l with [] => [] | _ => take n l :: chunks f n (drop n l) end
  end.

(** The round keys, 15 of 16 bytes. *)
Definition expandKey (key : list byte) : list (list Z) :=
  let ws := reverse (chunks 8 4 (map b2z key)) in
  chunks 15 16 (concat (reverse (expandLoop 52 8 1 ws))).

(** Column-major state: byte [r + 4 c]. *)
Definition shiftRows (s : list Z) : list Z :=
  map (fun i => nth i s 0) [0; 5; 10; 15; 4; 9; 14; 3; 8; 13; 2; 7; 12; 1; 6; 11]%nat.

Definition mixColumn (c : list Z) : list Z :=
  match c with
  | [a; b; d; e] =>
      [Z.lxor (xtime a) (Z.lxor (Z.lxor (xtime b) b) (Z.lxor d e));
       Z.lxor a (Z.lxor (xtime b) (Z.lxor (Z.lxor (xtime d) d) e));
       Z.lxor a (Z.lxor b (Z.lxor (xtime d) (Z.lxor (xtime e) e)));
       Z.lxor (Z.lxor (xtime a) a) (Z.lxor b (Z.lxor d (xtime e)))]
  | _ => c
  end.

Definition mixColumns (s : list Z) : list Z := concat (map mixColumn (chunks 4 4 s)).

Fixpoint aesRounds (keys : list (list Z)) (s : list Z) : list Z :=
  match keys with
  | [] => s
  | [k] => xorZ (shiftRows (map sbox s)) k
  | k :: keys' => aesRounds keys' (xorZ (mixColumns (shiftRows (map sbox s))) k)
  end.

(** [aes.NewCipher(key)] and its [Encrypt]. *)
Definition aesBlock (key : list byte) (block : list byte) : list byte :=
  match expandKey key with
  | [] => block
  | k0 :: keys => map z2b (aesRounds keys (xorZ (map b2z block) k0))
  end.

(** ** GCM *)

(** Multiplication in GF(2^128), bits from the most significant one. *)
Fixpoint ghashMul (n : nat) (x v : Z) : Z :=
  match n with
  | O => 0
  | S m =>
      Z.lxor (if Z.testbit x (Z.of_nat m) then v else 0)
        (ghashMul m x (if Z.odd v then Z.lxor (Z.shiftr v 1) (Z.shiftl 0xE1 120) else Z.shiftr v 1))
  end.

Definition padBlock (b : list byte) : list byte := b ++ replicate (16 - length b) (z2b 0).

(** GHASH of the ciphertext (there is no additional data) and the lengths. *)
Definition ghash (h : Z) (c : list byte) : Z :=
  let step y b := ghashMul 128 (Z.lxor y (be_get (padBlock b))) h in
  let y := foldl step 0 (chunks (length c) 16 c) in
  ghashMul 128 (Z.lxor y (8 * zlen c)) h.

(** The counter block: the nonce and a 32-bit counter. *)
Definition counterBlock (nonce : list byte) (i : Z) : list byte := nonce ++ be_put 4 (u32 i).

Fixpoint keystream (key nonce : list byte) (i : Z) (blocks : nat) : list byte :=
  match blocks with
  | O => []
  | S n => aesBlock key (counterBlock nonce i) ++ keystream key nonce (i + 1) n
  end.

Definition xorBytes (a b : list byte) : list byte := zip_with (fun x y => z2b (Z.lxor (b2z x) (b2z y))) a b.

(** Counter mode from counter 2 on; 16 bytes of key stream per block. *)
Definition gcmCTR (key nonce data : list byte) : list byte :=
  xorBytes data (keystream key nonce 2 ((length data + 15) / 16)).

Definition gcmTag (key nonce ciphertext : list byte) : list byte :=
  let h := be_get (aesBlock key (replicate 16 (z2b 0))) in
  xorBytes (be_put 16 (ghash h ciphertext)) (aesBlock key (counterBlock nonce 1)).

Definition gcmTagSize : nat := 16.
Definition gcmMaxPlaintext : Z := (2 ^ 32 - 2) * 16.

Definition errOpen : error := ErrorNew "cipher: message authentication failed".

(** [gcm.Seal(dst, nonce, plaintext, nil)]; a message that is too large panics. *)
Definition Seal (key dst nonce plaintext : list byte) : option (list byte) :=
  if gcmMaxPlaintext <? zlen plaintext then None
  else
    let c := gcmCTR key nonce plaintext in
    Some (dst ++ c ++ gcmTag key nonce c).

(** [gcm.Open(nil, nonce, data, nil)] *)
Definition Open (key nonce data : list byte) : result (list byte) :=
  if (length data <? gcmTagSize)%nat then Err errOpen
  else if gcmMaxPlaintext + 16 <? zlen data then Err errOpen
  else
    let c := take (length data - gcmTagSize) data in
    let tag := drop (length data - gcmTagSize) data in
    if bool_decide (gcmTag key nonce c = tag) then Ok (gcmCTR key nonce c) else Err errOpen.

(** ** aes.go *)

Definition KeySize : nat := 32.
Definition NonceSize : nat := 12.

Definition ErrInvalidKeySize : error := ErrorNew "eipc: encryption key must be 32 bytes (AES-256)".
Definition ErrCiphertextTooShort : error := ErrorNew "eipc: ciphertext too short".
Definition panicTooLarge : error := ErrorNew "panic: crypto/cipher: message too large for GCM".

(** [rnd] is the outcome of [io.ReadFull(rand.Reader, nonce)]. *)
Definition Encrypt (rnd : result (list byte)) (key plaintext : list byte) : result (list byte) :=
  if negb (length key =? KeySize)%nat then Err ErrInvalidKeySize
  else match rnd with
  | Err err => Err (Wrapf "generate nonce: %w" err [])
  | Ok nonce =>
      match Seal key nonce nonce plaintext with
      | Some ciphertext => Ok ciphertext
      | None => Err panicTooLarge
      end
  end.

Definition Decrypt (key ciphertext : list byte) : result (list byte) :=
  if negb (length key =? KeySize)%nat then Err ErrInvalidKeySize
  else if (length ciphertext <? NonceSize)%nat then Err ErrCiphertextTooShort
  else
    let nonce := take NonceSize ciphertext in
    let data := drop NonceSize ciphertext in
    match Open key nonce data with
    | Err err => Err (Wrapf "decrypt: %w" err [])
    | Ok plaintext => Ok plaintext
    end.

(** ** Published test vectors *)

(** FIPS 197, appendix C.3. *)
Lemma aes256_vector :
  aesBlock (map z2b (seqZ 0 32)) (map (fun i => z2b (17 * i)) (seqZ 0 16)) =
  be_put 16 0x8ea2b7ca516745bfeafc49904b496089.
Proof. vm_compute. reflexivity. Qed.

(** The GCM specification, test cases 13 and 14. *)
Lemma gcm_vectors :
  gcmTag (replicate 32 (z2b 0)) (replicate 12 (z2b 0)) [] = be_put 16 0x530f8afbc74536b9a963b4f1c4cb738b /\
  gcmCTR (replicate 32 (z2b 0)) (replicate 12 (z2b 0)) (replicate 16 (z2b 0)) =
    be_put 16 0xcea7403d4d606b6e074ec5d3baf39d18 /\
  gcmTag (replicate 32 (z2b 0)) (replicate 12 (z2b 0)) (be_put 16 0xcea7403d4d606b6e074ec5d3baf39d18) =
    be_put 16 0xd0d1c8a799996bf0265b98b5d48ab919.
Proof. vm_compute. split_and!; reflexivity. Qed.

(** ** Lemmas *)

Lemma lxor_byte a b : 0 <= a < 256 -> 0 <= b < 256 -> 0 <= Z.lxor a b < 256.
Proof.
  intros Ha Hb. assert (Z.lxor a b = Z.lxor a b mod 2 ^ 8) as ->; [|by apply Z.mod_pos_bound].
  apply Z.bits_inj'. intros n Hn. destruct (decide (n < 8)) as [Hlt|Hge]; [by rewrite Z.mod_pow2_bits_low|].
  rewrite Z.mod_pow2_bits_high, Z.lxor_spec by lia.
  rewrite <-(Z.mod_small a (2 ^ 8)), <-(Z.mod_small b (2 ^ 8)) by lia. by rewrite !Z.mod_pow2_bits_high by lia.
Qed.

Lemma xorBytes_involutive a : forall k, (length a <= length k)%nat -> xorBytes (xorBytes a k) k = a.
Proof.
  induction a as [|x a IH]; intros [|y k] Hl; try done; [simpl in Hl; lia|].
  cbn [xorBytes zip_with]. f_equal; [|apply IH; simpl in Hl; lia].
  pose proof (b2z_range x). pose proof (b2z_range y).
  rewrite b2z_z2b_small by (apply lxor_byte; lia). by rewrite Z.lxor_assoc, Z.lxor_nilpotent, Z.lxor_0_r, z2b_b2z.
Qed.

Lemma length_xorBytes a k : (length a <= length k)%nat -> length (xorBytes a k) = length a.
Proof. intros Hl. unfold xorBytes. rewrite length_zip_with. lia. Qed.

(** The words of the key schedule have four bytes, and there are enough. *)
Lemma expandLoop_words n : forall i rcon ws,
  (8 <= length ws)%nat -> Forall (fun w => length w = 4%nat) ws ->
  length (expandLoop n i rcon ws) = (n + length ws)%nat /\ Forall (fun w => length w = 4%nat) (expandLoop n i rcon ws).
Proof.
  induction n as [|n IH]; intros i rcon ws Hl Hw; [done|]. cbn [expandLoop].
  assert (length (nth 7 ws []) = 4%nat) as H7.
  { rewrite Forall_forall in Hw. apply Hw. apply list_elem_of_In, nth_In. lia. }
  assert (length (hd [] ws) = 4%nat) as H0.
  { destruct ws as [|w ws]; [simpl in Hl; lia|]. by apply Forall_cons in Hw as [? _]. }
  set (tr := if i mod 8 =? 0 then _ else _).
  assert (length tr.1 = 4%nat) as Ht.
  { subst tr. destruct (i mod 8 =? 0); [|destruct (i mod 8 =? 4)]; cbn [fst]; [|by rewrite length_map|done].
    unfold xorZ, rotWord. rewrite length_zip_with, length_map, length_app, length_drop, length_take, H0. done. }
  destruct tr as [t rc]. cbn [fst] in Ht.
  destruct (IH (i + 1) rc (xorZ (nth 7 ws []) t :: ws)) as [H1 H2].
  - simpl. lia.
  - apply Forall_cons. split; [|done]. unfold xorZ. by rewrite length_zip_with, H7, Ht.
  - split; [rewrite H1; simpl; lia|done].
Qed.

Lemma chunks_spec {A} f n (l : list A) : length l = (f * n)%nat -> (0 < n)%nat ->
  length (chunks f n l) = f /\ Forall (fun c => length c = n) (chunks f n l).
Proof.
  revert l. induction f as [|f IH]; intros l Hl Hn; [by split; [|apply Forall_nil_2]|]. cbn [chunks].
  destruct l as [|x l]; [simpl in Hl; lia|]. destruct (IH (drop n (x :: l))) as [H1 H2]; [rewrite length_drop, Hl; lia|done|].
  split; [cbn [length]; by rewrite H1|]. apply Forall_cons. split; [rewrite length_take, Hl; lia|done].
Qed.

Lemma length_concat_same {A} n (l : list (list A)) :
  Forall (fun c => length c = n) l -> length (concat l) = (length l * n)%nat.
Proof. induction 1 as [|c l Hc Hl IH]; [done|]. cbn [concat length]. rewrite length_app, Hc, IH. lia. Qed.

Lemma expandKey_spec key : length key = 32%nat ->
  length (expandKey key) = 15%nat /\ Forall (fun k => length k = 16%nat) (expandKey key).
Proof.
  intros Hk. unfold expandKey.
  destruct (chunks_spec 8 4 (map b2z key)) as [H1 H2]; [by rewrite length_map, Hk|lia|].
  destruct (expandLoop_words 52 8 1 (reverse (chunks 8 4 (map b2z key)))) as [H3 H4];
    [by rewrite length_reverse, H1|by apply Forall_reverse|].
  apply chunks_spec; [|lia]. rewrite (length_concat_same 4) by (by apply Forall_reverse).
  by rewrite length_reverse, H3, length_reverse, H1.
Qed.

Lemma length_mixColumns s : length s = 16%nat -> length (mixColumns s) = 16%nat.
Proof.
  intros Hs. unfold mixColumns. destruct (chunks_spec 4 4 s) as [H1 H2]; [done|lia|].
  rewrite (length_concat_same 4); [by rewrite length_map, H1|].
  apply Forall_map. eapply Forall_impl; [exact H2|]. intros [|a [|b [|c [|d [|]]]]]; done.
Qed.

Lemma length_aesRounds keys : forall s,
  Forall (fun k => length k = 16%nat) keys -> length s = 16%nat -> length (aesRounds keys s) = 16%nat.
Proof.
  induction keys as [|k keys IH]; intros s Hk Hs; [done|]. apply Forall_cons in Hk as [Hk Hks].
  cbn [aesRounds]. destruct keys as [|k' keys].
  - unfold xorZ. by rewrite length_zip_with, Hk.
  - apply IH; [done|]. unfold xorZ. by rewrite length_zip_with, Hk, length_mixColumns.
Qed.

Lemma length_aesBlock key block : length key = 32%nat -> length block = 16%nat -> length (aesBlock key block) = 16%nat.
Proof.
  intros Hk Hb. unfold aesBlock. destruct (expandKey_spec key Hk) as [Hl Hf].
  destruct (expandKey key) as [|k0 keys]; [done|]. apply Forall_cons in Hf as [H0 Hf].
  rewrite length_map. apply length_aesRounds; [done|]. unfold xorZ. by rewrite length_zip_with, length_map, Hb, H0.
Qed.

Section Gcm.
Context (key nonce : list byte) (Hkey : length key = 32%nat) (Hnonce : length nonce = 12%nat).

Lemma length_keystream n : forall i, length (keystream key nonce i n) = (16 * n)%nat.
Proof.
  induction n as [|n IH]; intros i; [done|]. cbn [keystream]. rewrite length_app, IH, length_aesBlock; [lia|done|].
  unfold counterBlock. by rewrite length_app, length_be_put, Hnonce.
Qed.

Lemma keystream_enough (d : list byte) : (length d <= length (keystream key nonce 2 ((length d + 15) / 16)))%nat.
Proof.
  rewrite length_keystream. pose proof (Nat.div_mod_eq (length d + 15) 16).
  pose proof (Nat.mod_upper_bound (length d + 15) 16 ltac:(done)). lia.
Qed.

Lemma length_gcmCTR d : length (gcmCTR key nonce d) = length d.
Proof. apply length_xorBytes, keystream_enough. Qed.

Lemma gcmCTR_involutive d : gcmCTR key nonce (gcmCTR key nonce d) = d.
Proof. unfold gcmCTR at 1. rewrite length_gcmCTR. apply xorBytes_involutive, keystream_enough. Qed.

Lemma length_gcmTag c : length (gcmTag key nonce c) = gcmTagSize.
Proof.
  unfold gcmTag. rewrite length_xorBytes; [apply length_be_put|]. rewrite length_be_put.
  rewrite length_aesBlock; [done|done|]. unfold counterBlock. by rewrite length_app, length_be_put, Hnonce.
Qed.

(** A sealed message is a ciphertext with its tag, of bounded size. *)
Definition sealed (plaintext data : list byte) : Prop :=
  zlen plaintext <= gcmMaxPlaintext /\ data = gcmCTR key nonce plaintext ++ gcmTag key nonce (gcmCTR key nonce plaintext).

Lemma Seal_sealed dst data plaintext :
  Seal key dst nonce plaintext = Some (dst ++ data) <-> sealed plaintext data.
Proof.
  unfold Seal, sealed. destruct (Z.ltb_spec gcmMaxPlaintext (zlen plaintext)) as [Hl|Hl].
  - split; [done|]. intros [? _]. lia.
  - split; [|by intros [_ ->]]. intros [= E%app_inv_head]. by split.
Qed.

Lemma sealed_size plaintext data : sealed plaintext data -> length data = (length plaintext + 16)%nat.
Proof. intros [_ ->]. by rewrite length_app, length_gcmCTR, length_gcmTag. Qed.

(** [Open] accepts exactly what [Seal] produced, and gives the plaintext back. *)
Lemma Open_sealed data plaintext : Open key nonce data = Ok plaintext -> sealed plaintext data.
Proof.
  unfold Open. destruct (Nat.ltb_spec (length data) gcmTagSize) as [|Hl]; [done|].
  destruct (Z.ltb_spec (gcmMaxPlaintext + 16) (zlen data)) as [|Hm]; [done|].
  destruct (bool_decide_reflect (gcmTag key nonce (take (length data - gcmTagSize) data) = drop (length data - gcmTagSize) data))
    as [Ht|]; [|done]. intros E. injection E as E.
  assert (take (length data - gcmTagSize) data = gcmCTR key nonce plaintext) as Hc
    by (rewrite <-E; symmetry; apply gcmCTR_involutive).
  split.
  - assert (length plaintext = length data - 16)%nat as Hp.
    { rewrite <-(length_gcmCTR plaintext), <-Hc, length_take. apply Nat.min_l, Nat.le_sub_l. }
    clear -Hm Hl Hp. change gcmTagSize with 16%nat in Hl. unfold zlen in *. lia.
  - rewrite <-Hc, Ht. symmetry. apply take_drop.
Qed.

Lemma sealed_Open data plaintext : sealed plaintext data -> Open key nonce data = Ok plaintext.
Proof.
  intros Hs. pose proof (sealed_size _ _ Hs) as Hlen. destruct Hs as [Hz Hd].
  unfold Open. change gcmTagSize with 16%nat.
  destruct (Nat.ltb_spec (length data) 16) as [Hl|_]; [lia|].
  destruct (Z.ltb_spec (gcmMaxPlaintext + 16) (zlen data)) as [Hl|_]; [unfold zlen in *; lia|].
  assert (length data - 16 = length (gcmCTR key nonce plaintext))%nat as -> by (rewrite length_gcmCTR; lia).
  assert (take (length (gcmCTR key nonce plaintext)) data = gcmCTR key nonce plaintext) as ->
    by (rewrite Hd; apply take_app_length).
  assert (drop (length (gcmCTR key nonce plaintext)) data = gcmTag key nonce (gcmCTR key nonce plaintext)) as ->
    by (rewrite Hd; apply drop_app_length).
  rewrite bool_decide_eq_true_2 by reflexivity. by rewrite gcmCTR_involutive.
Qed.

End Gcm.

(** ** Properties *)

(** C12: Decryption inverts encryption and nothing else: under a key of 32 bytes,
    [Decrypt] returns a plaintext exactly for the byte sequences that [Encrypt]
    produces from that plaintext under that key with some nonce; in
    particular every ciphertext with a changed nonce, body or tag that is not
    itself an output of [Encrypt] is refused. *)
Theorem decrypt_iff_encrypted (key ciphertext plaintext : list byte) :
  length key = 32%nat ->
  Decrypt key ciphertext = Ok plaintext <->
  exists nonce, length nonce = 12%nat /\ Encrypt (Ok nonce) key plaintext = Ok ciphertext.
Proof.
  intros Hk. unfold Decrypt, Encrypt. rewrite Hk. cbn [Nat.eqb KeySize negb]. change NonceSize with 12%nat. split.
  - destruct (Nat.ltb_spec (length ciphertext) 12) as [|Hl]; [done|].
    assert (length (take 12 ciphertext) = 12%nat) as Hn by (rewrite length_take; lia).
    destruct (Open key (take 12 ciphertext) (drop 12 ciphertext)) as [p|] eqn:Eo; [|done]. intros E. injection E as ->.
    exists (take 12 ciphertext). split; [done|]. apply Open_sealed in Eo; [|done|done].
    apply (Seal_sealed key _ Hk Hn (take 12 ciphertext)) in Eo. rewrite take_drop in Eo. by rewrite Eo.
  - intros (nonce & Hn & E). destruct (Seal key nonce nonce plaintext) as [c|] eqn:Es; [|done]. injection E as ->.
    assert (exists d, ciphertext = nonce ++ d) as (d & ->).
    { unfold Seal in Es. destruct (_ <? _); [done|]. injection Es as <-. by eexists. }
    apply (Seal_sealed key nonce Hk Hn), (sealed_Open key nonce Hk Hn) in Es.
    rewrite length_app, Hn. destruct (Nat.ltb_spec (12 + length d) 12) as [|_]; [lia|].
    rewrite <-Hn, take_app_length, drop_app_length. by rewrite Es.
Qed.

Definition sampleKey32 : list byte := map z2b (seqZ 0 32).

Lemma decrypt_iff_encrypted_witness :
  exists c, Encrypt (Ok (replicate 12 (z2b 7))) sampleKey32 (text "hi") = Ok c /\ Decrypt sampleKey32 c = Ok (text "hi").
Proof.
  eexists. split; [vm_compute; reflexivity|].
  apply (decrypt_iff_encrypted sampleKey32 _ (text "hi") eq_refl). exists (replicate 12 (z2b 7)).
  split; [reflexivity|vm_compute; reflexivity].
Defined.
