(* ===== verification/Cli.v ===== *)
(** * The command-line tool and the hello example: src/cmd/eipc-cli/main.go,
      src/examples/hello-eipc/client/main.go, src/examples/hello-eipc/server/main.go

    The whole tool: its command line, the messages it sends, what it prints and
    how the process ends; and both programs of the example.  The theorems run
    the tool against a peer with the key and against eipc-server, and the two
    programs of the example against each other. *)

From S2P Require Import Prelude Time Utf8 Json Frame Transport Replay Message Codec Endpoint Indent Flags Fmt AuditLog Events Server Client Config Net.
Local Open Scope string_scope.
Local Open Scope list_scope.
Local Open Scope Z_scope.

(** [t.UnixNano()]: nanoseconds since 1970 as an int64. *)
Definition UnixNano (t : Time) : Z := i64 (wall t - 62135596800 * Second).

Definition dq : list byte := [z2b 34].

(** A JSON object of string members, as written in the source. *)
Fixpoint rawMembers (l : list (string * string)) : list byte :=
  match l with
  | [] => []
  | (k, v) :: l' =>
      dq ++ text k ++ dq ++ text ":" ++ dq ++ text v ++ dq ++ (match l' with [] => [] | _ => text "," end) ++ rawMembers l'
  end.

Definition rawObject (l : list (string * string)) : list byte := text "{" ++ rawMembers l ++ text "}".

Section Cli.
Context {C : Type} `{Channel C}.

(** ** eipc-cli *)

(** How a command ends: [log.Fatalf], no answer, or an answer to print. *)
Inductive outcome := OutFatal (err : error) | OutNoResponse (err : error) | OutResponse (m : Message).

(** [cmdSend] after its flags are parsed, up to the [Receive]. *)
Definition cmdSendMessage (now1 now2 : Time) (msgType source capability payload : string) : Message :=
  MkMessage ProtocolVersion msgType source (UTC now1) ""
    (string_of_bytes (text "cli-" ++ appendInt (UnixNano now2) 0)) PriorityP1 capability (bytes_of_string payload).

Definition cmdPingMessage (now : Time) : Message :=
  MkMessage ProtocolVersion TypeHeartbeat "eipc-cli" (UTC now) "" "ping" PriorityP0 ""
    (rawObject [("service", "eipc-cli"); ("status", "ping")]).

(** Both commands send one message on a new endpoint; a failure is fatal. *)
Definition cliSend (hmacKey : list byte) (format : string) (msg : Message) (c2s : C) : result ClientEndpoint * C :=
  match ClientEndpoint_Send msg (NewClientEndpoint hmacKey "", c2s) with
  | (Err err, (_, c2s)) => (Err (Wrapf format err []), c2s)
  | (Ok _, (ep, c2s)) => (Ok ep, c2s)
  end.

(** ... and take any error of the [Receive] for the lack of an answer. *)
Definition cliReceive (ep : ClientEndpoint) (s2c : C) : outcome * C :=
  match ClientEndpoint_Receive (ep, s2c) with
  | (Err err, (_, s2c)) => (OutNoResponse err, s2c)
  | (Ok resp, (_, s2c)) => (OutResponse resp, s2c)
  end.

(** How the loop of [cmdListen] stops: after [count] messages, at an error of
    [Receive], or not within the fuel. *)
Inductive listened := Counted | ReceiveFailed (err : error) | Unfinished.

(** The loop: up to [count] messages, or until an error if it is not positive;
    [received] counts them. *)
Fixpoint listenLoop (fuel : nat) (count received : Z) (ep : ClientEndpoint) (s2c : C) : list Message * listened :=
  match fuel with
  | O => ([], Unfinished)
  | S fuel' =>
      match ClientEndpoint_Receive (ep, s2c) with
      | (Err err, _) => ([], ReceiveFailed (Wrapf "receive: %w" err []))
      | (Ok msg, (ep, s2c)) =>
          let received := received + 1 in
          if (0 <? count) && (count <=? received) then ([msg], Counted)
          else let '(ms, e) := listenLoop fuel' count received ep s2c in (msg :: ms, e)
      end
  end.

(** ** hello-eipc *)

Definition helloSecret : list byte := text "hello-eipc-demo-secret-key-32b!".

Definition helloMessage (now : Time) : Message :=
  MkMessage ProtocolVersion TypeChat "hello-client" (UTC now) "" "hello-1" PriorityP1 ""
    (rawObject [("text", "Hello, EIPC!")]).

(** The client: one message, one answer; every error is fatal. *)
Definition helloClientSend (now : Time) (c2s : C) : result ClientEndpoint * C :=
  match ClientEndpoint_Send (helloMessage now) (NewClientEndpoint helloSecret "", c2s) with
  | (Err err, (_, c2s)) => (Err err, c2s)
  | (Ok _, (ep, c2s)) => (Ok ep, c2s)
  end.

Definition helloClientReceive (ep : ClientEndpoint) (s2c : C) : outcome * C :=
  match ClientEndpoint_Receive (ep, s2c) with
  | (Err err, (_, s2c)) => (OutFatal err, s2c)
  | (Ok resp, (_, s2c)) => (OutResponse resp, s2c)
  end.

Definition helloAck (now : Time) (msg : Message) : Message :=
  MkMessage ProtocolVersion TypeAck "hello-server" (UTC now) "" (RequestID msg) PriorityP0 ""
    (rawObject [("status", "ok"); ("message", "Hello from EIPC!")]).

(** The goroutine of the server for one connection: the message it prints, if
    it got one, and the two directions afterwards. *)
Definition helloServe (now : Time) (c2s s2c : C) : option Message * (C * C) :=
  match ServerEndpoint_Receive (NewServerEndpoint helloSecret, c2s) with
  | (Err _, (_, c2s)) => (None, (c2s, s2c))
  | (Ok msg, (ep, c2s)) =>
      let '(_, (_, s2c)) := ServerEndpoint_Send (helloAck now msg) (ep, s2c) in
      (Some msg, (c2s, s2c))
  end.

End Cli.

(** ** What eipc-cli prints *)

(** [fmtFrac]: the fraction of [v / 10 ^ prec], without trailing zeros. *)
Definition fmtFrac (v : Z) (prec : nat) : list byte :=
  let frac := v mod 10 ^ Z.of_nat prec in
  if frac =? 0 then [] else z2b 46 :: reverse (trimZeros (reverse (decimals prec frac))).

(** [time.Duration.String] *)
Definition DurationString (d : Z) : list byte :=
  let u := Z.abs d in
  (if d <? 0 then text "-" else []) ++
  if u <? Second then
    if u =? 0 then text "0s"
    else if u <? 1000 then appendInt u 0 ++ text "ns"
    else if u <? 1000000 then appendInt (u / 1000) 0 ++ fmtFrac u 3 ++ [z2b 0xC2; z2b 0xB5] ++ text "s"
    else appendInt (u / 1000000) 0 ++ fmtFrac u 6 ++ text "ms"
  else
    let m := u / Second / 60 in
    (if 0 <? m / 60 then appendInt (m / 60) 0 ++ text "h" else []) ++
    (if 0 <? m then appendInt (m mod 60) 0 ++ text "m" else []) ++
    appendInt (u / Second mod 60) 0 ++ fmtFrac u 9 ++ text "s".

Definition nl : list byte := [z2b 10].

Fixpoint textLines (l : list string) : list byte :=
  match l with [] => [] | s :: l' => text s ++ nl ++ textLines l' end.

Definition printUsage : list byte := textLines
  ["eipc-cli — EIPC debugging tool";
   "";
   "Usage:";
   "  eipc-cli <command> [options]";
   "";
   "Commands:";
   "  send     Send a single message to an EIPC server";
   "  listen   Connect and print incoming messages";
   "  ping     Send a heartbeat and wait for response";
   "  help     Show this help message";
   "";
   "Environment:";
   "  EIPC_HMAC_KEY        Shared HMAC key (required)";
   "  EIPC_LISTEN_ADDR     Default server address (optional)"].

(** How the process ends: it returns from [main], it calls [os.Exit], or
    [log.Fatalf], with what is on the standard output; or it still waits for
    messages.  The error output has the text [err] of [os.Exit], the usage
    text of package flag left out, or the error of [log.Fatalf]. *)
Inductive ending :=
  | Returned (out : list byte)
  | OsExit (status : Z) (out err : list byte)
  | Fatal (out : list byte) (err : error)
  | Waiting (out : list byte).

(** ** The commands of eipc-cli *)

Definition addrFlag (env : Env) : string * flagValue := ("addr", FlagString (LoadListenAddr env)).

Definition sendFlags (env : Env) : FlagSet :=
  [addrFlag env; ("type", FlagString "chat"); ("payload", FlagString "{}"); ("source", FlagString "eipc-cli"); ("cap", FlagString "")].

Definition listenFlags (env : Env) : FlagSet := [addrFlag env; ("count", FlagInt 0)].

Definition pingFlags (env : Env) : FlagSet := [addrFlag env].

Section Commands.
Context {C : Type} `{Channel C} `{UnicodeTable} `{X509} {N Ln Cn : Type} `{!Network N Ln Cn}.

(** The two directions of a connection: what the tool writes goes to [fresh],
    and [arrived] is what there is to read, given all it wrote. *)
Variables (fresh : Cn -> C) (arrived : Cn -> C -> C) (conn_Close : Cn -> N -> N).

Definition Printf (format : string) (args : list arg) : list byte :=
  formatText (text format ++ nl) [] args.

Definition printMessage (label : string) (msg : Message) : list byte :=
  let head := [ArgStr label; ArgStr (MType msg); ArgStr (Source msg); ArgStr (RequestID msg);
               ArgInt (MPriority msg); ArgStr (Capability msg)] in
  let format := text "[%s] type=%s source=%s req=%s priority=P%d cap=%s" ++ nl ++ text "  payload: %s" ++ nl in
  match Indent (text "  ") (text "  ") (MPayload msg) with
  | None => formatText format [] (head ++ [ArgStr (string_of_bytes (MPayload msg))])
  | Some indented => formatText format [] (head ++ [ArgStr (string_of_bytes indented)])
  end.

(** The messages of [cmdListen], numbered from [received + 1]. *)
Fixpoint printMessages (received : Z) (ms : list Message) : list byte :=
  match ms with
  | [] => []
  | msg :: ms' => printMessage (Sprintf "msg#%d" [ArgInt (received + 1)]) msg ++ printMessages (received + 1) ms'
  end.

(** What the three commands share: the flags, the key and the connection;
    [body] is the rest, and whether it returns so that the connection is
    closed. *)
Definition withConn (env : Env) (fs : FileSystem) (flags : FlagSet) (args : list string)
    (body : FlagSet -> list byte -> Cn -> ending) (n : N) : ending * N :=
  match flagParse flags args with
  | Exited status => (OsExit status [] [], n)
  | Parsed flags _ =>
      match cliConnect env fs (stringFlag flags "addr") n with
      | (Err err, n) => (Fatal [] err, n)
      | (Ok (hmacKey, conn), n) =>
          match body flags hmacKey conn with
          | Returned out => (Returned out, conn_Close conn n)
          | e => (e, n)
          end
      end
  end.

Definition cmdSend (now1 now2 : Time) (env : Env) (fs : FileSystem) (args : list string) : N -> ending * N :=
  withConn env fs (sendFlags env) args (fun flags hmacKey conn =>
    let msgType := stringFlag flags "type" in
    let payload := stringFlag flags "payload" in
    let msg := cmdSendMessage now1 now2 msgType (stringFlag flags "source") (stringFlag flags "cap") payload in
    match cliSend hmacKey "send: %w" msg (fresh conn) with
    | (Err err, _) => Fatal [] err
    | (Ok ep, c2s) =>
        let sent := Printf "sent type=%s to=%s size=%d bytes" [ArgStr msgType; ArgStr (stringFlag flags "addr"); ArgInt (slen payload)] in
        match fst (cliReceive ep (arrived conn c2s)) with
        | OutResponse resp => Returned (sent ++ printMessage "response" resp)
        | _ => Returned (sent ++ Printf "no response (connection closed or timeout)" [])
        end
    end).

Definition cmdListen (fuel : nat) (env : Env) (fs : FileSystem) (args : list string) : N -> ending * N :=
  withConn env fs (listenFlags env) args (fun flags hmacKey conn =>
    let start := Printf "listening on %s ..." [ArgStr (stringFlag flags "addr")] in
    match listenLoop fuel (intFlag flags "count") 0 (NewClientEndpoint hmacKey "") (arrived conn (fresh conn)) with
    | (ms, Counted) => Returned (start ++ printMessages 0 ms)
    | (ms, ReceiveFailed err) => Fatal (start ++ printMessages 0 ms) err
    | (ms, Unfinished) => Waiting (start ++ printMessages 0 ms)
    end).

(** [elapsed] is the time from [start] to the answer. *)
Definition cmdPing (now : Time) (elapsed : Z) (env : Env) (fs : FileSystem) (args : list string) : N -> ending * N :=
  withConn env fs (pingFlags env) args (fun flags hmacKey conn =>
    let addr := stringFlag flags "addr" in
    match cliSend hmacKey "send ping: %w" (cmdPingMessage now) (fresh conn) with
    | (Err err, _) => Fatal [] err
    | (Ok ep, c2s) =>
        match fst (cliReceive ep (arrived conn c2s)) with
        | OutResponse _ => Returned (Printf "ping %s: rtt=%v" [ArgStr addr; ArgStr (string_of_bytes (DurationString elapsed))])
        | OutNoResponse err | OutFatal err =>
            Returned (Printf "ping %s: no response (%v)" [ArgStr addr; ArgStr (Error err)])
        end
    end).

(** [main]; [args] is [os.Args[1:]]. *)
Definition cliMain (fuel : nat) (now1 now2 : Time) (elapsed : Z) (env : Env) (fs : FileSystem) (args : list string) (n : N) : ending * N :=
  match args with
  | [] => (OsExit 1 printUsage [], n)
  | cmd :: args =>
      if String.eqb cmd "send" then cmdSend now1 now2 env fs args n
      else if String.eqb cmd "listen" then cmdListen fuel env fs args n
      else if String.eqb cmd "ping" then cmdPing now1 elapsed env fs args n
      else if String.eqb cmd "help" then (Returned printUsage, n)
      else (OsExit 1 printUsage (Printf "unknown command: %s" [ArgStr cmd]), n)
  end.

(** ** The programs of hello-eipc *)

Definition helloAddr : string := "127.0.0.1:9090".

Definition helloClientMain (now : Time) (n : N) : ending * N :=
  match tcp_Dial tcp_New helloAddr n with
  | (Err err, n) => (Fatal [] err, n)
  | (Ok conn, n) =>
      match helloClientSend now (fresh conn) with
      | (Err err, _) => (Fatal [] err, n)
      | (Ok ep, c2s) =>
          let sent := Printf "sent message to server" [] in
          match fst (helloClientReceive ep (arrived conn c2s)) with
          | OutResponse resp =>
              (Returned (sent ++ Printf "response: %s" [ArgStr (string_of_bytes (MPayload resp))]), conn_Close conn n)
          | OutFatal err | OutNoResponse err => (Fatal sent err, n)
          end
      end
  end.

(** What the server prints of a message. *)
Definition helloPrint (msg : Message) : list byte :=
  Printf "received: type=%s source=%s payload=%s"
    [ArgStr (MType msg); ArgStr (Source msg); ArgStr (string_of_bytes (MPayload msg))].

(** The accept loop: the connections for which a [helloServe] is started, and
    the error of [Accept] that ends the process, if it comes within the fuel. *)
Fixpoint helloAccept (fuel : nat) (t : TCPTransport) (n : N) : list Cn * option error * N :=
  match fuel with
  | O => ([], None, n)
  | S fuel' =>
      match tcp_Accept t n with
      | (Err err, n) => ([], Some err, n)
      | (Ok conn, n) => let '(conns, e, n) := helloAccept fuel' t n in (conn :: conns, e, n)
      end
  end.

Definition helloServerMain (fuel : nat) (n : N) : list Cn * option error * N :=
  match tcp_Listen helloAddr (tcp_New, n) with
  | (Err err, (_, n)) => ([], Some err, n)
  | (Ok _, (t, n)) => helloAccept fuel t n
  end.

End Commands.

(** ** Properties *)

Lemma client_receive_shrinks (ep : ClientEndpoint) (c : pipe) m ep' c' :
  ClientEndpoint_Receive (ep, c) = (Ok m, (ep', c')) -> (length (in_flight c') < length (in_flight c))%nat.
Proof.
  unfold ClientEndpoint_Receive. cbn [chan_recv ConnWrapper_Channel]. rewrite pipe_Receive.
  destruct (Receive (in_flight c)) as [[f|e] k] eqn:E; [|done]. apply Receive_shrinks in E. cbn [fst snd].
  destruct (negb _); [done|]. destruct (Unmarshal _) as [h|]; [|done]. intros [= _ _ <-]. cbn [in_flight]. lia.
Qed.

(** [cmdListen] ends on every stream that ends: one unit of fuel per byte and
    one more is enough, and it ends with the error of the last [Receive] or
    with [count] messages. *)
Lemma listenLoop_ends fuel extra count : forall received (ep : ClientEndpoint) (s2c : pipe),
  (length (in_flight s2c) < fuel)%nat -> received < count \/ count <= 0 ->
  listenLoop (fuel + extra) count received ep s2c = listenLoop fuel count received ep s2c /\
  match listenLoop fuel count received ep s2c with
  | (ms, Counted) => received + zlen ms = count
  | (_, ReceiveFailed _) => True
  | (_, Unfinished) => False
  end.
Proof.
  induction fuel as [|fuel IH]; intros received ep s2c Hf Hc; [lia|]. cbn [Nat.add listenLoop].
  destruct (ClientEndpoint_Receive (ep, s2c)) as [[m|e] [ep' c']] eqn:E; [|done].
  apply client_receive_shrinks in E.
  destruct (Z.ltb_spec 0 count); destruct (Z.leb_spec count (received + 1)); cbn [andb];
    [split; [done|]; unfold zlen; cbn [length]; lia|..].
  all: destruct (IH (received + 1) ep' c') as [-> Hn]; [lia|lia|]; split; [done|];
    destruct (listenLoop fuel count (received + 1) ep' c') as [ms []]; try done;
    unfold zlen in *; cbn [length]; lia.
Qed.

Lemma pingMessage_sendable now : printable (UTC now) -> sendable (cmdPingMessage now).
Proof. intros Ht. by apply sendable_small. Qed.

(** The server's answer to a first message that is no authentication request. *)
Lemma first_message_refused `{UnicodeTable} {L} `{Logger L} key m (w : World L) (c2s s2c : pipe) :
  sendable m -> MType (received m) <> TypeAuth ->
  pipe_ok c2s -> pipe_queued c2s = [frameOf key 1 m] -> pipe_ok s2c ->
  exists c', handleStep (newConn key c2s s2c) w = (c', w) /\ at_ c' = Finished /\ outgoing c' = s2c.
Proof.
  intros Hm Hty Hok Hq Hok2. cbn [handleStep newConn at_]. unfold handleRequest.
  destruct (srv_receive (C := pipe) key 0 0 m (pipe_queued s2c) AwaitAuth [] (newConn key c2s s2c)) as (c1 & E & _).
  - constructor; try done. exists ∅. apply NewTracker_ok. unfold in_i64. lia.
  - done.
  - lia.
  - assert (outgoing c1 = s2c) as Ho by (by eapply receive_outgoing in E). rewrite E.
    destruct (String.eqb_spec (MType (received m)) TypeAuth); [done|]. cbn [negb]. by eexists.
Qed.

Lemma cliSend_ok key format m :
  sendable m -> exists ep c2s, cliSend key format m (MkPipe []) = (Ok ep, c2s) /\ ce_hmacKey ep = key /\
    pipe_ok c2s /\ pipe_queued c2s = [frameOf key 1 m].
Proof.
  intros Hm. unfold cliSend.
  destruct (cl_send (C := pipe) ltac:(done) pipe_room key 0 m (NewClientEndpoint key "") (MkPipe []))
    as (c2s & -> & Hok & Hq); [done|done|apply pipe_empty|done|done|lia|lia|].
  by eexists _, _.
Qed.

(** The tool cannot talk to the server: [eipc-cli ping] with the right key
    gets no answer from eipc-server.  The heartbeat arrives where the server
    expects an authentication request; the server closes the connection
    without a reply, a log entry or any other effect. *)
Theorem ping_unanswered `{UnicodeTable} {L} `{Logger L} (key : list byte) (now : Time) (w : World L) :
  printable (UTC now) ->
  exists ep c2s c', cliSend key "send ping: %w" (cmdPingMessage now) (MkPipe []) = (Ok ep, c2s) /\
    handleStep (newConn key c2s (MkPipe [])) w = (c', w) /\ at_ c' = Finished /\
    fst (cliReceive ep (outgoing c')) = OutNoResponse (Wrapf "read length: %w" EOF []).
Proof.
  intros Ht. pose proof (pingMessage_sendable now Ht) as Hm.
  destruct (cliSend_ok key "send ping: %w" _ Hm) as (ep & c2s & E & _ & Hok & Hq).
  destruct (first_message_refused key (cmdPingMessage now) w c2s (MkPipe []) Hm) as (c' & Eh & Hf & Ho);
    [discriminate|done|done|apply pipe_empty|].
  exists ep, c2s, c'. split; [done|]. split; [done|]. split; [done|]. rewrite Ho. reflexivity.
Qed.

#[local] Existing Instance Sample.asciiOnly.

Lemma ping_unanswered_witness :
  exists c2s c', snd (cliSend (text "k") "send ping: %w" (cmdPingMessage zeroTime) (MkPipe [])) = c2s /\
    handleStep (newConn (text "k") c2s (MkPipe [])) (world (Sample.run [])) = (c', world (Sample.run [])) /\ at_ c' = Finished.
Proof.
  destruct (ping_unanswered (text "k") zeroTime (world (Sample.run [])))
    as (ep & c2s & c' & E1 & E2 & E3 & _).
  - split; [|split]; vm_compute; (reflexivity || split; (reflexivity || discriminate)).
  - exists c2s, c'. rewrite E1. exact (conj eq_refl (conj E2 E3)).
Defined.

Lemma helloMessage_sendable now : printable (UTC now) -> sendable (helloMessage now).
Proof. intros Ht. by apply sendable_small. Qed.

Lemma helloAck_sendable now t : printable (UTC now) -> sendable (helloAck now (helloMessage t)).
Proof. intros Ht. by apply sendable_small. Qed.

(** The hello example works: the server of the example sees exactly the
    message its client sent, and the client gets the server's answer to it. *)
Theorem hello_exchange (t1 t2 : Time) :
  printable (UTC t1) -> printable (UTC t2) ->
  exists ep c2s c2s' s2c, helloClientSend t1 (MkPipe []) = (Ok ep, c2s) /\
    helloServe t2 c2s (MkPipe []) = (Some (helloMessage t1), (c2s', s2c)) /\
    fst (helloClientReceive ep s2c) = OutResponse (helloAck t2 (helloMessage t1)).
Proof.
  intros Ht1 Ht2. pose proof (helloMessage_sendable t1 Ht1) as Hm. pose proof (helloAck_sendable t2 t1 Ht2) as Ha.
  destruct (cl_send (C := pipe) ltac:(done) pipe_room helloSecret 0 (helloMessage t1) (NewClientEndpoint helloSecret "")
    (MkPipe [])) as (c2s & E1 & Hok1 & Hq1); [done|done|apply pipe_empty|done|done|lia|lia|].
  set (ep := MkClient _ _ _) in E1.
  destruct (server_receive_ok (C := pipe) (helloMessage t1) (NewServerEndpoint helloSecret) c2s ∅ [])
    as (t' & c2s' & E2 & _ & _ & Htr & _);
    [apply NewTracker_ok; unfold in_i64; lia|done|by apply sendable_deliverable|reflexivity|exact Hq1|].
  set (se := MkServer _ t' _ _) in E2.
  destruct (server_send_ok (C := pipe) (helloAck t2 (helloMessage t1)) se (MkPipe [])) as (s2c & E3 & Hok3 & Hq3);
    [done|apply pipe_empty|by apply sendable_deliverable|done|reflexivity
    |by apply (sendable_fits (C := pipe) pipe_room helloSecret); [|apply pipe_empty]|].
  destruct (cl_receive (C := pipe) helloSecret 1 (helloAck t2 (helloMessage t1)) ep s2c)
    as (s2c' & E4 & _); [done|done|exact Hq3|done|unfold in_u64; lia|].
  exists ep, c2s, c2s', s2c. unfold helloClientSend, helloServe, helloClientReceive. rewrite E1, E2.
  change (received (helloMessage t1)) with (helloMessage t1). rewrite E3, E4. by split_and!.
Qed.

(** What the client of the example prints when it finds the server. *)
Lemma hello_output `{UnicodeTable} `{X509} {N Ln Cn} `{!Network N Ln Cn} (conn_Close : Cn -> N -> N) (t1 t2 : Time) (n n1 : N) (conn : Cn) :
  printable (UTC t1) -> printable (UTC t2) -> net_Dial "tcp" helloAddr n = (Ok conn, n1) ->
  helloClientMain (fun _ => MkPipe []) (fun _ c2s => snd (snd (helloServe t2 c2s (MkPipe [])))) conn_Close t1 n =
  (Returned (text "sent message to server" ++ nl ++ text "response: " ++
     rawObject [("status", "ok"); ("message", "Hello from EIPC!")] ++ nl), conn_Close conn (withKeepAlive conn n1)).
Proof.
  intros Ht1 Ht2 Hd. destruct (hello_exchange t1 t2 Ht1 Ht2) as (ep & c2s & c2s' & s2c & E1 & E2 & E3).
  unfold helloClientMain. cbn [tcp_Dial tlsConfig tcp_New]. rewrite Hd, E1, E2. cbn [snd]. by rewrite E3.
Qed.

Lemma hello_exchange_witness :
  exists ep c2s c2s' s2c, helloClientSend zeroTime (MkPipe []) = (Ok ep, c2s) /\
    helloServe zeroTime c2s (MkPipe []) = (Some (helloMessage zeroTime), (c2s', s2c)) /\
    fst (helloClientReceive ep s2c) = OutResponse (helloAck zeroTime (helloMessage zeroTime)).
Proof.
  apply (hello_exchange zeroTime zeroTime);
    (split; [|split]; vm_compute; (reflexivity || split; (reflexivity || discriminate))).
Defined.

(** ** The tool as a whole *)

Section CommandLines.
Context `{UnicodeTable} `{X509} {N Ln Cn : Type} `{!Network N Ln Cn}.
Variables (arrived : Cn -> pipe -> pipe) (conn_Close : Cn -> N -> N) (env : Env) (fs : FileSystem) (key : list byte).
Hypothesis key_loads : LoadHMACKey env fs = Ok key.

(** The settings of a command line, each in its spelling. *)
Definition commandLine (l : list (spelling * string * string)) : list string :=
  concat ((fun x => spell x.1.1 x.1.2 x.2) <$> l).

(** A command with good flags and a server at its address runs its body. *)
Lemma withConn_runs flags settings flags' body n conn n1 :
  Forall (fun x => flagName x.1 = true) flags -> applyFlags flags settings = Some flags' ->
  net_Dial "tcp" (stringFlag flags' "addr") n = (Ok conn, n1) ->
  withConn conn_Close env fs flags (commandLine settings) body n =
    match body flags' key conn with
    | Returned out => (Returned out, conn_Close conn (withKeepAlive conn n1))
    | e => (e, withKeepAlive conn n1)
    end.
Proof.
  intros Hn Ha Hd. unfold withConn, commandLine. rewrite (flagParse_settings _ _ _ Hn Ha). unfold cliConnect.
  rewrite key_loads. cbn [tcp_Dial tlsConfig tcp_New]. by rewrite Hd.
Qed.

Lemma sendFlags_named : Forall (fun x => flagName x.1 = true) (sendFlags env).
Proof. by repeat constructor. Qed.

Lemma listenFlags_named : Forall (fun x => flagName x.1 = true) (listenFlags env).
Proof. by repeat constructor. Qed.

Lemma pingFlags_named : Forall (fun x => flagName x.1 = true) (pingFlags env).
Proof. by repeat constructor. Qed.

(** A command that was not understood opens no connection. *)
Lemma withConn_refused flags args body n status :
  flagParse flags args = Exited status -> withConn conn_Close env fs flags args body n = (OsExit status [] [], n).
Proof. intros E. unfold withConn. by rewrite E. Qed.

End CommandLines.

(** A peer with the key that answers the message it gets with [reply]. *)
Definition answering (key : list byte) (reply : Message -> Message) (c2s : pipe) : pipe :=
  match ServerEndpoint_Receive (NewServerEndpoint key, c2s) with
  | (Ok m, (ep, _)) => snd (snd (ServerEndpoint_Send (reply m) (ep, MkPipe [])))
  | (Err _, _) => MkPipe []
  end.

Lemma answering_queued key reply m (c2s : pipe) :
  sendable m -> sendable (reply (received m)) -> chan_ok c2s -> queued c2s = [frameOf key 1 m] ->
  chan_ok (answering key reply c2s) /\ queued (answering key reply c2s) = [frameOf key 1 (reply (received m))].
Proof.
  intros Hm Hr Hok Hq.
  destruct (server_receive_ok (C := pipe) m (NewServerEndpoint key) c2s ∅ [])
    as (t' & c2s' & E2 & _ & _ & Htr & _);
    [apply NewTracker_ok; unfold in_i64; lia|done|by apply sendable_deliverable|reflexivity|exact Hq|].
  set (se := MkServer _ t' _ _) in E2.
  destruct (server_send_ok (C := pipe) (reply (received m)) se (MkPipe [])) as (s2c & E3 & Hok3 & Hq3);
    [done|apply pipe_empty|by apply sendable_deliverable|done|reflexivity
    |by apply (sendable_fits (C := pipe) pipe_room key); [|apply pipe_empty]|].
  unfold answering. rewrite E2. cbn [snd]. rewrite E3. by split.
Qed.

(** What the messages of [eipc-cli send] must satisfy to be sent. *)
Lemma cmdSend_sendable now1 now2 msgType source capability payload :
  printable (UTC now1) -> validString source = true -> validString capability = true ->
  6 * (slen source + slen capability) + slen payload <= 999000 ->
  sendable (cmdSendMessage now1 now2 msgType source capability payload).
Proof.
  intros Ht Hs Hc Hl. unfold cmdSendMessage. pose proof (length_appendInt (UnixNano now2) 0).
  assert (asciiText (text "cli-" ++ appendInt (UnixNano now2) 0)) as Ha.
  { apply Forall_app. split; [|apply asciiText_appendInt]. repeat constructor. }
  constructor; cbn [Timestamp Source SessionID RequestID Capability MPriority MPayload]; try done.
  - by apply validString_bytes.
  - rewrite slen_string_of_bytes, zlen_bytes_of_string. unfold zlen. rewrite length_app.
    change (length (text "cli-")) with 4%nat. change (slen "") with 0. lia.
Qed.

(** C39: The whole of [eipc-cli send]: whatever flags it is given in whatever
    spelling, a peer with the key receives exactly the message that the flags
    describe, but for its type, of which the wire carries one byte (an unknown
    name such as [foo] arrives as the type of its first letter, [features]); the
    tool prints what it sent and the peer's answer, with its type as it arrives,
    and closes the connection. The key is loaded and the connection made; source
    and capability are UTF-8, the clock reading has a year of four digits, and
    the message fits a frame: six times the two strings and the payload are at
    most 999000 bytes together; likewise the answer. *)
Theorem cli_send_exchange `{UnicodeTable} `{X509} {N Ln Cn} `{!Network N Ln Cn} (conn_Close : Cn -> N -> N)
    (env : Env) (fs : FileSystem) (key : list byte) (settings : list (spelling * string * string)) (flags : FlagSet)
    (now1 now2 : Time) (fuel : nat) (elapsed : Z) (reply : Message -> Message) (n n1 : N) (conn : Cn) :
  LoadHMACKey env fs = Ok key -> applyFlags (sendFlags env) settings = Some flags ->
  let addr := stringFlag flags "addr" in
  let type := stringFlag flags "type" in
  let source := stringFlag flags "source" in
  let capability := stringFlag flags "cap" in
  let payload := stringFlag flags "payload" in
  net_Dial "tcp" addr n = (Ok conn, n1) ->
  printable (UTC now1) -> validString source = true -> validString capability = true ->
  6 * (slen source + slen capability) + slen payload <= 999000 ->
  let got := received (cmdSendMessage now1 now2 type source capability payload) in
  sendable (reply got) ->
  cliMain (fun _ => MkPipe []) (fun _ => answering key reply) conn_Close fuel now1 now2 elapsed env fs
    ("send" :: commandLine settings) n =
  (Returned (Printf "sent type=%s to=%s size=%d bytes" [ArgStr type; ArgStr addr; ArgInt (slen payload)] ++
             printMessage "response" (received (reply got))),
   conn_Close conn (withKeepAlive conn n1)).
Proof.
  intros Hk Ha addr type source capability payload Hd Ht Hs Hc Hl got Hr.
  pose proof (cmdSend_sendable now1 now2 type source capability payload Ht Hs Hc Hl) as Hm.
  cbn [cliMain String.eqb Ascii.eqb Bool.eqb]. unfold cmdSend.
  rewrite (withConn_runs conn_Close env fs key Hk _ _ _ _ _ _ _ (sendFlags_named env) Ha Hd).
  fold addr type source capability payload.
  destruct (cliSend_ok key "send: %w" _ Hm) as (ep & c2s & -> & Hek & Hok & Hq).
  destruct (answering_queued key reply _ c2s Hm Hr Hok Hq) as [Hok' Hq'].
  destruct (cl_receive (C := pipe) key 1 (reply got) ep _ Hek Hok' Hq' Hr ltac:(done)) as (s2c & E & _).
  unfold cliReceive. by rewrite E.
Qed.

(** A peer that sends the messages [ms] one after the other. *)
Fixpoint sendAll (ms : list Message) (s : ServerEndpoint * pipe) : ServerEndpoint * pipe :=
  match ms with
  | [] => s
  | m :: ms' => sendAll ms' (snd (ServerEndpoint_Send m s))
  end.

Lemma sendAll_queued key ms : forall ep (c : pipe),
  Forall sendable ms -> se_hmacKey ep = key -> chan_ok c -> 0 <= se_seq ep -> se_seq ep + zlen ms < 2 ^ 64 ->
  chan_ok (sendAll ms (ep, c)).2 /\
  exists q, queued (sendAll ms (ep, c)).2 = queued c ++ q /\
    Forall2 (fun f m => exists j, in_u64 j /\ f = frameOf key j m) q ms.
Proof.
  induction ms as [|m ms IH]; intros ep c Hms Hk Hc H0 Hlt.
  { split; [done|]. exists []. by rewrite app_nil_r. }
  apply Forall_cons in Hms as [Hm Hms]. unfold zlen in *. cbn [sendAll length] in *.
  destruct (server_send_ok (C := pipe) m ep c) as (c' & E & Hok & Hq);
    [done|done|by apply sendable_deliverable|done|lia|rewrite Hk; by apply (sendable_fits (C := pipe) pipe_room key)|].
  rewrite E. cbn [snd].
  destruct (IH (MkServer (se_hmacKey ep) (se_replay ep) (se_seq ep + 1) (peerCapabilities ep)) c') as (Hok' & q & Hq' & Hf);
    cbn [se_hmacKey se_seq]; [done|done|done|lia|lia|].
  split; [done|]. eexists (_ :: q). rewrite Hq', Hq, <-app_assoc. split; [done|].
  constructor; [|done]. exists (se_seq ep + 1). rewrite Hk. split; [unfold in_u64; lia|done].
Qed.

Lemma pipe_drained (ep : ClientEndpoint) (c : pipe) :
  chan_ok c -> queued c = [] -> fst (ClientEndpoint_Receive (ep, c)) = Err (Wrapf "read length: %w" EOF []).
Proof.
  intros (q & Hq & Hc) E. change (pipe_queued c = []) in E. rewrite (pipe_queued_envelopes c q) in E by done. subst q.
  destruct c as [l]. cbn [in_flight] in Hc. by subst l.
Qed.

(** The loop of [cmdListen] on a stream of messages: the first [count] of
    them, or all and then the end of the stream. *)
Lemma listenLoop_stream key count ms : forall fuel k (ep : ClientEndpoint) (c : pipe) q,
  (length ms < fuel)%nat -> 0 <= k -> k < count \/ count <= 0 -> ce_hmacKey ep = key -> chan_ok c -> Forall sendable ms ->
  queued c = q -> Forall2 (fun f m => exists j, in_u64 j /\ f = frameOf key j m) q ms ->
  listenLoop fuel count k ep c =
    if (k <? count) && (count <=? k + zlen ms) then (take (Z.to_nat (count - k)) (received <$> ms), Counted)
    else (received <$> ms, ReceiveFailed (Wrapf "receive: %w" (Wrapf "read length: %w" EOF []) [])).
Proof.
  induction ms as [|m ms IH]; intros [|fuel] k ep c q Hf H0 Hk He Hc Hms Hq H2; try lia; cbn [length] in Hf.
  - apply Forall2_nil_inv_r in H2 as ->. cbn [listenLoop]. pose proof (pipe_drained ep c Hc Hq) as E.
    destruct (ClientEndpoint_Receive (ep, c)) as [r s]. cbn [fst] in E. subst r. change (zlen []) with 0.
    destruct (Z.ltb_spec k count), (Z.leb_spec count (k + 0)); by lia || done.
  - apply Forall2_cons_inv_r in H2 as (f & q' & (j & Hj & ->) & H2 & ->).
    apply Forall_cons in Hms as [Hm Hms]. unfold zlen in *. cbn [listenLoop length].
    destruct (client_receive_ok (C := pipe) m ep c j q' Hc (sendable_deliverable m Hm) Hj) as (c' & -> & Hc' & Hq');
      [by rewrite He|].
    destruct (Z.ltb_spec 0 count), (Z.leb_spec count (k + 1)); cbn [andb].
    + zbool. cbn [andb]. by replace (Z.to_nat (count - k)) with 1%nat by lia.
    + rewrite (IH fuel (k + 1) ep c' q') by (done || lia). zbool. cbn [andb].
      replace (count <=? k + Z.of_nat (S (length ms))) with (count <=? k + 1 + Z.of_nat (length ms)) by (f_equal; lia).
      destruct (count <=? _); [|done]. by replace (Z.to_nat (count - k)) with (S (Z.to_nat (count - (k + 1)))) by lia.
    + rewrite (IH fuel (k + 1) ep c' q') by (done || lia). by zbool.
    + lia.
Qed.

(** The whole of [eipc-cli listen]: of the messages a peer sends, the tool
    prints the first [--count] in order, numbered from one, and ends; if there
    are fewer or no count is given, it prints them all and ends with the error
    of the closed connection. *)
Theorem cli_listen_prints `{UnicodeTable} `{X509} {N Ln Cn} `{!Network N Ln Cn} (conn_Close : Cn -> N -> N)
    (env : Env) (fs : FileSystem) (key : list byte) (settings : list (spelling * string * string)) (flags : FlagSet)
    (now1 now2 : Time) (fuel : nat) (elapsed : Z) (ms : list Message) (n n1 : N) (conn : Cn) :
  LoadHMACKey env fs = Ok key -> applyFlags (listenFlags env) settings = Some flags ->
  net_Dial "tcp" (stringFlag flags "addr") n = (Ok conn, n1) ->
  Forall sendable ms -> zlen ms < 2 ^ 64 -> (length ms < fuel)%nat ->
  let count := intFlag flags "count" in
  let start := Printf "listening on %s ..." [ArgStr (stringFlag flags "addr")] in
  cliMain (fun _ => MkPipe []) (fun _ _ => snd (sendAll ms (NewServerEndpoint key, MkPipe []))) conn_Close fuel now1 now2 elapsed
    env fs ("listen" :: commandLine settings) n =
  if (0 <? count) && (count <=? zlen ms)
  then (Returned (start ++ printMessages 0 (take (Z.to_nat count) (received <$> ms))), conn_Close conn (withKeepAlive conn n1))
  else (Fatal (start ++ printMessages 0 (received <$> ms)) (Wrapf "receive: %w" (Wrapf "read length: %w" EOF []) []),
        withKeepAlive conn n1).
Proof.
  intros Hk Ha Hd Hms Hlen Hf count start.
  cbn [cliMain String.eqb Ascii.eqb Bool.eqb]. unfold cmdListen.
  rewrite (withConn_runs conn_Close env fs key Hk _ _ _ _ _ _ _ (listenFlags_named env) Ha Hd). fold count start.
  destruct (sendAll_queued key ms (NewServerEndpoint key) (MkPipe [])) as (Hok & q & Hq & H2);
    [done|done|apply pipe_empty|done|done|].
  rewrite (listenLoop_stream key count ms fuel 0 _ _ q) by (done || lia). rewrite Z.add_0_l, Z.sub_0_r.
  by destruct ((0 <? count) && (count <=? zlen ms)).
Qed.

(** The line of the header [printMessage] prints. *)
Definition headerLine (label : string) (msg : Message) : list byte :=
  text "[" ++ text label ++ text "] type=" ++ text (MType msg) ++ text " source=" ++ text (Source msg) ++
  text " req=" ++ text (RequestID msg) ++ text " priority=P" ++ appendInt (MPriority msg) 0 ++
  text " cap=" ++ text (Capability msg) ++ nl.

Lemma printed_format `{UnicodeTable} label msg (out : list byte) :
  formatText (text "[%s] type=%s source=%s req=%s priority=P%d cap=%s" ++ nl ++ text "  payload: %s" ++ nl) []
    ([ArgStr label; ArgStr (MType msg); ArgStr (Source msg); ArgStr (RequestID msg);
      ArgInt (MPriority msg); ArgStr (Capability msg)] ++ [ArgStr (string_of_bytes out)]) =
  headerLine label msg ++ text "  payload: " ++ out ++ nl.
Proof. rewrite <-(String.list_byte_of_string_of_list_byte out) at 2. unfold headerLine. rewrite <-!app_assoc. reflexivity. Qed.

(** C40: What a printed message shows of its payload. A payload that is a JSON
    document is printed, after the line of the header, in the indented layout
    of its value: every element of an array and every member of an object on a
    line of its own, two spaces further than its bracket, a space behind the
    colon of a member; what is printed parses to the value of the payload, and
    the white space at the end of the payload is kept. Any other payload is
    printed as its bytes. *)
Theorem printed_payload `{UnicodeTable} (label : string) (msg : Message) :
  match parseJSON (MPayload msg) with
  | Some j =>
      exists t, layout (text "  ") (text "  ") 0 j t /\ parseJSON (t ++ trailing (MPayload msg)) = Some j /\
        printMessage label msg = headerLine label msg ++ text "  payload: " ++ t ++ trailing (MPayload msg) ++ nl
  | None => printMessage label msg = headerLine label msg ++ text "  payload: " ++ MPayload msg ++ nl
  end.
Proof.
  unfold printMessage. destruct (parseJSON (MPayload msg)) as [j|] eqn:Hj.
  - destruct (indent_layout (text "  ") (text "  ") (MPayload msg) j) as (t & Ei & Hy & Hp);
      [by repeat constructor|by repeat constructor|done|].
    exists t. split_and!; [done..|]. rewrite Ei, printed_format. by rewrite <-!app_assoc.
  - unfold Indent. rewrite Hj. apply printed_format.
Qed.

(** A text in which single quotes stand for double ones. *)
Definition doubleQuotes (s : string) : list byte := (fun c => if isC c 39 then z2b 34 else c) <$> text s.

(** Two printed payloads. *)
Example printed_sample `{UnicodeTable} :
  printMessage "response" (MkMessage 1 "ack" "s" zeroTime "" "r" 0 "" (doubleQuotes "{'a':[1,{}],'b':null}")) =
    text "[response] type=ack source=s req=r priority=P0 cap=" ++ nl ++
    text "  payload: {" ++ nl ++ doubleQuotes "    'a': [" ++ nl ++ text "      1," ++ nl ++ text "      {}" ++ nl ++
    text "    ]," ++ nl ++ doubleQuotes "    'b': null" ++ nl ++ text "  }" ++ nl /\
  printMessage "response" (MkMessage 1 "ack" "s" zeroTime "" "r" 0 "" (text "plain")) =
    text "[response] type=ack source=s req=r priority=P0 cap=" ++ nl ++ text "  payload: plain" ++ nl.
Proof. split; reflexivity. Qed.

(** A command line that is not understood has no effect: no command, an
    unknown one, or flags that do not parse end the process before the network
    is used. *)
Lemma cli_refuses {C} `{Channel C} `{UnicodeTable} `{X509} {N Ln Cn} `{!Network N Ln Cn} (fresh : Cn -> C) arrived conn_Close
    fuel now1 now2 elapsed env fs args (n : N) :
  match args with
  | [] => True
  | cmd :: args =>
      if String.eqb cmd "send" then exists s, flagParse (sendFlags env) args = Exited s
      else if String.eqb cmd "listen" then exists s, flagParse (listenFlags env) args = Exited s
      else if String.eqb cmd "ping" then exists s, flagParse (pingFlags env) args = Exited s
      else True
  end ->
  snd (cliMain fresh arrived conn_Close fuel now1 now2 elapsed env fs args n) = n.
Proof.
  destruct args as [|cmd args]; [done|]. cbn [cliMain].
  destruct (String.eqb cmd "send"); [intros [s Hs]; unfold cmdSend, withConn; by rewrite Hs|].
  destruct (String.eqb cmd "listen"); [intros [s Hs]; unfold cmdListen, withConn; by rewrite Hs|].
  destruct (String.eqb cmd "ping"); [intros [s Hs]; unfold cmdPing, withConn; by rewrite Hs|].
  by destruct (String.eqb cmd "help").
Qed.

(** [eipc-cli ping] against eipc-server reports that there is no response. *)
Lemma ping_server_output `{UnicodeTable} `{X509} {N Ln Cn} `{!Network N Ln Cn} {L} `{Logger L} (conn_Close : Cn -> N -> N)
    env fs key settings flags now1 now2 fuel elapsed (w : World L) (n n1 : N) (conn : Cn) :
  LoadHMACKey env fs = Ok key -> applyFlags (pingFlags env) settings = Some flags ->
  net_Dial "tcp" (stringFlag flags "addr") n = (Ok conn, n1) -> printable (UTC now1) ->
  cliMain (fun _ => MkPipe []) (fun _ c2s => outgoing (fst (handleStep (newConn key c2s (MkPipe [])) w))) conn_Close
    fuel now1 now2 elapsed env fs ("ping" :: commandLine settings) n =
  (Returned (Printf "ping %s: no response (%v)"
     [ArgStr (stringFlag flags "addr"); ArgStr (Error (Wrapf "read length: %w" EOF []))]), conn_Close conn (withKeepAlive conn n1)).
Proof.
  intros Hk Ha Hd Ht. pose proof (pingMessage_sendable now1 Ht) as Hm.
  cbn [cliMain String.eqb Ascii.eqb Bool.eqb]. unfold cmdPing.
  rewrite (withConn_runs conn_Close env fs key Hk _ _ _ _ _ _ _ (pingFlags_named env) Ha Hd).
  destruct (cliSend_ok key "send ping: %w" _ Hm) as (ep & c2s & -> & _ & Hok & Hq).
  destruct (first_message_refused key (cmdPingMessage now1) w c2s (MkPipe []) Hm) as (c' & -> & _ & Ho);
    [discriminate|done|done|apply pipe_empty|].
  cbn [fst]. by rewrite Ho.
Qed.

#[local] Existing Instance Loopback.certs.
#[local] Existing Instance Loopback.net.

Definition sampleEnv : Env := <["EIPC_HMAC_KEY" := "k"]> ∅.

Definition sampleSend : list (spelling * string * string) :=
  [(TwoDashesEquals, "type", "intent"); (OneDash, "payload", "[1, 2]"); (TwoDashes, "addr", "10.0.0.1:9090")].

Lemma zeroTime_printable : printable (UTC zeroTime).
Proof. split; [|split]; vm_compute; (reflexivity || split; (reflexivity || discriminate)). Qed.

Lemma cli_send_exchange_witness :
  commandLine sampleSend = ["--type=intent"; "-payload"; "[1, 2]"; "--addr"; "10.0.0.1:9090"] /\
  exists out n, cliMain (fun _ : unit => MkPipe []) (fun _ => answering (text "k") (fun _ => helloMessage zeroTime)) (fun _ u => u) 0
    zeroTime zeroTime 0 sampleEnv (fun _ => Err ErrSyntax) ("send" :: commandLine sampleSend) tt = (Returned out, n) /\
    take 35 out = text "sent type=intent to=10.0.0.1:9090 s".
Proof.
  split; [reflexivity|]. eexists _, _. split.
  - apply (cli_send_exchange (N := unit) (fun _ u => u) sampleEnv (fun _ => Err ErrSyntax) (text "k") sampleSend
      [("addr", FlagString "10.0.0.1:9090"); ("type", FlagString "intent");
       ("payload", FlagString "[1, 2]"); ("source", FlagString "eipc-cli"); ("cap", FlagString "")]
      zeroTime zeroTime 0 0 (fun _ => helloMessage zeroTime) tt tt tt); try reflexivity; try (vm_compute; discriminate).
    + apply zeroTime_printable.
    + apply helloMessage_sendable, zeroTime_printable.
  - reflexivity.
Defined.

Lemma cli_listen_prints_witness :
  exists out n, cliMain (fun _ : unit => MkPipe []) (fun _ _ => snd (sendAll [helloMessage zeroTime; helloMessage zeroTime]
      (NewServerEndpoint (text "k"), MkPipe []))) (fun _ u => u) 3
    zeroTime zeroTime 0 sampleEnv (fun _ => Err ErrSyntax) ("listen" :: commandLine [(TwoDashesEquals, "count", "1")]) tt = (Returned out, n).
Proof.
  eexists _, _.
  apply (cli_listen_prints (N := unit) (fun _ u => u) sampleEnv (fun _ => Err ErrSyntax) (text "k")
    [(TwoDashesEquals, "count", "1")] [addrFlag sampleEnv; ("count", FlagInt 1)] zeroTime zeroTime 3 0
    [helloMessage zeroTime; helloMessage zeroTime] tt tt tt); try reflexivity.
  - repeat apply Forall_cons_2; [apply helloMessage_sendable, zeroTime_printable..|apply Forall_nil_2].
  - cbn [length]. lia.
Defined.
